(** * Black hole simulation: frame orchestration and orbit camera

    A shallow embedding of [src/main.cpp]: the orbit-camera updates of the
    event loop in [main], the per-frame routine [Draw] (uniform parameters,
    compute dispatch, letterboxed blit) and the loop that drives them.

    Numbers are modelled as the program has them.  A C++ [float] is an IEEE-754
    binary32 value, given by the Standard Library's executable specification
    [SpecFloat] at precision 24 and maximal exponent 128, with rounding to
    nearest, ties to even.  A [uint32_t] is a [Z] with its wrap-around written
    out, and a conversion from [float] to [uint32_t] is partial: C++ leaves it
    undefined when the truncated value does not fit.  The three libm functions
    that [Draw] calls ([std::cos], [std::sin], [std::tan]) are not specified by
    the language bit for bit, so they are a parameter of the model.  The vector
    code of GLM is written over an interface of scalar operations, which
    binary32 with such a libm implements; statements about its accuracy
    compare the binary32 results with the real numbers they stand for. *)

From Stdlib Require Import ZArith List Bool Lia String.
From Stdlib Require Import Floats.SpecFloat.
From Stdlib Require Import Reals Lra Machin.
Import ListNotations.

Local Open Scope Z_scope.

(** ** Binary32 arithmetic *)

Module F32.

Definition prec : Z := 24.
Definition emax : Z := 128.

Definition t : Type := spec_float.

Definition add : t -> t -> t := SFadd prec emax.
Definition sub : t -> t -> t := SFsub prec emax.
Definition mul : t -> t -> t := SFmul prec emax.
Definition div : t -> t -> t := SFdiv prec emax.
Definition sqrt : t -> t := SFsqrt prec emax.
Definition neg : t -> t := SFopp.

(** [a < b] and [a <= b] of C++; both are false when an operand is a NaN. *)
Definition ltb : t -> t -> bool := SFltb.
Definition leb : t -> t -> bool := SFleb.

Definition is_nan (x : t) : bool :=
  match x with S754_nan => true | _ => false end.

(** Conversion of an integer to [float] (rounds when it has more than 24
    significant bits). *)
Definition of_int (n : Z) : t := binary_normalize prec emax n 0 false.

(** A decimal literal [num/den] with suffix [f]: the nearest binary32 value.
    The division algorithm of [SpecFloat] rounds the exact quotient of the
    two integers once. *)
Definition lit (num den : positive) : t :=
  SFdiv prec emax (S754_finite false num 0) (S754_finite false den 0).

(** An unsuffixed decimal literal is a [double]; [static_cast<float>] then
    rounds that binary64 value a second time. *)
Definition of_double_lit (num den : positive) : t :=
  match SFdiv 53 1024 (S754_finite false num 0) (S754_finite false den 0) with
  | S754_finite s m e => binary_round prec emax s m e
  | x => x
  end.

Definition zero : t := of_int 0.
Definition one : t := of_int 1.
Definition two : t := of_int 2.

(** Truncation toward zero, the integral part of a finite value. *)
Definition trunc (x : t) : option Z :=
  match x with
  | S754_zero _ => Some 0
  | S754_finite s m e =>
      let a := if 0 <=? e then Z.shiftl (Zpos m) e else Z.shiftr (Zpos m) (- e) in
      Some (if s then - a else a)
  | S754_infinity _ | S754_nan => None
  end.

(** [static_cast<uint32_t>(x)], or the implicit conversion in an
    initialisation: defined only when the truncated value is representable. *)
Definition to_u32 (x : t) : option Z :=
  match trunc x with
  | Some z => if (0 <=? z) && (z <? 2 ^ 32) then Some z else None
  | None => None
  end.

(** The real number a binary32 value stands for (0 for infinities and NaN). *)
Definition to_R (x : t) : R :=
  match x with
  | S754_finite s m e =>
      let v := if 0 <=? e then IZR (Zpos m * 2 ^ e)
               else (IZR (Zpos m) / IZR (2 ^ (- e)))%R in
      if s then (- v)%R else v
  | S754_zero _ | S754_infinity _ | S754_nan => 0%R
  end.

End F32.

Definition f32 : Type := spec_float.

(** Unsigned 32-bit subtraction. *)
Definition u32_sub (a b : Z) : Z := (a - b) mod 2 ^ 32.

(** Sequencing of partial computations. *)
Definition obind {A B : Type} (o : option A) (k : A -> option B) : option B :=
  match o with
  | Some a => k a
  | None => None
  end.

Notation "x <- o ;; k" := (obind o (fun x => k))
  (at level 61, o at next level, right associativity).

(** ** Scalars and the GLM vector code *)

(** The operations the frame-parameter code uses on [float]. *)
Class Scalar (T : Type) : Type := {
  s_of_int : Z -> T;
  s_lit : positive -> positive -> T;
  s_lit_double : positive -> positive -> T;
  s_add : T -> T -> T;
  s_sub : T -> T -> T;
  s_mul : T -> T -> T;
  s_div : T -> T -> T;
  s_neg : T -> T;
  s_sqrt : T -> T;
  s_cos : T -> T;
  s_sin : T -> T;
  s_tan : T -> T
}.

(** [std::cos], [std::sin] and [std::tan] at type [float]. *)
Record Libm : Type := {
  cosf : f32 -> f32;
  sinf : f32 -> f32;
  tanf : f32 -> f32
}.

Definition Scalar_f32 (L : Libm) : Scalar f32 :=
  {| s_of_int := F32.of_int;
     s_lit := F32.lit;
     s_lit_double := F32.of_double_lit;
     s_add := F32.add;
     s_sub := F32.sub;
     s_mul := F32.mul;
     s_div := F32.div;
     s_neg := F32.neg;
     s_sqrt := F32.sqrt;
     s_cos := cosf L;
     s_sin := sinf L;
     s_tan := tanf L |}.

Record vec3 (T : Type) : Type := mkvec3 { vx : T; vy : T; vz : T }.

Arguments mkvec3 {T} _ _ _.
Arguments vx {T} _.
Arguments vy {T} _.
Arguments vz {T} _.

Section Glm.

Context {T : Type} `{Scalar T}.

(** [glm::dot]: the componentwise product, summed left to right. *)
Definition dot (a b : vec3 T) : T :=
  s_add (s_add (s_mul (vx a) (vx b)) (s_mul (vy a) (vy b))) (s_mul (vz a) (vz b)).

(** [glm::cross]. *)
Definition cross (a b : vec3 T) : vec3 T :=
  mkvec3 (s_sub (s_mul (vy a) (vz b)) (s_mul (vy b) (vz a)))
         (s_sub (s_mul (vz a) (vx b)) (s_mul (vz b) (vx a)))
         (s_sub (s_mul (vx a) (vy b)) (s_mul (vx b) (vy a))).

(** [glm::inversesqrt]: [1 / sqrt(x)]. *)
Definition inversesqrt (x : T) : T := s_div (s_of_int 1) (s_sqrt x).

(** [v * s]. *)
Definition vscale (v : vec3 T) (s : T) : vec3 T :=
  mkvec3 (s_mul (vx v) s) (s_mul (vy v) s) (s_mul (vz v) s).

(** [-v]. *)
Definition vneg (v : vec3 T) : vec3 T :=
  mkvec3 (s_neg (vx v)) (s_neg (vy v)) (s_neg (vz v)).

(** [glm::normalize]: [v * inversesqrt(dot(v, v))]. *)
Definition normalize (v : vec3 T) : vec3 T := vscale v (inversesqrt (dot v v)).

End Glm.

(** ** Constants of [main.cpp] *)

Definition kPan : f32 := F32.lit 2 1000.
Definition kZoom : f32 := F32.lit 25000000000 1.
Definition kC : f32 := F32.lit 299792458 1.
Definition kG : f32 := F32.lit 667430 (10 ^ 16).
Definition kBlackHoleMass : f32 := F32.lit (854 * 10 ^ 34) 1.
Definition kBlackHoleRadius : f32 :=
  F32.div (F32.mul (F32.mul F32.two kG) kBlackHoleMass) (F32.mul kC kC).

(** [glm::pi<float>()]: the [double] literal of GLM, cast to [float]. *)
Definition glm_pi : f32 :=
  F32.of_double_lit 314159265358979323846264338327950288 (10 ^ 35).

(** [kClamp], local to the motion handler: [glm::pi<float>() / 2.0f - 0.01f]. *)
Definition kClamp : f32 := F32.sub (F32.div glm_pi F32.two) (F32.lit 1 100).

(** [SDL_BUTTON_LMASK], the mask of button 1. *)
Definition SDL_BUTTON_LMASK : Z := Z.shiftl 1 0.

(** Modelled from the spec: [config.h] is not among the sources; section 8
    fixes the output image at 960 by 720.  This is its width. *)
Definition WIDTH : Z := 960.

(** Modelled from the spec: the height of the output image, from section 8
    as well. *)
Definition HEIGHT : Z := 720.

Section FrameParameters.

Context {T : Type} `{Scalar T}.

(** [glm::radians<float>(60.0f)]: the degrees times GLM's [double] literal of
    pi/180, cast to [float]. *)
Definition kFov : T :=
  s_mul (s_lit 60 1) (s_lit_double 1745329251994329576923690768489 (10 ^ 32)).

Record UniformBuffer : Type := {
  CameraPosition : vec3 T;
  TanHalfFov : T;
  CameraRight : vec3 T;
  Aspect : T;
  CameraUp : vec3 T;
  ObjectCount : Z;
  CameraForward : vec3 T;
  DiskR1 : T;
  DiskR2 : T
}.

(** The first block of [Draw] (lines 190-202): the assignments to
    [uniformBuffer], in order.  [ObjectCount] and the disk radii are not
    assigned. *)
Definition UpdateUniforms (pitch yaw distance : T) (ub : UniformBuffer)
  : UniformBuffer :=
  let tanHalfFov := s_tan (s_mul kFov (s_lit 1 2)) in
  let aspect := s_div (s_of_int WIDTH) (s_of_int HEIGHT) in
  let forward0 :=
    mkvec3 (s_mul (s_cos pitch) (s_cos yaw))
           (s_sin pitch)
           (s_mul (s_cos pitch) (s_sin yaw)) in
  let forward := normalize forward0 in
  let position := vscale (vneg forward) distance in
  let right0 := cross forward (mkvec3 (s_of_int 0) (s_of_int 1) (s_of_int 0)) in
  let right := normalize right0 in
  let up0 := cross right forward in
  let up := normalize up0 in
  {| CameraPosition := position;
     TanHalfFov := tanHalfFov;
     CameraRight := right;
     Aspect := aspect;
     CameraUp := up;
     ObjectCount := ObjectCount ub;
     CameraForward := forward;
     DiskR1 := DiskR1 ub;
     DiskR2 := DiskR2 ub |}.

End FrameParameters.

Arguments UniformBuffer T : clear implicits.

(** ** Orbit camera and events *)

(** The file-scope variables that the loop and [Draw] read and write. *)
Record AppState : Type := {
  pitch : f32;
  yaw : f32;
  distance : f32;
  uniformBuffer : UniformBuffer f32
}.

(** The state when the loop is entered: statics are zero-initialised,
    [distance] is [1.0e11f], the disk radii have their default member
    initialisers, and [Init] has set [ObjectCount] to 3. *)
Definition initial_state : AppState :=
  let z := mkvec3 F32.zero F32.zero F32.zero in
  {| pitch := F32.zero;
     yaw := F32.zero;
     distance := F32.lit 100000000000 1;
     uniformBuffer :=
       {| CameraPosition := z; TanHalfFov := F32.zero;
          CameraRight := z; Aspect := F32.zero;
          CameraUp := z; ObjectCount := 3;
          CameraForward := z;
          DiskR1 := F32.mul kBlackHoleRadius (F32.lit 22 10);
          DiskR2 := F32.mul kBlackHoleRadius (F32.lit 52 10) |} |}.

(** The events the switch in [main] distinguishes. *)
Inductive Event : Type :=
| MouseWheel (y : f32)
| MouseMotion (state : Z) (xrel yrel : f32)
| QuitEvent
| OtherEvent.

(** [std::max(a, b)]: [(a < b) ? b : a]. *)
Definition std_max (a b : f32) : f32 := if F32.ltb a b then b else a.

(** [std::clamp(v, lo, hi)]: [(v < lo) ? lo : (hi < v) ? hi : v]. *)
Definition std_clamp (v lo hi : f32) : f32 :=
  if F32.ltb v lo then lo else if F32.ltb hi v then hi else v.

(** One case of the switch: the new state and the new value of [running]. *)
Definition handle_event (e : Event) (sr : AppState * bool) : AppState * bool :=
  let (st, running) := sr in
  match e with
  | MouseWheel y =>
      ({| pitch := pitch st;
          yaw := yaw st;
          distance := std_max F32.one (F32.sub (distance st) (F32.mul y kZoom));
          uniformBuffer := uniformBuffer st |}, running)
  | MouseMotion state xrel yrel =>
      if Z.eqb (Z.land state SDL_BUTTON_LMASK) 0 then (st, running)
      else
        ({| pitch := std_clamp (F32.add (pitch st) (F32.mul yrel kPan))
                               (F32.neg kClamp) kClamp;
            yaw := F32.add (yaw st) (F32.mul xrel kPan);
            distance := distance st;
            uniformBuffer := uniformBuffer st |}, running)
  | QuitEvent => (st, false)
  | OtherEvent => (st, running)
  end.

(** The inner loop [while (SDL_PollEvent(&event))] over the pending events. *)
Definition pump (evs : list Event) (sr : AppState * bool) : AppState * bool :=
  fold_left (fun acc e => handle_event e acc) evs sr.

(** ** The frame routine *)

Record Rect : Type := { rect_x : Z; rect_y : Z; rect_w : Z; rect_h : Z }.

Inductive LoadOp : Type := LOADOP_LOAD | LOADOP_CLEAR | LOADOP_DONT_CARE.
Inductive Filter : Type := FILTER_NEAREST | FILTER_LINEAR.

(** The fields of [SDL_GPUBlitInfo] that [Draw] sets. *)
Record BlitInfo : Type := {
  load_op : LoadOp;
  clear_color : f32 * f32 * f32 * f32;
  source_w : Z;
  source_h : Z;
  destination : Rect;
  filter : Filter
}.

(** The calls [Draw] makes, in the order it makes them. *)
Inductive GpuCall : Type :=
| LogMessage (fmt : string)
| AcquireGPUCommandBuffer
| WaitAndAcquireGPUSwapchainTexture
| CancelGPUCommandBuffer
| SubmitGPUCommandBuffer
| BeginGPUComputePass
| BindGPUComputePipeline
| PushGPUComputeUniformData (ub : UniformBuffer f32)
| BindGPUComputeStorageBuffers
| DispatchGPUCompute (groupsX groupsY groupsZ : Z)
| EndGPUComputePass
| BlitGPUTexture (info : BlitInfo).

(** What the device answers during one frame: whether a command buffer is
    handed out, the outcome of the swapchain acquisition (success flag, whether
    the texture pointer is non-null, and the two [uint32_t] dimensions), and
    whether the compute pass begins. *)
Record FrameEnv : Type := {
  cmdbuf_acquired : bool;
  swapchain_ok : bool;
  swapchain_texture : bool;
  swapchain_width : Z;
  swapchain_height : Z;
  compute_pass_begun : bool
}.

(** The letterbox block of [Draw] (lines 222-239), for an acquired target of
    [width] by [height]. *)
Definition letterbox (width height : Z) : option Rect :=
  if F32.ltb (F32.div (F32.of_int width) (F32.of_int height))
             (F32.div (F32.of_int WIDTH) (F32.of_int HEIGHT))
  then
    let letterboxW := width in
    letterboxH <- F32.to_u32
      (F32.div (F32.mul (F32.of_int HEIGHT) (F32.of_int width)) (F32.of_int WIDTH)) ;;
    letterboxX <- F32.to_u32 F32.zero ;;
    letterboxY <- F32.to_u32
      (F32.div (F32.of_int (u32_sub height letterboxH)) F32.two) ;;
    Some {| rect_x := letterboxX; rect_y := letterboxY;
            rect_w := letterboxW; rect_h := letterboxH |}
  else
    let letterboxH := height in
    letterboxW <- F32.to_u32
      (F32.div (F32.mul (F32.of_int WIDTH) (F32.of_int height)) (F32.of_int HEIGHT)) ;;
    letterboxX <- F32.to_u32
      (F32.div (F32.of_int (u32_sub width letterboxW)) F32.two) ;;
    letterboxY <- F32.to_u32 F32.zero ;;
    Some {| rect_x := letterboxX; rect_y := letterboxY;
            rect_w := letterboxW; rect_h := letterboxH |}.

Definition clearColor : f32 * f32 * f32 * f32 :=
  (F32.lit 4 100, F32.lit 4 100, F32.lit 4 100, F32.one).

Section Frame.

Variable L : Libm.

(** The work-group size of [config.h], which is not among the sources. *)
Variable THREADS : Z.

Definition groupsX : Z := Z.quot (WIDTH + THREADS - 1) THREADS.
Definition groupsY : Z := Z.quot (HEIGHT + THREADS - 1) THREADS.

(** [Draw]: the new values of the file-scope variables and the calls made,
    or [None] where a conversion in the letterbox block is undefined. *)
Definition Draw (env : FrameEnv) (st : AppState)
  : option (AppState * list GpuCall) :=
  if negb (cmdbuf_acquired env) then
    Some (st, [AcquireGPUCommandBuffer;
               LogMessage "Failed to acquire command buffer: %s"])
  else if negb (swapchain_ok env) then
    Some (st, [AcquireGPUCommandBuffer; WaitAndAcquireGPUSwapchainTexture;
               LogMessage "Failed to acquire swapchain texture: %s";
               CancelGPUCommandBuffer])
  else if negb (swapchain_texture env)
          || (swapchain_width env =? 0) || (swapchain_height env =? 0) then
    Some (st, [AcquireGPUCommandBuffer; WaitAndAcquireGPUSwapchainTexture;
               SubmitGPUCommandBuffer])
  else
    let ub := UpdateUniforms (H := Scalar_f32 L)
                (pitch st) (yaw st) (distance st) (uniformBuffer st) in
    let st' := {| pitch := pitch st; yaw := yaw st; distance := distance st;
                  uniformBuffer := ub |} in
    if negb (compute_pass_begun env) then
      Some (st', [AcquireGPUCommandBuffer; WaitAndAcquireGPUSwapchainTexture;
                  BeginGPUComputePass;
                  LogMessage "Failed to begin compute pass: %s";
                  SubmitGPUCommandBuffer])
    else
      rect <- letterbox (swapchain_width env) (swapchain_height env) ;;
      Some (st', [AcquireGPUCommandBuffer; WaitAndAcquireGPUSwapchainTexture;
                  BeginGPUComputePass;
                  BindGPUComputePipeline;
                  PushGPUComputeUniformData ub;
                  BindGPUComputeStorageBuffers;
                  DispatchGPUCompute groupsX groupsY 1;
                  EndGPUComputePass;
                  BlitGPUTexture
                    {| load_op := LOADOP_CLEAR; clear_color := clearColor;
                       source_w := WIDTH; source_h := HEIGHT;
                       destination := rect; filter := FILTER_NEAREST |};
                  SubmitGPUCommandBuffer]).

(** ** The event loop *)

(** One pass of the outer loop: the events pending at its start and the
    device's answers to the frame drawn after them. *)
Record Iteration : Type := { pending : list Event; frame : FrameEnv }.

(** The body of [while (running)]: drain the events, then draw once.
    Returns the state, the calls of the frame and the value of [running]. *)
Definition iteration (it : Iteration) (st : AppState)
  : option (AppState * list GpuCall * bool) :=
  let (st1, running) := pump (pending it) (st, true) in
  r <- Draw (frame it) st1 ;;
  Some (fst r, snd r, running).

(** The loop over a finite supply of iterations.  The result carries
    [running]: [false] when a quit event ended the loop, [true] when the
    supply ran out with the loop still going. *)
Fixpoint main_loop (its : list Iteration) (st : AppState)
  : option (AppState * list GpuCall * bool) :=
  match its with
  | [] => Some (st, [], true)
  | it :: rest =>
      r <- iteration it st ;;
      let '(st', calls, running) := r in
      if running then
        r' <- main_loop rest st' ;;
        let '(st'', calls', running') := r' in
        Some (st'', calls ++ calls', running')
      else Some (st', calls, false)
  end.

End Frame.


(** ** Startup and shutdown *)

(** [struct Object], one body of the scene. *)
Record Object : Type := {
  Position : vec3 f32;
  Radius : f32;
  Color : vec3 f32;
  Mass : f32
}.

(** The three bodies [Init] stores in the mapped transfer buffer (lines
    138-140), in index order.  The colours are written as integers and
    converted to [float]. *)
Definition scene : list Object :=
  [ {| Position := mkvec3 (F32.lit 400000000000 1) F32.zero F32.zero;
       Radius := F32.lit 40000000000 1;
       Color := mkvec3 (F32.of_int 1) (F32.of_int 1) (F32.of_int 0);
       Mass := F32.lit (198892 * 10 ^ 25) 1 |};
    {| Position := mkvec3 F32.zero F32.zero (F32.lit 400000000000 1);
       Radius := F32.lit 40000000000 1;
       Color := mkvec3 (F32.of_int 1) (F32.of_int 0) (F32.of_int 0);
       Mass := F32.lit (198892 * 10 ^ 25) 1 |};
    {| Position := mkvec3 F32.zero F32.zero F32.zero;
       Radius := kBlackHoleRadius;
       Color := mkvec3 (F32.of_int 0) (F32.of_int 0) (F32.of_int 0);
       Mass := kBlackHoleMass |} ].

(** The file-scope variables before [Init] runs: as [initial_state], with
    [ObjectCount] still zero. *)
Definition static_state : AppState :=
  {| pitch := pitch initial_state;
     yaw := yaw initial_state;
     distance := distance initial_state;
     uniformBuffer :=
       {| CameraPosition := CameraPosition (uniformBuffer initial_state);
          TanHalfFov := TanHalfFov (uniformBuffer initial_state);
          CameraRight := CameraRight (uniformBuffer initial_state);
          Aspect := Aspect (uniformBuffer initial_state);
          CameraUp := CameraUp (uniformBuffer initial_state);
          ObjectCount := 0;
          CameraForward := CameraForward (uniformBuffer initial_state);
          DiskR1 := DiskR1 (uniformBuffer initial_state);
          DiskR2 := DiskR2 (uniformBuffer initial_state) |} |}.

(** The assignment [uniformBuffer.ObjectCount = n]. *)
Definition set_ObjectCount (n : Z) (st : AppState) : AppState :=
  {| pitch := pitch st;
     yaw := yaw st;
     distance := distance st;
     uniformBuffer :=
       {| CameraPosition := CameraPosition (uniformBuffer st);
          TanHalfFov := TanHalfFov (uniformBuffer st);
          CameraRight := CameraRight (uniformBuffer st);
          Aspect := Aspect (uniformBuffer st);
          CameraUp := CameraUp (uniformBuffer st);
          ObjectCount := n;
          CameraForward := CameraForward (uniformBuffer st);
          DiskR1 := DiskR1 (uniformBuffer st);
          DiskR2 := DiskR2 (uniformBuffer st) |} |}.

Module Sdl.

(** The calls of [Init] and of the end of [main], in the order made. *)
Inductive call : Type :=
| SetAppMetadata
| SetLogPriorities
| InitVideo
| CreateWindow (w h : Z)
| CreateGPUDevice
| ClaimWindowForGPUDevice
| LoadComputePipeline (name : string)
| CreateGPUTexture (w h : Z)
| AcquireGPUCommandBuffer
| BeginGPUCopyPass
| CreateGPUTransferBuffer (size : Z)
| MapGPUTransferBuffer
| StoreObject (index : Z) (o : Object)
| UnmapGPUTransferBuffer
| CreateGPUBuffer (size : Z)
| UploadToGPUBuffer (size : Z)
| ReleaseGPUTransferBuffer
| EndGPUCopyPass
| SubmitGPUCommandBuffer
| Log (fmt : string)
| HideWindow
| ReleaseGPUBuffer
| ReleaseGPUTexture
| ReleaseGPUComputePipeline
| ReleaseWindowFromGPUDevice
| DestroyGPUDevice
| DestroyWindow
| SDL_Quit.

(** What the system answers to the eleven calls of [Init] that can fail. *)
Record env : Type := {
  init_video : bool;
  create_window : bool;
  create_device : bool;
  claim_window : bool;
  load_pipeline : bool;
  create_texture : bool;
  acquire_cmdbuf : bool;
  begin_copy_pass : bool;
  create_transfer : bool;
  map_transfer : bool;
  create_buffer : bool
}.

End Sdl.

(** The stores [objects[i] = ...] for the bodies of a list, from index [i]. *)
Fixpoint store_objects (i : Z) (os : list Object) : list Sdl.call :=
  match os with
  | [] => []
  | o :: rest => Sdl.StoreObject i o :: store_objects (i + 1) rest
  end.

Section Startup.

(** [sizeof(Object)], fixed by the compiler's layout of the struct. *)
Variable sizeof_Object : Z.

(** [uniformBuffer.ObjectCount * sizeof(Object)], stored in a [Uint32]. *)
Definition objects_size (st : AppState) : Z :=
  (ObjectCount (uniformBuffer st) * sizeof_Object) mod 2 ^ 32.

(** [Init] (lines 53-165): its result, the file-scope variables after it and
    the calls made.  Each failure logs one message and returns [false]. *)
Definition Init (env : Sdl.env) (st : AppState)
  : bool * AppState * list Sdl.call :=
  let c := [Sdl.SetAppMetadata; Sdl.SetLogPriorities; Sdl.InitVideo] in
  if negb (Sdl.init_video env) then
    (false, st, c ++ [Sdl.Log "Failed to initialize SDL: %s"])
  else
  let c := c ++ [Sdl.CreateWindow 960 720] in
  if negb (Sdl.create_window env) then
    (false, st, c ++ [Sdl.Log "Failed to create window: %s"])
  else
  let c := c ++ [Sdl.CreateGPUDevice] in
  if negb (Sdl.create_device env) then
    (false, st, c ++ [Sdl.Log "Failed to create device: %s"])
  else
  let c := c ++ [Sdl.ClaimWindowForGPUDevice] in
  if negb (Sdl.claim_window env) then
    (false, st, c ++ [Sdl.Log "Failed to create swapchain: %s"])
  else
  let c := c ++ [Sdl.LoadComputePipeline "geodesic.comp"] in
  if negb (Sdl.load_pipeline env) then
    (false, st, c ++ [Sdl.Log "Failed to create pipeline"])
  else
  let c := c ++ [Sdl.CreateGPUTexture WIDTH HEIGHT] in
  if negb (Sdl.create_texture env) then
    (false, st, c ++ [Sdl.Log "Failed to create texture: %s"])
  else
  let c := c ++ [Sdl.AcquireGPUCommandBuffer] in
  if negb (Sdl.acquire_cmdbuf env) then
    (false, st, c ++ [Sdl.Log "Failed to acquire command buffer: %s"])
  else
  let c := c ++ [Sdl.BeginGPUCopyPass] in
  if negb (Sdl.begin_copy_pass env) then
    (false, st, c ++ [Sdl.Log "Failed to begin copy pass: %s"])
  else
  let st := set_ObjectCount 3 st in
  let c := c ++ [Sdl.CreateGPUTransferBuffer (objects_size st)] in
  if negb (Sdl.create_transfer env) then
    (false, st, c ++ [Sdl.Log "Failed to create transfer buffer: %s"])
  else
  let c := c ++ [Sdl.MapGPUTransferBuffer] in
  if negb (Sdl.map_transfer env) then
    (false, st, c ++ [Sdl.Log "Failed to map transfer buffer: %s"])
  else
  let c := c ++ store_objects 0 scene ++ [Sdl.UnmapGPUTransferBuffer]
             ++ [Sdl.CreateGPUBuffer (objects_size st)] in
  if negb (Sdl.create_buffer env) then
    (false, st, c ++ [Sdl.Log "Failed to create buffer: %s"])
  else
    (true, st,
     c ++ [Sdl.UploadToGPUBuffer (objects_size st);
           Sdl.ReleaseGPUTransferBuffer;
           Sdl.EndGPUCopyPass;
           Sdl.SubmitGPUCommandBuffer]).

(** The calls after the loop (lines 290-297). *)
Definition shutdown : list Sdl.call :=
  [Sdl.HideWindow; Sdl.ReleaseGPUBuffer; Sdl.ReleaseGPUTexture;
   Sdl.ReleaseGPUComputePipeline; Sdl.ReleaseWindowFromGPUDevice;
   Sdl.DestroyGPUDevice; Sdl.DestroyWindow; Sdl.SDL_Quit].

(** How a run of [main] over a finite supply of iterations ends: with an
    exit code, with the loop still going when the supply is used up, or in
    undefined behaviour. *)
Inductive Outcome : Type :=
| Exited (code : Z)
| StillRunning
| Undefined.

Variable L : Libm.
Variable THREADS : Z.

(** [main]: the outcome and every call made, those of [Init] and of the
    shutdown on the left, those of the frames on the right. *)
Definition main (env : Sdl.env) (its : list Iteration)
  : Outcome * list (Sdl.call + GpuCall) :=
  let '(ok, st, calls) := Init env static_state in
  if negb ok then (Exited 1, map inl calls)
  else
    match main_loop L THREADS its st with
    | None => (Undefined, map inl calls)
    | Some (_, frames, running) =>
        if running then (StillRunning, map inl calls ++ map inr frames)
        else (Exited 0, map inl calls ++ map inr frames ++ map inl shutdown)
    end.

End Startup.
(** ** Vocabulary of the statements *)

Definition is_dispatch (c : GpuCall) : bool :=
  match c with DispatchGPUCompute _ _ _ => true | _ => false end.

Definition is_blit (c : GpuCall) : bool :=
  match c with BlitGPUTexture _ => true | _ => false end.

Definition is_submit (c : GpuCall) : bool :=
  match c with SubmitGPUCommandBuffer => true | _ => false end.

Definition is_cancel (c : GpuCall) : bool :=
  match c with CancelGPUCommandBuffer => true | _ => false end.

Definition is_log (c : GpuCall) : bool :=
  match c with LogMessage _ => true | _ => false end.

(** The acquired target has no area: the test of line 184. *)
Definition zero_area (env : FrameEnv) : bool :=
  negb (swapchain_texture env)
  || (swapchain_width env =? 0) || (swapchain_height env =? 0).

(** The three ways a frame is skipped before the uniform block. *)
Definition skipped (env : FrameEnv) : bool :=
  negb (cmdbuf_acquired env) || negb (swapchain_ok env) || zero_area env.

(** The target acquisition fails once a command buffer is held. *)
Definition target_failure (env : FrameEnv) : bool :=
  cmdbuf_acquired env && negb (swapchain_ok env).

(** A later failure: the target is there, the compute pass does not begin. *)
Definition compute_failure (env : FrameEnv) : bool :=
  negb (skipped env) && negb (compute_pass_begun env).

Definition has_quit (evs : list Event) : bool :=
  existsb (fun e => match e with QuitEvent => true | _ => false end) evs.

(** A libm to run the model with: the first-order Taylor terms at 0.  The
    statements below hold for every libm; this one instantiates them. *)
Definition libm_taylor1 : Libm :=
  {| cosf := fun _ => F32.one; sinf := fun x => x; tanf := fun x => x |}.

(** A device that answers every call of a frame with success, for a target
    of the given size. *)
Definition env_ok (w h : Z) : FrameEnv :=
  {| cmdbuf_acquired := true; swapchain_ok := true; swapchain_texture := true;
     swapchain_width := w; swapchain_height := h; compute_pass_begun := true |}.

(** The same, except that the compute pass does not begin. *)
Definition env_no_compute (w h : Z) : FrameEnv :=
  {| cmdbuf_acquired := true; swapchain_ok := true; swapchain_texture := true;
     swapchain_width := w; swapchain_height := h; compute_pass_begun := false |}.

(** The swapchain acquisition fails. *)
Definition env_no_target : FrameEnv :=
  {| cmdbuf_acquired := true; swapchain_ok := false; swapchain_texture := false;
     swapchain_width := 0; swapchain_height := 0; compute_pass_begun := true |}.

(** A minimised window: the acquisition succeeds with a null texture and a
    0 by 0 target. *)
Definition env_minimised : FrameEnv :=
  {| cmdbuf_acquired := true; swapchain_ok := true; swapchain_texture := false;
     swapchain_width := 0; swapchain_height := 0; compute_pass_begun := true |}.

(** The closed band of [std::clamp] in the motion handler, the open band, and
    the poles [glm::pi<float>() / 2.0f]. *)
Definition in_band (p : f32) : bool :=
  F32.leb (F32.neg kClamp) p && F32.leb p kClamp.

Definition strictly_in_band (p : f32) : bool :=
  F32.ltb (F32.neg kClamp) p && F32.ltb p kClamp.

Definition half_pi : f32 := F32.div glm_pi F32.two.

Definition between_poles (p : f32) : bool :=
  F32.ltb (F32.neg half_pi) p && F32.ltb p half_pi.

(** A motion event whose vertical delta is a number. *)
Definition motion_is_number (e : Event) : bool :=
  match e with
  | MouseMotion _ _ yrel => negb (F32.is_nan yrel)
  | _ => true
  end.

(** The largest target side up to which the letterbox block computes the
    exact proportions.  Up to it the sides convert to [float] without
    rounding and the rounding of the products and quotients never reaches
    the next integer; on the target of 1491316 by 1118487, which has the
    image's aspect, the scaled width comes out one pixel short. *)
Definition max_dim : Z := 1491315.

(** The letterbox in exact integer arithmetic: the image keeps its aspect
    ratio, fills the target along one axis and is centred along the other.
    The image is the wider of the two when [WIDTH / HEIGHT > width / height],
    that is when [HEIGHT * width < WIDTH * height]. *)
Definition letterbox_exact (width height : Z) : Rect :=
  if HEIGHT * width <? WIDTH * height then
    let h := HEIGHT * width / WIDTH in
    {| rect_x := 0; rect_y := (height - h) / 2; rect_w := width; rect_h := h |}
  else
    let w := WIDTH * height / HEIGHT in
    {| rect_x := (width - w) / 2; rect_y := 0; rect_w := w; rect_h := height |}.

(** The letterbox as section 4.4 of the specification words it: full width
    when the target's aspect exceeds the image's, full height otherwise. *)
Definition letterbox_as_worded (width height : Z) : Rect :=
  if WIDTH * height <? HEIGHT * width then
    let h := HEIGHT * width / WIDTH in
    {| rect_x := 0; rect_y := (height - h) / 2; rect_w := width; rect_h := h |}
  else
    let w := WIDTH * height / HEIGHT in
    {| rect_x := (width - w) / 2; rect_y := 0; rect_w := w; rect_h := height |}.

(** A rectangle inside a target of the given size. *)
Definition inside (r : Rect) (width height : Z) : Prop :=
  0 <= rect_x r /\ 0 <= rect_y r /\
  rect_x r + rect_w r <= width /\ rect_y r + rect_h r <= height.

(** The destination of the blit among the calls of a frame, if any. *)
Fixpoint blit_destination (calls : list GpuCall) : option Rect :=
  match calls with
  | [] => None
  | BlitGPUTexture info :: _ => Some (destination info)
  | _ :: rest => blit_destination rest
  end.

(** The group counts of the dispatch among the calls of a frame, if any. *)
Fixpoint dispatch_groups (calls : list GpuCall) : option (Z * Z * Z) :=
  match calls with
  | [] => None
  | DispatchGPUCompute gx gy gz :: _ => Some (gx, gy, gz)
  | _ :: rest => dispatch_groups rest
  end.

(** The image fills the target's height, with a bar on the left and one on
    the right that differ by at most one pixel. *)
Definition bars_left_right (r : Rect) (width height : Z) : Prop :=
  rect_y r = 0 /\ rect_h r = height /\
  0 < rect_x r /\ rect_x r + rect_w r < width /\
  2 * rect_x r <= width - rect_w r <= 2 * rect_x r + 1.

(** The image fills the target's width, with a bar above and one below. *)
Definition bars_top_bottom (r : Rect) (width height : Z) : Prop :=
  rect_x r = 0 /\ rect_w r = width /\
  0 < rect_y r /\ rect_y r + rect_h r < height /\
  2 * rect_y r <= height - rect_h r <= 2 * rect_y r + 1.

(** [g] groups of [size] threads cover [dim] pixels and no group is idle:
    [g] is the ceiling of [dim / size]. *)
Definition covers_exactly (g size dim : Z) : Prop :=
  size * (g - 1) < dim <= size * g.

(** The largest [int]. *)
Definition INT_MAX : Z := 2 ^ 31 - 1.

(** *** Support for the analysis of rounding *)

(** A shift record [mrs] stands for the rational [N / D]: its mantissa is the
    integral part, and the round and sticky bits place the remainder [rho]
    against one half. *)
Definition enc (N D : Z) (mrs : shr_record) : Prop :=
  0 < D /\ 0 <= shr_m mrs /\
  exists rho, N = shr_m mrs * D + rho /\ 0 <= rho < D /\
    shr_r mrs = (D <=? 2 * rho) /\
    shr_s mrs = negb ((rho =? 0) || (2 * rho =? D)).

(** The second half of [binary_round_aux]: renormalise the rounded mantissa
    and detect overflow. *)
Definition finish (s : bool) (M0 e : Z) : spec_float :=
  let '(mrs'', e'') := shr_fexp F32.prec F32.emax M0 e loc_Exact in
  match shr_m mrs'' with
  | Z0 => S754_zero s
  | Zpos m =>
      if e'' <=? F32.emax - F32.prec then S754_finite s m e'' else S754_infinity s
  | Zneg _ => S754_nan
  end.
(** *** Vocabulary of the further properties *)

(** How many calls of a list satisfy [p]. *)
Definition count {A : Type} (p : A -> bool) (l : list A) : nat :=
  List.length (List.filter p l).

Definition is_acquire (c : GpuCall) : bool :=
  match c with AcquireGPUCommandBuffer => true | _ => false end.

Definition is_begin_pass (c : GpuCall) : bool :=
  match c with BeginGPUComputePass => true | _ => false end.

Definition is_end_pass (c : GpuCall) : bool :=
  match c with EndGPUComputePass => true | _ => false end.

(** The calls that record or finish GPU work. *)
Definition is_stage (c : GpuCall) : bool :=
  is_begin_pass c || is_dispatch c || is_end_pass c || is_blit c
  || is_submit c || is_cancel c.

(** The uniform data pushed in a frame, if any. *)
Fixpoint pushed_uniforms (calls : list GpuCall) : option (UniformBuffer f32) :=
  match calls with
  | [] => None
  | PushGPUComputeUniformData ub :: _ => Some ub
  | _ :: rest => pushed_uniforms rest
  end.

(** Some acquisition of the frame fails. *)
Definition frame_failed (env : FrameEnv) : bool :=
  negb (cmdbuf_acquired env) || target_failure env || compute_failure env.

Definition is_wheel (e : Event) : bool :=
  match e with MouseWheel _ => true | _ => false end.

(** A motion event with the left button held. *)
Definition is_drag (e : Event) : bool :=
  match e with
  | MouseMotion state _ _ => negb (Z.land state SDL_BUTTON_LMASK =? 0)
  | _ => false
  end.

(** The iterations a run of the loop executes: up to and including the first
    one with a quit event pending. *)
Fixpoint executed (its : list Iteration) : list Iteration :=
  match its with
  | [] => []
  | it :: rest => if has_quit (pending it) then [it] else it :: executed rest
  end.

Definition is_create (c : Sdl.call) : bool :=
  match c with
  | Sdl.InitVideo | Sdl.CreateWindow _ _ | Sdl.CreateGPUDevice
  | Sdl.ClaimWindowForGPUDevice | Sdl.LoadComputePipeline _
  | Sdl.CreateGPUTexture _ _ | Sdl.CreateGPUTransferBuffer _
  | Sdl.CreateGPUBuffer _ => true
  | _ => false
  end.

Definition is_release (c : Sdl.call) : bool :=
  match c with
  | Sdl.ReleaseGPUTransferBuffer | Sdl.ReleaseGPUBuffer | Sdl.ReleaseGPUTexture
  | Sdl.ReleaseGPUComputePipeline | Sdl.ReleaseWindowFromGPUDevice
  | Sdl.DestroyGPUDevice | Sdl.DestroyWindow | Sdl.SDL_Quit => true
  | _ => false
  end.

Definition is_sdl_log (c : Sdl.call) : bool :=
  match c with Sdl.Log _ => true | _ => false end.

Definition is_sdl_submit (c : Sdl.call) : bool :=
  match c with Sdl.SubmitGPUCommandBuffer => true | _ => false end.

(** Every answer of the system to [Init] is a success. *)
Definition all_ok (env : Sdl.env) : bool :=
  Sdl.init_video env && Sdl.create_window env && Sdl.create_device env
  && Sdl.claim_window env && Sdl.load_pipeline env && Sdl.create_texture env
  && Sdl.acquire_cmdbuf env && Sdl.begin_copy_pass env
  && Sdl.create_transfer env && Sdl.map_transfer env && Sdl.create_buffer env.

Definition env_all_ok : Sdl.env :=
  {| Sdl.init_video := true; Sdl.create_window := true;
     Sdl.create_device := true; Sdl.claim_window := true;
     Sdl.load_pipeline := true; Sdl.create_texture := true;
     Sdl.acquire_cmdbuf := true; Sdl.begin_copy_pass := true;
     Sdl.create_transfer := true; Sdl.map_transfer := true;
     Sdl.create_buffer := true |}.

(** The transfer buffer cannot be mapped. *)
Definition env_no_map : Sdl.env :=
  {| Sdl.init_video := true; Sdl.create_window := true;
     Sdl.create_device := true; Sdl.claim_window := true;
     Sdl.load_pipeline := true; Sdl.create_texture := true;
     Sdl.acquire_cmdbuf := true; Sdl.begin_copy_pass := true;
     Sdl.create_transfer := true; Sdl.map_transfer := false;
     Sdl.create_buffer := true |}.

(** The byte range [[i * size, (i + 1) * size)] of every store lies within
    a buffer of [total] bytes. *)
Definition stores_within (size total : Z) (calls : list Sdl.call) : Prop :=
  forall i o, In (Sdl.StoreObject i o) calls ->
    0 <= i * size /\ (i + 1) * size <= total.

Definition is_store (c : Sdl.call) : bool :=
  match c with Sdl.StoreObject _ _ => true | _ => false end.

(** What [Init] creates and the shutdown releases. *)
Inductive Resource : Type :=
| Video | Window | Device | Swapchain | Pipeline | Texture
| TransferBuffer | ObjectBuffer.

Definition resource_eqb (a b : Resource) : bool :=
  match a, b with
  | Video, Video | Window, Window | Device, Device | Swapchain, Swapchain
  | Pipeline, Pipeline | Texture, Texture | TransferBuffer, TransferBuffer
  | ObjectBuffer, ObjectBuffer => true
  | _, _ => false
  end.

Definition creates (c : Sdl.call) : option Resource :=
  match c with
  | Sdl.InitVideo => Some Video
  | Sdl.CreateWindow _ _ => Some Window
  | Sdl.CreateGPUDevice => Some Device
  | Sdl.ClaimWindowForGPUDevice => Some Swapchain
  | Sdl.LoadComputePipeline _ => Some Pipeline
  | Sdl.CreateGPUTexture _ _ => Some Texture
  | Sdl.CreateGPUTransferBuffer _ => Some TransferBuffer
  | Sdl.CreateGPUBuffer _ => Some ObjectBuffer
  | _ => None
  end.

Definition releases (c : Sdl.call) : option Resource :=
  match c with
  | Sdl.SDL_Quit => Some Video
  | Sdl.DestroyWindow => Some Window
  | Sdl.DestroyGPUDevice => Some Device
  | Sdl.ReleaseWindowFromGPUDevice => Some Swapchain
  | Sdl.ReleaseGPUComputePipeline => Some Pipeline
  | Sdl.ReleaseGPUTexture => Some Texture
  | Sdl.ReleaseGPUTransferBuffer => Some TransferBuffer
  | Sdl.ReleaseGPUBuffer => Some ObjectBuffer
  | _ => None
  end.

(** What must be alive when a resource is created, and so must be released
    before it: a window and a device need the video subsystem, a swapchain
    needs the window and the device, and whatever the device makes needs the
    device. *)
Definition needs (r : Resource) : list Resource :=
  match r with
  | Video => []
  | Window | Device => [Video]
  | Swapchain => [Window; Device]
  | Pipeline | Texture | TransferBuffer | ObjectBuffer => [Device]
  end.

Definition alive (r : Resource) (live : list Resource) : bool :=
  existsb (resource_eqb r) live.

(** The calls respect the lifetimes: a resource is created once, while all
    it needs is alive, and released once, while alive and after all that
    needs it; [live] is what is alive before the calls, and nothing is
    alive after them. *)
Fixpoint lifetimes_ok (calls : list Sdl.call) (live : list Resource) : bool :=
  match calls with
  | [] => match live with [] => true | _ => false end
  | c :: rest =>
      match creates c, releases c with
      | Some r, _ =>
          negb (alive r live) && forallb (fun n => alive n live) (needs r)
          && lifetimes_ok rest (r :: live)
      | None, Some r =>
          alive r live
          && negb (existsb (fun l => alive r (needs l)) live)
          && lifetimes_ok rest
               (List.filter (fun l => negb (resource_eqb r l)) live)
      | None, None => lifetimes_ok rest live
      end
  end.

(** The calls of a run that are not those of a frame. *)
Fixpoint sdl_calls (trace : list (Sdl.call + GpuCall)) : list Sdl.call :=
  match trace with
  | [] => []
  | inl c :: rest => c :: sdl_calls rest
  | inr _ :: rest => sdl_calls rest
  end.

(** The calls of the frames of a run. *)
Fixpoint frame_calls (trace : list (Sdl.call + GpuCall)) : list GpuCall :=
  match trace with
  | [] => []
  | inl _ :: rest => frame_calls rest
  | inr c :: rest => c :: frame_calls rest
  end.

(** The calls of an [Init] that succeeds. *)
Definition init_script (sizeof_Object : Z) (st : AppState) : list Sdl.call :=
  snd (Init sizeof_Object env_all_ok st).

(** *** Vocabulary of the rounding-error analysis *)

(** The power of two [2^e] as a real, for any integer [e]. *)
Definition bpow (e : Z) : R := powerRZ 2 e.

Definition sgn (s : bool) : R := if s then (-1)%R else 1%R.

(** A zero or a finite nonzero value: neither an infinity nor a NaN. *)
Definition fin (x : f32) : bool :=
  match x with
  | S754_zero _ | S754_finite _ _ _ => true
  | S754_infinity _ | S754_nan => false
  end.

(** A value a [float] can hold: finite, with its mantissa in canonical
    position. *)
Definition good (x : f32) : Prop :=
  fin x = true /\ valid_binary F32.prec F32.emax x = true.

(** A shift record stands for the real [v]: its mantissa is the integral
    part, and its round and sticky bits locate the fractional part with
    respect to one half. *)
Definition encR (v : R) (mrs : shr_record) : Prop :=
  0 <= shr_m mrs /\
  exists f : R,
    v = (IZR (shr_m mrs) + f)%R /\ (0 <= f < 1)%R /\
    (shr_r mrs = true <-> (1 / 2 <= f)%R) /\
    (shr_s mrs = false <-> (f = 0 \/ f = 1 / 2)%R).

(** The unit in the last place of a positive real with [d] binary digits
    before exponent [e]. *)
Definition fexp32 (k : Z) : Z := fexp F32.prec F32.emax k.

(** Half a unit in the last place of 1, relative, and half the smallest
    subnormal. *)
Definition eps32 : R := bpow (-24).
Definition eta32 : R := bpow (-150).

(** The components of a vector are values a [float] can hold. *)
Definition vec_good (v : vec3 f32) : Prop :=
  good (vx v) /\ good (vy v) /\ good (vz v).

(** Dot and triple product of binary32 vectors, computed without rounding
    on the reals their components stand for. *)
Definition rdot (a b : vec3 f32) : R :=
  (F32.to_R (vx a) * F32.to_R (vx b)
   + F32.to_R (vy a) * F32.to_R (vy b)
   + F32.to_R (vz a) * F32.to_R (vz b))%R.

(** [(a x b) . c], with the cross product as [glm::cross] forms it. *)
Definition rtriple (a b c : vec3 f32) : R :=
  ((F32.to_R (vy a) * F32.to_R (vz b) - F32.to_R (vy b) * F32.to_R (vz a))
     * F32.to_R (vx c)
   + (F32.to_R (vz a) * F32.to_R (vx b) - F32.to_R (vz b) * F32.to_R (vx a))
     * F32.to_R (vy c)
   + (F32.to_R (vx a) * F32.to_R (vy b) - F32.to_R (vx b) * F32.to_R (vy a))
     * F32.to_R (vz c))%R.

(** The error allowed to [std::cos] and [std::sin]: sixteen units in the
    last place of 1. *)
Definition libm_error : R := bpow (-20).

(** At the argument [x], the library returns values a [float] can hold,
    within [libm_error] of the cosine and the sine of [x]. *)
Definition libm_accurate (L : Libm) (x : f32) : Prop :=
  good (cosf L x) /\ good (sinf L x) /\
  (Rabs (F32.to_R (cosf L x) - cos (F32.to_R x)) <= libm_error)%R /\
  (Rabs (F32.to_R (sinf L x) - sin (F32.to_R x)) <= libm_error)%R.

(** The tolerance of the orthonormality of the camera basis: 128 units in
    the last place of 1. *)
Definition basis_tolerance : R := bpow (-17).

(** Three binary32 vectors are orthonormal within [tol]: each squared
    length is within [tol] of one and each dot product within [tol] of
    zero. *)
Definition orthonormal_within (tol : R) (a b c : vec3 f32) : Prop :=
  (Rabs (rdot a a - 1) <= tol /\ Rabs (rdot b b - 1) <= tol /\
   Rabs (rdot c c - 1) <= tol /\
   Rabs (rdot a b) <= tol /\ Rabs (rdot a c) <= tol /\
   Rabs (rdot b c) <= tol)%R.

(** The ordered triple [(a, b, c)] is right-handed within [tol]: its triple
    product [(a x b) . c] is within [tol] of one.  It is left-handed when the
    triple product is within [tol] of minus one. *)
Definition right_handed_within (tol : R) (a b c : vec3 f32) : Prop :=
  (Rabs (rtriple a b c - 1) <= tol)%R.

Definition left_handed_within (tol : R) (a b c : vec3 f32) : Prop :=
  (Rabs (rtriple a b c + 1) <= tol)%R.

(** The direction of line 193-195, before it is normalised. *)
Definition forward_raw (L : Libm) (pitch yaw : f32) : vec3 f32 :=
  mkvec3 (F32.mul (cosf L pitch) (cosf L yaw))
         (sinf L pitch)
         (F32.mul (cosf L pitch) (sinf L yaw)).

(** The world's up vector [glm::vec3(0.0f, 1.0f, 0.0f)]. *)
Definition world_up : vec3 f32 :=
  mkvec3 (F32.of_int 0) (F32.of_int 1) (F32.of_int 0).

(** A libm made of the Taylor polynomials of degree six and seven at 0,
    evaluated in binary32 by Horner's rule. *)
Definition libm_taylor7 : Libm :=
  {| cosf := fun x =>
       let x2 := F32.mul x x in
       F32.sub F32.one
         (F32.mul x2
            (F32.sub (F32.lit 1 2)
               (F32.mul x2 (F32.sub (F32.lit 1 24) (F32.mul x2 (F32.lit 1 720))))));
     sinf := fun x =>
       let x2 := F32.mul x x in
       F32.mul x
         (F32.sub F32.one
            (F32.mul x2
               (F32.sub (F32.lit 1 6)
                  (F32.mul x2 (F32.sub (F32.lit 1 120) (F32.mul x2 (F32.lit 1 5040)))))));
     tanf := fun x => x |}.

(** ** Binary32: order *)

Ltac zcases :=
  repeat match goal with
  | |- context [Z.eqb ?a ?b] => destruct (Z.eqb_spec a b)
  | |- context [Z.leb ?a ?b] => destruct (Z.leb_spec a b)
  | |- context [Z.compare ?a ?b] => destruct (Z.compare_spec a b)
  end.

Lemma SFcompare_antisym a b c :
  SFcompare a b = Some c -> SFcompare b a = Some (CompOpp c).
Proof.
  destruct a as [sa|sa| |sa ma ea], b as [sb|sb| |sb mb eb];
    try destruct sa; try destruct sb; simpl; intros E;
    try discriminate; try (injection E as <-; reflexivity).
  all: injection E as <-; f_equal.
  all: rewrite (Z.compare_antisym ea eb); destruct (Z.compare ea eb) eqn:Ee;
    simpl; try reflexivity.
  all: change (Pos.compare_cont Eq ?x ?y) with (Pos.compare x y).
  all: rewrite (Pos.compare_antisym ma mb); destruct (Pos.compare ma mb);
    reflexivity.
Qed.

Lemma ltb_leb a b : F32.ltb a b = true -> F32.leb a b = true.
Proof.
  unfold F32.ltb, F32.leb, SFltb, SFleb.
  destruct (SFcompare a b) as [[]|]; intros; try discriminate; reflexivity.
Qed.

Lemma ltb_asym a b : F32.ltb a b = true -> F32.ltb b a = false.
Proof.
  unfold F32.ltb, SFltb. destruct (SFcompare a b) as [c|] eqn:E; [|discriminate].
  rewrite (SFcompare_antisym _ _ _ E). destruct c; intros; try discriminate; reflexivity.
Qed.

Lemma SFcompare_number a b :
  F32.is_nan a = false -> F32.is_nan b = false -> exists c, SFcompare a b = Some c.
Proof.
  destruct a, b; simpl; intros; try discriminate; eexists; reflexivity.
Qed.

Lemma not_ltb_leb a b :
  F32.is_nan a = false -> F32.is_nan b = false ->
  F32.ltb a b = false -> F32.leb b a = true.
Proof.
  intros Ha Hb. destruct (SFcompare_number a b Ha Hb) as [c E].
  unfold F32.ltb, F32.leb, SFltb, SFleb. rewrite E, (SFcompare_antisym _ _ _ E).
  destruct c; intros; try discriminate; reflexivity.
Qed.

Lemma leb_ltb_trans a b c :
  F32.leb a b = true -> F32.ltb b c = true -> F32.ltb a c = true.
Proof.
  unfold F32.leb, F32.ltb, SFleb, SFltb.
  destruct a as [sa|sa| |sa ma ea], b as [sb|sb| |sb mb eb], c as [sc|sc| |sc mc ec];
    try destruct sa; try destruct sb; try destruct sc; simpl;
    try discriminate; try reflexivity.
  all: change (Pos.compare_cont Eq ?x ?y) with (Pos.compare x y).
  all: repeat match goal with
       | |- context [Z.compare ?x ?y] => destruct (Z.compare_spec x y)
       | |- context [Pos.compare ?x ?y] => destruct (Pos.compare_spec x y)
       end; simpl; try discriminate; try reflexivity; intros; exfalso; lia.
Qed.

Lemma ltb_leb_trans a b c :
  F32.ltb a b = true -> F32.leb b c = true -> F32.ltb a c = true.
Proof.
  unfold F32.leb, F32.ltb, SFleb, SFltb.
  destruct a as [sa|sa| |sa ma ea], b as [sb|sb| |sb mb eb], c as [sc|sc| |sc mc ec];
    try destruct sa; try destruct sb; try destruct sc; simpl;
    try discriminate; try reflexivity.
  all: change (Pos.compare_cont Eq ?x ?y) with (Pos.compare x y).
  all: repeat match goal with
       | |- context [Z.compare ?x ?y] => destruct (Z.compare_spec x y)
       | |- context [Pos.compare ?x ?y] => destruct (Pos.compare_spec x y)
       end; simpl; try discriminate; try reflexivity; intros; exfalso; lia.
Qed.

(** ** Binary32: rounding never yields a NaN *)

Lemma iter_pos_invariant {A : Type} (P : A -> Prop) (f : A -> A) :
  (forall x, P x -> P (f x)) -> forall n x, P x -> P (SpecFloat.iter_pos f n x).
Proof.
  intros Hf n. induction n as [n IH | n IH |]; intros x Hx; cbn [SpecFloat.iter_pos]; auto.
Qed.

Lemma shr_1_spec mrs :
  0 <= shr_m mrs ->
  shr_m mrs = 2 * shr_m (shr_1 mrs) + Z.b2z (shr_r (shr_1 mrs)) /\
  0 <= shr_m (shr_1 mrs) /\
  shr_s (shr_1 mrs) = shr_r mrs || shr_s mrs.
Proof.
  destruct mrs as [m r s]. simpl. intros Hm.
  destruct m as [|[p|p|]|p]; simpl; try lia; repeat split; lia.
Qed.

Lemma shr_m_of_loc q l : shr_m (shr_record_of_loc q l) = q.
Proof. destruct l as [|[]]; reflexivity. Qed.

Lemma shr_nonneg mrs e n :
  0 <= shr_m mrs -> 0 <= shr_m (fst (shr mrs e n)).
Proof.
  intros Hm. destruct n as [|p|p]; simpl; auto.
  apply (iter_pos_invariant (fun r => 0 <= shr_m r)); auto.
  intros x Hx. apply shr_1_spec, Hx.
Qed.

Lemma shr_fexp_nonneg m e l :
  0 <= m -> 0 <= shr_m (fst (shr_fexp F32.prec F32.emax m e l)).
Proof.
  intros Hm. unfold shr_fexp. apply shr_nonneg. now rewrite shr_m_of_loc.
Qed.

Lemma round_nearest_even_nonneg m l : 0 <= m -> 0 <= round_nearest_even m l.
Proof.
  intros Hm. destruct l as [|[]]; cbn [round_nearest_even];
    try destruct (Z.even m); lia.
Qed.

Lemma binary_round_aux_unfold s mx ex lx :
  binary_round_aux F32.prec F32.emax s mx ex lx =
  let '(mrs', e') := shr_fexp F32.prec F32.emax mx ex lx in
  finish s (round_nearest_even (shr_m mrs') (loc_of_shr_record mrs')) e'.
Proof. reflexivity. Qed.

Lemma finish_number s M0 e : 0 <= M0 -> F32.is_nan (finish s M0 e) = false.
Proof.
  intros HM. unfold finish.
  pose proof (shr_fexp_nonneg M0 e loc_Exact HM) as Hn.
  destruct (shr_fexp F32.prec F32.emax M0 e loc_Exact) as [mrs e''].
  cbn [fst] in Hn. destruct (shr_m mrs); try lia; try reflexivity.
  destruct (e'' <=? F32.emax - F32.prec); reflexivity.
Qed.

Lemma binary_round_aux_number s mx ex lx :
  0 <= mx -> F32.is_nan (binary_round_aux F32.prec F32.emax s mx ex lx) = false.
Proof.
  intros Hm. rewrite binary_round_aux_unfold.
  pose proof (shr_fexp_nonneg mx ex lx Hm) as Hn.
  destruct (shr_fexp F32.prec F32.emax mx ex lx) as [mrs e']. cbn [fst] in Hn.
  apply finish_number, round_nearest_even_nonneg, Hn.
Qed.

Lemma binary_normalize_number m e :
  F32.is_nan (binary_normalize F32.prec F32.emax m e false) = false.
Proof.
  destruct m as [|p|p]; cbn [binary_normalize]; try reflexivity.
  all: unfold binary_round.
  all: destruct (shl_align _ _ _) as [mz ez].
  all: apply binary_round_aux_number; lia.
Qed.

(** A product is a NaN only for a NaN operand or for zero times infinity. *)
Lemma mul_finite_number x m e :
  F32.is_nan x = false ->
  F32.is_nan (F32.mul x (S754_finite false m e)) = false.
Proof.
  destruct x as [s|s| |s mx ex]; simpl; intros Hx; try discriminate; try reflexivity.
  apply binary_round_aux_number. lia.
Qed.

(** A sum with a finite operand is a NaN only for a NaN operand. *)
Lemma add_finite_number p v :
  (match p with S754_zero _ | S754_finite _ _ _ => true | _ => false end) = true ->
  F32.is_nan v = false ->
  F32.is_nan (F32.add p v) = false.
Proof.
  destruct p as [sp|sp| |sp mp ep]; intros Hp; try discriminate;
    destruct v as [sv|sv| |sv mv ev]; intros Hv; try discriminate;
    try reflexivity.
  - destruct sp, sv; reflexivity.
  - unfold F32.add, SFadd. apply binary_normalize_number.
Qed.

(** ** Binary32: the quotient of two normal values is rounded to nearest *)

Lemma digits2_pos_spec p :
  2 ^ (Zpos (digits2_pos p) - 1) <= Zpos p < 2 ^ Zpos (digits2_pos p).
Proof.
  induction p as [p IH | p IH |]; cbn [digits2_pos].
  - rewrite Pos2Z.inj_succ.
    replace (Z.succ (Zpos (digits2_pos p)) - 1)
      with (Z.succ (Zpos (digits2_pos p) - 1)) by lia.
    rewrite !Z.pow_succ_r by lia. lia.
  - rewrite Pos2Z.inj_succ.
    replace (Z.succ (Zpos (digits2_pos p)) - 1)
      with (Z.succ (Zpos (digits2_pos p) - 1)) by lia.
    rewrite !Z.pow_succ_r by lia. lia.
  - simpl. lia.
Qed.

Lemma digits2_pos_unique p d :
  2 ^ (d - 1) <= Zpos p < 2 ^ d -> Zpos (digits2_pos p) = d.
Proof.
  intros [Hl Hu]. pose proof (digits2_pos_spec p) as [Hl' Hu'].
  assert (0 < d).
  { destruct (Z_lt_le_dec 0 d) as [|Hd]; auto. exfalso.
    destruct (Z.eq_dec d 0) as [->|Hd0]; [simpl in Hu; lia|].
    rewrite Z.pow_neg_r in Hu by lia. lia. }
  assert (~ d < Zpos (digits2_pos p)).
  { intros Hlt.
    assert (2 ^ d <= 2 ^ (Zpos (digits2_pos p) - 1)) by (apply Z.pow_le_mono_r; lia).
    lia. }
  assert (~ Zpos (digits2_pos p) < d).
  { intros Hlt.
    assert (2 ^ Zpos (digits2_pos p) <= 2 ^ (d - 1)) by (apply Z.pow_le_mono_r; lia).
    lia. }
  lia.
Qed.

Lemma Zdigits2_unique z d :
  2 ^ (d - 1) <= z < 2 ^ d -> 0 < z -> Zdigits2 z = d.
Proof.
  intros Hb Hz. destruct z as [|p|p]; try lia. simpl.
  now apply digits2_pos_unique.
Qed.

(** The location computed from a remainder encodes the quotient. *)
Lemma new_location_enc D q r :
  0 < D -> 0 <= q -> 0 <= r < D ->
  enc (q * D + r) D (shr_record_of_loc q (new_location D r)).
Proof.
  intros HD Hq Hr. unfold enc. split; [lia|].
  rewrite shr_m_of_loc. split; [lia|]. exists r. split; [reflexivity|]. split; [lia|].
  unfold new_location, new_location_even, new_location_odd.
  destruct (Z.even D) eqn:Hev.
  - zcases; simpl; zcases; simpl; split; try reflexivity; lia.
  - assert (Hodd : D <> 2 * r).
    { intros ->. rewrite Z.even_mul in Hev. discriminate. }
    zcases; simpl; zcases; simpl; split; try reflexivity; lia.
Qed.

(** A right shift by one bit halves the unit and keeps the encoded value. *)
Lemma enc_shr_1 N D mrs : enc N D mrs -> enc N (2 * D) (shr_1 mrs).
Proof.
  intros (HD & Hm & rho & HN & Hrho & Hr & Hs).
  destruct (shr_1_spec mrs Hm) as (Hm1 & Hm2 & Hs1).
  split; [lia|]. split; [exact Hm2|].
  exists (Z.b2z (shr_r (shr_1 mrs)) * D + rho).
  rewrite Hs1, Hr, Hs.
  destruct (shr_r (shr_1 mrs)); simpl Z.b2z in *.
  - split; [lia|]. split; [lia|]. split; [symmetry; apply Z.leb_le; lia|].
    zcases; simpl; try reflexivity; lia.
  - split; [lia|]. split; [lia|]. split; [symmetry; apply Z.leb_gt; lia|].
    zcases; simpl; try reflexivity; lia.
Qed.

(** Rounding to nearest even moves the mantissa by at most half a unit. *)
Lemma enc_round N D mrs :
  enc N D mrs ->
  let M := round_nearest_even (shr_m mrs) (loc_of_shr_record mrs) in
  (2 * M - 1) * D <= 2 * N <= (2 * M + 1) * D /\
  shr_m mrs <= M <= shr_m mrs + 1.
Proof.
  intros (HD & Hm & rho & HN & Hrho & Hr & Hs). cbv zeta.
  destruct mrs as [m r s]. cbn [shr_m shr_r shr_s] in *. subst N.
  destruct r, s; cbn [round_nearest_even loc_of_shr_record].
  all: destruct (Z.leb_spec D (2 * rho)); try discriminate.
  all: destruct (Z.eqb_spec rho 0); try discriminate.
  all: destruct (Z.eqb_spec (2 * rho) D); try discriminate.
  all: try destruct (Z.even m).
  all: split; [split; nia | lia].
Qed.

Lemma finish_normal s M0 e :
  2 ^ 23 <= M0 <= 2 ^ 24 -> -149 <= e <= 103 ->
  exists (M : positive) (j : Z),
    finish s M0 e = S754_finite s M (e + j) /\
    2 ^ 23 <= Zpos M < 2 ^ 24 /\ 0 <= j <= 1 /\
    Zpos M * 2 ^ j = M0.
Proof.
  intros HM He. unfold finish, shr_fexp, F32.prec, F32.emax.
  destruct (Z.eq_dec M0 (2 ^ 24)) as [->|Hne].
  - exists (8388608%positive), 1.
    rewrite (Zdigits2_unique (2 ^ 24) 25) by (simpl; lia).
    replace (fexp 24 128 (25 + e) - e) with 1 by (unfold fexp, emin; lia).
    cbn [shr shr_record_of_loc SpecFloat.iter_pos].
    change (shr_1 _) with {| shr_m := 8388608; shr_r := false; shr_s := false |}.
    cbn [shr_m].
    destruct (Z.leb_spec (e + 1) (128 - 24)); [|lia].
    repeat split; try lia; reflexivity.
  - destruct M0 as [|M|M]; try lia.
    exists M, 0.
    rewrite (Zdigits2_unique (Zpos M) 24) by lia.
    replace (fexp 24 128 (24 + e) - e) with 0 by (unfold fexp, emin; lia).
    cbn [shr shr_record_of_loc shr_m].
    destruct (Z.leb_spec e (128 - 24)); [|lia].
    rewrite Z.add_0_r. repeat split; try lia.
Qed.

Lemma round_aux_normal s N D q l e :
  enc N D (shr_record_of_loc q l) ->
  2 ^ 23 <= q < 2 ^ 25 -> -149 <= e <= 102 ->
  exists (M : positive) (j : Z),
    binary_round_aux F32.prec F32.emax s q e l = S754_finite s M (e + j) /\
    2 ^ 23 <= Zpos M < 2 ^ 24 /\ 0 <= j <= 2 /\
    (2 * Zpos M - 1) * (2 ^ j * D) <= 2 * N <= (2 * Zpos M + 1) * (2 ^ j * D).
Proof.
  intros Henc Hq He. rewrite binary_round_aux_unfold.
  unfold shr_fexp, F32.prec, F32.emax.
  assert (HD : 0 < D) by apply Henc.
  destruct (Z_lt_le_dec q (2 ^ 24)) as [Hlt|Hge].
  - rewrite (Zdigits2_unique q 24) by lia.
    replace (fexp 24 128 (24 + e) - e) with 0 by (unfold fexp, emin; lia).
    cbn [shr].
    destruct (enc_round _ _ _ Henc) as [Hb Hr]. rewrite shr_m_of_loc in Hb, Hr |- *.
    set (M0 := round_nearest_even _ _) in *.
    destruct (finish_normal s M0 e) as (M & j & Hf & HM & Hj & HM0); [lia|lia|].
    exists M, j. rewrite Hf. split; [reflexivity|]. split; [lia|]. split; [lia|].
    assert (j = 0 \/ j = 1) as [-> | ->] by lia;
      change (2 ^ 0) with 1 in *; change (2 ^ 1) with 2 in *; nia.
  - rewrite (Zdigits2_unique q 25) by lia.
    replace (fexp 24 128 (25 + e) - e) with 1 by (unfold fexp, emin; lia).
    cbn [shr SpecFloat.iter_pos].
    apply enc_shr_1 in Henc.
    destruct (enc_round _ _ _ Henc) as [Hb Hr].
    destruct (shr_1_spec (shr_record_of_loc q l)) as (Hs1 & Hs2 & _).
    { rewrite shr_m_of_loc. lia. }
    rewrite shr_m_of_loc in Hs1.
    assert (Hm : 2 ^ 23 <= shr_m (shr_1 (shr_record_of_loc q l)) < 2 ^ 24).
    { destruct (shr_r (shr_1 (shr_record_of_loc q l))); simpl Z.b2z in Hs1; lia. }
    set (M0 := round_nearest_even _ _) in *.
    destruct (finish_normal s M0 (e + 1)) as (M & j & Hf & HM & Hj & HM0); [lia|lia|].
    exists M, (1 + j). rewrite Hf. replace (e + 1 + j) with (e + (1 + j)) by lia.
    split; [reflexivity|]. split; [lia|]. split; [lia|].
    assert (j = 0 \/ j = 1) as [-> | ->] by lia; simpl (2 ^ _) in *; nia.
Qed.

(** The quotient of two positive normal values, away from overflow and
    underflow: a normal value within half a unit in the last place of the
    exact quotient. *)
Lemma div_normal (m1 m2 : positive) (e1 e2 : Z) :
  2 ^ 23 <= Zpos m1 < 2 ^ 24 -> 2 ^ 23 <= Zpos m2 < 2 ^ 24 ->
  -125 <= e1 - e2 <= 126 ->
  exists (M : positive) (j : Z),
    F32.div (S754_finite false m1 e1) (S754_finite false m2 e2)
      = S754_finite false M (e1 - e2 - 24 + j) /\
    2 ^ 23 <= Zpos M < 2 ^ 24 /\ 0 <= j <= 2 /\
    (2 * Zpos M - 1) * (2 ^ j * Zpos m2) <= 2 * (Zpos m1 * 2 ^ 24)
      <= (2 * Zpos M + 1) * (2 ^ j * Zpos m2).
Proof.
  intros H1 H2 He.
  unfold F32.div, SFdiv, SFdiv_core_binary. cbn [xorb Zdigits2].
  rewrite (digits2_pos_unique m1 24), (digits2_pos_unique m2 24) by lia.
  replace (Z.min (fexp F32.prec F32.emax (24 + e1 - (24 + e2))) (e1 - e2))
    with (e1 - e2 - 24) by (unfold fexp, emin, F32.prec, F32.emax; lia).
  replace (e1 - e2 - (e1 - e2 - 24)) with 24 by lia.
  cbv iota. rewrite Z.shiftl_mul_pow2 by lia.
  pose proof (Z_div_mod (Zpos m1 * 2 ^ 24) (Zpos m2) ltac:(lia)) as Hdm.
  destruct (Z.div_eucl (Zpos m1 * 2 ^ 24) (Zpos m2)) as [q r].
  destruct Hdm as [HN Hr].
  assert (Hq : 2 ^ 23 <= q < 2 ^ 25) by nia.
  rewrite HN. replace (Zpos m2 * q + r) with (q * Zpos m2 + r) by lia.
  apply round_aux_normal; try lia.
  apply new_location_enc; lia.
Qed.

Lemma ltb_finite_pos M e M' e' :
  F32.ltb (S754_finite false M e) (S754_finite false M' e') =
  match Z.compare e e' with
  | Lt => true
  | Gt => false
  | Eq => Zpos M <? Zpos M'
  end.
Proof.
  unfold F32.ltb, SFltb, SFcompare. destruct (Z.compare e e'); reflexivity.
Qed.

(** The image's aspect [960.0f / 720]: the binary32 value next above 4/3. *)
Lemma image_aspect_value :
  F32.div (F32.of_int WIDTH) (F32.of_int HEIGHT) = S754_finite false 11184811 (-23).
Proof. vm_compute. reflexivity. Qed.

(** Where both sides convert exactly, the rounded quotient [w / h] is below
    the rounded 4/3 exactly when the rational one is below 4/3. *)
Lemma quotient_vs_four_thirds (w h : Z) (m1 m2 : positive) (e1 e2 : Z) :
  1 <= w -> 1 <= h < 2 ^ 24 ->
  2 ^ 23 <= Zpos m1 < 2 ^ 24 -> 2 ^ 23 <= Zpos m2 < 2 ^ 24 ->
  -23 <= e1 <= 0 -> -23 <= e2 <= 0 ->
  Zpos m1 = w * 2 ^ (- e1) -> Zpos m2 = h * 2 ^ (- e2) ->
  F32.ltb (F32.div (S754_finite false m1 e1) (S754_finite false m2 e2))
          (S754_finite false 11184811 (-23)) = (3 * w <? 4 * h).
Proof.
  intros Hw Hh H1 H2 He1 He2 Hm1 Hm2.
  destruct (div_normal m1 m2 e1 e2 H1 H2 ltac:(lia)) as (M & j & Hd & HM & Hj & Hb).
  rewrite Hd, ltb_finite_pos.
  set (P1 := 2 ^ (- e1)) in *. set (P2 := 2 ^ (- e2)) in *.
  assert (HP1 : 0 < P1) by (apply Z.pow_pos_nonneg; lia).
  assert (HP2 : 0 < P2) by (apply Z.pow_pos_nonneg; lia).
  assert (HJ : 0 < 2 ^ j) by (apply Z.pow_pos_nonneg; lia).
  set (J := 2 ^ j) in *.
  rewrite Hm1, Hm2 in Hb. destruct Hb as [Hlo Hhi].
  replace ((2 * Zpos M - 1) * (J * (h * P2)))
    with ((2 * Zpos M - 1) * h * (J * P2)) in Hlo by ring.
  replace ((2 * Zpos M + 1) * (J * (h * P2)))
    with ((2 * Zpos M + 1) * h * (J * P2)) in Hhi by ring.
  replace (2 * (w * P1 * 2 ^ 24)) with (2 ^ 25 * w * P1) in Hlo, Hhi by ring.
  destruct (Z.compare_spec (e1 - e2 - 24 + j) (-23)) as [He|He|He].
  - (* the binade of 4/3 *)
    assert (HJP : J * P2 = 2 * P1).
    { unfold J, P1, P2. rewrite <- Z.pow_add_r by lia.
      replace (j + - e2) with (1 + - e1) by lia.
      rewrite Z.pow_add_r by lia. reflexivity. }
    rewrite HJP in Hlo, Hhi.
    assert (Hlo' : (2 * Zpos M - 1) * h <= 2 ^ 24 * w).
    { apply (Z.mul_le_mono_pos_r _ _ (2 * P1)); lia. }
    assert (Hhi' : 2 ^ 24 * w <= (2 * Zpos M + 1) * h).
    { apply (Z.mul_le_mono_pos_r _ _ (2 * P1)); lia. }
    clear Hlo Hhi HJP.
    destruct (Z.ltb_spec (Zpos M) 11184811), (Z.ltb_spec (3 * w) (4 * h));
      try reflexivity; exfalso; nia.
  - (* below 1 *)
    assert (HJP : J * P2 <= P1).
    { unfold J, P1, P2. rewrite <- Z.pow_add_r by lia.
      apply Z.pow_le_mono_r; lia. }
    symmetry. apply Z.ltb_lt.
    assert (HJP0 : 0 < J * P2) by (apply Z.mul_pos_pos; assumption).
    assert (H0 : 2 ^ 25 * w * (J * P2) <= 2 ^ 25 * w * P1).
    { apply Z.mul_le_mono_nonneg_l; lia. }
    assert (H3 : (2 * Zpos M + 1) * h * (J * P2) <= (2 ^ 25 - 1) * h * (J * P2)).
    { apply Z.mul_le_mono_nonneg_r; [lia|].
      apply Z.mul_le_mono_nonneg_r; lia. }
    assert (H4 : 2 ^ 25 * w <= (2 ^ 25 - 1) * h).
    { apply (Z.mul_le_mono_pos_r _ _ (J * P2)); lia. }
    lia.
  - (* at least 2 *)
    assert (HJP : 4 * P1 <= J * P2).
    { unfold J, P1, P2. rewrite <- Z.pow_add_r by lia.
      change 4 with (2 ^ 2). rewrite <- Z.pow_add_r by lia.
      apply Z.pow_le_mono_r; lia. }
    symmetry. apply Z.ltb_ge.
    assert (H0 : (2 ^ 24 - 1) * h * (4 * P1) <= (2 * Zpos M - 1) * h * (4 * P1)).
    { apply Z.mul_le_mono_nonneg_r; [lia|].
      apply Z.mul_le_mono_nonneg_r; lia. }
    assert (H3 : (2 * Zpos M - 1) * h * (4 * P1) <= (2 * Zpos M - 1) * h * (J * P2)).
    { apply Z.mul_le_mono_nonneg_l; [|lia]. apply Z.mul_nonneg_nonneg; lia. }
    assert (H4 : (2 ^ 24 - 1) * h * 4 <= 2 ^ 25 * w).
    { apply (Z.mul_le_mono_pos_r _ _ P1); lia. }
    lia.
Qed.

(** ** The frame routine: skipped and failed frames *)

Lemma Draw_no_cmdbuf L THREADS env st :
  cmdbuf_acquired env = false ->
  Draw L THREADS env st =
    Some (st, [AcquireGPUCommandBuffer;
               LogMessage "Failed to acquire command buffer: %s"]).
Proof. intros H. unfold Draw. now rewrite H. Qed.

Lemma Draw_no_target L THREADS env st :
  target_failure env = true ->
  Draw L THREADS env st =
    Some (st, [AcquireGPUCommandBuffer; WaitAndAcquireGPUSwapchainTexture;
               LogMessage "Failed to acquire swapchain texture: %s";
               CancelGPUCommandBuffer]).
Proof.
  unfold target_failure. intros H.
  apply andb_true_iff in H as [Hc Hs]. apply negb_true_iff in Hs.
  unfold Draw. now rewrite Hc, Hs.
Qed.

Lemma Draw_zero_area L THREADS env st :
  cmdbuf_acquired env = true -> swapchain_ok env = true ->
  zero_area env = true ->
  Draw L THREADS env st =
    Some (st, [AcquireGPUCommandBuffer; WaitAndAcquireGPUSwapchainTexture;
               SubmitGPUCommandBuffer]).
Proof.
  intros Hc Hs Hz. unfold Draw. rewrite Hc, Hs. simpl.
  unfold zero_area in Hz. now rewrite Hz.
Qed.

Lemma skipped_false env :
  skipped env = false ->
  cmdbuf_acquired env = true /\ swapchain_ok env = true /\
  negb (swapchain_texture env)
    || (swapchain_width env =? 0) || (swapchain_height env =? 0) = false.
Proof.
  unfold skipped, zero_area. intros H.
  apply orb_false_iff in H as [H Hz]. apply orb_false_iff in H as [Hc Hs].
  apply negb_false_iff in Hc, Hs. auto.
Qed.

Lemma Draw_no_compute L THREADS env st :
  compute_failure env = true ->
  Draw L THREADS env st =
    Some ({| pitch := pitch st; yaw := yaw st; distance := distance st;
             uniformBuffer :=
               UpdateUniforms (H := Scalar_f32 L) (pitch st) (yaw st)
                              (distance st) (uniformBuffer st) |},
          [AcquireGPUCommandBuffer; WaitAndAcquireGPUSwapchainTexture;
           BeginGPUComputePass;
           LogMessage "Failed to begin compute pass: %s";
           SubmitGPUCommandBuffer]).
Proof.
  unfold compute_failure. intros H.
  apply andb_true_iff in H as [Hk Hp]. apply negb_true_iff in Hk, Hp.
  destruct (skipped_false env Hk) as (Hc & Hs & Hz).
  unfold Draw. now rewrite Hc, Hs, Hz, Hp.
Qed.

Lemma Draw_complete L THREADS env st :
  skipped env = false -> compute_pass_begun env = true ->
  Draw L THREADS env st =
    rect <- letterbox (swapchain_width env) (swapchain_height env) ;;
    Some ({| pitch := pitch st; yaw := yaw st; distance := distance st;
             uniformBuffer :=
               UpdateUniforms (H := Scalar_f32 L) (pitch st) (yaw st)
                              (distance st) (uniformBuffer st) |},
          [AcquireGPUCommandBuffer; WaitAndAcquireGPUSwapchainTexture;
           BeginGPUComputePass;
           BindGPUComputePipeline;
           PushGPUComputeUniformData
             (UpdateUniforms (H := Scalar_f32 L) (pitch st) (yaw st)
                             (distance st) (uniformBuffer st));
           BindGPUComputeStorageBuffers;
           DispatchGPUCompute (groupsX THREADS) (groupsY THREADS) 1;
           EndGPUComputePass;
           BlitGPUTexture
             {| load_op := LOADOP_CLEAR; clear_color := clearColor;
                source_w := WIDTH; source_h := HEIGHT;
                destination := rect; filter := FILTER_NEAREST |};
           SubmitGPUCommandBuffer]).
Proof.
  intros Hk Hp. destruct (skipped_false env Hk) as (Hc & Hs & Hz).
  unfold Draw. now rewrite Hc, Hs, Hz, Hp.
Qed.
(** ** The orbit camera *)

Lemma kPan_value : kPan = S754_finite false 8589935 (-32).
Proof. vm_compute. reflexivity. Qed.

Lemma kClamp_value : kClamp = S754_finite false 13092909 (-23).
Proof. vm_compute. reflexivity. Qed.

Lemma half_pi_value : half_pi = S754_finite false 13176795 (-23).
Proof. vm_compute. reflexivity. Qed.

Lemma std_max_floor x : F32.leb F32.one (std_max F32.one x) = true.
Proof.
  unfold std_max. destruct (F32.ltb F32.one x) eqn:E.
  - now apply ltb_leb.
  - reflexivity.
Qed.

Lemma std_max_at_floor x : F32.ltb F32.one x = false -> std_max F32.one x = F32.one.
Proof. unfold std_max. now intros ->. Qed.

Lemma std_clamp_in_band v :
  F32.is_nan v = false -> in_band (std_clamp v (F32.neg kClamp) kClamp) = true.
Proof.
  intros Hv. unfold std_clamp.
  destruct (F32.ltb v (F32.neg kClamp)) eqn:Elo; [vm_compute; reflexivity|].
  destruct (F32.ltb kClamp v) eqn:Ehi; [vm_compute; reflexivity|].
  unfold in_band. apply andb_true_iff. split.
  - apply not_ltb_leb; auto.
  - apply not_ltb_leb; auto.
Qed.

Lemma in_band_finite p :
  in_band p = true ->
  (match p with S754_zero _ | S754_finite _ _ _ => true | _ => false end) = true.
Proof.
  unfold in_band. rewrite kClamp_value.
  destruct p as [s|[]| |s m e]; try reflexivity; vm_compute; intros H; discriminate.
Qed.

Lemma in_band_between_poles p : in_band p = true -> between_poles p = true.
Proof.
  unfold in_band, between_poles. intros H.
  apply andb_true_iff in H as [Hlo Hhi]. apply andb_true_iff. split.
  - apply (ltb_leb_trans _ (F32.neg kClamp)); [vm_compute; reflexivity | exact Hlo].
  - apply (leb_ltb_trans _ kClamp); [exact Hhi | vm_compute; reflexivity].
Qed.

(** One event keeps the pitch in the closed band. *)
Lemma handle_event_in_band e st running :
  motion_is_number e = true -> in_band (pitch st) = true ->
  in_band (pitch (fst (handle_event e (st, running)))) = true.
Proof.
  intros He Hp. destruct e as [y | state xrel yrel | |]; cbn [handle_event]; auto.
  destruct (Z.land state SDL_BUTTON_LMASK =? 0); cbn [fst pitch]; auto.
  apply std_clamp_in_band, add_finite_number.
  - now apply in_band_finite.
  - rewrite kPan_value. apply mul_finite_number.
    cbn [motion_is_number] in He. now apply negb_true_iff in He.
Qed.

Lemma handle_event_surj e sr :
  handle_event e sr = (fst (handle_event e sr), snd (handle_event e sr)).
Proof. now destruct (handle_event e sr). Qed.

Lemma pump_in_band evs : forall st running,
  forallb motion_is_number evs = true -> in_band (pitch st) = true ->
  in_band (pitch (fst (pump evs (st, running)))) = true.
Proof.
  induction evs as [|e evs IH]; intros st running Hall Hp; [exact Hp|].
  cbn [forallb] in Hall. apply andb_true_iff in Hall as [He Hall].
  unfold pump. cbn [fold_left]. rewrite handle_event_surj.
  apply IH; [exact Hall|]. now apply handle_event_in_band.
Qed.

(** One event keeps the distance at or above the floor. *)
Lemma handle_event_floor e st running :
  F32.leb F32.one (distance st) = true ->
  F32.leb F32.one (distance (fst (handle_event e (st, running)))) = true.
Proof.
  intros Hd. destruct e as [y | state xrel yrel | |]; cbn [handle_event fst distance]; auto.
  - apply std_max_floor.
  - destruct (Z.land state SDL_BUTTON_LMASK =? 0); exact Hd.
Qed.

Lemma pump_floor evs : forall st running,
  F32.leb F32.one (distance st) = true ->
  F32.leb F32.one (distance (fst (pump evs (st, running)))) = true.
Proof.
  induction evs as [|e evs IH]; intros st running Hd; [exact Hd|].
  unfold pump. cbn [fold_left]. rewrite handle_event_surj.
  apply IH. now apply handle_event_floor.
Qed.

(** Scrolling in at the floor, any number of times, stays at the floor. *)
Lemma pump_wheel_at_floor ys : forall st running,
  distance st = F32.one ->
  Forall (fun y => F32.ltb F32.one (F32.sub F32.one (F32.mul y kZoom)) = false) ys ->
  distance (fst (pump (map MouseWheel ys) (st, running))) = F32.one.
Proof.
  induction ys as [|y ys IH]; intros st running Hd Hall; [exact Hd|].
  inversion Hall as [|? ? Hy Hrest]; subst.
  unfold pump. cbn [map fold_left handle_event].
  apply IH; [|exact Hrest].
  cbn [distance]. rewrite Hd. now apply std_max_at_floor.
Qed.

(** The running flag is cleared by a quit event and by nothing else. *)
Lemma pump_running evs : forall st running,
  snd (pump evs (st, running)) = running && negb (has_quit evs).
Proof.
  induction evs as [|e evs IH]; intros st running.
  - simpl. now rewrite andb_true_r.
  - unfold pump. cbn [fold_left]. rewrite handle_event_surj.
    fold (pump evs (fst (handle_event e (st, running)), snd (handle_event e (st, running)))).
    rewrite IH. unfold has_quit. cbn [existsb].
    destruct e as [y | state xrel yrel | |]; cbn [handle_event snd].
    + reflexivity.
    + destruct (Z.land state SDL_BUTTON_LMASK =? 0); reflexivity.
    + now rewrite andb_false_r.
    + reflexivity.
Qed.

(** The scenario of section 8: from the initial state, one drag of 100
    pixels to the right turns the yaw to [0.2f] and leaves the pitch at 0. *)
Example drag_pans_yaw :
  let st := fst (pump [MouseMotion SDL_BUTTON_LMASK (F32.of_int 100) F32.zero]
                      (initial_state, true)) in
  yaw st = F32.lit 2 10 /\ pitch st = F32.zero /\ distance st = distance initial_state.
Proof. vm_compute. repeat split. Qed.

(** A motion without the left button held changes nothing. *)
Example hover_changes_nothing :
  pump [MouseMotion 0 (F32.of_int 100) F32.one] (initial_state, true)
  = (initial_state, true).
Proof. reflexivity. Qed.

(** One notch of the wheel takes the distance from 1.0e11 to 7.5e10; five
    notches at once would pass the origin and stop at 1. *)
Example wheel_notches :
  distance (fst (pump [MouseWheel F32.one] (initial_state, true)))
    = F32.lit 75000000000 1 /\
  distance (fst (pump [MouseWheel (F32.of_int 5)] (initial_state, true)))
    = F32.one.
Proof. vm_compute. split; reflexivity. Qed.

(** ** The clamp band as an interval of reals *)

Lemma kClamp_real : F32.to_R kClamp = (13092909 / 8388608)%R.
Proof. rewrite kClamp_value. reflexivity. Qed.

(** Four terms of the series of [2 atan (1/3) + atan (1/7)]. *)
Lemma PI4_lower : (7853 / 10000 < PI / 4)%R.
Proof.
  pose proof (PI_2_3_7_ineq 1) as [H _].
  eapply Rlt_le_trans; [|exact H].
  unfold sum_f_R0, tg_alt, PI_2_3_7_tg, Ratan_seq. simpl.
  lra.
Qed.

(** The binary32 bound of the clamp lies below the pole. *)
Lemma kClamp_below_pole : (F32.to_R kClamp < PI / 2)%R.
Proof. rewrite kClamp_real. pose proof PI4_lower. lra. Qed.

Lemma canonical_small m e :
  valid_binary F32.prec F32.emax (S754_finite false m e) = true ->
  e <= -24 -> (0 < IZR (Zpos m) / IZR (2 ^ (- e)) < 1)%R.
Proof.
  unfold valid_binary, bounded, canonical_mantissa, F32.prec, F32.emax.
  intros Hv He. apply andb_true_iff in Hv as [Hc _]. apply Z.eqb_eq in Hc.
  unfold fexp, emin in Hc.
  pose proof (digits2_pos_spec m) as [_ Hu].
  assert (Hd : Zpos (digits2_pos m) <= 24) by lia.
  assert (Hm : Zpos m < 2 ^ (- e)).
  { eapply Z.lt_le_trans; [exact Hu|]. apply Z.pow_le_mono_r; lia. }
  assert (HP : (0 < IZR (2 ^ (- e)))%R) by (apply IZR_lt; lia).
  assert (Hm0 : (0 < IZR (Zpos m))%R) by (apply IZR_lt; lia).
  apply IZR_lt in Hm. split.
  - apply Rdiv_lt_0_compat; assumption.
  - apply (Rmult_lt_reg_r (IZR (2 ^ (- e)))); [exact HP|].
    unfold Rdiv. rewrite Rmult_assoc, Rinv_l, Rmult_1_r, Rmult_1_l by lra.
    exact Hm.
Qed.

(** A canonical binary32 pitch that the clamp lets through stands for a real
    in the interval between the real values of the two bounds. *)
Lemma in_band_real p :
  valid_binary F32.prec F32.emax p = true -> in_band p = true ->
  (- F32.to_R kClamp <= F32.to_R p <= F32.to_R kClamp)%R.
Proof.
  intros Hv Hb. rewrite kClamp_real. unfold in_band in Hb. rewrite kClamp_value in Hb.
  apply andb_true_iff in Hb as [Hlo Hhi].
  destruct p as [s|s| |s m e]; cbn [F32.to_R]; try lra.
  destruct s.
  - clear Hhi. unfold F32.leb, SFleb, F32.neg, SFopp, SFcompare in Hlo.
    cbn [negb] in Hlo.
    destruct (Z.compare_spec (-23) e) as [He|He|He]; try discriminate.
    + subst e. change (0 <=? -23) with false. cbv iota.
      change (2 ^ (- -23))%Z with 8388608%Z.
      pose proof (Pos.compare_spec 13092909 m) as Hs. unfold Pos.compare in Hs.
      revert Hlo. destruct Hs as [Hm|Hm|Hm]; intros Hlo; try discriminate.
      * subst m. lra.
      * apply Pos2Z.pos_lt_pos, IZR_lt in Hm.
        assert (0 < IZR (Zpos m))%R by (apply IZR_lt; lia). lra.
    + destruct (Z.leb_spec 0 e); [lia|].
      assert (Hv' : valid_binary F32.prec F32.emax (S754_finite false m e) = true)
        by exact Hv.
      pose proof (canonical_small m e Hv' ltac:(lia)). lra.
  - clear Hlo. unfold F32.leb, SFleb, SFcompare in Hhi.
    destruct (Z.compare_spec e (-23)) as [He|He|He]; try discriminate.
    + subst e. change (0 <=? -23) with false. cbv iota.
      change (2 ^ (- -23))%Z with 8388608%Z.
      pose proof (Pos.compare_spec m 13092909) as Hs. unfold Pos.compare in Hs.
      revert Hhi. destruct Hs as [Hm|Hm|Hm]; intros Hhi; try discriminate.
      * subst m. lra.
      * apply Pos2Z.pos_lt_pos, IZR_lt in Hm.
        assert (0 < IZR (Zpos m))%R by (apply IZR_lt; lia). lra.
    + destruct (Z.leb_spec 0 e); [lia|].
      pose proof (canonical_small m e Hv ltac:(lia)). lra.
Qed.

(** ** Binary32: rounding error over the reals *)

Lemma bpow_pos e : (0 < bpow e)%R.
Proof. apply powerRZ_lt. lra. Qed.

Lemma bpow_add a b : bpow (a + b) = (bpow a * bpow b)%R.
Proof. apply powerRZ_add. lra. Qed.

Lemma bpow_IZR e : 0 <= e -> bpow e = IZR (2 ^ e).
Proof.
  intros He. unfold bpow. rewrite <- (Z2Nat.id e) at 1 by exact He.
  rewrite <- pow_powerRZ. rewrite pow_IZR. rewrite Z2Nat.id by exact He.
  reflexivity.
Qed.

Lemma bpow_neg e : bpow (- e) = (/ bpow e)%R.
Proof. apply powerRZ_neg'. Qed.

Lemma bpow_le a b : a <= b -> (bpow a <= bpow b)%R.
Proof.
  intros Hab. replace b with (a + (b - a)) by lia. rewrite bpow_add.
  rewrite (bpow_IZR (b - a)) by lia.
  assert (0 < 2 ^ (b - a)) by (apply Z.pow_pos_nonneg; lia).
  assert (1 <= 2 ^ (b - a)) by lia.
  pose proof (bpow_pos a). apply IZR_le in H0.
  rewrite <- (Rmult_1_r (bpow a)) at 1. apply Rmult_le_compat_l; lra.
Qed.

Lemma bpow_succ e : bpow (e + 1) = (2 * bpow e)%R.
Proof. rewrite bpow_add. unfold bpow at 2. simpl. lra. Qed.

Lemma to_R_finite s m e :
  F32.to_R (S754_finite s m e) = (sgn s * (IZR (Zpos m) * bpow e))%R.
Proof.
  unfold F32.to_R, sgn. destruct (Z.leb_spec 0 e) as [He|He].
  - rewrite mult_IZR, <- bpow_IZR by exact He. destruct s; lra.
  - assert (Hb : bpow e = (/ IZR (2 ^ (- e)))%R).
    { rewrite <- (Z.opp_involutive e) at 1.
      rewrite bpow_neg, bpow_IZR by lia. reflexivity. }
    rewrite Hb. destruct s; unfold Rdiv; lra.
Qed.

Lemma sgn_xorb a b : sgn (xorb a b) = (sgn a * sgn b)%R.
Proof. destruct a, b; unfold sgn; simpl; lra. Qed.

Lemma sgn_abs s : Rabs (sgn s) = 1%R.
Proof.
  destruct s; unfold sgn; [rewrite Rabs_left | rewrite Rabs_right]; lra.
Qed.

(** *** Shift records as reals *)

Lemma encR_exact m : 0 <= m -> encR (IZR m) (shr_record_of_loc m loc_Exact).
Proof.
  intros Hm. split; [exact Hm|]. exists 0%R. cbn [shr_record_of_loc shr_m shr_r shr_s].
  split; [lra|]. split; [lra|]. split.
  - split; intros H; [discriminate | lra].
  - split; intros H; [left; reflexivity | reflexivity].
Qed.

Lemma enc_encR N D mrs : enc N D mrs -> encR (IZR N / IZR D) mrs.
Proof.
  intros (HD & Hm & rho & HN & Hrho & Hr & Hs).
  split; [exact Hm|]. exists (IZR rho / IZR D)%R.
  assert (HDr : (0 < IZR D)%R) by (apply IZR_lt; exact HD).
  assert (H0 : (0 <= IZR rho)%R) by (apply IZR_le; lia).
  assert (H1 : (IZR rho < IZR D)%R) by (apply IZR_lt; lia).
  split.
  { subst N. rewrite plus_IZR, mult_IZR. field. lra. }
  split.
  { split.
    - apply Rmult_le_pos; [lra|]. apply Rlt_le, Rinv_0_lt_compat, HDr.
    - apply (Rmult_lt_reg_r (IZR D)); [exact HDr|].
      unfold Rdiv. rewrite Rmult_assoc, Rinv_l by lra. lra. }
  assert (Hhalf : forall c : R, (c <= IZR rho / IZR D)%R <-> (c * IZR D <= IZR rho)%R).
  { intros c. split; intros Hc.
    - apply (Rmult_le_compat_r (IZR D)) in Hc; [|lra].
      unfold Rdiv in Hc. rewrite Rmult_assoc, Rinv_l, Rmult_1_r in Hc by lra. exact Hc.
    - apply (Rmult_le_reg_r (IZR D)); [exact HDr|].
      unfold Rdiv. rewrite Rmult_assoc, Rinv_l, Rmult_1_r by lra. exact Hc. }
  assert (Heq : forall c : R, (IZR rho / IZR D = c)%R <-> (IZR rho = c * IZR D)%R).
  { intros c. split; intros Hc.
    - rewrite <- Hc. field. lra.
    - rewrite Hc. field. lra. }
  split.
  - rewrite Hr. split.
    + intros H. apply Z.leb_le in H. apply Hhalf. apply IZR_le in H.
      rewrite mult_IZR in H. lra.
    + intros H. apply Z.leb_le. apply Hhalf in H. apply le_IZR.
      rewrite mult_IZR. lra.
  - rewrite Hs. split.
    + intros H. apply negb_false_iff, orb_true_iff in H. destruct H as [H|H].
      * apply Z.eqb_eq in H. left. subst rho. unfold Rdiv. lra.
      * apply Z.eqb_eq in H. right. apply Heq. apply IZR_eq in H.
        rewrite mult_IZR in H. lra.
    + intros H. apply negb_false_iff, orb_true_iff. destruct H as [H|H].
      * left. apply Z.eqb_eq. apply Heq in H. apply eq_IZR. lra.
      * right. apply Z.eqb_eq. apply Heq in H. apply eq_IZR.
        rewrite mult_IZR. lra.
Qed.

Lemma encR_shr_1 v mrs : encR v mrs -> encR (v / 2) (shr_1 mrs).
Proof.
  intros (Hm & f & Hv & Hf & Hr & Hs).
  destruct (shr_1_spec mrs Hm) as (Hm1 & Hm2 & Hs1).
  split; [exact Hm2|].
  exists ((IZR (Z.b2z (shr_r (shr_1 mrs))) + f) / 2)%R.
  split.
  { rewrite Hv, Hm1, plus_IZR, mult_IZR. lra. }
  rewrite Hs1.
  destruct (shr_r (shr_1 mrs)); cbn [Z.b2z].
  - split; [lra|]. split.
    + split; intros; [lra | reflexivity].
    + split.
      * intros H. apply orb_false_iff in H as [H1 H2].
        right. assert (f = 0 \/ f = 1 / 2)%R as [Hf0|Hf0] by (apply Hs; exact H2).
        -- lra.
        -- exfalso. assert (shr_r mrs = true) by (apply Hr; lra). congruence.
      * intros [H|H]; [lra|]. assert (Hf0 : f = 0%R) by lra.
        apply orb_false_iff. split.
        -- destruct (shr_r mrs) eqn:E; [|reflexivity].
           assert (1 / 2 <= f)%R by (apply Hr; reflexivity). lra.
        -- apply Hs. left. exact Hf0.
  - split; [lra|]. split.
    + split; intros H; [discriminate | lra].
    + split.
      * intros H. apply orb_false_iff in H as [H1 H2].
        left. assert (f = 0 \/ f = 1 / 2)%R as [Hf0|Hf0] by (apply Hs; exact H2).
        -- lra.
        -- exfalso. assert (shr_r mrs = true) by (apply Hr; lra). congruence.
      * intros [H|H]; [|lra]. assert (Hf0 : f = 0%R) by lra.
        apply orb_false_iff. split.
        -- destruct (shr_r mrs) eqn:E; [|reflexivity].
           assert (1 / 2 <= f)%R by (apply Hr; reflexivity). lra.
        -- apply Hs. left. exact Hf0.
Qed.

Lemma encR_iter p : forall v mrs,
  encR v mrs -> encR (v * bpow (- Zpos p)) (SpecFloat.iter_pos shr_1 p mrs).
Proof.
  induction p as [p IH | p IH |]; intros v mrs H; cbn [SpecFloat.iter_pos].
  - replace (v * bpow (- Zpos p~1))%R
      with (v / 2 * bpow (- Zpos p) * bpow (- Zpos p))%R.
    + apply IH, IH, encR_shr_1, H.
    + replace (- Zpos p~1) with (- Zpos p + - Zpos p + -1) by lia.
      rewrite !bpow_add. replace (bpow (-1)) with (/ 2)%R; [field|].
      unfold bpow. simpl. lra.
  - replace (v * bpow (- Zpos p~0))%R
      with (v * bpow (- Zpos p) * bpow (- Zpos p))%R.
    + apply IH, IH, H.
    + replace (- Zpos p~0) with (- Zpos p + - Zpos p) by lia.
      rewrite !bpow_add. ring.
  - assert (E : (v * bpow (- Zpos 1) = v / 2)%R) by (unfold bpow; simpl; lra).
    rewrite E. apply encR_shr_1, H.
Qed.

(** Shifting right by [n >= 0] bits divides the encoded real by [2^n]. *)
Lemma encR_shr v mrs e n :
  encR v mrs -> 0 <= n ->
  encR (v * bpow (- n)) (fst (shr mrs e n)) /\ snd (shr mrs e n) = e + n.
Proof.
  intros H Hn. destruct n as [|p|p]; try lia; cbn [shr fst snd].
  - split; [|lia]. unfold bpow. simpl. rewrite Rmult_1_r. exact H.
  - split; [|reflexivity]. apply encR_iter, H.
Qed.

Lemma encR_round v mrs :
  encR v mrs ->
  let M := round_nearest_even (shr_m mrs) (loc_of_shr_record mrs) in
  (Rabs (IZR M - v) <= 1 / 2)%R /\ shr_m mrs <= M <= shr_m mrs + 1.
Proof.
  intros (Hm & f & Hv & Hf & Hr & Hs). cbv zeta.
  destruct mrs as [m r s]. cbn [shr_m shr_r shr_s] in *.
  destruct r, s; cbn [loc_of_shr_record round_nearest_even].
  - assert (1 / 2 <= f)%R by (apply Hr; reflexivity).
    split; [|lia]. rewrite plus_IZR, Hv. apply Rabs_le. lra.
  - assert (1 / 2 <= f)%R by (apply Hr; reflexivity).
    assert (f = 0 \/ f = 1 / 2)%R as [|Hh] by (apply Hs; reflexivity); [lra|].
    destruct (Z.even m); (split; [|lia]); rewrite ?plus_IZR, Hv;
      apply Rabs_le; lra.
  - assert (~ (1 / 2 <= f)%R) by (intros H; apply Hr in H; discriminate).
    split; [|lia]. rewrite Hv. apply Rabs_le. lra.
  - assert (~ (1 / 2 <= f)%R) by (intros H; apply Hr in H; discriminate).
    split; [|lia]. rewrite Hv. apply Rabs_le. lra.
Qed.

(** The mantissa of a record is the integral part of the real it encodes. *)
Lemma encR_floor v mrs :
  encR v mrs -> (IZR (shr_m mrs) <= v < IZR (shr_m mrs) + 1)%R.
Proof. intros (Hm & f & Hv & Hf & _). lra. Qed.

(** *** The two halves of [binary_round_aux] *)

Lemma fexp32_eq k : fexp32 k = Z.max (k - 24) (-149).
Proof. reflexivity. Qed.

Lemma Zdigits2_bounds m :
  0 < m -> 2 ^ (Zdigits2 m - 1) <= m < 2 ^ Zdigits2 m.
Proof.
  intros Hm. destruct m as [|p|p]; try lia. apply digits2_pos_spec.
Qed.

Lemma Zdigits2_pos m : 0 < m -> 0 < Zdigits2 m.
Proof. intros Hm. destruct m; try lia; reflexivity. Qed.

Lemma good_zero s : good (S754_zero s).
Proof. split; reflexivity. Qed.

Lemma good_finite s m e :
  fexp32 (Zdigits2 (Zpos m) + e) = e -> e <= 104 -> good (S754_finite s m e).
Proof.
  intros Hc He. split; [reflexivity|].
  unfold valid_binary, bounded, canonical_mantissa.
  apply andb_true_iff. split.
  - apply Z.eqb_eq. exact Hc.
  - apply Z.leb_le. exact He.
Qed.

(** The renormalisation step returns the value [M0 * 2^E] itself. *)
Lemma finish_good s M0 E :
  0 <= M0 <= 2 ^ 24 -> -149 <= E <= 103 -> (E = -149 \/ 2 ^ 23 <= M0) ->
  good (finish s M0 E) /\
  F32.to_R (finish s M0 E) = (sgn s * (IZR M0 * bpow E))%R.
Proof.
  intros HM HE Hc. unfold finish, shr_fexp.
  change (fexp F32.prec F32.emax) with fexp32. rewrite fexp32_eq.
  destruct (Z.eq_dec M0 0) as [->|Hnz].
  - cbn [Zdigits2]. assert (E = -149) by lia. subst E.
    change (Z.max (0 + -149 - 24) (-149) - -149) with 0.
    cbn [shr shr_record_of_loc shr_m].
    split; [apply good_zero|]. cbn [F32.to_R]. ring.
  - destruct (Z.eq_dec M0 (2 ^ 24)) as [->|Hne].
    + rewrite (Zdigits2_unique (2 ^ 24) 25) by (simpl; lia).
      replace (Z.max (25 + E - 24) (-149) - E) with 1 by lia.
      cbn [shr shr_record_of_loc SpecFloat.iter_pos].
      change (shr_1 _) with {| shr_m := 8388608; shr_r := false; shr_s := false |}.
      cbn [shr_m].
      destruct (Z.leb_spec (E + 1) (F32.emax - F32.prec)) as [_|Hbad];
        [|unfold F32.emax, F32.prec in Hbad; lia].
      split.
      * apply good_finite; [|lia]. rewrite fexp32_eq. simpl Zdigits2. lia.
      * rewrite to_R_finite, bpow_succ.
        change (2 ^ 24) with 16777216. 
        replace (IZR 16777216) with (2 * IZR 8388608)%R by (rewrite <- mult_IZR; reflexivity).
        ring.
    + assert (Hpos : 0 < M0) by lia.
      pose proof (Zdigits2_bounds M0 Hpos) as Hd.
      pose proof (Zdigits2_pos M0 Hpos) as Hd0.
      assert (Hd24 : Zdigits2 M0 <= 24).
      { destruct (Z_lt_le_dec 24 (Zdigits2 M0)) as [Hgt|]; [|assumption].
        exfalso. assert (2 ^ 24 <= 2 ^ (Zdigits2 M0 - 1))
          by (apply Z.pow_le_mono_r; lia). lia. }
      assert (Hcanon : Z.max (Zdigits2 M0 + E - 24) (-149) = E).
      { destruct Hc as [->|Hc]; [lia|].
        assert (Zdigits2 M0 = 24); [|lia].
        destruct (Z_lt_le_dec (Zdigits2 M0) 24) as [Hlt|]; [|lia].
        exfalso. assert (2 ^ Zdigits2 M0 <= 2 ^ 23)
          by (apply Z.pow_le_mono_r; lia). lia. }
      rewrite Hcanon, Z.sub_diag. cbn [shr]. rewrite shr_m_of_loc.
      destruct M0 as [|p|p]; try lia.
      destruct (Z.leb_spec E (F32.emax - F32.prec)) as [_|Hbad];
        [|unfold F32.emax, F32.prec in Hbad; lia].
      split.
      * apply good_finite; [|lia]. rewrite fexp32_eq. exact Hcanon.
      * apply to_R_finite.
Qed.

(** Rounding a nonnegative real [v * 2^ex], given by its integral part
    [mx] and the location of the rest, when the mantissa is not shorter
    than the format asks for and the value is below the overflow
    threshold: the result is the multiple of the unit in the last place
    nearest to it. *)
Lemma round_aux_M s mx ex lx v :
  encR v (shr_record_of_loc mx lx) ->
  ex <= fexp32 (Zdigits2 mx + ex) -> Zdigits2 mx + ex <= 127 ->
  exists M0 : Z,
    0 <= M0 /\
    good (binary_round_aux F32.prec F32.emax s mx ex lx) /\
    F32.to_R (binary_round_aux F32.prec F32.emax s mx ex lx)
      = (sgn s * (IZR M0 * bpow (fexp32 (Zdigits2 mx + ex))))%R /\
    (Rabs (IZR M0 - v * bpow (- (fexp32 (Zdigits2 mx + ex) - ex))) <= 1 / 2)%R.
Proof.
  intros Henc Hn Hov.
  assert (Hmx : 0 <= mx) by (destruct Henc as [H _]; rewrite shr_m_of_loc in H; exact H).
  rewrite binary_round_aux_unfold. unfold shr_fexp.
  change (fexp F32.prec F32.emax) with fexp32.
  set (E := fexp32 (Zdigits2 mx + ex)) in *.
  destruct (encR_shr v _ ex (E - ex) Henc ltac:(lia)) as [Hs He].
  destruct (shr (shr_record_of_loc mx lx) ex (E - ex)) as [mrs' e'].
  cbn [fst snd] in Hs, He. replace (ex + (E - ex)) with E in He by lia. subst e'.
  destruct (encR_round _ _ Hs) as [Hr HM].
  pose proof (encR_floor _ _ Hs) as Hfl.
  assert (Hm0 : 0 <= shr_m mrs') by apply Hs.
  set (M0 := round_nearest_even (shr_m mrs') (loc_of_shr_record mrs')) in *.
  pose proof (fexp32_eq (Zdigits2 mx + ex)) as HE. fold E in HE.
  (* the value scaled to the unit in the last place *)
  assert (Hvle : (v < IZR (mx + 1))%R).
  { pose proof (encR_floor _ _ Henc) as H. rewrite shr_m_of_loc in H.
    rewrite plus_IZR. lra. }
  assert (Hvge : (IZR mx <= v)%R).
  { pose proof (encR_floor _ _ Henc) as H. rewrite shr_m_of_loc in H. lra. }
  assert (Hbp : (0 < bpow (- (E - ex)))%R) by apply bpow_pos.
  (* the shifted mantissa has at most 24 digits *)
  assert (Hm24 : shr_m mrs' < 2 ^ 24).
  { apply lt_IZR. eapply Rle_lt_trans; [apply Hfl|].
    destruct (Z.eq_dec mx 0) as [->|Hnz].
    - cbn [Zdigits2 Z.add] in *.
      assert (v < 1)%R by (simpl in Hvle; lra).
      assert (bpow (- (E - ex)) <= bpow 0)%R by (apply bpow_le; lia).
      unfold bpow at 2 in H0. simpl in H0.
      apply Rlt_le_trans with 1%R; [|change (2 ^ 24) with 16777216; lra].
      apply Rle_lt_trans with (v * 1)%R; [|lra].
      apply Rmult_le_compat_l; lra.
    - pose proof (Zdigits2_bounds mx ltac:(lia)) as Hd.
      assert (Hv2 : (v < bpow (Zdigits2 mx))%R).
      { rewrite bpow_IZR by (pose proof (Zdigits2_pos mx ltac:(lia)); lia).
        eapply Rlt_le_trans; [exact Hvle|]. apply IZR_le. lia. }
      apply Rlt_le_trans with (bpow (Zdigits2 mx) * bpow (- (E - ex)))%R.
      + apply Rmult_lt_compat_r; assumption.
      + rewrite <- bpow_add, <- (bpow_IZR 24) by lia. apply bpow_le. lia. }
  (* in the normal range it has exactly 24 *)
  assert (Hnorm : E = -149 \/ 2 ^ 23 <= M0).
  { destruct (Z.eq_dec E (-149)) as [|HEn]; [left; assumption|right].
    assert (HE' : E = Zdigits2 mx + ex - 24) by lia.
    assert (Hnz : 0 < mx).
    { destruct (Z.eq_dec mx 0) as [->|]; [|lia]. cbn [Zdigits2 Z.add] in *. lia. }
    pose proof (Zdigits2_bounds mx Hnz) as Hd.
    pose proof (Zdigits2_pos mx Hnz) as Hd0.
    assert (Hlow : (bpow 23 <= v * bpow (- (E - ex)))%R).
    { replace 23 with ((Zdigits2 mx - 1) + - (E - ex)) by lia.
      rewrite bpow_add. apply Rmult_le_compat_r; [lra|].
      rewrite bpow_IZR by lia. eapply Rle_trans; [|exact Hvge].
      apply IZR_le. lia. }
    rewrite (bpow_IZR 23) in Hlow by lia.
    assert (2 ^ 23 < shr_m mrs' + 1).
    { apply lt_IZR. rewrite plus_IZR. lra. }
    lia. }
  destruct (finish_good s M0 E) as [Hg Hval]; [lia|lia|exact Hnorm|].
  exists M0.
  split; [lia|]. split; [exact Hg|]. split; [exact Hval|exact Hr].
Qed.

Lemma round_aux_R s mx ex lx v :
  encR v (shr_record_of_loc mx lx) ->
  ex <= fexp32 (Zdigits2 mx + ex) -> Zdigits2 mx + ex <= 127 ->
  exists r : R,
    good (binary_round_aux F32.prec F32.emax s mx ex lx) /\
    F32.to_R (binary_round_aux F32.prec F32.emax s mx ex lx) = (sgn s * r)%R /\
    (0 <= r)%R /\
    (Rabs (r - v * bpow ex) <= bpow (fexp32 (Zdigits2 mx + ex)) / 2)%R.
Proof.
  intros Henc Hn Hov.
  destruct (round_aux_M s mx ex lx v Henc Hn Hov) as (M0 & HM0 & Hg & Hval & Hr).
  set (E := fexp32 (Zdigits2 mx + ex)) in *.
  exists (IZR M0 * bpow E)%R.
  split; [exact Hg|]. split; [exact Hval|]. split.
  { apply Rmult_le_pos; [apply IZR_le; lia | apply Rlt_le, bpow_pos]. }
  replace (v * bpow ex)%R with (v * bpow (- (E - ex)) * bpow E)%R.
  2:{ rewrite Rmult_assoc, <- bpow_add. f_equal. f_equal. lia. }
  rewrite <- Rmult_minus_distr_r, Rabs_mult.
  rewrite (Rabs_right (bpow E)) by (apply Rle_ge, Rlt_le, bpow_pos).
  pose proof (bpow_pos E).
  replace (bpow E / 2)%R with (1 / 2 * bpow E)%R by lra.
  apply Rmult_le_compat_r; [lra|exact Hr].
Qed.

Lemma bpow_lt_inv a b : (bpow a < bpow b)%R -> a < b.
Proof.
  intros H. destruct (Z_lt_le_dec a b) as [|Hle]; [assumption|].
  apply bpow_le in Hle. lra.
Qed.

Lemma eps32_pos : (0 < eps32)%R.
Proof. apply bpow_pos. Qed.

Lemma eta32_pos : (0 < eta32)%R.
Proof. apply bpow_pos. Qed.

(** Half a unit in the last place, against the value itself. *)
Lemma half_ulp_bound mx ex v :
  0 <= mx -> (IZR mx <= v)%R -> ex <= fexp32 (Zdigits2 mx + ex) ->
  (bpow (fexp32 (Zdigits2 mx + ex)) / 2 <= eps32 * (v * bpow ex) + eta32)%R.
Proof.
  intros Hmx Hv Hn. rewrite fexp32_eq in *.
  pose proof eps32_pos as He. pose proof eta32_pos as Ht.
  pose proof (bpow_pos ex) as Hbx.
  assert (Hv0 : (0 <= v)%R) by (apply IZR_le in Hmx; lra).
  assert (HV : (0 <= eps32 * (v * bpow ex))%R).
  { apply Rmult_le_pos; [lra|]. apply Rmult_le_pos; lra. }
  destruct (Z.max_spec (Zdigits2 mx + ex - 24) (-149)) as [[Hlt ->]|[Hge ->]].
  - replace (bpow (-149) / 2)%R with eta32; [lra|].
    unfold eta32. replace (-149) with (-150 + 1) by lia.
    rewrite bpow_succ. lra.
  - assert (Hnz : 0 < mx).
    { destruct (Z.eq_dec mx 0) as [->|]; [|lia].
      cbn [Zdigits2 Z.add] in *. lia. }
    pose proof (Zdigits2_bounds mx Hnz) as Hd.
    pose proof (Zdigits2_pos mx Hnz) as Hd0.
    assert (Hlow : (bpow (Zdigits2 mx - 1) <= v)%R).
    { rewrite bpow_IZR by lia. eapply Rle_trans; [|exact Hv].
      apply IZR_le. lia. }
    replace (Zdigits2 mx + ex - 24) with (-23 + (Zdigits2 mx - 1) + ex) by lia.
    rewrite !bpow_add.
    assert (E23 : bpow (-23) = (2 * eps32)%R).
    { unfold eps32. change (-23) with (-24 + 1). apply bpow_succ. }
    rewrite E23.
    assert (eps32 * bpow (Zdigits2 mx - 1) * bpow ex <= eps32 * v * bpow ex)%R.
    { apply Rmult_le_compat_r; [lra|]. apply Rmult_le_compat_l; lra. }
    lra.
Qed.

Lemma Rabs_sgn s a b : Rabs (sgn s * a - sgn s * b) = Rabs (a - b).
Proof.
  rewrite <- Rmult_minus_distr_l, Rabs_mult, sgn_abs. lra.
Qed.

(** [binary_round_aux], with the error against the value. *)
Lemma round_aux_err s mx ex lx v :
  encR v (shr_record_of_loc mx lx) ->
  ex <= fexp32 (Zdigits2 mx + ex) -> (v * bpow ex < bpow 127)%R ->
  good (binary_round_aux F32.prec F32.emax s mx ex lx) /\
  (Rabs (F32.to_R (binary_round_aux F32.prec F32.emax s mx ex lx)
         - sgn s * (v * bpow ex))
   <= eps32 * (v * bpow ex) + eta32)%R.
Proof.
  intros Henc Hn Hov.
  assert (Hmx : 0 <= mx) by (destruct Henc as [H _]; rewrite shr_m_of_loc in H; exact H).
  pose proof (encR_floor _ _ Henc) as Hfl. rewrite shr_m_of_loc in Hfl.
  assert (Hd : Zdigits2 mx + ex <= 127).
  { destruct (Z.eq_dec mx 0) as [->|Hnz].
    - cbn [Zdigits2 Z.add] in *. rewrite fexp32_eq in Hn. lia.
    - pose proof (Zdigits2_bounds mx ltac:(lia)) as Hb.
      pose proof (Zdigits2_pos mx ltac:(lia)) as Hb0.
      assert (bpow (Zdigits2 mx - 1 + ex) < bpow 127)%R.
      { eapply Rle_lt_trans; [|exact Hov]. rewrite bpow_add.
        apply Rmult_le_compat_r; [apply Rlt_le, bpow_pos|].
        rewrite bpow_IZR by lia. eapply Rle_trans; [|apply Hfl].
        apply IZR_le. lia. }
      apply bpow_lt_inv in H. lia. }
  destruct (round_aux_R s mx ex lx v Henc Hn Hd) as (r & Hg & Hval & Hr0 & Herr).
  split; [exact Hg|]. rewrite Hval, Rabs_sgn.
  eapply Rle_trans; [exact Herr|].
  apply half_ulp_bound; [exact Hmx | lra | exact Hn].
Qed.

Lemma good_finite_inv s m e :
  good (S754_finite s m e) ->
  -149 <= e <= 104 /\ Zdigits2 (Zpos m) <= 24 /\
  (Zdigits2 (Zpos m) = 24 \/ e = -149).
Proof.
  intros [_ Hv]. unfold valid_binary, bounded, canonical_mantissa in Hv.
  apply andb_true_iff in Hv as [Hc He].
  apply Z.eqb_eq in Hc. apply Z.leb_le in He.
  change (fexp F32.prec F32.emax) with fexp32 in Hc. rewrite fexp32_eq in Hc.
  unfold F32.emax, F32.prec in He. cbn [Zdigits2]. lia.
Qed.

Lemma good_fin x : good x -> fin x = true.
Proof. intros [H _]. exact H. Qed.

(** The digits of a product. *)
Lemma Zdigits2_mul (a b : positive) :
  Zdigits2 (Zpos a) + Zdigits2 (Zpos b) - 1 <= Zdigits2 (Zpos (a * b)).
Proof.
  pose proof (Zdigits2_bounds (Zpos a) ltac:(lia)) as Ha.
  pose proof (Zdigits2_bounds (Zpos b) ltac:(lia)) as Hb.
  pose proof (Zdigits2_bounds (Zpos (a * b)) ltac:(lia)) as Hab.
  pose proof (Zdigits2_pos (Zpos a) ltac:(lia)).
  pose proof (Zdigits2_pos (Zpos b) ltac:(lia)).
  pose proof (Zdigits2_pos (Zpos (a * b)) ltac:(lia)).
  rewrite Pos2Z.inj_mul in Hab at 2 3.
  assert (H2 : 2 ^ (Zdigits2 (Zpos a) - 1 + (Zdigits2 (Zpos b) - 1))
               <= Zpos a * Zpos b).
  { rewrite Z.pow_add_r by lia. apply Z.mul_le_mono_nonneg; try lia.
    all: apply Z.pow_nonneg; lia. }
  assert (H3 : 2 ^ (Zdigits2 (Zpos a) - 1 + (Zdigits2 (Zpos b) - 1))
               < 2 ^ Zdigits2 (Zpos (a * b))) by lia.
  apply Z.pow_lt_mono_r_iff in H3; lia.
Qed.

(** *** The operations *)

Lemma mul_R x y :
  good x -> good y ->
  (Rabs (F32.to_R x * F32.to_R y) < bpow 127)%R ->
  good (F32.mul x y) /\
  (Rabs (F32.to_R (F32.mul x y) - F32.to_R x * F32.to_R y)
   <= eps32 * Rabs (F32.to_R x * F32.to_R y) + eta32)%R.
Proof.
  intros Hx Hy Hov.
  pose proof eps32_pos as He. pose proof eta32_pos as Ht.
  assert (Hzero : forall s a,
            good (S754_zero s) /\
            (Rabs (F32.to_R (S754_zero s) - a * 0) <= eps32 * Rabs (a * 0) + eta32)%R).
  { intros s a. split; [apply good_zero|]. cbn [F32.to_R].
    rewrite Rmult_0_r, Rminus_0_r, Rabs_R0. lra. }
  destruct x as [sx|sx| |sx m1 e1]; try (apply good_fin in Hx; discriminate);
    destruct y as [sy|sy| |sy m2 e2]; try (apply good_fin in Hy; discriminate).
  - cbn [F32.mul SFmul]. unfold F32.mul. cbn [SFmul F32.to_R]. apply Hzero.
  - unfold F32.mul. cbn [SFmul]. cbn [F32.to_R].
    rewrite Rmult_0_l, Rminus_0_r, Rabs_R0. split; [apply good_zero|]. lra.
  - unfold F32.mul. cbn [SFmul]. change (F32.to_R (S754_zero sy)) with 0%R.
    apply Hzero.
  - unfold F32.mul. cbn [SFmul].
    destruct (good_finite_inv _ _ _ Hx) as (He1 & Hd1 & Hc1).
    destruct (good_finite_inv _ _ _ Hy) as (He2 & Hd2 & Hc2).
    pose proof (Zdigits2_mul m1 m2) as Hd12.
    pose proof (Zdigits2_pos (Zpos m1) ltac:(lia)).
    pose proof (Zdigits2_pos (Zpos m2) ltac:(lia)).
    rewrite !to_R_finite in *.
    assert (Hprod : (sgn sx * (IZR (Zpos m1) * bpow e1)
                     * (sgn sy * (IZR (Zpos m2) * bpow e2))
                     = sgn (xorb sx sy)
                       * (IZR (Zpos (m1 * m2)) * bpow (e1 + e2)))%R).
    { rewrite sgn_xorb, bpow_add, Pos2Z.inj_mul, mult_IZR. ring. }
    rewrite Hprod in *.
    assert (Hpos : (0 <= IZR (Zpos (m1 * m2)) * bpow (e1 + e2))%R).
    { apply Rmult_le_pos; [apply IZR_le; lia | apply Rlt_le, bpow_pos]. }
    rewrite Rabs_mult, sgn_abs, Rmult_1_l, (Rabs_right _ (Rle_ge _ _ Hpos)) in *.
    apply round_aux_err.
    + apply encR_exact. lia.
    + rewrite fexp32_eq. lia.
    + exact Hov.
Qed.

Lemma Zdigits2_nonneg m : 0 <= m -> 0 <= Zdigits2 m.
Proof. intros Hm. destruct m; try lia; cbn [Zdigits2]; lia. Qed.

(** A lower bound on a nonnegative integer is one on its digits. *)
Lemma Zdigits2_lower q t : 0 <= t -> 2 ^ t <= q -> t < Zdigits2 q.
Proof.
  intros Ht Hq.
  assert (Hq0 : 0 < q) by (pose proof (Z.pow_pos_nonneg 2 t); lia).
  pose proof (Zdigits2_bounds q Hq0) as Hb.
  pose proof (Zdigits2_pos q Hq0).
  assert (H2 : 2 ^ t < 2 ^ Zdigits2 q) by lia.
  apply Z.pow_lt_mono_r_iff in H2; lia.
Qed.

Lemma fexp32_mono a b : a <= b -> fexp32 a <= fexp32 b.
Proof. intros H. rewrite !fexp32_eq. lia. Qed.

Lemma div_R x y :
  good x -> good y -> F32.to_R y <> 0%R ->
  (Rabs (F32.to_R x / F32.to_R y) < bpow 127)%R ->
  good (F32.div x y) /\
  (Rabs (F32.to_R (F32.div x y) - F32.to_R x / F32.to_R y)
   <= eps32 * Rabs (F32.to_R x / F32.to_R y) + eta32)%R.
Proof.
  intros Hx Hy Hy0 Hov.
  pose proof eps32_pos as He. pose proof eta32_pos as Ht.
  destruct y as [sy|sy| |sy m2 e2]; try (apply good_fin in Hy; discriminate).
  { exfalso. apply Hy0. reflexivity. }
  destruct x as [sx|sx| |sx m1 e1]; try (apply good_fin in Hx; discriminate).
  - unfold F32.div. cbn [SFdiv]. split; [apply good_zero|].
    cbn [F32.to_R]. unfold Rdiv. rewrite Rmult_0_l, Rminus_0_r, Rabs_R0. lra.
  - unfold F32.div. cbn [SFdiv]. unfold SFdiv_core_binary.
    change (fexp F32.prec F32.emax) with fexp32.
    destruct (good_finite_inv _ _ _ Hx) as (He1 & Hd1 & Hc1).
    destruct (good_finite_inv _ _ _ Hy) as (He2 & Hd2 & Hc2).
    set (d1 := Zdigits2 (Zpos m1)) in *. set (d2 := Zdigits2 (Zpos m2)) in *.
    set (e' := Z.min (fexp32 (d1 + e1 - (d2 + e2))) (e1 - e2)).
    set (sh := e1 - e2 - e').
    assert (Hsh : 0 <= sh) by (unfold sh, e'; lia).
    set (m' := match sh with
               | 0 => Zpos m1
               | Zpos _ => Z.shiftl (Zpos m1) sh
               | Zneg _ => 0
               end).
    assert (Hm' : m' = Zpos m1 * 2 ^ sh).
    { unfold m'. destruct sh as [|p|p] eqn:Esh; try lia.
      rewrite Z.shiftl_mul_pow2 by lia. reflexivity. }
    clearbody m'.
    pose proof (Z_div_mod m' (Zpos m2) ltac:(lia)) as Hdm.
    destruct (Z.div_eucl m' (Zpos m2)) as [q r]. destruct Hdm as [HN Hr].
    assert (H2s : 0 < 2 ^ sh) by (apply Z.pow_pos_nonneg; lia).
    assert (Hq : 0 <= q) by nia.
    pose proof (Zdigits2_bounds (Zpos m1) ltac:(lia)) as Hb1. fold d1 in Hb1.
    pose proof (Zdigits2_bounds (Zpos m2) ltac:(lia)) as Hb2. fold d2 in Hb2.
    pose proof (Zdigits2_pos (Zpos m1) ltac:(lia)) as Hp1. fold d1 in Hp1.
    pose proof (Zdigits2_pos (Zpos m2) ltac:(lia)) as Hp2. fold d2 in Hp2.
    (* the quotient has enough digits *)
    assert (Hdq : d1 + sh - d2 <= Zdigits2 q).
    { pose proof (Zdigits2_nonneg q Hq).
      destruct (Z_le_gt_dec (d1 + sh - d2) 0) as [|Hgt]; [lia|].
      assert (Hlow : 2 ^ (d1 + sh - d2 - 1) <= q).
      { assert (H1 : 2 ^ (d1 - 1 + sh) <= m').
        { rewrite Hm', Z.pow_add_r by lia. apply Z.mul_le_mono_nonneg_r; lia. }
        assert (H3 : 2 ^ (d1 - 1 + sh) = 2 ^ (d1 + sh - d2 - 1) * 2 ^ d2).
        { rewrite <- Z.pow_add_r by lia. f_equal. lia. }
        assert (H4 : 0 < 2 ^ (d1 + sh - d2 - 1)) by (apply Z.pow_pos_nonneg; lia).
        destruct (Z_lt_le_dec q (2 ^ (d1 + sh - d2 - 1))) as [Hlt|]; [|assumption].
        exfalso.
        assert (Zpos m2 * (q + 1) <= 2 ^ d2 * 2 ^ (d1 + sh - d2 - 1)).
        { apply Z.mul_le_mono_nonneg; lia. }
        lia. }
      pose proof (Zdigits2_lower q (d1 + sh - d2 - 1) ltac:(lia) Hlow). lia. }
    assert (HD2 : (0 < IZR (Zpos m2))%R) by (apply IZR_lt; lia).
    assert (Hv : (IZR (q * Zpos m2 + r) / IZR (Zpos m2)
                  = IZR (Zpos m1) * bpow sh / IZR (Zpos m2))%R).
    { replace (q * Zpos m2 + r) with m' by lia.
      rewrite Hm', mult_IZR, <- bpow_IZR by lia. reflexivity. }
    rewrite !to_R_finite in *.
    pose proof (bpow_pos e1). pose proof (bpow_pos e2). pose proof (bpow_pos e').
    assert (Hquot : (sgn sx * (IZR (Zpos m1) * bpow e1)
                     / (sgn sy * (IZR (Zpos m2) * bpow e2))
                     = sgn (xorb sx sy)
                       * (IZR (Zpos m1) * bpow sh / IZR (Zpos m2) * bpow e'))%R).
    { replace (bpow e1) with (bpow sh * bpow e' * bpow e2)%R.
      2:{ rewrite <- !bpow_add. f_equal. unfold sh. lia. }
      rewrite sgn_xorb. destruct sx, sy; unfold sgn; field; lra. }
    rewrite Hquot in *.
    assert (Hpos : (0 <= IZR (Zpos m1) * bpow sh / IZR (Zpos m2) * bpow e')%R).
    { apply Rmult_le_pos; [|lra]. apply Rmult_le_pos.
      - apply Rmult_le_pos; [apply IZR_le; lia | apply Rlt_le, bpow_pos].
      - apply Rlt_le, Rinv_0_lt_compat, HD2. }
    rewrite Rabs_mult, sgn_abs, Rmult_1_l, (Rabs_right _ (Rle_ge _ _ Hpos)) in *.
    rewrite <- Hv in *.
    apply round_aux_err.
    + apply enc_encR, new_location_enc; lia.
    + eapply Z.le_trans; [|apply fexp32_mono with (a := d1 + e1 - (d2 + e2))].
      * unfold e'. lia.
      * unfold sh in Hdq. lia.
    + exact Hov.
Qed.

(** The integer square root with its remainder locates the real one. *)
Lemma sqrtrem_encR m' q r :
  0 <= m' -> m' = q * q + r -> 0 <= q -> 0 <= r <= 2 * q ->
  encR (sqrt (IZR m'))
       (shr_record_of_loc q
          (if r =? 0 then loc_Exact
           else loc_Inexact (if r <=? q then Lt else Gt))).
Proof.
  intros Hm' Hsq Hq Hr.
  assert (Hq0 : (0 <= IZR q)%R) by (apply IZR_le; lia).
  assert (Hr0 : (0 <= IZR r)%R) by (apply IZR_le; lia).
  assert (Hm : IZR m' = (IZR q * IZR q + IZR r)%R).
  { rewrite Hsq, plus_IZR, mult_IZR. reflexivity. }
  assert (Hrq : (IZR r <= 2 * IZR q)%R).
  { replace 2%R with (IZR 2) by reflexivity. rewrite <- mult_IZR.
    apply IZR_le. lia. }
  assert (Hlo : (IZR q <= sqrt (IZR m'))%R).
  { rewrite <- (sqrt_square (IZR q)) at 1 by exact Hq0.
    apply sqrt_le_1; [nra | rewrite Hm; nra | rewrite Hm; lra]. }
  assert (Hcmp : forall c : R, (0 <= c)%R ->
            ((IZR m' < (IZR q + c) * (IZR q + c))%R -> (sqrt (IZR m') < IZR q + c)%R) /\
            (((IZR q + c) * (IZR q + c) < IZR m')%R -> (IZR q + c < sqrt (IZR m'))%R)).
  { intros c Hc. split; intros H.
    - rewrite <- (sqrt_square (IZR q + c)) by lra.
      apply sqrt_lt_1; [rewrite Hm; nra | nra | exact H].
    - rewrite <- (sqrt_square (IZR q + c)) at 1 by lra.
      apply sqrt_lt_1; [nra | rewrite Hm; nra | exact H]. }
  split; [rewrite shr_m_of_loc; exact Hq|].
  rewrite shr_m_of_loc.
  exists (sqrt (IZR m') - IZR q)%R. split; [lra|].
  assert (Hhi : (sqrt (IZR m') < IZR q + 1)%R).
  { apply (Hcmp 1%R); [lra|]. rewrite Hm. nra. }
  split; [lra|].
  destruct (Z.eqb_spec r 0) as [Hz|Hnz].
  - subst r. cbn [shr_record_of_loc shr_r shr_s].
    assert (Hs : sqrt (IZR m') = IZR q).
    { rewrite Hm. simpl IZR. rewrite Rplus_0_r. apply sqrt_square, Hq0. }
    split; split; intros H; try discriminate; try lra; try reflexivity;
      try (left; lra).
  - assert (Hr1 : (1 <= IZR r)%R) by (apply IZR_le; lia).
    destruct (Z.leb_spec r q) as [Hle|Hgt]; cbn [shr_record_of_loc shr_r shr_s].
    + assert (Hrq' : (IZR r <= IZR q)%R) by (apply IZR_le; lia).
      assert (sqrt (IZR m') < IZR q + 1 / 2)%R.
      { apply (Hcmp (1 / 2)%R); [lra|]. rewrite Hm. nra. }
      assert (IZR q < sqrt (IZR m'))%R.
      { replace (IZR q) with (IZR q + 0)%R at 1 by lra.
        apply (Hcmp 0%R); [lra|]. rewrite Hm. nra. }
      split; split; intros H'; try discriminate; try lra;
        try (destruct H'; lra).
    + assert (Hrq' : (IZR q + 1 <= IZR r)%R).
      { rewrite <- plus_IZR. apply IZR_le. lia. }
      assert (IZR q + 1 / 2 < sqrt (IZR m'))%R.
      { apply (Hcmp (1 / 2)%R); [lra|]. rewrite Hm. nra. }
      split; split; intros H'; try discriminate; try lra; try reflexivity;
        try (destruct H'; lra).
Qed.

Lemma sqrt_R x :
  good x -> (0 <= F32.to_R x)%R ->
  good (F32.sqrt x) /\
  (Rabs (F32.to_R (F32.sqrt x) - sqrt (F32.to_R x))
   <= eps32 * sqrt (F32.to_R x) + eta32)%R.
Proof.
  intros Hx Hx0.
  pose proof eps32_pos as He. pose proof eta32_pos as Ht.
  destruct x as [sx|sx| |sx m e]; try (apply good_fin in Hx; discriminate).
  { unfold F32.sqrt. cbn [SFsqrt]. split; [exact Hx|].
    cbn [F32.to_R]. rewrite sqrt_0, Rminus_0_r, Rabs_R0. lra. }
  rewrite to_R_finite in *.
  assert (Hmb : (0 < IZR (Zpos m) * bpow e)%R).
  { apply Rmult_lt_0_compat; [apply IZR_lt; lia | apply bpow_pos]. }
  destruct sx.
  { exfalso. unfold sgn in Hx0. lra. }
  unfold sgn in *. rewrite Rmult_1_l in *.
  unfold F32.sqrt. cbn [SFsqrt]. unfold SFsqrt_core_binary.
  change (fexp F32.prec F32.emax) with fexp32.
  destruct (good_finite_inv _ _ _ Hx) as (He1 & Hd1 & Hc1).
  set (d := Zdigits2 (Zpos m)) in *.
  set (e' := Z.min (fexp32 (Z.div2 (d + e + 1))) (Z.div2 e)).
  set (sh := e - 2 * e').
  pose proof (Z.div2_odd e) as Hde.
  pose proof (Z.div2_odd (d + e + 1)) as Hdd.
  assert (Hb2 : forall b : bool, 0 <= Z.b2z b <= 1) by (intros []; simpl; lia).
  pose proof (Hb2 (Z.odd e)). pose proof (Hb2 (Z.odd (d + e + 1))).
  assert (Hsh : 0 <= sh) by (unfold sh, e'; lia).
  set (m' := match sh with
             | 0 => Zpos m
             | Zpos _ => Z.shiftl (Zpos m) sh
             | Zneg _ => 0
             end).
  assert (Hm' : m' = Zpos m * 2 ^ sh).
  { unfold m'. destruct sh as [|p|p] eqn:Esh; try lia.
    rewrite Z.shiftl_mul_pow2 by lia. reflexivity. }
  clearbody m'.
  assert (H2s : 0 < 2 ^ sh) by (apply Z.pow_pos_nonneg; lia).
  assert (Hm'0 : 0 < m') by nia.
  pose proof (Z.sqrtrem_spec m' ltac:(lia)) as Hsr.
  destruct (Z.sqrtrem m') as [q r]. destruct Hsr as [Hsq Hr].
  assert (Hq : 0 <= q) by lia.
  pose proof (Zdigits2_bounds (Zpos m) ltac:(lia)) as Hb1. fold d in Hb1.
  pose proof (Zdigits2_pos (Zpos m) ltac:(lia)) as Hp1. fold d in Hp1.
  (* the root has enough digits *)
  set (t := Z.div2 (d + sh - 1)).
  pose proof (Z.div2_odd (d + sh - 1)) as Hdt. fold t in Hdt.
  pose proof (Hb2 (Z.odd (d + sh - 1))).
  assert (Ht0 : 0 <= t) by lia.
  assert (Hlow : 2 ^ t <= q).
  { assert (Hl1 : 2 ^ (d - 1 + sh) <= m').
    { rewrite Hm', Z.pow_add_r by lia. apply Z.mul_le_mono_nonneg_r; lia. }
    assert (Hl3 : 2 ^ t * 2 ^ t <= 2 ^ (d - 1 + sh)).
    { rewrite <- Z.pow_add_r by lia. apply Z.pow_le_mono_r; lia. }
    destruct (Z_lt_le_dec q (2 ^ t)) as [Hlt|]; [|assumption].
    exfalso. assert ((q + 1) * (q + 1) <= 2 ^ t * 2 ^ t).
    { apply Z.mul_le_mono_nonneg; lia. }
    nia. }
  pose proof (Zdigits2_lower q t Ht0 Hlow) as Hdq.
  assert (Hn : e' <= fexp32 (Zdigits2 q + e')).
  { eapply Z.le_trans; [|apply fexp32_mono with (a := Z.div2 (d + e + 1))].
    - unfold e'. lia.
    - unfold sh in *. lia. }
  (* the value *)
  pose proof (bpow_pos e') as Hbe'.
  assert (Hval : sqrt (IZR (Zpos m) * bpow e) = (sqrt (IZR m') * bpow e')%R).
  { replace (IZR (Zpos m) * bpow e)%R with (IZR m' * (bpow e' * bpow e'))%R.
    - rewrite sqrt_mult; [|apply IZR_le; lia|nra].
      rewrite sqrt_square by lra. reflexivity.
    - rewrite Hm', mult_IZR, <- bpow_IZR, <- !bpow_add by lia.
      rewrite Rmult_assoc, <- bpow_add. f_equal. f_equal. unfold sh. lia. }
  rewrite Hval.
  assert (Hsq0 : (0 <= sqrt (IZR m'))%R) by apply sqrt_pos.
  replace (sqrt (IZR m') * bpow e')%R
    with (sgn false * (sqrt (IZR m') * bpow e'))%R at 1 by (unfold sgn; lra).
  apply round_aux_err.
  - apply sqrtrem_encR; lia.
  - exact Hn.
  - rewrite <- Hval.
    apply Rlt_le_trans with (bpow 64).
    + rewrite <- (sqrt_square (bpow 64)) by (apply Rlt_le, bpow_pos).
      apply sqrt_lt_1; [lra | pose proof (bpow_pos 64); nra |].
      rewrite <- bpow_add. change (64 + 64) with (24 + 104).
      rewrite bpow_add.
      apply Rle_lt_trans with (IZR (Zpos m) * bpow 104)%R.
      * apply Rmult_le_compat_l; [apply IZR_le; lia | apply bpow_le; lia].
      * apply Rmult_lt_compat_r; [apply bpow_pos|].
        rewrite bpow_IZR by lia. apply IZR_lt.
        assert (2 ^ d <= 2 ^ 24) by (apply Z.pow_le_mono_r; lia). lia.
    + apply bpow_le. lia.
Qed.

Lemma Pos_iter_xO p d : Zpos (Pos.iter xO p d) = Zpos p * 2 ^ Zpos d.
Proof.
  induction d as [|d IH] using Pos.peano_ind.
  - change (Pos.iter xO p 1) with (p~0)%positive. lia.
  - rewrite Pos.iter_succ, Pos2Z.inj_succ, Z.pow_succ_r by lia.
    rewrite Pos2Z.inj_xO, IH. ring.
Qed.

Lemma shl_align_spec mx ex ex' :
  snd (shl_align mx ex ex') = Z.min ex ex' /\
  Zpos (fst (shl_align mx ex ex')) = Zpos mx * 2 ^ (ex - Z.min ex ex').
Proof.
  unfold shl_align. destruct (ex' - ex) as [|d|d] eqn:E; cbn [fst snd].
  - split; [lia|]. replace (ex - Z.min ex ex') with 0 by lia. lia.
  - split; [lia|]. replace (ex - Z.min ex ex') with 0 by lia. lia.
  - split; [lia|]. rewrite Pos_iter_xO. f_equal. f_equal. lia.
Qed.

Lemma Zdigits2_shift m k :
  0 < m -> 0 <= k -> Zdigits2 (m * 2 ^ k) = Zdigits2 m + k.
Proof.
  intros Hm Hk. pose proof (Zdigits2_bounds m Hm) as Hb.
  pose proof (Zdigits2_pos m Hm).
  assert (0 < 2 ^ k) by (apply Z.pow_pos_nonneg; lia).
  apply Zdigits2_unique; [|nia].
  replace (Zdigits2 m + k - 1) with (Zdigits2 m - 1 + k) by lia.
  rewrite !Z.pow_add_r by lia. split.
  - apply Z.mul_le_mono_nonneg_r; lia.
  - apply Z.mul_lt_mono_pos_r; lia.
Qed.

Lemma binary_round_err s mx ex :
  (IZR (Zpos mx) * bpow ex < bpow 127)%R ->
  good (binary_round F32.prec F32.emax s mx ex) /\
  (Rabs (F32.to_R (binary_round F32.prec F32.emax s mx ex)
         - sgn s * (IZR (Zpos mx) * bpow ex))
   <= eps32 * (IZR (Zpos mx) * bpow ex) + eta32)%R.
Proof.
  intros Hov. unfold binary_round.
  change (fexp F32.prec F32.emax) with fexp32.
  change (Zpos (digits2_pos mx)) with (Zdigits2 (Zpos mx)).
  destruct (shl_align_spec mx ex (fexp32 (Zdigits2 (Zpos mx) + ex))) as [Hez Hmz].
  destruct (shl_align mx ex (fexp32 (Zdigits2 (Zpos mx) + ex))) as [mz ez].
  cbn [fst snd] in Hez, Hmz.
  assert (Hval : (IZR (Zpos mx) * bpow ex = IZR (Zpos mz) * bpow ez)%R).
  { rewrite Hmz, mult_IZR, <- bpow_IZR, Rmult_assoc, <- bpow_add by lia.
    f_equal. f_equal. lia. }
  rewrite Hval in *.
  apply round_aux_err.
  - apply encR_exact. lia.
  - rewrite Hmz, Zdigits2_shift by lia.
    rewrite Hez. rewrite !fexp32_eq in *. lia.
  - exact Hov.
Qed.

Lemma normalize_err m e :
  (Rabs (IZR m * bpow e) < bpow 127)%R ->
  good (binary_normalize F32.prec F32.emax m e false) /\
  (Rabs (F32.to_R (binary_normalize F32.prec F32.emax m e false)
         - IZR m * bpow e)
   <= eps32 * Rabs (IZR m * bpow e) + eta32)%R.
Proof.
  intros Hov. pose proof eps32_pos. pose proof eta32_pos.
  pose proof (bpow_pos e) as Hb.
  destruct m as [|p|p]; cbn [binary_normalize].
  - split; [apply good_zero|]. cbn [F32.to_R].
    rewrite Rmult_0_l, Rminus_0_r, Rabs_R0. lra.
  - assert (Hp : (0 < IZR (Zpos p) * bpow e)%R).
    { apply Rmult_lt_0_compat; [apply IZR_lt; lia | exact Hb]. }
    rewrite (Rabs_right _ (Rle_ge _ _ (Rlt_le _ _ Hp))) in *.
    replace (IZR (Zpos p) * bpow e)%R
      with (sgn false * (IZR (Zpos p) * bpow e))%R at 1 by (unfold sgn; lra).
    apply binary_round_err. exact Hov.
  - assert (Hp : (0 < IZR (Zpos p) * bpow e)%R).
    { apply Rmult_lt_0_compat; [apply IZR_lt; lia | exact Hb]. }
    assert (Hn : (IZR (Zneg p) * bpow e = - (IZR (Zpos p) * bpow e))%R).
    { change (Zneg p) with (- Zpos p). rewrite opp_IZR. ring. }
    rewrite Hn in *. rewrite Rabs_Ropp in *.
    rewrite (Rabs_right _ (Rle_ge _ _ (Rlt_le _ _ Hp))) in *.
    replace (- (IZR (Zpos p) * bpow e))%R
      with (sgn true * (IZR (Zpos p) * bpow e))%R by (unfold sgn; lra).
    apply binary_round_err. exact Hov.
Qed.

Lemma cond_Zopp_IZR s m : IZR (cond_Zopp s m) = (sgn s * IZR m)%R.
Proof. destruct s; unfold cond_Zopp, sgn; [rewrite opp_IZR|]; lra. Qed.

(** The aligned mantissa of an operand of a sum. *)
Lemma aligned_value s m e ez :
  ez <= e ->
  (IZR (cond_Zopp s (Zpos (fst (shl_align m e ez)))) * bpow ez
   = sgn s * (IZR (Zpos m) * bpow e))%R.
Proof.
  intros Hle. destruct (shl_align_spec m e ez) as [_ Hm].
  rewrite cond_Zopp_IZR, Hm, mult_IZR, <- bpow_IZR by lia.
  replace (Z.min e ez) with ez by lia.
  rewrite !Rmult_assoc, <- bpow_add. do 3 f_equal. lia.
Qed.

Lemma add_R x y :
  good x -> good y ->
  (Rabs (F32.to_R x + F32.to_R y) < bpow 127)%R ->
  good (F32.add x y) /\
  (Rabs (F32.to_R (F32.add x y) - (F32.to_R x + F32.to_R y))
   <= eps32 * Rabs (F32.to_R x + F32.to_R y) + eta32)%R.
Proof.
  intros Hx Hy Hov.
  pose proof eps32_pos as He. pose proof eta32_pos as Ht.
  assert (Hexact : forall z v : R, z = v ->
            (Rabs (z - v) <= eps32 * Rabs v + eta32)%R).
  { intros z v ->. rewrite Rminus_diag, Rabs_R0.
    pose proof (Rabs_pos v). nra. }
  destruct x as [sx|sx| |sx m1 e1]; try (apply good_fin in Hx; discriminate);
    destruct y as [sy|sy| |sy m2 e2]; try (apply good_fin in Hy; discriminate).
  - unfold F32.add. cbn [SFadd]. split.
    + destruct sx, sy; apply good_zero.
    + apply Hexact. destruct sx, sy; cbn [F32.to_R]; lra.
  - unfold F32.add. cbn [SFadd]. split; [exact Hy|].
    apply Hexact. cbn [F32.to_R]. lra.
  - unfold F32.add. cbn [SFadd]. split; [exact Hx|].
    apply Hexact. cbn [F32.to_R]. lra.
  - unfold F32.add. cbn [SFadd].
    rewrite !to_R_finite in *.
    rewrite <- (aligned_value sx m1 e1 (Z.min e1 e2)) in * by lia.
    rewrite <- (aligned_value sy m2 e2 (Z.min e1 e2)) in * by lia.
    rewrite <- Rmult_plus_distr_r, <- plus_IZR in *.
    apply normalize_err. exact Hov.
Qed.

Lemma sub_R x y :
  good x -> good y ->
  (Rabs (F32.to_R x - F32.to_R y) < bpow 127)%R ->
  good (F32.sub x y) /\
  (Rabs (F32.to_R (F32.sub x y) - (F32.to_R x - F32.to_R y))
   <= eps32 * Rabs (F32.to_R x - F32.to_R y) + eta32)%R.
Proof.
  intros Hx Hy Hov.
  pose proof eps32_pos as He. pose proof eta32_pos as Ht.
  assert (Hexact : forall z v : R, z = v ->
            (Rabs (z - v) <= eps32 * Rabs v + eta32)%R).
  { intros z v ->. rewrite Rminus_diag, Rabs_R0.
    pose proof (Rabs_pos v). nra. }
  destruct x as [sx|sx| |sx m1 e1]; try (apply good_fin in Hx; discriminate);
    destruct y as [sy|sy| |sy m2 e2]; try (apply good_fin in Hy; discriminate).
  - unfold F32.sub. cbn [SFsub]. split.
    + destruct sx, sy; apply good_zero.
    + apply Hexact. destruct sx, sy; cbn [F32.to_R]; lra.
  - unfold F32.sub. cbn [SFsub]. split.
    + destruct Hy as [_ Hv]. split; [reflexivity|exact Hv].
    + apply Hexact. rewrite !to_R_finite. cbn [F32.to_R].
      destruct sy; unfold sgn; cbn [negb]; lra.
  - unfold F32.sub. cbn [SFsub]. split; [exact Hx|].
    apply Hexact. cbn [F32.to_R]. lra.
  - unfold F32.sub. cbn [SFsub].
    rewrite !to_R_finite in *.
    rewrite <- (aligned_value sx m1 e1 (Z.min e1 e2)) in * by lia.
    rewrite <- (aligned_value sy m2 e2 (Z.min e1 e2)) in * by lia.
    rewrite <- Rmult_minus_distr_r, <- minus_IZR in *.
    apply normalize_err. exact Hov.
Qed.
(** ** Binary32: the vector code over the reals *)

Lemma eps32_val : eps32 = (/ 16777216)%R.
Proof.
  unfold eps32. change (-24) with (Z.opp 24).
  rewrite bpow_neg, bpow_IZR by lia. reflexivity.
Qed.

Lemma eta32_small : (0 < eta32 <= / 1000000000000000000000000000000)%R.
Proof.
  split; [apply eta32_pos|]. unfold eta32.
  apply Rle_trans with (bpow (-100)); [apply bpow_le; lia|].
  change (-100) with (Z.opp 100). rewrite bpow_neg, bpow_IZR by lia.
  apply Rinv_le_contravar; [lra|].
  apply IZR_le. vm_compute. discriminate.
Qed.

Lemma bpow127_big : (1000000 < bpow 127)%R.
Proof.
  apply Rlt_le_trans with (bpow 20); [|apply bpow_le; lia].
  rewrite bpow_IZR by lia. apply IZR_lt. reflexivity.
Qed.

(** The operations, with the error against a bound of the exact result. *)
Lemma mul_B B x y :
  good x -> good y -> (Rabs (F32.to_R x * F32.to_R y) <= B)%R ->
  (B <= 1000000)%R ->
  good (F32.mul x y) /\
  (Rabs (F32.to_R (F32.mul x y) - F32.to_R x * F32.to_R y)
   <= eps32 * B + eta32)%R.
Proof.
  intros Hx Hy HB Hbig. pose proof bpow127_big. pose proof eps32_pos.
  destruct (mul_R x y Hx Hy ltac:(lra)) as [Hg He].
  split; [exact Hg|]. eapply Rle_trans; [exact He|].
  apply Rplus_le_compat_r, Rmult_le_compat_l; lra.
Qed.

Lemma add_B B x y :
  good x -> good y -> (Rabs (F32.to_R x + F32.to_R y) <= B)%R ->
  (B <= 1000000)%R ->
  good (F32.add x y) /\
  (Rabs (F32.to_R (F32.add x y) - (F32.to_R x + F32.to_R y))
   <= eps32 * B + eta32)%R.
Proof.
  intros Hx Hy HB Hbig. pose proof bpow127_big. pose proof eps32_pos.
  destruct (add_R x y Hx Hy ltac:(lra)) as [Hg He].
  split; [exact Hg|]. eapply Rle_trans; [exact He|].
  apply Rplus_le_compat_r, Rmult_le_compat_l; lra.
Qed.

Lemma sub_B B x y :
  good x -> good y -> (Rabs (F32.to_R x - F32.to_R y) <= B)%R ->
  (B <= 1000000)%R ->
  good (F32.sub x y) /\
  (Rabs (F32.to_R (F32.sub x y) - (F32.to_R x - F32.to_R y))
   <= eps32 * B + eta32)%R.
Proof.
  intros Hx Hy HB Hbig. pose proof bpow127_big. pose proof eps32_pos.
  destruct (sub_R x y Hx Hy ltac:(lra)) as [Hg He].
  split; [exact Hg|]. eapply Rle_trans; [exact He|].
  apply Rplus_le_compat_r, Rmult_le_compat_l; lra.
Qed.

Lemma abs_le_inv x y : (Rabs x <= y)%R -> (- y <= x <= y)%R.
Proof.
  unfold Rabs. destruct (Rcase_abs x); intros H; lra.
Qed.

(** *** Square roots and reciprocals between bounds *)

Lemma sqrt_le_sq x y : (0 <= x)%R -> (0 <= y)%R -> (x <= y * y)%R -> (sqrt x <= y)%R.
Proof.
  intros Hx Hy H. rewrite <- (sqrt_square y) by exact Hy.
  apply sqrt_le_1; [exact Hx | nra | exact H].
Qed.

Lemma sq_le_sqrt x y : (0 <= y)%R -> (y * y <= x)%R -> (y <= sqrt x)%R.
Proof.
  intros Hy H. rewrite <- (sqrt_square y) at 1 by exact Hy.
  apply sqrt_le_1; [nra | nra | exact H].
Qed.

Lemma abs_le_sqrt v N : (v * v <= N)%R -> (Rabs v <= sqrt N)%R.
Proof.
  intros H. rewrite <- sqrt_Rsqr_abs. unfold Rsqr.
  apply sqrt_le_1; [nra | nra | exact H].
Qed.

Lemma inv_le_scaled Q S c :
  (0 < Q)%R -> (0 < S)%R -> (S <= c * Q)%R -> (/ Q <= c * / S)%R.
Proof.
  intros HQ HS H.
  apply (Rmult_le_reg_r (Q * S)); [nra|].
  replace (/ Q * (Q * S))%R with S by (field; lra).
  replace (c * / S * (Q * S))%R with (c * Q)%R by (field; lra).
  exact H.
Qed.

Lemma inv_ge_scaled Q S c :
  (0 < Q)%R -> (0 < S)%R -> (c * Q <= S)%R -> (c * / S <= / Q)%R.
Proof.
  intros HQ HS H.
  apply (Rmult_le_reg_r (Q * S)); [nra|].
  replace (/ Q * (Q * S))%R with S by (field; lra).
  replace (c * / S * (Q * S))%R with (c * Q)%R by (field; lra).
  exact H.
Qed.
(** ** Binary32: results in units of the last place *)

(** [binary_round_aux] returns a multiple [M * 2^E] of a unit [2^E] that the
    magnitude of the value bounds, with [M] within one half of the value
    counted in that unit. *)
Lemma round_aux_ulp s mx ex lx v k :
  encR v (shr_record_of_loc mx lx) ->
  ex <= fexp32 (Zdigits2 mx + ex) ->
  (v * bpow ex < bpow k)%R -> k <= 127 ->
  exists M E : Z,
    -149 <= E <= Z.max (k - 24) (-149) /\
    good (binary_round_aux F32.prec F32.emax s mx ex lx) /\
    F32.to_R (binary_round_aux F32.prec F32.emax s mx ex lx)
      = (IZR M * bpow E)%R /\
    (Rabs (IZR M - sgn s * (v * bpow ex) * bpow (- E)) <= 1 / 2)%R.
Proof.
  intros Henc Hn Hov Hk.
  assert (Hmx : 0 <= mx) by (destruct Henc as [H _]; rewrite shr_m_of_loc in H; exact H).
  pose proof (encR_floor _ _ Henc) as Hfl. rewrite shr_m_of_loc in Hfl.
  assert (Hd : Zdigits2 mx + ex <= k \/ mx = 0).
  { destruct (Z.eq_dec mx 0) as [->|Hnz]; [right; reflexivity|left].
    pose proof (Zdigits2_bounds mx ltac:(lia)) as Hb.
    pose proof (Zdigits2_pos mx ltac:(lia)) as Hb0.
    assert (bpow (Zdigits2 mx - 1 + ex) < bpow k)%R.
    { eapply Rle_lt_trans; [|exact Hov]. rewrite bpow_add.
      apply Rmult_le_compat_r; [apply Rlt_le, bpow_pos|].
      rewrite bpow_IZR by lia. eapply Rle_trans; [|apply Hfl].
      apply IZR_le. lia. }
    apply bpow_lt_inv in H. lia. }
  assert (Hd127 : Zdigits2 mx + ex <= 127).
  { destruct Hd as [Hd | ->]; [lia|].
    cbn [Zdigits2 Z.add] in *. rewrite fexp32_eq in Hn. lia. }
  assert (HE : -149 <= fexp32 (Zdigits2 mx + ex) <= Z.max (k - 24) (-149)).
  { rewrite fexp32_eq in *. destruct Hd as [Hd | ->]; [lia|].
    cbn [Zdigits2 Z.add] in *. lia. }
  destruct (round_aux_M s mx ex lx v Henc Hn Hd127) as (M0 & HM0 & Hg & Hval & Hr).
  set (E := fexp32 (Zdigits2 mx + ex)) in *.
  exists (cond_Zopp s M0), E.
  split; [exact HE|].
  split; [exact Hg|]. split.
  { rewrite Hval, cond_Zopp_IZR. ring. }
  rewrite cond_Zopp_IZR.
  replace (sgn s * (v * bpow ex) * bpow (- E))%R
    with (sgn s * (v * bpow (- (E - ex))))%R.
  2:{ replace (- (E - ex)) with (ex + - E) by lia. rewrite bpow_add. ring. }
  rewrite Rabs_sgn. exact Hr.
Qed.

(** The product of two values. *)
Lemma mul_ulp x y k :
  good x -> good y ->
  (Rabs (F32.to_R x * F32.to_R y) < bpow k)%R -> k <= 127 ->
  exists M E : Z,
    -149 <= E <= Z.max (k - 24) (-149) /\
    good (F32.mul x y) /\
    F32.to_R (F32.mul x y) = (IZR M * bpow E)%R /\
    (Rabs (IZR M - F32.to_R x * F32.to_R y * bpow (- E)) <= 1 / 2)%R.
Proof.
  intros Hx Hy Hov Hk.
  assert (Hz : forall s, exists M E : Z,
              -149 <= E <= Z.max (k - 24) (-149) /\
              good (S754_zero s) /\
              F32.to_R (S754_zero s) = (IZR M * bpow E)%R /\
              (Rabs (IZR M - 0 * bpow (- E)) <= 1 / 2)%R).
  { intros s. exists 0, (-149). split; [lia|]. split; [apply good_zero|].
    cbn [F32.to_R]. split; [ring|].
    rewrite Rmult_0_l, Rminus_0_r, Rabs_R0. lra. }
  destruct x as [sx|sx| |sx m1 e1]; try (apply good_fin in Hx; discriminate);
    destruct y as [sy|sy| |sy m2 e2]; try (apply good_fin in Hy; discriminate).
  - unfold F32.mul. cbn [SFmul F32.to_R]. rewrite Rmult_0_l. apply Hz.
  - unfold F32.mul. cbn [SFmul]. cbn [F32.to_R]. rewrite Rmult_0_l. apply Hz.
  - unfold F32.mul. cbn [SFmul]. change (F32.to_R (S754_zero sy)) with 0%R.
    rewrite Rmult_0_r. apply Hz.
  - unfold F32.mul. cbn [SFmul].
    destruct (good_finite_inv _ _ _ Hx) as (He1 & Hd1 & Hc1).
    destruct (good_finite_inv _ _ _ Hy) as (He2 & Hd2 & Hc2).
    pose proof (Zdigits2_mul m1 m2) as Hd12.
    pose proof (Zdigits2_pos (Zpos m1) ltac:(lia)).
    pose proof (Zdigits2_pos (Zpos m2) ltac:(lia)).
    rewrite !to_R_finite in *.
    assert (Hprod : (sgn sx * (IZR (Zpos m1) * bpow e1)
                     * (sgn sy * (IZR (Zpos m2) * bpow e2))
                     = sgn (xorb sx sy)
                       * (IZR (Zpos (m1 * m2)) * bpow (e1 + e2)))%R).
    { rewrite sgn_xorb, bpow_add, Pos2Z.inj_mul, mult_IZR. ring. }
    rewrite Hprod in *.
    assert (Hpos : (0 <= IZR (Zpos (m1 * m2)) * bpow (e1 + e2))%R).
    { apply Rmult_le_pos; [apply IZR_le; lia | apply Rlt_le, bpow_pos]. }
    rewrite Rabs_mult, sgn_abs, Rmult_1_l, (Rabs_right _ (Rle_ge _ _ Hpos)) in Hov.
    apply round_aux_ulp.
    + apply encR_exact. lia.
    + rewrite fexp32_eq. lia.
    + exact Hov.
    + exact Hk.
Qed.

(** The quotient of two values. *)
Lemma div_ulp x y k :
  good x -> good y -> F32.to_R y <> 0%R ->
  (Rabs (F32.to_R x / F32.to_R y) < bpow k)%R -> k <= 127 ->
  exists M E : Z,
    -149 <= E <= Z.max (k - 24) (-149) /\
    good (F32.div x y) /\
    F32.to_R (F32.div x y) = (IZR M * bpow E)%R /\
    (Rabs (IZR M - F32.to_R x / F32.to_R y * bpow (- E)) <= 1 / 2)%R.
Proof.
  intros Hx Hy Hy0 Hov Hk.
  destruct y as [sy|sy| |sy m2 e2]; try (apply good_fin in Hy; discriminate).
  { exfalso. apply Hy0. reflexivity. }
  destruct x as [sx|sx| |sx m1 e1]; try (apply good_fin in Hx; discriminate).
  - unfold F32.div. cbn [SFdiv]. exists 0, (-149).
    split; [lia|]. split; [apply good_zero|].
    cbn [F32.to_R]. split; [ring|].
    unfold Rdiv. rewrite !Rmult_0_l, Rminus_0_r, Rabs_R0. lra.
  - unfold F32.div. cbn [SFdiv]. unfold SFdiv_core_binary.
    change (fexp F32.prec F32.emax) with fexp32.
    destruct (good_finite_inv _ _ _ Hx) as (He1 & Hd1 & Hc1).
    destruct (good_finite_inv _ _ _ Hy) as (He2 & Hd2 & Hc2).
    set (d1 := Zdigits2 (Zpos m1)) in *. set (d2 := Zdigits2 (Zpos m2)) in *.
    set (e' := Z.min (fexp32 (d1 + e1 - (d2 + e2))) (e1 - e2)).
    set (sh := e1 - e2 - e').
    assert (Hsh : 0 <= sh) by (unfold sh, e'; lia).
    set (m' := match sh with
               | 0 => Zpos m1
               | Zpos _ => Z.shiftl (Zpos m1) sh
               | Zneg _ => 0
               end).
    assert (Hm' : m' = Zpos m1 * 2 ^ sh).
    { unfold m'. destruct sh as [|p|p] eqn:Esh; try lia.
      rewrite Z.shiftl_mul_pow2 by lia. reflexivity. }
    clearbody m'.
    pose proof (Z_div_mod m' (Zpos m2) ltac:(lia)) as Hdm.
    destruct (Z.div_eucl m' (Zpos m2)) as [q r]. destruct Hdm as [HN Hr].
    assert (H2s : 0 < 2 ^ sh) by (apply Z.pow_pos_nonneg; lia).
    assert (Hq : 0 <= q) by nia.
    pose proof (Zdigits2_bounds (Zpos m1) ltac:(lia)) as Hb1. fold d1 in Hb1.
    pose proof (Zdigits2_bounds (Zpos m2) ltac:(lia)) as Hb2. fold d2 in Hb2.
    pose proof (Zdigits2_pos (Zpos m1) ltac:(lia)) as Hp1. fold d1 in Hp1.
    pose proof (Zdigits2_pos (Zpos m2) ltac:(lia)) as Hp2. fold d2 in Hp2.
    assert (Hdq : d1 + sh - d2 <= Zdigits2 q).
    { pose proof (Zdigits2_nonneg q Hq).
      destruct (Z_le_gt_dec (d1 + sh - d2) 0) as [|Hgt]; [lia|].
      assert (Hlow : 2 ^ (d1 + sh - d2 - 1) <= q).
      { assert (H1 : 2 ^ (d1 - 1 + sh) <= m').
        { rewrite Hm', Z.pow_add_r by lia. apply Z.mul_le_mono_nonneg_r; lia. }
        assert (H3 : 2 ^ (d1 - 1 + sh) = 2 ^ (d1 + sh - d2 - 1) * 2 ^ d2).
        { rewrite <- Z.pow_add_r by lia. f_equal. lia. }
        assert (H4 : 0 < 2 ^ (d1 + sh - d2 - 1)) by (apply Z.pow_pos_nonneg; lia).
        destruct (Z_lt_le_dec q (2 ^ (d1 + sh - d2 - 1))) as [Hlt|]; [|assumption].
        exfalso.
        assert (Zpos m2 * (q + 1) <= 2 ^ d2 * 2 ^ (d1 + sh - d2 - 1)).
        { apply Z.mul_le_mono_nonneg; lia. }
        lia. }
      pose proof (Zdigits2_lower q (d1 + sh - d2 - 1) ltac:(lia) Hlow). lia. }
    assert (HD2 : (0 < IZR (Zpos m2))%R) by (apply IZR_lt; lia).
    assert (Hv : (IZR (q * Zpos m2 + r) / IZR (Zpos m2)
                  = IZR (Zpos m1) * bpow sh / IZR (Zpos m2))%R).
    { replace (q * Zpos m2 + r) with m' by lia.
      rewrite Hm', mult_IZR, <- bpow_IZR by lia. reflexivity. }
    rewrite !to_R_finite in *.
    pose proof (bpow_pos e1). pose proof (bpow_pos e2). pose proof (bpow_pos e').
    assert (Hquot : (sgn sx * (IZR (Zpos m1) * bpow e1)
                     / (sgn sy * (IZR (Zpos m2) * bpow e2))
                     = sgn (xorb sx sy)
                       * (IZR (Zpos m1) * bpow sh / IZR (Zpos m2) * bpow e'))%R).
    { replace (bpow e1) with (bpow sh * bpow e' * bpow e2)%R.
      2:{ rewrite <- !bpow_add. f_equal. unfold sh. lia. }
      rewrite sgn_xorb. destruct sx, sy; unfold sgn; field; lra. }
    rewrite Hquot in *.
    assert (Hpos : (0 <= IZR (Zpos m1) * bpow sh / IZR (Zpos m2) * bpow e')%R).
    { apply Rmult_le_pos; [|lra]. apply Rmult_le_pos.
      - apply Rmult_le_pos; [apply IZR_le; lia | apply Rlt_le, bpow_pos].
      - apply Rlt_le, Rinv_0_lt_compat, HD2. }
    rewrite Rabs_mult, sgn_abs, Rmult_1_l, (Rabs_right _ (Rle_ge _ _ Hpos)) in Hov.
    rewrite <- Hv in *.
    apply round_aux_ulp.
    + apply enc_encR, new_location_enc; lia.
    + eapply Z.le_trans; [|apply fexp32_mono with (a := d1 + e1 - (d2 + e2))].
      * unfold e'. lia.
      * unfold sh in Hdq. lia.
    + exact Hov.
    + exact Hk.
Qed.

(** A power of two with a nonpositive exponent is the inverse of an
    integer. *)
Lemma bpow_inv_IZR E : E <= 0 -> bpow (- E) = IZR (2 ^ (- E)).
Proof. intros HE. apply bpow_IZR. lia. Qed.

Lemma bpow_mul_inv E : (bpow E * bpow (- E) = 1)%R.
Proof.
  rewrite <- bpow_add. replace (E + - E) with 0 by lia. reflexivity.
Qed.

(** Two integers within less than one of each other are equal. *)
Lemma IZR_near a b : (Rabs (IZR a - IZR b) <= 1 / 2)%R -> a = b.
Proof.
  intros H. apply abs_le_inv in H. rewrite <- minus_IZR in H.
  assert (H1 : (IZR (a - b) < IZR 1)%R) by lra.
  assert (H2 : (IZR (-1) < IZR (a - b))%R) by lra.
  apply lt_IZR in H1, H2. lia.
Qed.

(** A value that is itself a multiple of the unit is returned unchanged. *)
Lemma ulp_exact M E Emax K (q : R) :
  E <= Emax -> q = (IZR K * bpow Emax)%R ->
  (Rabs (IZR M - q * bpow (- E)) <= 1 / 2)%R ->
  (IZR M * bpow E)%R = q.
Proof.
  intros HE Hq Hr.
  assert (Hs : (q * bpow (- E) = IZR (K * 2 ^ (Emax - E)))%R).
  { rewrite Hq, Rmult_assoc, <- bpow_add, mult_IZR, <- bpow_IZR by lia.
    do 2 f_equal. }
  rewrite Hs in Hr. apply IZR_near in Hr. subst M.
  rewrite mult_IZR, <- bpow_IZR, Rmult_assoc, <- bpow_add, Hq by lia.
  do 2 f_equal. lia.
Qed.

(** Rounding in a unit of at most one eighth does not carry a value across
    an integer it is not within one eighth below. *)
Lemma ulp_floor M E n (q : R) :
  E <= -3 -> (Rabs (IZR M - q * bpow (- E)) <= 1 / 2)%R ->
  (IZR n <= q <= IZR n + 7 / 8)%R ->
  (IZR n <= IZR M * bpow E < IZR n + 1)%R.
Proof.
  intros HE Hr Hq.
  rewrite bpow_inv_IZR in Hr by lia.
  set (T := 2 ^ (- E)) in *.
  assert (HT : 8 <= T).
  { unfold T. change 8 with (2 ^ 3). apply Z.pow_le_mono_r; lia. }
  assert (HTR : (8 <= IZR T)%R) by (apply IZR_le in HT; exact HT).
  assert (HE' : bpow E = (/ IZR T)%R).
  { replace E with (- - E) at 1 by lia. rewrite bpow_neg, bpow_IZR by lia.
    reflexivity. }
  apply abs_le_inv in Hr.
  assert (Hlo : n * T <= M).
  { assert (H : (IZR (n * T - 1) < IZR M)%R).
    { rewrite minus_IZR, mult_IZR.
      assert (IZR n * IZR T <= q * IZR T)%R
        by (apply Rmult_le_compat_r; lra).
      lra. }
    apply lt_IZR in H. lia. }
  assert (Hhi : M < (n + 1) * T).
  { apply lt_IZR. rewrite mult_IZR, plus_IZR.
    assert (q * IZR T <= (IZR n + 7 / 8) * IZR T)%R
      by (apply Rmult_le_compat_r; lra).
    lra. }
  apply IZR_le in Hlo. apply IZR_lt in Hhi.
  rewrite mult_IZR in Hlo, Hhi. rewrite plus_IZR in Hhi.
  rewrite HE'.
  assert (HTi : (0 < / IZR T)%R) by (apply Rinv_0_lt_compat; lra).
  split.
  - apply (Rmult_le_reg_r (IZR T)); [lra|].
    rewrite Rmult_assoc, Rinv_l by lra. lra.
  - apply (Rmult_lt_reg_r (IZR T)); [lra|].
    rewrite Rmult_assoc, Rinv_l by lra. lra.
Qed.

(** The conversion to [uint32_t] of a value between two consecutive
    integers. *)
Lemma to_u32_floor x n :
  good x -> 0 <= n < 2 ^ 32 ->
  (IZR n <= F32.to_R x < IZR n + 1)%R ->
  F32.to_u32 x = Some n.
Proof.
  intros Hx Hn Hv.
  assert (Hn0 : (0 <= IZR n)%R) by (apply IZR_le; lia).
  destruct x as [s|s| |s m e]; try (apply good_fin in Hx; discriminate).
  - cbn [F32.to_R] in Hv.
    assert (n = 0).
    { assert (H : (IZR n < IZR 1)%R) by lra. apply lt_IZR in H. lia. }
    subst n. reflexivity.
  - rewrite to_R_finite in Hv.
    pose proof (bpow_pos e) as Hb.
    assert (Hm : (0 < IZR (Zpos m) * bpow e)%R).
    { apply Rmult_lt_0_compat; [apply IZR_lt; lia|exact Hb]. }
    destruct s; unfold sgn in Hv; [lra|].
    rewrite Rmult_1_l in Hv.
    unfold F32.to_u32, F32.trunc.
    assert (Ha : (if 0 <=? e then Z.shiftl (Zpos m) e
                  else Z.shiftr (Zpos m) (- e)) = n).
    { destruct (Z.leb_spec 0 e) as [He|He].
      - rewrite Z.shiftl_mul_pow2 by lia.
        rewrite bpow_IZR, <- mult_IZR in Hv by lia.
        destruct Hv as [H1 H2]. rewrite <- plus_IZR in H2.
        apply le_IZR in H1. apply lt_IZR in H2. lia.
      - rewrite Z.shiftr_div_pow2 by lia.
        assert (HT : 0 < 2 ^ (- e)) by (apply Z.pow_pos_nonneg; lia).
        assert (HE' : bpow e = (/ IZR (2 ^ (- e)))%R).
        { replace e with (- - e) at 1 by lia.
          rewrite bpow_neg, bpow_IZR by lia. reflexivity. }
        rewrite HE' in Hv.
        assert (HTR : (0 < IZR (2 ^ (- e)))%R) by (apply IZR_lt; exact HT).
        assert (H1 : n * 2 ^ (- e) <= Zpos m).
        { apply le_IZR. rewrite mult_IZR.
          apply (Rmult_le_reg_r (/ IZR (2 ^ (- e))));
            [apply Rinv_0_lt_compat; exact HTR|].
          rewrite Rmult_assoc, Rinv_r by lra. lra. }
        assert (H2 : Zpos m < (n + 1) * 2 ^ (- e)).
        { apply lt_IZR. rewrite mult_IZR, plus_IZR.
          apply (Rmult_lt_reg_r (/ IZR (2 ^ (- e))));
            [apply Rinv_0_lt_compat; exact HTR|].
          rewrite (Rmult_assoc (IZR n + 1)), Rinv_r by lra. lra. }
        symmetry. apply Z.div_unique with (Zpos m - n * 2 ^ (- e)); lia. }
    rewrite Ha.
    destruct (Z.leb_spec 0 n); [|lia]. destruct (Z.ltb_spec n (2 ^ 32)); [|lia].
    reflexivity.
Qed.

Ltac elra := rewrite ?eps32_val in *; lra.
Ltac enra := rewrite ?eps32_val in *; nra.

Lemma good_one : good (F32.of_int 1).
Proof. split; reflexivity. Qed.

Lemma good_zero_int : good (F32.of_int 0).
Proof. split; reflexivity. Qed.

Lemma to_R_one : F32.to_R (F32.of_int 1) = 1%R.
Proof.
  change (F32.of_int 1) with (S754_finite false 8388608 (-23)).
  unfold F32.to_R. cbn [Z.leb Z.compare Z.opp]. 
  change (2 ^ 23) with 8388608. field.
Qed.

Lemma to_R_zero_int : F32.to_R (F32.of_int 0) = 0%R.
Proof. reflexivity. Qed.

(** [glm::normalize] in binary32: for a vector whose squared length is
    between 2^-14 and 4, every component of the result is within sixteen
    units in the last place of 1 of the component of the exact unit
    vector. *)
Lemma unit_vector_err L (v : vec3 f32) :
  vec_good v ->
  (/ 16384 <= rdot v v <= 4)%R ->
  vec_good (normalize (H := Scalar_f32 L) v) /\
  (Rabs (F32.to_R (vx (normalize (H := Scalar_f32 L) v))
         - F32.to_R (vx v) / sqrt (rdot v v)) <= 16 * eps32)%R /\
  (Rabs (F32.to_R (vy (normalize (H := Scalar_f32 L) v))
         - F32.to_R (vy v) / sqrt (rdot v v)) <= 16 * eps32)%R /\
  (Rabs (F32.to_R (vz (normalize (H := Scalar_f32 L) v))
         - F32.to_R (vz v) / sqrt (rdot v v)) <= 16 * eps32)%R.
Proof.
  intros (Ha & Hb & Hc) HN.
  destruct v as [a b c]. unfold rdot in *. cbn [vx vy vz] in *.
  unfold normalize, inversesqrt, dot, vscale.
  cbn [s_mul s_add s_div s_sqrt s_of_int Scalar_f32 vx vy vz].
  set (ra := F32.to_R a) in *. set (rb := F32.to_R b) in *.
  set (rc := F32.to_R c) in *.
  set (N := (ra * ra + rb * rb + rc * rc)%R) in *.
  pose proof eta32_small as Heta. pose proof eps32_val as Heps.
  assert (Ha2 : (0 <= ra * ra)%R) by nra.
  assert (Hb2 : (0 <= rb * rb)%R) by nra.
  assert (Hc2 : (0 <= rc * rc)%R) by nra.
  (* the squared length *)
  destruct (mul_B N a a Ha Ha) as [Hg1 He1];
    [apply Rabs_le; fold ra; unfold N; lra | lra |].
  destruct (mul_B N b b Hb Hb) as [Hg2 He2];
    [apply Rabs_le; fold rb; unfold N; lra | lra |].
  destruct (mul_B N c c Hc Hc) as [Hg3 He3];
    [apply Rabs_le; fold rc; unfold N; lra | lra |].
  fold ra in He1. fold rb in He2. fold rc in He3.
  apply abs_le_inv in He1, He2, He3.
  set (p1 := F32.mul a a) in *. set (p2 := F32.mul b b) in *.
  set (p3 := F32.mul c c) in *.
  destruct (add_B (2 * N) p1 p2 Hg1 Hg2) as [Hg4 He4];
    [apply Rabs_le; unfold N in *; elra | lra |].
  apply abs_le_inv in He4. set (s1 := F32.add p1 p2) in *.
  destruct (add_B (2 * N) s1 p3 Hg4 Hg3) as [Hg5 He5];
    [apply Rabs_le; unfold N in *; elra | lra |].
  apply abs_le_inv in He5. set (n := F32.add s1 p3) in *.
  assert (Hn : (N * (1 - 8 * eps32) <= F32.to_R n <= N * (1 + 8 * eps32))%R).
  { unfold N in *. elra. }
  clear He1 He2 He3 He4 He5.
  (* its square root *)
  set (S := sqrt N).
  assert (HS2 : (S * S = N)%R) by (apply sqrt_sqrt; lra).
  assert (HSlo : (/ 128 <= S)%R) by (apply sq_le_sqrt; lra).
  assert (HShi : (S <= 2)%R) by (apply sqrt_le_sq; lra).
  destruct (sqrt_R n Hg5) as [Hg6 He6]; [elra|].
  set (q := F32.sqrt n) in *.
  assert (Hr : (S * (1 - 8 * eps32) <= sqrt (F32.to_R n) <= S * (1 + 8 * eps32))%R).
  { split.
    - apply sq_le_sqrt; [enra|].
      replace (S * (1 - 8 * eps32) * (S * (1 - 8 * eps32)))%R
        with (N * ((1 - 8 * eps32) * (1 - 8 * eps32)))%R by (rewrite <- HS2; ring).
      enra.
    - apply sqrt_le_sq; [elra | enra |].
      replace (S * (1 + 8 * eps32) * (S * (1 + 8 * eps32)))%R
        with (N * ((1 + 8 * eps32) * (1 + 8 * eps32)))%R by (rewrite <- HS2; ring).
      enra. }
  apply abs_le_inv in He6.
  assert (Hq : (S * (1 - 10 * eps32) <= F32.to_R q <= S * (1 + 10 * eps32))%R).
  { enra. }
  clear He6 Hr Hn.
  (* its reciprocal *)
  assert (Hq0 : (0 < F32.to_R q)%R) by (enra).
  set (T := (/ S)%R).
  assert (HST : (S * T = 1)%R) by (unfold T; field; lra).
  assert (HTlo : (/ 2 <= T)%R).
  { unfold T. apply Rinv_le_contravar; lra. }
  assert (HThi : (T <= 128)%R).
  { unfold T. rewrite <- (Rinv_inv 128). apply Rinv_le_contravar; lra. }
  assert (Hiq : (T * (1 - 10 * eps32) <= / F32.to_R q <= T * (1 + 11 * eps32))%R).
  { split.
    - rewrite Rmult_comm. apply inv_ge_scaled; [lra | lra |].
      enra.
    - rewrite Rmult_comm. apply inv_le_scaled; [lra | lra |].
      enra. }
  destruct (div_R (F32.of_int 1) q good_one Hg6) as [Hg7 He7].
  { lra. }
  { rewrite to_R_one. unfold Rdiv. rewrite Rmult_1_l.
    pose proof bpow127_big. rewrite Rabs_right by (enra).
    enra. }
  rewrite to_R_one in He7. unfold Rdiv in He7. rewrite Rmult_1_l in He7.
  rewrite (Rabs_right (/ F32.to_R q)) in He7 by (enra).
  apply abs_le_inv in He7.
  set (s := F32.div (F32.of_int 1) q) in *.
  assert (Hs : (T * (1 - 12 * eps32) <= F32.to_R s <= T * (1 + 13 * eps32))%R).
  { enra. }
  clear He7 Hiq.
  (* the scaled components *)
  assert (Hcomp : forall x : f32, good x ->
            (F32.to_R x * F32.to_R x <= N)%R ->
            good (F32.mul x s) /\
            (Rabs (F32.to_R (F32.mul x s) - F32.to_R x / S) <= 16 * eps32)%R).
  { intros x Hx Hx2. set (rx := F32.to_R x) in *.
    assert (Hax : (Rabs rx <= S)%R) by (apply abs_le_sqrt; exact Hx2).
    assert (Hs0 : (0 <= F32.to_R s)%R) by (enra).
    assert (HxsT : (Rabs (rx * F32.to_R s - rx * T) <= 13 * eps32)%R).
    { rewrite <- Rmult_minus_distr_l, Rabs_mult.
      assert (Hd : (Rabs (F32.to_R s - T) <= T * (13 * eps32))%R).
      { apply Rabs_le. enra. }
      apply Rle_trans with (S * (T * (13 * eps32)))%R.
      - apply Rmult_le_compat; [apply Rabs_pos | apply Rabs_pos | exact Hax | exact Hd].
      - rewrite <- Rmult_assoc, HST. lra. }
    destruct (mul_B 2 x s Hx Hg7) as [Hg He]; [|lra|].
    { rewrite Rabs_mult, (Rabs_right (F32.to_R s)) by lra.
      apply Rle_trans with (S * (T * (1 + 13 * eps32)))%R.
      - apply Rmult_le_compat; [apply Rabs_pos | lra | exact Hax | lra].
      - rewrite <- Rmult_assoc, HST. elra. }
    split; [exact Hg|]. fold rx in He.
    apply abs_le_inv in He, HxsT. apply Rabs_le.
    unfold Rdiv. fold T. elra. }
  destruct (Hcomp a Ha) as [Hga Hea]; [fold ra; unfold N; lra|].
  destruct (Hcomp b Hb) as [Hgb Heb]; [fold rb; unfold N; lra|].
  destruct (Hcomp c Hc) as [Hgc Hec]; [fold rc; unfold N; lra|].
  split; [split; [exact Hga|split; [exact Hgb|exact Hgc]]|].
  split; [exact Hea|]. split; [exact Heb|exact Hec].
Qed.
(** ** The letterbox block against exact arithmetic *)

(** An integer below 2^24 converts to [float] without rounding, to a normal
    value. *)
Lemma of_int_normal w :
  1 <= w < 2 ^ 24 ->
  exists (m : positive) (e : Z),
    F32.of_int w = S754_finite false m e /\
    2 ^ 23 <= Zpos m < 2 ^ 24 /\ -23 <= e <= 0 /\ Zpos m = w * 2 ^ (- e).
Proof.
  intros Hw. destruct w as [|p|p]; try lia.
  unfold F32.of_int. cbn [binary_normalize]. unfold binary_round.
  change (Zpos (digits2_pos p)) with (Zdigits2 (Zpos p)).
  pose proof (Zdigits2_bounds (Zpos p) ltac:(lia)) as Hb.
  pose proof (Zdigits2_pos (Zpos p) ltac:(lia)) as Hd0.
  set (d := Zdigits2 (Zpos p)) in *.
  assert (Hd : d <= 24).
  { destruct (Z_lt_le_dec 24 d) as [Hgt|]; [|assumption]. exfalso.
    assert (2 ^ 24 <= 2 ^ (d - 1)) by (apply Z.pow_le_mono_r; lia). lia. }
  replace (fexp F32.prec F32.emax (d + 0)) with (d - 24)
    by (unfold fexp, emin, F32.prec, F32.emax; lia).
  destruct (shl_align_spec p 0 (d - 24)) as [Hez Hmz].
  destruct (shl_align p 0 (d - 24)) as [mz ez]. cbn [fst snd] in Hez, Hmz.
  replace (Z.min 0 (d - 24)) with (d - 24) in Hez, Hmz by lia. subst ez.
  replace (0 - (d - 24)) with (24 - d) in Hmz by lia.
  assert (Hm24 : 2 ^ 23 <= Zpos mz < 2 ^ 24).
  { rewrite Hmz. split.
    - replace 23 with ((d - 1) + (24 - d)) by lia. rewrite Z.pow_add_r by lia.
      apply Z.mul_le_mono_nonneg_r; [apply Z.pow_nonneg|]; lia.
    - replace 24 with (d + (24 - d)) at 2 by lia. rewrite Z.pow_add_r by lia.
      apply Z.mul_lt_mono_pos_r; [apply Z.pow_pos_nonneg|]; lia. }
  rewrite binary_round_aux_unfold. unfold shr_fexp, F32.prec, F32.emax.
  rewrite (Zdigits2_unique (Zpos mz) 24) by lia.
  replace (fexp 24 128 (24 + (d - 24)) - (d - 24)) with 0
    by (unfold fexp, emin; lia).
  cbn [shr shr_record_of_loc shr_m loc_of_shr_record round_nearest_even].
  destruct (finish_normal false (Zpos mz) (d - 24)) as (M & j & Hf & HM & Hj & HM0);
    [lia|lia|].
  rewrite Hf.
  assert (j = 0).
  { destruct (Z.eq_dec j 0) as [|Hne]; [assumption|exfalso].
    assert (j = 1) by lia. subst j. change (2 ^ 1) with 2 in HM0. lia. }
  subst j. rewrite Z.mul_1_r in HM0. rewrite Z.add_0_r.
  exists M, (d - 24). split; [reflexivity|]. split; [lia|]. split; [lia|].
  rewrite HM0, Hmz. f_equal. f_equal. lia.
Qed.

Lemma of_int_R w :
  0 <= w < 2 ^ 24 ->
  good (F32.of_int w) /\ F32.to_R (F32.of_int w) = IZR w.
Proof.
  intros Hw. destruct (Z.eq_dec w 0) as [->|Hnz].
  - split; [apply good_zero_int|apply to_R_zero_int].
  - destruct (of_int_normal w ltac:(lia)) as (m & e & -> & Hm & He & Hv).
    split.
    + apply good_finite; [|lia].
      rewrite (Zdigits2_unique (Zpos m) 24) by lia. rewrite fexp32_eq. lia.
    + rewrite to_R_finite. unfold sgn. rewrite Rmult_1_l, Hv, mult_IZR.
      rewrite <- bpow_inv_IZR by lia.
      rewrite Rmult_assoc, (Rmult_comm (bpow (- e))), bpow_mul_inv. ring.
Qed.

(** The comparison of line 226 decides the exact comparison of aspects. *)
Lemma aspect_test_exact w h :
  1 <= w < 2 ^ 24 -> 1 <= h < 2 ^ 24 ->
  F32.ltb (F32.div (F32.of_int w) (F32.of_int h))
          (F32.div (F32.of_int WIDTH) (F32.of_int HEIGHT))
  = (HEIGHT * w <? WIDTH * h).
Proof.
  intros Hw Hh.
  destruct (of_int_normal w Hw) as (m1 & e1 & -> & Hm1 & He1 & Hv1).
  destruct (of_int_normal h Hh) as (m2 & e2 & -> & Hm2 & He2 & Hv2).
  rewrite image_aspect_value.
  rewrite (quotient_vs_four_thirds w h m1 m2 e1 e2) by lia.
  unfold WIDTH, HEIGHT.
  destruct (Z.ltb_spec (3 * w) (4 * h)), (Z.ltb_spec (720 * w) (960 * h));
    try reflexivity; lia.
Qed.

(** A rounded product, against the exact one. *)
Lemma product_near a w :
  1 <= a < 2 ^ 24 -> 1 <= w < 2 ^ 24 -> a * w < 2 ^ 30 ->
  good (F32.mul (F32.of_int a) (F32.of_int w)) /\
  (Rabs (F32.to_R (F32.mul (F32.of_int a) (F32.of_int w)) - IZR (a * w)) <= 32)%R /\
  ((a * w) mod 64 = 0 ->
   F32.to_R (F32.mul (F32.of_int a) (F32.of_int w)) = IZR (a * w)).
Proof.
  intros Ha Hw Hlim.
  destruct (of_int_R a ltac:(lia)) as [Ga Va].
  destruct (of_int_R w ltac:(lia)) as [Gw Vw].
  assert (Hov : (Rabs (F32.to_R (F32.of_int a) * F32.to_R (F32.of_int w))
                 < bpow 30)%R).
  { rewrite Va, Vw, <- mult_IZR, Rabs_right by (apply Rle_ge, IZR_le; nia).
    rewrite bpow_IZR by lia. apply IZR_lt. exact Hlim. }
  destruct (mul_ulp _ _ 30 Ga Gw Hov ltac:(lia)) as (M & E & HE & GP & VP & RP).
  rewrite Va, Vw, <- mult_IZR in RP.
  split; [exact GP|]. rewrite VP.
  pose proof (bpow_pos E) as HbE.
  assert (HE6 : (bpow E <= 64)%R).
  { apply Rle_trans with (bpow 6); [apply bpow_le; lia|].
    rewrite bpow_IZR by lia. apply IZR_le. simpl. lia. }
  split.
  - replace (IZR M * bpow E - IZR (a * w))%R
      with ((IZR M - IZR (a * w) * bpow (- E)) * bpow E)%R.
    2:{ rewrite Rmult_minus_distr_r, Rmult_assoc, (Rmult_comm (bpow (- E))),
          bpow_mul_inv. ring. }
    rewrite Rabs_mult, (Rabs_right (bpow E)) by lra.
    apply Rle_trans with (1 / 2 * bpow E)%R; [|lra].
    apply Rmult_le_compat_r; lra.
  - intros Hmod.
    apply (ulp_exact M E 6 (a * w / 64)); [lia| |exact RP].
    rewrite bpow_IZR, <- mult_IZR by lia. f_equal.
    change (2 ^ 6) with 64.
    pose proof (Z.div_mod (a * w) 64 ltac:(lia)). lia.
Qed.

(** The quotient of a float near [N] by the integer [D], truncated, where
    [N / D] stays at least one eighth below the next integer. *)
Lemma quotient_floor P N D n :
  good P -> 1 <= D < 2 ^ 24 -> 0 <= n < 2 ^ 21 ->
  (IZR (D * n) <= F32.to_R P <= IZR (D * n) + 7 / 8 * IZR D)%R ->
  F32.to_R P = N ->
  F32.to_u32 (F32.div P (F32.of_int D)) = Some n.
Proof.
  intros GP HD Hn HP _.
  destruct (of_int_R D ltac:(lia)) as [GD VD].
  assert (HDR : (1 <= IZR D)%R) by (apply IZR_le; lia).
  assert (Hq : (IZR n <= F32.to_R P / IZR D <= IZR n + 7 / 8)%R).
  { rewrite mult_IZR in HP. split.
    - apply (Rmult_le_reg_r (IZR D)); [lra|].
      unfold Rdiv. rewrite Rmult_assoc, Rinv_l by lra. lra.
    - apply (Rmult_le_reg_r (IZR D)); [lra|].
      unfold Rdiv. rewrite Rmult_assoc, Rinv_l by lra. lra. }
  assert (Hn0 : (0 <= IZR n)%R) by (apply IZR_le; lia).
  assert (Hov : (Rabs (F32.to_R P / F32.to_R (F32.of_int D)) < bpow 21)%R).
  { rewrite VD, Rabs_right by lra. rewrite bpow_IZR by lia.
    assert (IZR n + 1 <= IZR (2 ^ 21))%R
      by (rewrite <- plus_IZR; apply IZR_le; lia).
    lra. }
  destruct (div_ulp P (F32.of_int D) 21 GP GD ltac:(rewrite VD; lra) Hov ltac:(lia))
    as (M & E & HE & GQ & VQ & RQ).
  rewrite VD in RQ.
  apply to_u32_floor; [exact GQ|lia|].
  rewrite VQ. apply (ulp_floor M E n _ ltac:(lia) RQ Hq).
Qed.

(** The scaled height of line 229, wherever [HEIGHT * width] is below
    2^30. *)
Lemma scale_h_general w :
  1 <= w -> HEIGHT * w < 2 ^ 30 ->
  F32.to_u32 (F32.div (F32.mul (F32.of_int HEIGHT) (F32.of_int w)) (F32.of_int WIDTH))
  = Some (HEIGHT * w / WIDTH).
Proof.
  unfold HEIGHT, WIDTH. intros Hw Hlim.
  destruct (product_near 720 w ltac:(lia) ltac:(lia) Hlim) as (GP & NP & XP).
  pose proof (Z.div_mod (720 * w) 960 ltac:(lia)) as Hdm.
  pose proof (Z.mod_pos_bound (720 * w) 960 ltac:(lia)) as Hrho.
  assert (Hstep : (720 * w) mod 960 = 240 * ((3 * w) mod 4)).
  { replace (720 * w) with (240 * (3 * w)) by ring.
    change 960 with (240 * 4). apply Z.mul_mod_distr_l; lia. }
  pose proof (Z.mod_pos_bound (3 * w) 4 ltac:(lia)) as Hr4.
  set (n := 720 * w / 960) in *. set (rho := (720 * w) mod 960) in *.
  assert (Hn : 0 <= n) by (apply Z.div_pos; lia).
  apply (quotient_floor _ (F32.to_R (F32.mul (F32.of_int 720) (F32.of_int w))));
    [exact GP|lia|lia| |reflexivity].
  apply abs_le_inv in NP.
  assert (HNR : IZR (720 * w) = (IZR (960 * n) + IZR rho)%R)
    by (rewrite <- plus_IZR; f_equal; lia).
  destruct (Z.eq_dec rho 0) as [H0|Hnz].
  - rewrite XP.
    + rewrite HNR, H0. lra.
    + change 64 with (64 * 1) at 1. rewrite Hdm, H0, Z.add_0_r.
      replace (960 * n) with (n * 15 * 64) by ring. apply Z.mod_mul. lia.
  - assert (Hr : 240 <= rho <= 720) by lia.
    assert (HrR : (240 <= IZR rho <= 720)%R)
      by (split; apply IZR_le; lia).
    rewrite HNR in NP. lra.
Qed.

(** The scaled width of line 236, wherever [WIDTH * height] is below
    2^30. *)
Lemma scale_w_general h :
  1 <= h -> WIDTH * h < 2 ^ 30 ->
  F32.to_u32 (F32.div (F32.mul (F32.of_int WIDTH) (F32.of_int h)) (F32.of_int HEIGHT))
  = Some (WIDTH * h / HEIGHT).
Proof.
  unfold HEIGHT, WIDTH. intros Hh Hlim.
  destruct (product_near 960 h ltac:(lia) ltac:(lia) Hlim) as (GP & NP & XP).
  pose proof (Z.div_mod (960 * h) 720 ltac:(lia)) as Hdm.
  pose proof (Z.mod_pos_bound (960 * h) 720 ltac:(lia)) as Hrho.
  set (n := 960 * h / 720) in *. set (rho := (960 * h) mod 720) in *.
  assert (Hn : 0 <= n) by (apply Z.div_pos; lia).
  assert (Hrho' : rho <= 480).
  { assert (Hstep : (960 * h) mod 720 = 240 * ((4 * h) mod 3)).
    { replace (960 * h) with (240 * (4 * h)) by ring.
      change 720 with (240 * 3). apply Z.mul_mod_distr_l; lia. }
    pose proof (Z.mod_pos_bound (4 * h) 3 ltac:(lia)). lia. }
  apply (quotient_floor _ (F32.to_R (F32.mul (F32.of_int 960) (F32.of_int h))));
    [exact GP|lia|lia| |reflexivity].
  rewrite XP.
  2:{ replace (960 * h) with (h * 15 * 64) by ring. apply Z.mod_mul. lia. }
  assert (HNR : IZR (960 * h) = (IZR (720 * n) + IZR rho)%R)
    by (rewrite <- plus_IZR; f_equal; lia).
  assert (HrR : (0 <= IZR rho <= 480)%R) by (split; apply IZR_le; lia).
  rewrite HNR. lra.
Qed.

(** Halving a difference, lines 231 and 237. *)
Lemma half_value d :
  0 <= d < 2 ^ 24 ->
  F32.to_u32 (F32.div (F32.of_int d) F32.two) = Some (d / 2).
Proof.
  intros Hd. change F32.two with (F32.of_int 2).
  destruct (of_int_R d Hd) as [Gd Vd].
  destruct (of_int_R 2 ltac:(lia)) as [G2 V2].
  assert (HdR : (0 <= IZR d)%R) by (apply IZR_le; lia).
  assert (Hov : (Rabs (F32.to_R (F32.of_int d) / F32.to_R (F32.of_int 2))
                 < bpow 23)%R).
  { rewrite Vd, V2, Rabs_right by lra. rewrite bpow_IZR by lia.
    assert (IZR d < IZR (2 ^ 24))%R by (apply IZR_lt; lia).
    change (2 ^ 24) with (2 * 2 ^ 23) in H. rewrite mult_IZR in H. lra. }
  destruct (div_ulp _ _ 23 Gd G2 ltac:(rewrite V2; lra) Hov ltac:(lia))
    as (M & E & HE & GQ & VQ & RQ).
  rewrite Vd, V2 in RQ.
  assert (Hex : (IZR M * bpow E = IZR d / 2)%R).
  { apply (ulp_exact M E (-1) d); [lia| |exact RQ].
    change (-1) with (Z.opp 1). rewrite bpow_neg, bpow_IZR by lia.
    change (2 ^ 1) with 2. lra. }
  pose proof (Z.div_mod d 2 ltac:(lia)) as Hdm.
  pose proof (Z.mod_pos_bound d 2 ltac:(lia)) as Hr.
  assert (Hn : 0 <= d / 2) by (apply Z.div_pos; lia).
  apply to_u32_floor; [exact GQ|lia|].
  rewrite VQ, Hex.
  assert (HdE : IZR d = (2 * IZR (d / 2) + IZR (d mod 2))%R)
    by (rewrite <- mult_IZR, <- plus_IZR; f_equal; lia).
  assert (HrR : (0 <= IZR (d mod 2) <= 1)%R) by (split; apply IZR_le; lia).
  lra.
Qed.

(** Up to [max_dim], where [HEIGHT * width] passes 2^30 on the last seven
    widths. *)
Lemma scale_h_value w :
  1 <= w <= max_dim ->
  F32.to_u32 (F32.div (F32.mul (F32.of_int HEIGHT) (F32.of_int w)) (F32.of_int WIDTH))
  = Some (HEIGHT * w / WIDTH).
Proof.
  intros Hw. unfold max_dim in Hw.
  destruct (Z_lt_le_dec (HEIGHT * w) (2 ^ 30)) as [Hlt|Hge].
  - apply scale_h_general; [lia|exact Hlt].
  - unfold HEIGHT in Hge.
    assert (Hc : w = 1491309 \/ w = 1491310 \/ w = 1491311 \/ w = 1491312
                 \/ w = 1491313 \/ w = 1491314 \/ w = 1491315) by lia.
    repeat (destruct Hc as [-> | Hc]; [vm_compute; reflexivity|]).
    subst w. vm_compute. reflexivity.
Qed.

(** Up to three quarters of [max_dim], where [WIDTH * height] passes 2^30
    on the last five heights. *)
Lemma scale_w_value h :
  1 <= h -> 4 * h <= 3 * max_dim ->
  F32.to_u32 (F32.div (F32.mul (F32.of_int WIDTH) (F32.of_int h)) (F32.of_int HEIGHT))
  = Some (WIDTH * h / HEIGHT).
Proof.
  intros Hh Hlim. unfold max_dim in Hlim.
  destruct (Z_lt_le_dec (WIDTH * h) (2 ^ 30)) as [Hlt|Hge].
  - apply scale_w_general; [lia|exact Hlt].
  - unfold WIDTH in Hge.
    assert (Hc : h = 1118482 \/ h = 1118483 \/ h = 1118484 \/ h = 1118485
                 \/ h = 1118486) by lia.
    repeat (destruct Hc as [-> | Hc]; [vm_compute; reflexivity|]).
    subst h. vm_compute. reflexivity.
Qed.

(** Up to [max_dim] the binary32 letterbox is the exact one. *)
Lemma letterbox_refines_exact w h :
  1 <= w <= max_dim -> 1 <= h <= max_dim ->
  letterbox w h = Some (letterbox_exact w h).
Proof.
  intros Hw Hh. unfold letterbox, letterbox_exact.
  rewrite (aspect_test_exact w h) by (unfold max_dim in *; lia).
  destruct (Z.ltb_spec (HEIGHT * w) (WIDTH * h)) as [Hlt|Hge].
  - rewrite (scale_h_value w Hw). cbn [obind].
    change (F32.to_u32 F32.zero) with (Some 0). cbn [obind].
    assert (Hs : 0 <= HEIGHT * w / WIDTH < h).
    { unfold WIDTH, HEIGHT in *. split.
      - apply Z.div_pos; lia.
      - apply Z.div_lt_upper_bound; lia. }
    unfold u32_sub. rewrite Z.mod_small by (unfold max_dim in *; lia).
    rewrite half_value by (unfold max_dim in *; lia).
    reflexivity.
  - rewrite (scale_w_value h) by (unfold WIDTH, HEIGHT, max_dim in *; lia).
    cbn [obind].
    assert (Hs : 0 <= WIDTH * h / HEIGHT <= w).
    { unfold WIDTH, HEIGHT in *. split.
      - apply Z.div_pos; lia.
      - apply Z.div_le_upper_bound; lia. }
    unfold u32_sub. rewrite Z.mod_small by (unfold max_dim in *; lia).
    rewrite half_value by (unfold max_dim in *; lia).
    change (F32.to_u32 F32.zero) with (Some 0). reflexivity.
Qed.

(** One side further the exact letterbox is missed: the target of 1491316
    by 1118487 has the image's aspect, and the blit leaves a column of it
    uncovered. *)
Lemma letterbox_exact_limit :
  letterbox (max_dim + 1) 1118487
  = Some {| rect_x := 0; rect_y := 0; rect_w := max_dim; rect_h := 1118487 |} /\
  letterbox_exact (max_dim + 1) 1118487
  = {| rect_x := 0; rect_y := 0; rect_w := max_dim + 1; rect_h := 1118487 |}.
Proof. split; vm_compute; reflexivity. Qed.

Lemma letterbox_exact_inside w h :
  1 <= w -> 1 <= h -> inside (letterbox_exact w h) w h.
Proof.
  intros Hw Hh. unfold letterbox_exact, inside, WIDTH, HEIGHT.
  destruct (Z.ltb_spec (720 * w) (960 * h)) as [Hlt|Hge]; cbn [rect_x rect_y rect_w rect_h].
  - assert (0 <= 720 * w / 960 < h).
    { split; [apply Z.div_pos; lia | apply Z.div_lt_upper_bound; lia]. }
    pose proof (Z.mul_div_le (h - 720 * w / 960) 2 ltac:(lia)).
    assert (0 <= (h - 720 * w / 960) / 2) by (apply Z.div_pos; lia).
    lia.
  - assert (0 <= 960 * h / 720 <= w).
    { split; [apply Z.div_pos; lia | apply Z.div_le_upper_bound; lia]. }
    pose proof (Z.mul_div_le (w - 960 * h / 720) 2 ltac:(lia)).
    assert (0 <= (w - 960 * h / 720) / 2) by (apply Z.div_pos; lia).
    lia.
Qed.

(** On a target of any size, whenever the conversions are defined: the
    rectangle spans the width if the test of line 226 holds, and the height
    if it does not. *)
Lemma letterbox_branches w h r :
  letterbox w h = Some r ->
  if F32.ltb (F32.div (F32.of_int w) (F32.of_int h))
             (F32.div (F32.of_int WIDTH) (F32.of_int HEIGHT))
  then rect_x r = 0 /\ rect_w r = w
  else rect_y r = 0 /\ rect_h r = h.
Proof.
  unfold letterbox.
  change (F32.to_u32 F32.zero) with (Some 0).
  destruct (F32.ltb _ _).
  - destruct (F32.to_u32 _) as [lh|]; cbn [obind]; [|discriminate].
    destruct (F32.to_u32 _) as [ly|]; cbn [obind]; [|discriminate].
    intros E. injection E as <-. split; reflexivity.
  - destruct (F32.to_u32 _) as [lw|]; cbn [obind]; [|discriminate].
    destruct (F32.to_u32 _) as [lx|]; cbn [obind]; [|discriminate].
    intros E. injection E as <-. split; reflexivity.
Qed.
(** ** The letterbox rectangle stays inside the target *)

Lemma bpow127_above : (IZR (2 ^ 40) < bpow 127)%R.
Proof.
  rewrite <- bpow_IZR by lia. apply Rlt_le_trans with (bpow 41).
  - rewrite !bpow_IZR by lia. apply IZR_lt. reflexivity.
  - apply bpow_le. lia.
Qed.

(** The conversion to [uint32_t] of a value of the range of [uint32_t] is
    defined, and truncates. *)
Lemma to_u32_some x :
  good x -> (0 <= F32.to_R x < IZR (2 ^ 32))%R ->
  exists n, F32.to_u32 x = Some n /\ 0 <= n /\
            (IZR n <= F32.to_R x < IZR n + 1)%R.
Proof.
  intros Hx Hv.
  assert (Hex : exists n, 0 <= n /\ (IZR n <= F32.to_R x < IZR n + 1)%R).
  { destruct x as [s|s| |s m e]; try (apply good_fin in Hx; discriminate).
    - exists 0. cbn [F32.to_R]. split; [lia|lra].
    - rewrite to_R_finite in *. pose proof (bpow_pos e) as Hb.
      assert (Hm : (0 < IZR (Zpos m) * bpow e)%R).
      { apply Rmult_lt_0_compat; [apply IZR_lt; lia|exact Hb]. }
      destruct s; unfold sgn in *; [lra|]. rewrite Rmult_1_l.
      destruct (Z_le_gt_dec 0 e) as [He|He].
      + exists (Zpos m * 2 ^ e). split; [apply Z.mul_nonneg_nonneg; lia|].
        rewrite mult_IZR, <- bpow_IZR by lia. lra.
      + assert (HT : 0 < 2 ^ (- e)) by (apply Z.pow_pos_nonneg; lia).
        assert (HTR : (0 < IZR (2 ^ (- e)))%R) by (apply IZR_lt; exact HT).
        assert (HE' : bpow e = (/ IZR (2 ^ (- e)))%R).
        { replace e with (- - e) at 1 by lia.
          rewrite bpow_neg, bpow_IZR by lia. reflexivity. }
        pose proof (Z.div_mod (Zpos m) (2 ^ (- e)) ltac:(lia)) as Hdm.
        pose proof (Z.mod_pos_bound (Zpos m) (2 ^ (- e)) HT) as Hr.
        exists (Zpos m / 2 ^ (- e)). split; [apply Z.div_pos; lia|].
        rewrite HE'.
        assert (HmR : IZR (Zpos m)
                      = (IZR (2 ^ (- e)) * IZR (Zpos m / 2 ^ (- e))
                         + IZR (Zpos m mod 2 ^ (- e)))%R)
          by (rewrite <- mult_IZR, <- plus_IZR; f_equal; exact Hdm).
        assert (HrR : (0 <= IZR (Zpos m mod 2 ^ (- e)) < IZR (2 ^ (- e)))%R)
          by (split; [apply IZR_le|apply IZR_lt]; lia).
        assert (HTi : (0 < / IZR (2 ^ (- e)))%R) by (apply Rinv_0_lt_compat; lra).
        split.
        * apply (Rmult_le_reg_r (IZR (2 ^ (- e)))); [lra|].
          rewrite Rmult_assoc, Rinv_l by lra. lra.
        * apply (Rmult_lt_reg_r (IZR (2 ^ (- e)))); [lra|].
          rewrite Rmult_assoc, Rinv_l by lra. lra. }
  destruct Hex as (n & Hn & Hb). exists n.
  split; [|split; [exact Hn|exact Hb]].
  apply to_u32_floor; [exact Hx| |exact Hb].
  split; [exact Hn|]. apply lt_IZR. lra.
Qed.

(** The scaled side of lines 229 and 236 does not pass a target side [t]
    below 2^23 that the exact proportion does not pass. *)
Lemma scaled_side_bounded a b w t :
  (a = 720 /\ b = 960) \/ (a = 960 /\ b = 720) ->
  1 <= w < 2 ^ 24 -> 1 <= t < 2 ^ 23 -> a * w <= b * t ->
  exists n,
    F32.to_u32 (F32.div (F32.mul (F32.of_int a) (F32.of_int w)) (F32.of_int b))
    = Some n /\ 0 <= n <= t.
Proof.
  intros Hab Hw Ht Hle.
  assert (Ha : 1 <= a < 2 ^ 24) by (destruct Hab as [[-> ->]|[-> ->]]; lia).
  assert (Hb : 1 <= b < 2 ^ 24) by (destruct Hab as [[-> ->]|[-> ->]]; lia).
  destruct (of_int_R a ltac:(lia)) as [Ga Va].
  destruct (of_int_R b ltac:(lia)) as [Gb Vb].
  destruct (of_int_R w ltac:(lia)) as [Gw Vw].
  pose proof bpow127_above as Hbig. change (2 ^ 40) with 1099511627776 in Hbig.
  pose proof eta32_small as Heta. pose proof eps32_val as Heps.
  assert (HwR : (1 <= IZR w <= 16777215)%R) by (split; apply IZR_le; lia).
  assert (HtR : (1 <= IZR t <= 8388607)%R) by (split; apply IZR_le; lia).
  apply IZR_le in Hle. rewrite !mult_IZR in Hle.
  set (P := F32.mul (F32.of_int a) (F32.of_int w)).
  assert (HP : good P /\
               (Rabs (F32.to_R P - IZR a * IZR w)
                <= eps32 * (IZR a * IZR w) + eta32)%R).
  { destruct (mul_R (F32.of_int a) (F32.of_int w) Ga Gw) as [G E].
    - rewrite Va, Vw.
      destruct Hab as [[-> ->]|[-> ->]]; rewrite Rabs_right; lra.
    - split; [exact G|]. rewrite Va, Vw in E.
      rewrite (Rabs_right (IZR a * IZR w)) in E; [exact E|].
      destruct Hab as [[-> ->]|[-> ->]]; lra. }
  destruct HP as [GP EP]. apply abs_le_inv in EP. rewrite Heps in EP.
  assert (HPpos : (0 < F32.to_R P)%R)
    by (destruct Hab as [[-> ->]|[-> ->]]; lra).
  assert (HQ : good (F32.div P (F32.of_int b)) /\
               (Rabs (F32.to_R (F32.div P (F32.of_int b)) - F32.to_R P / IZR b)
                <= eps32 * (F32.to_R P / IZR b) + eta32)%R).
  { destruct (div_R P (F32.of_int b) GP Gb) as [G E].
    - rewrite Vb. destruct Hab as [[-> ->]|[-> ->]]; lra.
    - rewrite Vb.
      destruct Hab as [[-> ->]|[-> ->]]; rewrite Rabs_right; lra.
    - split; [exact G|]. rewrite Vb in E.
      rewrite (Rabs_right (F32.to_R P / IZR b)) in E; [exact E|].
      destruct Hab as [[-> ->]|[-> ->]]; lra. }
  destruct HQ as [GQ EQ]. apply abs_le_inv in EQ. rewrite Heps in EQ.
  assert (Hrange : (0 <= F32.to_R (F32.div P (F32.of_int b)) < IZR t + 1)%R)
    by (destruct Hab as [[-> ->]|[-> ->]]; lra).
  destruct (to_u32_some _ GQ) as (n & Hn & Hn0 & Hnb).
  { change (2 ^ 32) with 4294967296. lra. }
  exists n. split; [exact Hn|]. split; [exact Hn0|].
  assert (H : (IZR n < IZR (t + 1))%R) by (rewrite plus_IZR; lra).
  apply lt_IZR in H. lia.
Qed.

(** On every target with sides below 2^23 the letterbox block is defined
    and its rectangle lies within the target. *)
Lemma letterbox_inside w h :
  1 <= w < 2 ^ 23 -> 1 <= h < 2 ^ 23 ->
  exists r, letterbox w h = Some r /\ inside r w h.
Proof.
  intros Hw Hh. unfold letterbox.
  rewrite (aspect_test_exact w h) by lia.
  change (F32.to_u32 F32.zero) with (Some 0).
  destruct (Z.ltb_spec (HEIGHT * w) (WIDTH * h)) as [Hlt|Hge].
  - destruct (scaled_side_bounded HEIGHT WIDTH w h) as (lh & -> & Hlh);
      [left; split; reflexivity|lia|lia|lia|].
    cbn [obind]. unfold u32_sub. rewrite Z.mod_small by lia.
    rewrite half_value by lia. cbn [obind].
    eexists. split; [reflexivity|].
    unfold inside. cbn [rect_x rect_y rect_w rect_h].
    pose proof (Z.div_mod (h - lh) 2 ltac:(lia)).
    pose proof (Z.mod_pos_bound (h - lh) 2 ltac:(lia)).
    assert (0 <= (h - lh) / 2) by (apply Z.div_pos; lia).
    lia.
  - destruct (scaled_side_bounded WIDTH HEIGHT h w) as (lw & -> & Hlw);
      [right; split; reflexivity|lia|lia|lia|].
    cbn [obind]. unfold u32_sub. rewrite Z.mod_small by lia.
    rewrite half_value by lia. cbn [obind].
    eexists. split; [reflexivity|].
    unfold inside. cbn [rect_x rect_y rect_w rect_h].
    pose proof (Z.div_mod (w - lw) 2 ltac:(lia)).
    pose proof (Z.mod_pos_bound (w - lw) 2 ltac:(lia)).
    assert (0 <= (w - lw) / 2) by (apply Z.div_pos; lia).
    lia.
Qed.

(** *** Real algebra of nearly orthonormal vectors *)

Lemma abs_bounds x : (- Rabs x <= x <= Rabs x)%R.
Proof. unfold Rabs. destruct (Rcase_abs x); lra. Qed.

Lemma sq_le_one u s : (u * u <= s)%R -> (s <= 1)%R -> (-1 <= u <= 1)%R.
Proof. intros H Hs. split; nra. Qed.

(** A product of a bounded factor and a small one. *)
Lemma small_product u t (b d : R) :
  (- b <= u <= b)%R -> (- d <= t <= d)%R -> (- (b * d) <= u * t <= b * d)%R.
Proof. intros Hu Ht. split; nra. Qed.

(** A unit vector moved by at most [d] in each component. *)
Lemma unit_perturb u1 u2 u3 t1 t2 t3 d :
  (u1 * u1 + u2 * u2 + u3 * u3 = 1)%R ->
  (- d <= t1 <= d)%R -> (- d <= t2 <= d)%R -> (- d <= t3 <= d)%R ->
  (d <= / 1000)%R ->
  (Rabs ((u1 + t1) * (u1 + t1) + (u2 + t2) * (u2 + t2)
         + (u3 + t3) * (u3 + t3) - 1) <= 7 * d)%R.
Proof.
  intros Hu H1 H2 H3 Hd.
  assert (Hb1 : (-1 <= u1 <= 1)%R) by (apply (sq_le_one u1 1); nra).
  assert (Hb2 : (-1 <= u2 <= 1)%R) by (apply (sq_le_one u2 1); nra).
  assert (Hb3 : (-1 <= u3 <= 1)%R) by (apply (sq_le_one u3 1); nra).
  pose proof (small_product u1 t1 1 d Hb1 H1) as P1.
  pose proof (small_product u2 t2 1 d Hb2 H2) as P2.
  pose proof (small_product u3 t3 1 d Hb3 H3) as P3.
  pose proof (small_product t1 t1 d d H1 H1) as Q1.
  pose proof (small_product t2 t2 d d H2 H2) as Q2.
  pose proof (small_product t3 t3 d d H3 H3) as Q3.
  assert (Hdd : (d * d <= d / 1000)%R) by nra.
  apply Rabs_le.
  replace ((u1 + t1) * (u1 + t1) + (u2 + t2) * (u2 + t2)
           + (u3 + t3) * (u3 + t3) - 1)%R
    with (2 * (u1 * t1) + 2 * (u2 * t2) + 2 * (u3 * t3)
          + t1 * t1 + t2 * t2 + t3 * t3)%R by (rewrite <- Hu; ring).
  lra.
Qed.

(** [glm::normalize] returns a unit vector, moved by at most sixteen units
    in the last place of 1 in each component. *)
Lemma normalize_unit L (v : vec3 f32) :
  vec_good v ->
  (/ 16384 <= rdot v v <= 4)%R ->
  vec_good (normalize (H := Scalar_f32 L) v) /\
  exists S u1 u2 u3 t1 t2 t3 : R,
    (0 < S /\ S * S = rdot v v)%R /\
    (F32.to_R (vx v) = u1 * S /\ F32.to_R (vy v) = u2 * S
     /\ F32.to_R (vz v) = u3 * S)%R /\
    (u1 * u1 + u2 * u2 + u3 * u3 = 1)%R /\
    (F32.to_R (vx (normalize (H := Scalar_f32 L) v)) = u1 + t1 /\
     F32.to_R (vy (normalize (H := Scalar_f32 L) v)) = u2 + t2 /\
     F32.to_R (vz (normalize (H := Scalar_f32 L) v)) = u3 + t3)%R /\
    (- (16 * eps32) <= t1 <= 16 * eps32)%R /\
    (- (16 * eps32) <= t2 <= 16 * eps32)%R /\
    (- (16 * eps32) <= t3 <= 16 * eps32)%R.
Proof.
  intros Hv HN.
  destruct (unit_vector_err L v Hv HN) as (Hg & H1 & H2 & H3).
  split; [exact Hg|].
  set (S := sqrt (rdot v v)) in *.
  assert (HS2 : (S * S = rdot v v)%R) by (apply sqrt_sqrt; lra).
  assert (HS : (0 < S)%R).
  { apply Rlt_le_trans with (/ 128)%R; [lra|]. apply sq_le_sqrt; lra. }
  exists S, (F32.to_R (vx v) / S)%R, (F32.to_R (vy v) / S)%R,
    (F32.to_R (vz v) / S)%R.
  exists (F32.to_R (vx (normalize (H := Scalar_f32 L) v)) - F32.to_R (vx v) / S)%R,
    (F32.to_R (vy (normalize (H := Scalar_f32 L) v)) - F32.to_R (vy v) / S)%R,
    (F32.to_R (vz (normalize (H := Scalar_f32 L) v)) - F32.to_R (vz v) / S)%R.
  split; [split; [exact HS|exact HS2]|].
  split; [repeat split; field; lra|].
  split.
  { unfold rdot in HS2.
    replace (F32.to_R (vx v) / S * (F32.to_R (vx v) / S)
             + F32.to_R (vy v) / S * (F32.to_R (vy v) / S)
             + F32.to_R (vz v) / S * (F32.to_R (vz v) / S))%R
      with ((F32.to_R (vx v) * F32.to_R (vx v)
             + F32.to_R (vy v) * F32.to_R (vy v)
             + F32.to_R (vz v) * F32.to_R (vz v)) / (S * S))%R by (field; lra).
    rewrite <- HS2. field. nra. }
  split; [repeat split; ring|].
  split; [apply abs_le_inv; exact H1|].
  split; [apply abs_le_inv; exact H2|apply abs_le_inv; exact H3].
Qed.

(** The cross product with the world's up vector, [(0, 1, 0)]. *)
Lemma cross_up_err L (f : vec3 f32) :
  vec_good f ->
  (Rabs (F32.to_R (vx f)) <= 2)%R -> (Rabs (F32.to_R (vy f)) <= 2)%R ->
  (Rabs (F32.to_R (vz f)) <= 2)%R ->
  let r0 := cross (H := Scalar_f32 L) f
              (mkvec3 (F32.of_int 0) (F32.of_int 1) (F32.of_int 0)) in
  vec_good r0 /\
  (Rabs (F32.to_R (vx r0) + F32.to_R (vz f))
   <= 3 * eps32 * Rabs (F32.to_R (vz f)) + 4 * eta32)%R /\
  (Rabs (F32.to_R (vy r0)) <= 4 * eta32)%R /\
  (Rabs (F32.to_R (vz r0) - F32.to_R (vx f))
   <= 3 * eps32 * Rabs (F32.to_R (vx f)) + 4 * eta32)%R.
Proof.
  intros (Hx & Hy & Hz) Bx By Bz r0. subst r0.
  destruct f as [fx fy fz]. unfold cross.
  cbn [s_mul s_sub Scalar_f32 vx vy vz] in *.
  pose proof eta32_small as Heta. pose proof bpow127_big as Hbig.
  pose proof good_one as H1. pose proof good_zero_int as H0.
  pose proof to_R_one as R1. pose proof to_R_zero_int as R0.
  set (rx := F32.to_R fx) in *. set (ry := F32.to_R fy) in *.
  set (rz := F32.to_R fz) in *.
  pose proof (Rabs_pos rx). pose proof (Rabs_pos ry). pose proof (Rabs_pos rz).
  pose proof (abs_bounds rx). pose proof (abs_bounds ry).
  pose proof (abs_bounds rz).
  (* the six products *)
  destruct (mul_R fy (F32.of_int 0) Hy H0) as [Ga Ea].
  { rewrite R0, Rmult_0_r, Rabs_R0. lra. }
  destruct (mul_R (F32.of_int 1) fz H1 Hz) as [Gb Eb].
  { rewrite R1, Rmult_1_l. fold rz. lra. }
  destruct (mul_R fz (F32.of_int 0) Hz H0) as [Gc Ec].
  { rewrite R0, Rmult_0_r, Rabs_R0. lra. }
  destruct (mul_R (F32.of_int 0) fx H0 Hx) as [Gd Ed].
  { rewrite R0, Rmult_0_l, Rabs_R0. lra. }
  destruct (mul_R fx (F32.of_int 1) Hx H1) as [Ge Ee].
  { rewrite R1, Rmult_1_r. fold rx. lra. }
  destruct (mul_R (F32.of_int 0) fy H0 Hy) as [Gf Ef].
  { rewrite R0, Rmult_0_l, Rabs_R0. lra. }
  rewrite R0, Rmult_0_r, Rabs_R0, Rminus_0_r in Ea, Ec.
  rewrite R0, Rmult_0_l, Rabs_R0, Rminus_0_r in Ed, Ef.
  rewrite R1, Rmult_1_l in Eb. rewrite R1, Rmult_1_r in Ee.
  fold rx in Ee. fold rz in Eb.
  apply abs_le_inv in Ea, Eb, Ec, Ed, Ee, Ef.
  set (pa := F32.mul fy (F32.of_int 0)) in *.
  set (pb := F32.mul (F32.of_int 1) fz) in *.
  set (pc := F32.mul fz (F32.of_int 0)) in *.
  set (pd := F32.mul (F32.of_int 0) fx) in *.
  set (pe := F32.mul fx (F32.of_int 1)) in *.
  set (pf := F32.mul (F32.of_int 0) fy) in *.
  (* the three differences *)
  destruct (sub_B 3 pa pb Ga Gb) as [G1 E1]; [apply Rabs_le; elra | lra |].
  destruct (sub_B (3 * eta32) pc pd Gc Gd) as [G2 E2];
    [apply Rabs_le; elra | lra |].
  destruct (sub_B 3 pe pf Ge Gf) as [G3 E3]; [apply Rabs_le; elra | lra |].
  split; [split; [exact G1|split; [exact G2|exact G3]]|].
  destruct (sub_R pa pb Ga Gb) as [_ E1']; [apply Rle_lt_trans with 3%R; [apply Rabs_le; elra|lra]|].
  destruct (sub_R pe pf Ge Gf) as [_ E3']; [apply Rle_lt_trans with 3%R; [apply Rabs_le; elra|lra]|].
  assert (A1 : (Rabs (F32.to_R pa - F32.to_R pb) <= Rabs rz * (1 + eps32) + 2 * eta32)%R)
    by (apply Rabs_le; elra).
  assert (A3 : (Rabs (F32.to_R pe - F32.to_R pf) <= Rabs rx * (1 + eps32) + 2 * eta32)%R)
    by (apply Rabs_le; elra).
  apply abs_le_inv in E1', E2, E3'.
  pose proof (Rabs_pos (F32.to_R pa - F32.to_R pb)).
  pose proof (Rabs_pos (F32.to_R pe - F32.to_R pf)).
  split; [apply Rabs_le; elra|].
  split; [apply Rabs_le; elra|].
  apply Rabs_le; elra.
Qed.

(** One component of a cross product: a difference of two products. *)
Lemma det2_err x1 y1 x2 y2 :
  good x1 -> good y1 -> good x2 -> good y2 ->
  (Rabs (F32.to_R x1) <= 5 / 4)%R -> (Rabs (F32.to_R y1) <= 5 / 4)%R ->
  (Rabs (F32.to_R x2) <= 5 / 4)%R -> (Rabs (F32.to_R y2) <= 5 / 4)%R ->
  good (F32.sub (F32.mul x1 y1) (F32.mul x2 y2)) /\
  (Rabs (F32.to_R (F32.sub (F32.mul x1 y1) (F32.mul x2 y2))
         - (F32.to_R x1 * F32.to_R y1 - F32.to_R x2 * F32.to_R y2))
   <= 10 * eps32)%R.
Proof.
  intros G1 G2 G3 G4 B1 B2 B3 B4.
  pose proof eta32_small as Heta.
  assert (HP : forall a b : R, (Rabs a <= 5 / 4)%R -> (Rabs b <= 5 / 4)%R ->
             (Rabs (a * b) <= 2)%R).
  { intros a b Ha Hb. rewrite Rabs_mult.
    pose proof (Rabs_pos a). pose proof (Rabs_pos b). nra. }
  destruct (mul_B 2 x1 y1 G1 G2 (HP _ _ B1 B2)) as [Ga Ea]; [lra|].
  destruct (mul_B 2 x2 y2 G3 G4 (HP _ _ B3 B4)) as [Gb Eb]; [lra|].
  pose proof (HP _ _ B1 B2) as P1. pose proof (HP _ _ B3 B4) as P2.
  apply abs_le_inv in Ea, Eb, P1, P2.
  destruct (sub_B 5 (F32.mul x1 y1) (F32.mul x2 y2) Ga Gb) as [Gc Ec];
    [apply Rabs_le; elra | lra |].
  split; [exact Gc|]. apply abs_le_inv in Ec. apply Rabs_le. elra.
Qed.

Lemma cross_err L (a b : vec3 f32) :
  vec_good a -> vec_good b ->
  (Rabs (F32.to_R (vx a)) <= 5 / 4)%R -> (Rabs (F32.to_R (vy a)) <= 5 / 4)%R ->
  (Rabs (F32.to_R (vz a)) <= 5 / 4)%R ->
  (Rabs (F32.to_R (vx b)) <= 5 / 4)%R -> (Rabs (F32.to_R (vy b)) <= 5 / 4)%R ->
  (Rabs (F32.to_R (vz b)) <= 5 / 4)%R ->
  let c := cross (H := Scalar_f32 L) a b in
  vec_good c /\
  (Rabs (F32.to_R (vx c)
         - (F32.to_R (vy a) * F32.to_R (vz b) - F32.to_R (vy b) * F32.to_R (vz a)))
   <= 10 * eps32)%R /\
  (Rabs (F32.to_R (vy c)
         - (F32.to_R (vz a) * F32.to_R (vx b) - F32.to_R (vz b) * F32.to_R (vx a)))
   <= 10 * eps32)%R /\
  (Rabs (F32.to_R (vz c)
         - (F32.to_R (vx a) * F32.to_R (vy b) - F32.to_R (vx b) * F32.to_R (vy a)))
   <= 10 * eps32)%R.
Proof.
  intros (Ax & Ay & Az) (Bx & By & Bz) A1 A2 A3 B1 B2 B3 c. subst c.
  unfold cross. cbn [s_mul s_sub Scalar_f32 vx vy vz].
  destruct (det2_err (vy a) (vz b) (vy b) (vz a)) as [G1 E1]; try assumption.
  destruct (det2_err (vz a) (vx b) (vz b) (vx a)) as [G2 E2]; try assumption.
  destruct (det2_err (vx a) (vy b) (vx b) (vy a)) as [G3 E3]; try assumption.
  split; [split; [exact G1|split; [exact G2|exact G3]]|].
  split; [exact E1|]. split; [exact E2|exact E3].
Qed.

(** *** The three vectors of the camera basis *)

Ltac unpack_unit H :=
  destruct H as (?G & ?S & ?u1 & ?u2 & ?u3 & ?t1 & ?t2 & ?t3
                 & (?HS & ?HS2) & (?Hv1 & ?Hv2 & ?Hv3) & ?Hu
                 & (?Hw1 & ?Hw2 & ?Hw3) & ?Ht1 & ?Ht2 & ?Ht3).

(** Forward: the normalised direction is a unit vector within tolerance,
    and keeps its distance from the vertical. *)
Lemma stage_forward L (F0 : vec3 f32) :
  vec_good F0 ->
  (Rabs (rdot F0 F0 - 1) <= / 1000)%R ->
  (83 / 1000000
   <= F32.to_R (vx F0) * F32.to_R (vx F0) + F32.to_R (vz F0) * F32.to_R (vz F0))%R ->
  let f := normalize (H := Scalar_f32 L) F0 in
  vec_good f /\
  (Rabs (rdot f f - 1) <= 112 * eps32)%R /\
  (Rabs (F32.to_R (vx f)) <= 101 / 100 /\ Rabs (F32.to_R (vy f)) <= 101 / 100
   /\ Rabs (F32.to_R (vz f)) <= 101 / 100)%R /\
  (78 / 1000000
   <= F32.to_R (vx f) * F32.to_R (vx f) + F32.to_R (vz f) * F32.to_R (vz f))%R.
Proof.
  intros HF HN HG f. subst f.
  apply abs_le_inv in HN.
  pose proof (normalize_unit L F0 HF ltac:(lra)) as H. unpack_unit H.
  set (f := normalize (H := Scalar_f32 L) F0) in *.
  rewrite eps32_val in *.
  assert (Hb1 : (-1 <= u1 <= 1)%R) by (apply (sq_le_one u1 1); nra).
  assert (Hb2 : (-1 <= u2 <= 1)%R) by (apply (sq_le_one u2 1); nra).
  assert (Hb3 : (-1 <= u3 <= 1)%R) by (apply (sq_le_one u3 1); nra).
  split; [exact G|]. split.
  { unfold rdot. rewrite Hw1, Hw2, Hw3.
    replace (112 * / 16777216)%R with (7 * (16 * / 16777216))%R by lra.
    apply unit_perturb; try assumption. lra. }
  split.
  { rewrite Hw1, Hw2, Hw3. repeat split; apply Rabs_le; lra. }
  rewrite Hw1, Hw3. rewrite Hv1, Hv3 in HG.
  assert (HG' : (829 / 10000000 <= u1 * u1 + u3 * u3)%R).
  { assert (Hs : ((u1 * u1 + u3 * u3) * (S * S) >= 83 / 1000000)%R) by nra.
    rewrite HS2 in Hs. nra. }
  pose proof (small_product u1 t1 1 _ Hb1 Ht1) as P1.
  pose proof (small_product u3 t3 1 _ Hb3 Ht3) as P3.
  nra.
Qed.

Lemma abs_sq x : (Rabs x * Rabs x = x * x)%R.
Proof. unfold Rabs. destruct (Rcase_abs x); ring. Qed.

(** A quantity whose product with [S] is small is small, for [S] between
    1/128 and 2. *)
Lemma scaled_small X S D c e :
  (X * S = D)%R -> (/ 128 <= S <= 2)%R ->
  (- (c * (S * S) + e) <= D <= c * (S * S) + e)%R ->
  (0 <= c)%R -> (0 <= e)%R ->
  (- (2 * c + 128 * e) <= X <= 2 * c + 128 * e)%R.
Proof.
  intros HX HS HD Hc He.
  assert (Hcs : (0 <= c * S)%R) by (apply Rmult_le_pos; lra).
  assert (Hc2 : (0 <= c * S * (2 - S))%R) by (apply Rmult_le_pos; lra).
  assert (He2 : (0 <= e * (128 * S - 1))%R) by (apply Rmult_le_pos; lra).
  assert (H1 : (c * (S * S) + e <= (2 * c + 128 * e) * S)%R) by nra.
  split.
  - apply (Rmult_le_reg_r S); [lra|]. nra.
  - apply (Rmult_le_reg_r S); [lra|]. nra.
Qed.

(** A quantity whose product with [S] is at least [c] is at least [c / 2],
    for a positive [S] of at most 2. *)
Lemma scaled_pos X S D c :
  (X * S = D)%R -> (0 < S <= 2)%R -> (c <= D)%R -> (0 <= c)%R ->
  (c / 2 <= X)%R.
Proof.
  intros HX HS HD Hc.
  destruct (Rle_or_lt (c / 2) X) as [H|H]; [exact H|exfalso].
  assert (H1 : (X * S < c / 2 * S)%R) by (apply Rmult_lt_compat_r; lra).
  assert (H2 : (c / 2 * S <= c / 2 * 2)%R) by (apply Rmult_le_compat_l; lra).
  lra.
Qed.

(** Right: the normalised cross product of forward and the world's up
    vector is a unit vector within tolerance, orthogonal to forward within
    tolerance. *)
Lemma stage_right L (f : vec3 f32) :
  vec_good f ->
  (Rabs (F32.to_R (vx f)) <= 101 / 100)%R ->
  (Rabs (F32.to_R (vy f)) <= 101 / 100)%R ->
  (Rabs (F32.to_R (vz f)) <= 101 / 100)%R ->
  (78 / 1000000
   <= F32.to_R (vx f) * F32.to_R (vx f) + F32.to_R (vz f) * F32.to_R (vz f))%R ->
  let r := normalize (H := Scalar_f32 L)
             (cross (H := Scalar_f32 L) f
                (mkvec3 (F32.of_int 0) (F32.of_int 1) (F32.of_int 0))) in
  vec_good r /\
  (Rabs (rdot r r - 1) <= 112 * eps32)%R /\
  (Rabs (rdot f r) <= 62 * eps32)%R /\
  (Rabs (F32.to_R (vx r)) <= 101 / 100 /\ Rabs (F32.to_R (vy r)) <= 101 / 100
   /\ Rabs (F32.to_R (vz r)) <= 101 / 100)%R /\
  (36 / 1000000
   <= F32.to_R (vz r) * F32.to_R (vx f) - F32.to_R (vz f) * F32.to_R (vx r))%R.
Proof.
  intros Hf Bx By Bz HG r. subst r.
  destruct (cross_up_err L f Hf ltac:(lra) ltac:(lra) ltac:(lra))
    as (Gr0 & E1 & E2 & E3).
  set (r0 := cross (H := Scalar_f32 L) f
               (mkvec3 (F32.of_int 0) (F32.of_int 1) (F32.of_int 0))) in *.
  pose proof eta32_small as Heta.
  set (fx := F32.to_R (vx f)) in *. set (fy := F32.to_R (vy f)) in *.
  set (fz := F32.to_R (vz f)) in *.
  pose proof (Rabs_pos fx) as Px. pose proof (Rabs_pos fy) as Py.
  pose proof (Rabs_pos fz) as Pz.
  pose proof (abs_bounds fx) as Ax. pose proof (abs_bounds fy) as Ay.
  pose proof (abs_bounds fz) as Az.
  pose proof (abs_sq fx) as Sx. pose proof (abs_sq fz) as Sz.
  set (ax := Rabs fx) in *. set (ay := Rabs fy) in *. set (az := Rabs fz) in *.
  set (e1 := (F32.to_R (vx r0) + fz)%R) in *.
  set (e2 := F32.to_R (vy r0)) in *.
  set (e3 := (F32.to_R (vz r0) - fx)%R) in *.
  apply abs_le_inv in E1, E2, E3.
  rewrite eps32_val in *.
  assert (R0x : F32.to_R (vx r0) = (- fz + e1)%R) by (unfold e1; ring).
  assert (R0z : F32.to_R (vz r0) = (fx + e3)%R) by (unfold e3; ring).
  (* the squared length of the cross product *)
  pose proof (small_product fz e1 (101 / 100) _ ltac:(lra) E1) as Q1.
  pose proof (small_product fx e3 (101 / 100) _ ltac:(lra) E3) as Q3.
  pose proof (small_product e1 e1 _ _ E1 E1) as Q4.
  pose proof (small_product e2 e2 _ _ E2 E2) as Q5.
  pose proof (small_product e3 e3 _ _ E3 E3) as Q6.
  assert (Hsmall : forall a : R, (0 <= a <= 101 / 100)%R ->
            (0 <= 3 * / 16777216 * a + 4 * eta32 <= / 5000000)%R).
  { intros a Ha. lra. }
  pose proof (Hsmall ax ltac:(lra)) as Bex.
  pose proof (Hsmall az ltac:(lra)) as Bez.
  assert (Hq : forall b : R, (0 <= b <= / 5000000)%R ->
            (0 <= b * b <= / 1000000)%R).
  { clear. intros b Hb. split; nra. }
  pose proof (Hq _ Bex) as Bex2. pose proof (Hq _ Bez) as Bez2.
  assert (Heta2 : (4 * eta32 * (4 * eta32) <= / 1000000)%R) by (clear - Heta; nra).
  assert (Hx2 : (fx * fx <= 10201 / 10000)%R) by (clear - Bx Px Sx; nra).
  assert (Hz2 : (fz * fz <= 10201 / 10000)%R) by (clear - Bz Pz Sz; nra).
  assert (HNr_eq : rdot r0 r0
            = (fx * fx + fz * fz - 2 * (fz * e1) + 2 * (fx * e3)
               + e1 * e1 + e2 * e2 + e3 * e3)%R).
  { unfold rdot. fold e2. rewrite R0x, R0z. ring. }
  assert (Hxz : (2 * (ax * az) <= fx * fx + fz * fz)%R).
  { pose proof (Rle_0_sqr (ax - az)) as Hs. unfold Rsqr in Hs.
    clear - Sx Sz Hs. lra. }
  pose proof (Rle_0_sqr e1) as N1. pose proof (Rle_0_sqr e2) as N2.
  pose proof (Rle_0_sqr e3) as N3. unfold Rsqr in N1, N2, N3.
  assert (HNr : (77 / 1000000 <= rdot r0 r0 <= 4)%R) by (rewrite HNr_eq; lra).
  assert (HG2 : (fx * fx + fz * fz <= 2 * rdot r0 r0)%R) by (rewrite HNr_eq; lra).
  (* its dot product with forward *)
  assert (HD : (- (6 * / 16777216 * rdot r0 r0 + 13 * eta32)
                <= fx * e1 + fy * e2 + fz * e3
                <= 6 * / 16777216 * rdot r0 r0 + 13 * eta32)%R).
  { pose proof (small_product fx e1 ax _ Ax E1) as D1.
    pose proof (small_product fy e2 ay _ Ay E2) as D2.
    pose proof (small_product fz e3 az _ Az E3) as D3.
    assert (Hxz' : (ax * (3 * / 16777216 * az + 4 * eta32)
                    + ay * (4 * eta32)
                    + az * (3 * / 16777216 * ax + 4 * eta32)
                    <= 3 * / 16777216 * (fx * fx + fz * fz) + 13 * eta32)%R).
    { replace (ax * (3 * / 16777216 * az + 4 * eta32) + ay * (4 * eta32)
               + az * (3 * / 16777216 * ax + 4 * eta32))%R
        with (3 * / 16777216 * (2 * (ax * az))
              + 4 * eta32 * (ax + ay + az))%R by ring.
      assert (4 * eta32 * (ax + ay + az) <= 13 * eta32)%R
        by (clear - Heta Bx By Bz Px Py Pz; nra).
      lra. }
    lra. }
  pose proof (normalize_unit L r0 Gr0 ltac:(lra)) as H. unpack_unit H.
  rewrite ?eps32_val in *.
  set (r := normalize (H := Scalar_f32 L) r0) in *.
  assert (Hb1 : (-1 <= u1 <= 1)%R) by (apply (sq_le_one u1 1); clear - Hu; nra).
  assert (Hb2 : (-1 <= u2 <= 1)%R) by (apply (sq_le_one u2 1); clear - Hu; nra).
  assert (Hb3 : (-1 <= u3 <= 1)%R) by (apply (sq_le_one u3 1); clear - Hu; nra).
  split; [exact G|]. split.
  { unfold rdot. rewrite Hw1, Hw2, Hw3.
    replace (112 * / 16777216)%R with (7 * (16 * / 16777216))%R by lra.
    apply unit_perturb; try assumption. lra. }
  assert (HSb : (/ 128 <= S <= 2)%R) by (clear - HS HS2 HNr; split; nra).
  split.
  2:{ split; [rewrite Hw1, Hw2, Hw3; repeat split; apply Rabs_le; lra|].
      (* the vertical component of right x forward *)
      fold fx fz. rewrite Hw1, Hw3.
      rewrite R0x in Hv1. rewrite R0z in Hv3.
      assert (HX : ((u3 * fx - fz * u1) * S
                    = fx * fx + fz * fz + fx * e3 - fz * e1)%R).
      { replace ((u3 * fx - fz * u1) * S)%R
          with ((u3 * S) * fx - fz * (u1 * S))%R by ring.
        rewrite <- Hv1, <- Hv3. ring. }
      assert (HDl : (77 / 1000000 <= fx * fx + fz * fz + fx * e3 - fz * e1)%R)
        by lra.
      pose proof (scaled_pos _ _ _ _ HX ltac:(lra) HDl ltac:(lra)) as HXl.
      pose proof (small_product fx t3 (101 / 100) _ ltac:(lra) Ht3) as T3.
      pose proof (small_product fz t1 (101 / 100) _ ltac:(lra) Ht1) as T1.
      replace ((u3 + t3) * fx - fz * (u1 + t1))%R
        with ((u3 * fx - fz * u1) + (fx * t3 - fz * t1))%R by ring.
      lra. }
  (* orthogonality *)
  assert (HX : ((fx * u1 + fy * u2 + fz * u3) * S
                = fx * e1 + fy * e2 + fz * e3)%R).
  { fold e2 in Hv2. rewrite R0x in Hv1. rewrite R0z in Hv3.
    replace ((fx * u1 + fy * u2 + fz * u3) * S)%R
      with (fx * (u1 * S) + fy * (u2 * S) + fz * (u3 * S))%R by ring.
    rewrite <- Hv1, <- Hv2, <- Hv3. ring. }
  rewrite <- HS2 in HD.
  pose proof (scaled_small _ _ _ _ _ HX HSb HD ltac:(lra) ltac:(lra)) as HXb.
  pose proof (small_product fx t1 (101 / 100) _ ltac:(lra) Ht1) as T1.
  pose proof (small_product fy t2 (101 / 100) _ ltac:(lra) Ht2) as T2.
  pose proof (small_product fz t3 (101 / 100) _ ltac:(lra) Ht3) as T3.
  unfold rdot. fold fx fy fz. rewrite Hw1, Hw2, Hw3.
  apply Rabs_le.
  replace (fx * (u1 + t1) + fy * (u2 + t2) + fz * (u3 + t3))%R
    with ((fx * u1 + fy * u2 + fz * u3) + (fx * t1 + fy * t2 + fz * t3))%R by ring.
  lra.
Qed.
(** A quantity whose product with [S] is small is small, for [S] close
    to one. *)
Lemma scaled_near_one X S D e :
  (X * S = D)%R -> (99 / 100 <= S)%R -> (- e <= D <= e)%R ->
  (- (102 / 100 * e) <= X <= 102 / 100 * e)%R.
Proof.
  intros HX HS HD.
  assert (He : (0 <= e)%R) by lra.
  split.
  - apply (Rmult_le_reg_r S); [lra|]. nra.
  - apply (Rmult_le_reg_r S); [lra|]. nra.
Qed.

(** A quantity whose product with [S] is close to one is close to one,
    for [S] not above one by much. *)
Lemma scaled_lower X S D a b :
  (X * S = D)%R -> (0 < S <= 1 + b)%R -> (1 - a <= D)%R ->
  (0 <= a)%R -> (0 <= b)%R -> (a + b <= 1)%R ->
  (1 - a - b <= X)%R.
Proof.
  intros HX HS HD Ha Hb Hab.
  destruct (Rle_or_lt (1 - a - b) X) as [H|H]; [exact H|exfalso].
  assert (H1 : (X * S <= (1 - a - b) * S)%R)
    by (apply Rmult_le_compat_r; lra).
  assert (H2 : ((1 - a - b) * S <= (1 - a - b) * (1 + b))%R)
    by (apply Rmult_le_compat_l; lra).
  assert (H3 : (0 <= b * (a + b))%R) by (apply Rmult_le_pos; lra).
  assert (H4 : ((1 - a - b) * (1 + b) = 1 - a - b * (a + b))%R) by ring.
  destruct (Req_dec b 0) as [Hb0|Hb0].
  - subst b. assert (X * S < (1 - a - 0) * S)%R
      by (apply Rmult_lt_compat_r; lra). lra.
  - assert (X * S < (1 - a - b) * S)%R by (apply Rmult_lt_compat_r; lra).
    lra.
Qed.

(** A positive number is bounded by the bounds of its square. *)
Lemma root_near_one S N c :
  (0 < S)%R -> (S * S = N)%R -> (1 - c <= N <= 1 + c)%R ->
  (0 <= c <= / 100)%R -> (99 / 100 <= S <= 1 + c)%R.
Proof. intros HS HN Hc Hc'. split; nra. Qed.

(** The inequality of Cauchy and Schwarz in three dimensions. *)
Lemma cauchy_schwarz3 a1 a2 a3 b1 b2 b3 :
  ((a1 * b1 + a2 * b2 + a3 * b3) * (a1 * b1 + a2 * b2 + a3 * b3)
   <= (a1 * a1 + a2 * a2 + a3 * a3) * (b1 * b1 + b2 * b2 + b3 * b3))%R.
Proof.
  pose proof (Rle_0_sqr (a1 * b2 - a2 * b1)) as H1.
  pose proof (Rle_0_sqr (a2 * b3 - a3 * b2)) as H2.
  pose proof (Rle_0_sqr (a3 * b1 - a1 * b3)) as H3.
  unfold Rsqr in H1, H2, H3.
  replace ((a1 * a1 + a2 * a2 + a3 * a3) * (b1 * b1 + b2 * b2 + b3 * b3))%R
    with ((a1 * b1 + a2 * b2 + a3 * b3) * (a1 * b1 + a2 * b2 + a3 * b3)
          + (a1 * b2 - a2 * b1) * (a1 * b2 - a2 * b1)
          + (a2 * b3 - a3 * b2) * (a2 * b3 - a3 * b2)
          + (a3 * b1 - a1 * b3) * (a3 * b1 - a1 * b3))%R by ring.
  lra.
Qed.

(** A number whose square is at most [(1 + a) (1 + b)]. *)
Lemma root_upper T A B a b :
  (T * T <= A * B)%R -> (0 <= A <= 1 + a)%R -> (0 <= B <= 1 + b)%R ->
  (0 <= a)%R -> (0 <= b)%R -> (T <= 1 + a + b)%R.
Proof.
  intros HT HA HB Ha Hb.
  assert (H1 : (A * B <= (1 + a) * (1 + b))%R)
    by (apply Rmult_le_compat; lra).
  assert (H2 : (0 <= a * b)%R) by (apply Rmult_le_pos; lra).
  destruct (Rle_or_lt T (1 + a + b)) as [H|H]; [exact H|exfalso].
  assert (H3 : ((1 + a + b) * (1 + a + b) < T * T)%R)
    by (apply Rmult_le_0_lt_compat; lra).
  assert (H4 : (0 <= (a + b) * (a + b))%R) by (apply Rle_0_sqr).
  assert (H5 : (0 <= a * a)%R) by (apply Rle_0_sqr).
  assert (H6 : (0 <= b * b)%R) by (apply Rle_0_sqr).
  lra.
Qed.

(** Up: the normalised cross product of right and forward is a unit vector
    within tolerance, orthogonal to both within tolerance, and on the side
    of [right x forward]. *)
Lemma stage_up L (r f : vec3 f32) :
  vec_good r -> vec_good f ->
  (Rabs (F32.to_R (vx r)) <= 101 / 100 /\ Rabs (F32.to_R (vy r)) <= 101 / 100
   /\ Rabs (F32.to_R (vz r)) <= 101 / 100)%R ->
  (Rabs (F32.to_R (vx f)) <= 101 / 100 /\ Rabs (F32.to_R (vy f)) <= 101 / 100
   /\ Rabs (F32.to_R (vz f)) <= 101 / 100)%R ->
  (Rabs (rdot r r - 1) <= 112 * eps32)%R ->
  (Rabs (rdot f f - 1) <= 112 * eps32)%R ->
  (Rabs (rdot f r) <= 62 * eps32)%R ->
  let u := normalize (H := Scalar_f32 L) (cross (H := Scalar_f32 L) r f) in
  vec_good u /\
  (Rabs (rdot u u - 1) <= 112 * eps32)%R /\
  (Rabs (rdot f u) <= 80 * eps32)%R /\
  (Rabs (rdot r u) <= 80 * eps32)%R /\
  (Rabs (rtriple r f u - 1) <= 740 * eps32)%R /\
  (36 / 1000000
   <= F32.to_R (vz r) * F32.to_R (vx f) - F32.to_R (vz f) * F32.to_R (vx r) ->
   16 / 1000000 <= F32.to_R (vy u))%R.
Proof.
  intros Hr Hf (Br1 & Br2 & Br3) (Bf1 & Bf2 & Bf3) Hrr Hff Hfr u. subst u.
  destruct (cross_err L r f Hr Hf ltac:(lra) ltac:(lra) ltac:(lra)
              ltac:(lra) ltac:(lra) ltac:(lra)) as (Gu0 & E1 & E2 & E3).
  set (u0 := cross (H := Scalar_f32 L) r f) in *.
  unfold rtriple. unfold rdot in Hrr, Hff, Hfr.
  set (r1 := F32.to_R (vx r)) in *. set (r2 := F32.to_R (vy r)) in *.
  set (r3 := F32.to_R (vz r)) in *.
  set (f1 := F32.to_R (vx f)) in *. set (f2 := F32.to_R (vy f)) in *.
  set (f3 := F32.to_R (vz f)) in *.
  set (w1 := (r2 * f3 - f2 * r3)%R) in *.
  set (w2 := (r3 * f1 - f3 * r1)%R) in *.
  set (w3 := (r1 * f2 - f1 * r2)%R) in *.
  set (e1 := (F32.to_R (vx u0) - w1)%R) in *.
  set (e2 := (F32.to_R (vy u0) - w2)%R) in *.
  set (e3 := (F32.to_R (vz u0) - w3)%R) in *.
  apply abs_le_inv in E1, E2, E3, Hrr, Hff, Hfr, Br1, Br2, Br3, Bf1, Bf2, Bf3.
  rewrite eps32_val in *.
  assert (U1 : F32.to_R (vx u0) = (w1 + e1)%R) by (unfold e1; ring).
  assert (U2 : F32.to_R (vy u0) = (w2 + e2)%R) by (unfold e2; ring).
  assert (U3 : F32.to_R (vz u0) = (w3 + e3)%R) by (unfold e3; ring).
  (* the exact cross product *)
  assert (HWf : (w1 * f1 + w2 * f2 + w3 * f3 = 0)%R) by (unfold w1, w2, w3; ring).
  assert (HWr : (w1 * r1 + w2 * r2 + w3 * r3 = 0)%R) by (unfold w1, w2, w3; ring).
  set (rr := (r1 * r1 + r2 * r2 + r3 * r3 - 1)%R) in *.
  set (ff := (f1 * f1 + f2 * f2 + f3 * f3 - 1)%R) in *.
  set (fr := (f1 * r1 + f2 * r2 + f3 * r3)%R) in *.
  assert (HWW : (w1 * w1 + w2 * w2 + w3 * w3
                 = 1 + rr + ff + rr * ff - fr * fr)%R)
    by (unfold w1, w2, w3, rr, ff, fr; ring).
  pose proof (small_product rr ff _ _ Hrr Hff) as Prf.
  pose proof (small_product fr fr _ _ Hfr Hfr) as Pfr.
  pose proof (Rle_0_sqr fr) as Nfr. unfold Rsqr in Nfr.
  assert (Bw1 : (- (205 / 100) <= w1 <= 205 / 100)%R).
  { pose proof (small_product r2 f3 _ _ Br2 Bf3).
    pose proof (small_product f2 r3 _ _ Bf2 Br3). unfold w1. lra. }
  assert (Bw2 : (- (205 / 100) <= w2 <= 205 / 100)%R).
  { pose proof (small_product r3 f1 _ _ Br3 Bf1).
    pose proof (small_product f3 r1 _ _ Bf3 Br1). unfold w2. lra. }
  assert (Bw3 : (- (205 / 100) <= w3 <= 205 / 100)%R).
  { pose proof (small_product r1 f2 _ _ Br1 Bf2).
    pose proof (small_product f1 r2 _ _ Bf1 Br2). unfold w3. lra. }
  clearbody w1 w2 w3 rr ff fr.
  pose proof (small_product w1 e1 _ _ Bw1 E1) as We1.
  pose proof (small_product w2 e2 _ _ Bw2 E2) as We2.
  pose proof (small_product w3 e3 _ _ Bw3 E3) as We3.
  pose proof (small_product e1 e1 _ _ E1 E1) as Ee1.
  pose proof (small_product e2 e2 _ _ E2 E2) as Ee2.
  pose proof (small_product e3 e3 _ _ E3 E3) as Ee3.
  assert (HN_eq : rdot u0 u0
            = (w1 * w1 + w2 * w2 + w3 * w3
               + 2 * (w1 * e1) + 2 * (w2 * e2) + 2 * (w3 * e3)
               + e1 * e1 + e2 * e2 + e3 * e3)%R).
  { unfold rdot. rewrite U1, U2, U3. ring. }
  assert (HN : (1 - 350 / 16777216 <= rdot u0 u0 <= 1 + 350 / 16777216)%R)
    by (rewrite HN_eq, HWW; lra).
  pose proof (normalize_unit L u0 Gu0 ltac:(lra)) as H. unpack_unit H.
  rewrite ?eps32_val in *.
  set (u := normalize (H := Scalar_f32 L) u0) in *.
  assert (Hb1 : (-1 <= u1 <= 1)%R) by (apply (sq_le_one u1 1); clear - Hu; nra).
  assert (Hb2 : (-1 <= u2 <= 1)%R) by (apply (sq_le_one u2 1); clear - Hu; nra).
  assert (Hb3 : (-1 <= u3 <= 1)%R) by (apply (sq_le_one u3 1); clear - Hu; nra).
  assert (HSb : (99 / 100 <= S <= 1 + 350 / 16777216)%R).
  { apply (root_near_one S (rdot u0 u0)); [exact HS|exact HS2|exact HN|lra]. }
  rewrite U1 in Hv1. rewrite U2 in Hv2. rewrite U3 in Hv3.
  assert (HUU : (Rabs (rdot u u - 1) <= 112 * / 16777216)%R).
  { unfold rdot. rewrite Hw1, Hw2, Hw3.
    replace (112 * / 16777216)%R with (7 * (16 * / 16777216))%R by lra.
    apply unit_perturb; try assumption. lra. }
  split; [exact G|]. split; [exact HUU|].
  split.
  { (* forward . up *)
    assert (HX : ((f1 * u1 + f2 * u2 + f3 * u3) * S
                  = f1 * e1 + f2 * e2 + f3 * e3)%R).
    { replace ((f1 * u1 + f2 * u2 + f3 * u3) * S)%R
        with (f1 * (u1 * S) + f2 * (u2 * S) + f3 * (u3 * S))%R by ring.
      rewrite <- Hv1, <- Hv2, <- Hv3.
      replace (f1 * (w1 + e1) + f2 * (w2 + e2) + f3 * (w3 + e3))%R
        with ((w1 * f1 + w2 * f2 + w3 * f3) + (f1 * e1 + f2 * e2 + f3 * e3))%R
        by ring.
      rewrite HWf. ring. }
    pose proof (small_product f1 e1 _ _ Bf1 E1) as D1.
    pose proof (small_product f2 e2 _ _ Bf2 E2) as D2.
    pose proof (small_product f3 e3 _ _ Bf3 E3) as D3.
    assert (HD : (- (303 / 10 * / 16777216) <= f1 * e1 + f2 * e2 + f3 * e3
                  <= 303 / 10 * / 16777216)%R) by lra.
    pose proof (scaled_near_one _ _ _ _ HX ltac:(lra) HD) as HXb.
    pose proof (small_product f1 t1 _ _ Bf1 Ht1) as T1.
    pose proof (small_product f2 t2 _ _ Bf2 Ht2) as T2.
    pose proof (small_product f3 t3 _ _ Bf3 Ht3) as T3.
    unfold rdot. fold f1 f2 f3. rewrite Hw1, Hw2, Hw3.
    apply Rabs_le.
    replace (f1 * (u1 + t1) + f2 * (u2 + t2) + f3 * (u3 + t3))%R
      with ((f1 * u1 + f2 * u2 + f3 * u3) + (f1 * t1 + f2 * t2 + f3 * t3))%R
      by ring.
    lra. }
  split.
  { (* right . up *)
    assert (HX : ((r1 * u1 + r2 * u2 + r3 * u3) * S
                  = r1 * e1 + r2 * e2 + r3 * e3)%R).
    { replace ((r1 * u1 + r2 * u2 + r3 * u3) * S)%R
        with (r1 * (u1 * S) + r2 * (u2 * S) + r3 * (u3 * S))%R by ring.
      rewrite <- Hv1, <- Hv2, <- Hv3.
      replace (r1 * (w1 + e1) + r2 * (w2 + e2) + r3 * (w3 + e3))%R
        with ((w1 * r1 + w2 * r2 + w3 * r3) + (r1 * e1 + r2 * e2 + r3 * e3))%R
        by ring.
      rewrite HWr. ring. }
    pose proof (small_product r1 e1 _ _ Br1 E1) as D1.
    pose proof (small_product r2 e2 _ _ Br2 E2) as D2.
    pose proof (small_product r3 e3 _ _ Br3 E3) as D3.
    assert (HD : (- (303 / 10 * / 16777216) <= r1 * e1 + r2 * e2 + r3 * e3
                  <= 303 / 10 * / 16777216)%R) by lra.
    pose proof (scaled_near_one _ _ _ _ HX ltac:(lra) HD) as HXb.
    pose proof (small_product r1 t1 _ _ Br1 Ht1) as T1.
    pose proof (small_product r2 t2 _ _ Br2 Ht2) as T2.
    pose proof (small_product r3 t3 _ _ Br3 Ht3) as T3.
    unfold rdot. fold r1 r2 r3. rewrite Hw1, Hw2, Hw3.
    apply Rabs_le.
    replace (r1 * (u1 + t1) + r2 * (u2 + t2) + r3 * (u3 + t3))%R
      with ((r1 * u1 + r2 * u2 + r3 * u3) + (r1 * t1 + r2 * t2 + r3 * t3))%R
      by ring.
    lra. }
  split.
  2:{ (* the vertical component *)
      intros Hlow. rewrite Hw2.
      assert (HD2 : (35 / 1000000 <= w2 + e2)%R) by lra.
      pose proof (scaled_pos u2 S (w2 + e2) _ ltac:(lra) ltac:(lra) HD2
                    ltac:(lra)) as HU2.
      lra. }
  (* the side of right x forward *)
  assert (HX : ((w1 * u1 + w2 * u2 + w3 * u3) * S
                = (w1 * w1 + w2 * w2 + w3 * w3)
                  + (w1 * e1 + w2 * e2 + w3 * e3))%R).
  { replace ((w1 * u1 + w2 * u2 + w3 * u3) * S)%R
      with (w1 * (u1 * S) + w2 * (u2 * S) + w3 * (u3 * S))%R by ring.
    rewrite <- Hv1, <- Hv2, <- Hv3. ring. }
  assert (HD : (1 - 287 / 16777216
                <= (w1 * w1 + w2 * w2 + w3 * w3)
                   + (w1 * e1 + w2 * e2 + w3 * e3))%R)
    by (rewrite HWW; lra).
  pose proof (scaled_lower _ _ _ _ (350 / 16777216)%R HX ltac:(lra) HD
                ltac:(lra) ltac:(lra) ltac:(lra)) as HXb.
  pose proof (small_product w1 t1 _ _ Bw1 Ht1) as T1.
  pose proof (small_product w2 t2 _ _ Bw2 Ht2) as T2.
  pose proof (small_product w3 t3 _ _ Bw3 Ht3) as T3.
  pose proof (cauchy_schwarz3 w1 w2 w3 (F32.to_R (vx u)) (F32.to_R (vy u))
                (F32.to_R (vz u))) as HCS.
  apply abs_le_inv in HUU. unfold rdot in HUU.
  pose proof (Rle_0_sqr w1) as Nw1. pose proof (Rle_0_sqr w2) as Nw2.
  pose proof (Rle_0_sqr w3) as Nw3. unfold Rsqr in Nw1, Nw2, Nw3.
  pose proof (root_upper _ _ _ (226 / 16777216)%R (112 / 16777216)%R HCS
                ltac:(lra) ltac:(lra) ltac:(lra) ltac:(lra)) as HTu.
  apply Rabs_le. split; [|lra].
  rewrite Hw1, Hw2, Hw3.
  replace (w1 * (u1 + t1) + w2 * (u2 + t2) + w3 * (u3 + t3))%R
    with ((w1 * u1 + w2 * u2 + w3 * u3) + (w1 * t1 + w2 * t2 + w3 * t3))%R
    by ring.
  lra.
Qed.
(** *** The direction before normalisation *)

Lemma libm_error_val : libm_error = (/ 1048576)%R.
Proof.
  unfold libm_error. change (-20) with (Z.opp 20).
  rewrite bpow_neg, bpow_IZR by lia. reflexivity.
Qed.

(** Four terms of the series of the sine. *)
Lemma sin_small_lower : (979 / 100000 <= sin (98 / 10000))%R.
Proof.
  pose proof PI4_lower as HP.
  destruct (SIN (98 / 10000) ltac:(lra) ltac:(lra)) as [H _].
  eapply Rle_trans; [|exact H].
  unfold sin_lb, sin_approx, sum_f_R0, sin_term.
  rewrite !INR_IZR_INZ.
  change (Z.of_nat (Factorial.fact (2 * 0 + 1))) with 1%Z.
  change (Z.of_nat (Factorial.fact (2 * 1 + 1))) with 6%Z.
  change (Z.of_nat (Factorial.fact (2 * 2 + 1))) with 120%Z.
  change (Z.of_nat (Factorial.fact (2 * 3 + 1))) with 5040%Z.
  cbn [pow Nat.mul Nat.add].
  lra.
Qed.

(** Inside the clamp band the cosine stays away from zero. *)
Lemma cos_band_lower p :
  (- F32.to_R kClamp <= p <= F32.to_R kClamp)%R -> (979 / 100000 <= cos p)%R.
Proof.
  rewrite kClamp_real. intros Hp. pose proof PI4_lower as HP.
  assert (Hk : (979 / 100000 <= cos (13092909 / 8388608))%R).
  { rewrite <- sin_shift.
    eapply Rle_trans; [exact sin_small_lower|].
    apply sin_incr_1; lra. }
  destruct (Rle_or_lt 0 p) as [H0|H0].
  - eapply Rle_trans; [exact Hk|]. apply cos_decr_1; lra.
  - rewrite <- cos_neg. eapply Rle_trans; [exact Hk|]. apply cos_decr_1; lra.
Qed.

(** The direction [(cos pitch cos yaw, sin pitch, cos pitch sin yaw)] as
    binary32 forms it from the library's values: nearly a unit vector, and
    away from the vertical. *)
Lemma forward_raw_err L (pitch yaw : f32) :
  good pitch -> in_band pitch = true ->
  libm_accurate L pitch -> libm_accurate L yaw ->
  let F0 := mkvec3 (F32.mul (cosf L pitch) (cosf L yaw))
                   (sinf L pitch)
                   (F32.mul (cosf L pitch) (sinf L yaw)) in
  vec_good F0 /\
  (Rabs (rdot F0 F0 - 1) <= / 1000)%R /\
  (83 / 1000000
   <= F32.to_R (vx F0) * F32.to_R (vx F0) + F32.to_R (vz F0) * F32.to_R (vz F0))%R.
Proof.
  intros Hp Hb (Gcp & Gsp & Ecp & Esp) (Gcy & Gsy & Ecy & Esy) F0. subst F0.
  pose proof (in_band_real pitch (proj2 Hp) Hb) as HP.
  apply cos_band_lower in HP.
  pose proof (COS_bound (F32.to_R pitch)) as BCP.
  pose proof (SIN_bound (F32.to_R pitch)) as BSP.
  pose proof (COS_bound (F32.to_R yaw)) as BCY.
  pose proof (SIN_bound (F32.to_R yaw)) as BSY.
  pose proof (sin2_cos2 (F32.to_R pitch)) as UP.
  pose proof (sin2_cos2 (F32.to_R yaw)) as UY. unfold Rsqr in UP, UY.
  set (CP := cos (F32.to_R pitch)) in *. set (SP := sin (F32.to_R pitch)) in *.
  set (CY := cos (F32.to_R yaw)) in *. set (SY := sin (F32.to_R yaw)) in *.
  clearbody CP SP CY SY.
  rewrite libm_error_val in *.
  apply abs_le_inv in Ecp, Esp, Ecy, Esy.
  pose proof eta32_small as Heta.
  set (d1 := (F32.to_R (cosf L pitch) - CP)%R) in *.
  set (d2 := (F32.to_R (cosf L yaw) - CY)%R) in *.
  set (d3 := (F32.to_R (sinf L pitch) - SP)%R) in *.
  set (d4 := (F32.to_R (sinf L yaw) - SY)%R) in *.
  assert (V1 : F32.to_R (cosf L pitch) = (CP + d1)%R) by (unfold d1; ring).
  assert (V2 : F32.to_R (cosf L yaw) = (CY + d2)%R) by (unfold d2; ring).
  assert (V3 : F32.to_R (sinf L pitch) = (SP + d3)%R) by (unfold d3; ring).
  assert (V4 : F32.to_R (sinf L yaw) = (SY + d4)%R) by (unfold d4; ring).
  clearbody d1 d2 d3 d4.
  (* the two products *)
  assert (HB : forall c s : R, (-1 <= c <= 1)%R -> (-1 <= s <= 1)%R ->
            forall a b : R, (- / 1048576 <= a <= / 1048576)%R ->
            (- / 1048576 <= b <= / 1048576)%R ->
            (Rabs ((c + a) * (s + b)) <= 101 / 100)%R).
  { clear. intros c s Hc Hs a b Ha Hb. apply Rabs_le.
    assert (Hca : (- (1 + / 1000) <= c + a <= 1 + / 1000)%R) by lra.
    assert (Hsb : (- (1 + / 1000) <= s + b <= 1 + / 1000)%R) by lra.
    pose proof (small_product _ _ _ _ Hca Hsb). lra. }
  destruct (mul_B (101 / 100) _ _ Gcp Gcy) as [Gx Ex];
    [rewrite V1, V2; apply HB; assumption | lra |].
  destruct (mul_B (101 / 100) _ _ Gcp Gsy) as [Gz Ez];
    [rewrite V1, V4; apply HB; assumption | lra |].
  split; [split; [exact Gx|split; [exact Gsp|exact Gz]]|].
  unfold rdot. cbn [vx vy vz].
  rewrite V1, V2 in Ex. rewrite V1, V4 in Ez. rewrite V3.
  rewrite eps32_val in *. apply abs_le_inv in Ex, Ez.
  set (x0 := F32.to_R (F32.mul (cosf L pitch) (cosf L yaw))) in *.
  set (z1 := F32.to_R (F32.mul (cosf L pitch) (sinf L yaw))) in *.
  clearbody x0 z1.
  set (a := (x0 - CP * CY)%R). set (b := (z1 - CP * SY)%R).
  pose proof (small_product CP d2 1 _ BCP Ecy) as M1.
  pose proof (small_product d1 CY _ 1 Ecp BCY) as M2.
  pose proof (small_product d1 d2 _ _ Ecp Ecy) as M3.
  pose proof (small_product CP d4 1 _ BCP Esy) as M4.
  pose proof (small_product d1 SY _ 1 Ecp BSY) as M5.
  pose proof (small_product d1 d4 _ _ Ecp Esy) as M6.
  assert (Ha : (- (21 / 10 * / 1048576) <= a <= 21 / 10 * / 1048576)%R).
  { unfold a.
    replace ((CP + d1) * (CY + d2))%R
      with (CP * CY + CP * d2 + d1 * CY + d1 * d2)%R in Ex by ring. lra. }
  assert (Hb' : (- (21 / 10 * / 1048576) <= b <= 21 / 10 * / 1048576)%R).
  { unfold b.
    replace ((CP + d1) * (SY + d4))%R
      with (CP * SY + CP * d4 + d1 * SY + d1 * d4)%R in Ez by ring. lra. }
  assert (X0 : x0 = (CP * CY + a)%R) by (unfold a; ring).
  assert (Z1 : z1 = (CP * SY + b)%R) by (unfold b; ring).
  clearbody a b. rewrite X0, Z1.
  pose proof (small_product CP CY 1 1 BCP BCY) as BX.
  pose proof (small_product CP SY 1 1 BCP BSY) as BZ.
  pose proof (small_product (CP * CY) a _ _ BX Ha) as N1.
  pose proof (small_product (CP * SY) b _ _ BZ Hb') as N2.
  pose proof (small_product SP d3 1 _ BSP Esp) as N3.
  pose proof (small_product a a _ _ Ha Ha) as N4.
  pose proof (small_product b b _ _ Hb' Hb') as N5.
  pose proof (small_product d3 d3 _ _ Esp Esp) as N6.
  pose proof (Rle_0_sqr a) as Qa. pose proof (Rle_0_sqr b) as Qb.
  unfold Rsqr in Qa, Qb.
  assert (HXZ : (CP * CY * (CP * CY) + CP * SY * (CP * SY) = CP * CP)%R).
  { transitivity (CP * CP * (SY * SY + CY * CY))%R; [ring|].
    rewrite UY. ring. }
  assert (HC2 : (979 / 100000 * (979 / 100000) <= CP * CP)%R)
    by (apply Rmult_le_compat; lra).
  split.
  - apply Rabs_le.
    replace ((CP * CY + a) * (CP * CY + a) + (SP + d3) * (SP + d3)
             + (CP * SY + b) * (CP * SY + b) - 1)%R
      with ((CP * CY * (CP * CY) + CP * SY * (CP * SY)) + SP * SP - 1
            + 2 * (CP * CY * a) + 2 * (CP * SY * b) + 2 * (SP * d3)
            + a * a + b * b + d3 * d3)%R by ring.
    rewrite HXZ. lra.
  - replace ((CP * CY + a) * (CP * CY + a) + (CP * SY + b) * (CP * SY + b))%R
      with ((CP * CY * (CP * CY) + CP * SY * (CP * SY))
            + 2 * (CP * CY * a) + 2 * (CP * SY * b) + a * a + b * b)%R by ring.
    rewrite HXZ. lra.
Qed.
(** *** The camera basis of the uniform block *)

Lemma basis_tolerance_val : basis_tolerance = (/ 131072)%R.
Proof.
  unfold basis_tolerance. change (-17) with (Z.opp 17).
  rewrite bpow_neg, bpow_IZR by lia. reflexivity.
Qed.

Lemma rtriple_swap a b c : rtriple a b c = (- rtriple b a c)%R.
Proof. unfold rtriple. ring. Qed.

(** The three vectors of the uniform block, as binary32 computes them from
    the values of a libm that is accurate at the two angles. *)
Lemma camera_basis_err L (pitch yaw : f32) :
  good pitch -> in_band pitch = true ->
  libm_accurate L pitch -> libm_accurate L yaw ->
  let f := normalize (H := Scalar_f32 L) (forward_raw L pitch yaw) in
  let r := normalize (H := Scalar_f32 L) (cross (H := Scalar_f32 L) f world_up) in
  let u := normalize (H := Scalar_f32 L) (cross (H := Scalar_f32 L) r f) in
  vec_good f /\ vec_good r /\ vec_good u /\
  orthonormal_within basis_tolerance f r u /\
  left_handed_within (8 * basis_tolerance) f r u /\
  (Rabs (F32.to_R (vx f)) <= 101 / 100 /\ Rabs (F32.to_R (vy f)) <= 101 / 100
   /\ Rabs (F32.to_R (vz f)) <= 101 / 100)%R /\
  (Rabs (rdot f f - 1) <= 112 * eps32)%R /\
  (78 / 1000000
   <= F32.to_R (vx f) * F32.to_R (vx f) + F32.to_R (vz f) * F32.to_R (vz f))%R /\
  (16 / 1000000 <= F32.to_R (vy u))%R.
Proof.
  intros Hp Hb HLp HLy f r u.
  destruct (forward_raw_err L pitch yaw Hp Hb HLp HLy) as (G0 & N0 & X0).
  destruct (stage_forward L _ G0 N0 X0) as (Gf & Nf & (Bf1 & Bf2 & Bf3) & Xf).
  fold (forward_raw L pitch yaw) in Gf, Nf, Bf1, Bf2, Bf3, Xf. fold f in Gf, Nf, Bf1, Bf2, Bf3, Xf.
  destruct (stage_right L f Gf Bf1 Bf2 Bf3 Xf) as (Gr & Nr & Ofr & Br & Vr).
  fold world_up in Gr, Nr, Ofr, Br, Vr. fold r in Gr, Nr, Ofr, Br, Vr.
  destruct (stage_up L r f Gr Gf Br (conj Bf1 (conj Bf2 Bf3)) Nr Nf Ofr)
    as (Gu & Nu & Ofu & Oru & Tr & Vu).
  fold u in Gu, Nu, Ofu, Oru, Tr, Vu. clearbody f r u.
  specialize (Vu Vr).
  split; [exact Gf|]. split; [exact Gr|]. split; [exact Gu|].
  split; [|split; [|split; [exact (conj Bf1 (conj Bf2 Bf3))
                           |split; [exact Nf|split; [exact Xf|exact Vu]]]]].
  - unfold orthonormal_within. rewrite basis_tolerance_val.
    rewrite eps32_val in *.
    apply abs_le_inv in Nf, Nr, Nu, Ofr, Ofu, Oru.
    repeat split; apply Rabs_le; lra.
  - unfold left_handed_within. rewrite basis_tolerance_val.
    rewrite eps32_val in *. rewrite (rtriple_swap f r u).
    apply abs_le_inv in Tr. apply Rabs_le; lra.
Qed.

(** *** A libm of Taylor polynomials at two angles *)

Lemma to_R_dyadic m k :
  F32.to_R (S754_finite false m (Zneg k)) = (IZR (Zpos m) / IZR (2 ^ Zpos k))%R.
Proof. reflexivity. Qed.

Lemma cos_series a :
  (- PI / 2 <= a -> a <= PI / 2 ->
   1 - a * a / 2 + a * a * a * a / 24 - a * a * a * a * a * a / 720 <= cos a
   <= 1 - a * a / 2 + a * a * a * a / 24 - a * a * a * a * a * a / 720
      + a * a * a * a * a * a * a * a / 40320)%R.
Proof.
  intros Hl Hu. pose proof (COS a Hl Hu) as H.
  unfold cos_lb, cos_ub, cos_approx, sum_f_R0, cos_term in H.
  rewrite !INR_IZR_INZ in H.
  change (Z.of_nat (Factorial.fact (2 * 0))) with 1%Z in H.
  change (Z.of_nat (Factorial.fact (2 * 1))) with 2%Z in H.
  change (Z.of_nat (Factorial.fact (2 * 2))) with 24%Z in H.
  change (Z.of_nat (Factorial.fact (2 * 3))) with 720%Z in H.
  change (Z.of_nat (Factorial.fact (2 * 4))) with 40320%Z in H.
  cbn [pow Nat.mul Nat.add] in H. lra.
Qed.

Lemma sin_series a :
  (0 <= a -> a <= PI ->
   a - a * a * a / 6 + a * a * a * a * a / 120
     - a * a * a * a * a * a * a / 5040 <= sin a
   <= a - a * a * a / 6 + a * a * a * a * a / 120
      - a * a * a * a * a * a * a / 5040
      + a * a * a * a * a * a * a * a * a / 362880)%R.
Proof.
  intros Hl Hu. pose proof (SIN a Hl Hu) as H.
  unfold sin_lb, sin_ub, sin_approx, sum_f_R0, sin_term in H.
  rewrite !INR_IZR_INZ in H.
  change (Z.of_nat (Factorial.fact (2 * 0 + 1))) with 1%Z in H.
  change (Z.of_nat (Factorial.fact (2 * 1 + 1))) with 6%Z in H.
  change (Z.of_nat (Factorial.fact (2 * 2 + 1))) with 120%Z in H.
  change (Z.of_nat (Factorial.fact (2 * 3 + 1))) with 5040%Z in H.
  change (Z.of_nat (Factorial.fact (2 * 4 + 1))) with 362880%Z in H.
  cbn [pow Nat.mul Nat.add] in H. lra.
Qed.

Lemma taylor7_accurate_half : libm_accurate libm_taylor7 (F32.lit 1 2).
Proof.
  unfold libm_accurate.
  replace (cosf libm_taylor7 (F32.lit 1 2))
    with (S754_finite false 14723391 (- 24)) by (vm_compute; reflexivity).
  replace (sinf libm_taylor7 (F32.lit 1 2))
    with (S754_finite false 16086851 (- 25)) by (vm_compute; reflexivity).
  replace (F32.lit 1 2) with (S754_finite false 8388608 (- 24))
    by (vm_compute; reflexivity).
  rewrite !to_R_dyadic, libm_error_val.
  change (2 ^ 24) with 16777216. change (2 ^ 25) with 33554432.
  replace (8388608 / 16777216)%R with (1 / 2)%R by lra.
  pose proof PI4_lower as HP.
  pose proof (cos_series (1 / 2) ltac:(lra) ltac:(lra)) as HC.
  pose proof (sin_series (1 / 2) ltac:(lra) ltac:(lra)) as HS.
  split; [split; reflexivity|]. split; [split; reflexivity|].
  split; apply Rabs_le; lra.
Qed.

Lemma taylor7_accurate_quarter : libm_accurate libm_taylor7 (F32.lit 1 4).
Proof.
  unfold libm_accurate.
  replace (cosf libm_taylor7 (F32.lit 1 4))
    with (S754_finite false 16255653 (- 24)) by (vm_compute; reflexivity).
  replace (sinf libm_taylor7 (F32.lit 1 4))
    with (S754_finite false 16602999 (- 26)) by (vm_compute; reflexivity).
  replace (F32.lit 1 4) with (S754_finite false 8388608 (- 25))
    by (vm_compute; reflexivity).
  rewrite !to_R_dyadic, libm_error_val.
  change (2 ^ 24) with 16777216. change (2 ^ 25) with 33554432.
  change (2 ^ 26) with 67108864.
  replace (8388608 / 33554432)%R with (1 / 4)%R by lra.
  pose proof PI4_lower as HP.
  pose proof (cos_series (1 / 4) ltac:(lra) ltac:(lra)) as HC.
  pose proof (sin_series (1 / 4) ltac:(lra) ltac:(lra)) as HS.
  split; [split; reflexivity|]. split; [split; reflexivity|].
  split; apply Rabs_le; lra.
Qed.

Lemma taylor7_accurate_zero : libm_accurate libm_taylor7 F32.zero.
Proof.
  unfold libm_accurate.
  replace (cosf libm_taylor7 F32.zero) with (F32.of_int 1)
    by (vm_compute; reflexivity).
  replace (sinf libm_taylor7 F32.zero) with (F32.of_int 0)
    by (vm_compute; reflexivity).
  change F32.zero with (F32.of_int 0).
  rewrite to_R_one, to_R_zero_int, cos_0, sin_0, libm_error_val.
  split; [apply good_one|]. split; [apply good_zero_int|].
  split; apply Rabs_le; lra.
Qed.

Lemma good_half : good (F32.lit 1 2).
Proof. split; reflexivity. Qed.
(** *** The position, and the vertical components of right and up *)

Lemma neg_R x : good x -> good (F32.neg x) /\ F32.to_R (F32.neg x) = (- F32.to_R x)%R.
Proof.
  intros [Hf Hv]. destruct x as [s|s| |s m e]; try discriminate.
  - split; [split; reflexivity|]. unfold F32.neg, SFopp, F32.to_R. lra.
  - split; [split; [reflexivity|exact Hv]|].
    unfold F32.neg, SFopp. rewrite !to_R_finite.
    destruct s; unfold sgn; cbn [negb]; lra.
Qed.

Lemma mul_zero_left s y :
  fin y = true -> exists s', F32.mul (S754_zero s) y = S754_zero s'.
Proof.
  intros Hy. destruct y as [sy|sy| |sy m e]; try discriminate;
    eexists; reflexivity.
Qed.

Lemma mul_zero_right x s :
  fin x = true -> exists s', F32.mul x (S754_zero s) = S754_zero s'.
Proof.
  intros Hx. destruct x as [sx|sx| |sx m e]; try discriminate;
    eexists; reflexivity.
Qed.

Lemma sub_zeros s1 s2 :
  exists s', F32.sub (S754_zero s1) (S754_zero s2) = S754_zero s'.
Proof. destruct s1, s2; eexists; reflexivity. Qed.

(** A finite product with a factor that is not zero has a finite other
    factor. *)
Lemma finite_factor x y :
  good (F32.mul x y) -> fin x = true -> F32.to_R x <> 0%R -> fin y = true.
Proof.
  intros Hg Hx Hnz. apply good_fin in Hg.
  destruct x as [sx|sx| |sx m e]; try discriminate.
  - exfalso. apply Hnz. reflexivity.
  - destruct y as [sy|sy| |sy m2 e2]; try reflexivity;
      unfold F32.mul in Hg; cbn [SFmul fin] in Hg; discriminate.
Qed.

(** The normalised cross product of a vector away from the vertical with
    the world's up vector has a vertical component that is exactly zero. *)
Lemma right_is_horizontal L (f : vec3 f32) :
  vec_good f ->
  (Rabs (F32.to_R (vx f)) <= 101 / 100)%R ->
  (Rabs (F32.to_R (vy f)) <= 101 / 100)%R ->
  (Rabs (F32.to_R (vz f)) <= 101 / 100)%R ->
  (78 / 1000000
   <= F32.to_R (vx f) * F32.to_R (vx f) + F32.to_R (vz f) * F32.to_R (vz f))%R ->
  vec_good (normalize (H := Scalar_f32 L) (cross (H := Scalar_f32 L) f world_up)) ->
  exists s,
    vy (normalize (H := Scalar_f32 L) (cross (H := Scalar_f32 L) f world_up))
    = S754_zero s.
Proof.
  intros Hf Bx By Bz HG Hr.
  destruct (cross_up_err L f Hf ltac:(lra) ltac:(lra) ltac:(lra))
    as (Gr0 & E1 & _ & E3).
  fold world_up in Gr0, E1, E3.
  set (r0 := cross (H := Scalar_f32 L) f world_up) in *.
  (* the vertical component of the cross product is a zero *)
  assert (Hy0 : exists s0, vy r0 = S754_zero s0).
  { unfold r0, cross, world_up. cbn [vx vy vz s_mul s_sub Scalar_f32].
    change (F32.of_int 0) with (S754_zero false).
    destruct Hf as (Hfx & _ & Hfz).
    destruct (mul_zero_right (vz f) false (good_fin _ Hfz)) as [sa ->].
    destruct (mul_zero_left false (vx f) (good_fin _ Hfx)) as [sb ->].
    apply sub_zeros. }
  destruct Hy0 as [s0 Hy0].
  (* the scaling factor is finite *)
  set (inv := inversesqrt (H := Scalar_f32 L) (dot (H := Scalar_f32 L) r0 r0)).
  assert (Hinv : fin inv = true).
  { destruct Hr as (Hrx & _ & Hrz). destruct Gr0 as (G0x & _ & G0z).
    unfold normalize, vscale in Hrx, Hrz. cbn [vx vz s_mul Scalar_f32] in Hrx, Hrz.
    fold inv in Hrx, Hrz.
    destruct (Req_dec (F32.to_R (vx r0)) 0) as [Zx|Nx].
    2:{ exact (finite_factor _ _ Hrx (good_fin _ G0x) Nx). }
    destruct (Req_dec (F32.to_R (vz r0)) 0) as [Zz|Nz].
    2:{ exact (finite_factor _ _ Hrz (good_fin _ G0z) Nz). }
    exfalso. rewrite Zx in E1. rewrite Zz in E3.
    rewrite Rplus_0_l in E1. rewrite Rminus_0_l, Rabs_Ropp in E3.
    pose proof eta32_small as Heta. rewrite eps32_val in *.
    pose proof (Rabs_pos (F32.to_R (vx f))) as Px.
    pose proof (Rabs_pos (F32.to_R (vz f))) as Pz.
    assert (Ax : (Rabs (F32.to_R (vx f)) <= / 1000)%R) by lra.
    assert (Az : (Rabs (F32.to_R (vz f)) <= / 1000)%R) by lra.
    apply abs_le_inv in Ax, Az.
    pose proof (small_product _ _ _ _ Ax Ax). pose proof (small_product _ _ _ _ Az Az).
    lra. }
  unfold normalize, vscale. cbn [vy s_mul Scalar_f32]. fold inv.
  rewrite Hy0. apply mul_zero_left. exact Hinv.
Qed.

(** The position [-forward * distance], for a distance between 1 and
    2^100. *)
Lemma position_err L (f : vec3 f32) (distance : f32) :
  vec_good f -> good distance ->
  (Rabs (F32.to_R (vx f)) <= 101 / 100)%R ->
  (Rabs (F32.to_R (vy f)) <= 101 / 100)%R ->
  (Rabs (F32.to_R (vz f)) <= 101 / 100)%R ->
  (Rabs (rdot f f - 1) <= 112 * eps32)%R ->
  (1 <= F32.to_R distance <= bpow 100)%R ->
  let p := vscale (H := Scalar_f32 L) (vneg (H := Scalar_f32 L) f) distance in
  let d := F32.to_R distance in
  vec_good p /\
  (Rabs (F32.to_R (vx p) + F32.to_R (vx f) * d) <= 2 * eps32 * d /\
   Rabs (F32.to_R (vy p) + F32.to_R (vy f) * d) <= 2 * eps32 * d /\
   Rabs (F32.to_R (vz p) + F32.to_R (vz f) * d) <= 2 * eps32 * d)%R /\
  (Rabs (rdot p p - d * d) <= basis_tolerance * (d * d))%R /\
  (Rabs (rdot p f + d) <= basis_tolerance * d)%R.
Proof.
  intros (Gx & Gy & Gz) Gd Bx By Bz Nf Hd p d. subst p.
  unfold vscale, vneg. cbn [vx vy vz s_mul s_neg Scalar_f32]. unfold rdot.
  cbn [vx vy vz]. fold d in Hd |- *.
  destruct (neg_R _ Gx) as [Gnx Vnx]. destruct (neg_R _ Gy) as [Gny Vny].
  destruct (neg_R _ Gz) as [Gnz Vnz].
  unfold rdot in Nf.
  set (f1 := F32.to_R (vx f)) in *. set (f2 := F32.to_R (vy f)) in *.
  set (f3 := F32.to_R (vz f)) in *.
  pose proof eta32_small as Heta. rewrite basis_tolerance_val, eps32_val in *.
  apply abs_le_inv in Bx, By, Bz, Nf.
  assert (Hd0 : (0 < d)%R) by lra.
  assert (HD : (- d <= d <= d)%R) by lra.
  assert (Hbig : (bpow 100 * 2 <= bpow 127)%R).
  { pose proof (bpow_succ 100) as H101. change (100 + 1) with 101 in H101.
    pose proof (bpow_le 101 127 ltac:(lia)). lra. }
  (* the three products *)
  assert (HM : forall x : f32, good x ->
            (- (101 / 100) <= F32.to_R x <= 101 / 100)%R ->
            good (F32.mul (F32.neg x) distance) /\
            (- (2 * / 16777216 * d)
             <= F32.to_R (F32.mul (F32.neg x) distance) + F32.to_R x * d
             <= 2 * / 16777216 * d)%R).
  { intros x Gx' Bx'. destruct (neg_R _ Gx') as [Gn Vn].
    pose proof (small_product _ _ _ _ Bx' HD) as Pb.
    destruct (mul_R (F32.neg x) distance Gn Gd) as [G E].
    - rewrite Vn. fold d.
      apply Rle_lt_trans with (101 / 100 * d)%R; [apply Rabs_le; lra|lra].
    - split; [exact G|]. rewrite Vn in E. fold d in E.
      assert (Ha : (Rabs (- F32.to_R x * d) <= 101 / 100 * d)%R)
        by (apply Rabs_le; lra).
      apply abs_le_inv in E. rewrite eps32_val in E. lra. }
  destruct (HM _ Gx Bx) as [G1 E1]. destruct (HM _ Gy By) as [G2 E2].
  destruct (HM _ Gz Bz) as [G3 E3]. clear HM.
  fold f1 in E1. fold f2 in E2. fold f3 in E3.
  set (e1 := (F32.to_R (F32.mul (F32.neg (vx f)) distance) + f1 * d)%R) in *.
  set (e2 := (F32.to_R (F32.mul (F32.neg (vy f)) distance) + f2 * d)%R) in *.
  set (e3 := (F32.to_R (F32.mul (F32.neg (vz f)) distance) + f3 * d)%R) in *.
  assert (P1 : F32.to_R (F32.mul (F32.neg (vx f)) distance) = (e1 - f1 * d)%R)
    by (unfold e1; ring).
  assert (P2 : F32.to_R (F32.mul (F32.neg (vy f)) distance) = (e2 - f2 * d)%R)
    by (unfold e2; ring).
  assert (P3 : F32.to_R (F32.mul (F32.neg (vz f)) distance) = (e3 - f3 * d)%R)
    by (unfold e3; ring).
  clearbody e1 e2 e3.
  split; [split; [exact G1|split; [exact G2|exact G3]]|].
  split; [repeat split; apply Rabs_le; lra|].
  rewrite P1, P2, P3.
  set (ff := (f1 * f1 + f2 * f2 + f3 * f3 - 1)%R) in *.
  assert (Hdd : (0 <= d * d)%R) by (apply Rmult_le_pos; lra).
  assert (Hdd1 : (d <= d * d)%R).
  { replace d with (d * 1)%R at 1 by ring. apply Rmult_le_compat_l; lra. }
  assert (HDD : (- (d * d) <= d * d <= d * d)%R) by lra.
  pose proof (small_product ff (d * d) _ _ Nf HDD) as Q0.
  pose proof (small_product ff d _ _ Nf HD) as Q0'.
  pose proof (small_product _ _ _ _ Bx HD) as A1.
  pose proof (small_product _ _ _ _ By HD) as A2.
  pose proof (small_product _ _ _ _ Bz HD) as A3.
  pose proof (small_product _ _ _ _ A1 E1) as C1.
  pose proof (small_product _ _ _ _ A2 E2) as C2.
  pose proof (small_product _ _ _ _ A3 E3) as C3.
  pose proof (small_product _ _ _ _ E1 E1) as S1.
  pose proof (small_product _ _ _ _ E2 E2) as S2.
  pose proof (small_product _ _ _ _ E3 E3) as S3.
  pose proof (small_product _ _ _ _ Bx E1) as F1.
  pose proof (small_product _ _ _ _ By E2) as F2.
  pose proof (small_product _ _ _ _ Bz E3) as F3.
  split; apply Rabs_le.
  - replace ((e1 - f1 * d) * (e1 - f1 * d) + (e2 - f2 * d) * (e2 - f2 * d)
             + (e3 - f3 * d) * (e3 - f3 * d) - d * d)%R
      with (ff * (d * d)
            - 2 * (f1 * d * e1) - 2 * (f2 * d * e2) - 2 * (f3 * d * e3)
            + e1 * e1 + e2 * e2 + e3 * e3)%R by (unfold ff; ring).
    lra.
  - replace ((e1 - f1 * d) * f1 + (e2 - f2 * d) * f2 + (e3 - f3 * d) * f3 + d)%R
      with (- (ff * d) + f1 * e1 + f2 * e2 + f3 * e3)%R by (unfold ff; ring).
    lra.
Qed.
(** ** The frame routine: complete frames *)

(** A complete frame on a target of at most [max_dim] a side: it is defined,
    and its blit goes to the exact letterbox. *)
Lemma Draw_blit_exact L THREADS env st :
  skipped env = false -> compute_pass_begun env = true ->
  1 <= swapchain_width env <= max_dim -> 1 <= swapchain_height env <= max_dim ->
  exists st' calls,
    Draw L THREADS env st = Some (st', calls) /\
    blit_destination calls =
      Some (letterbox_exact (swapchain_width env) (swapchain_height env)).
Proof.
  intros Hk Hp Hw Hh. rewrite (Draw_complete L THREADS env st Hk Hp).
  rewrite (letterbox_refines_exact _ _ Hw Hh). cbn [obind].
  eexists. eexists. split; reflexivity.
Qed.

Lemma ceil_quot size dim :
  0 < size -> 0 < dim -> covers_exactly (Z.quot (dim + size - 1) size) size dim.
Proof.
  intros Hs Hd. unfold covers_exactly.
  rewrite Z.quot_div_nonneg by lia.
  pose proof (Z.div_mod (dim + size - 1) size ltac:(lia)) as Hdm.
  pose proof (Z.mod_pos_bound (dim + size - 1) size Hs) as Hm.
  nia.
Qed.

(** Whatever the device answers, a dispatch that [Draw] issues has the group
    counts [groupsX], [groupsY] and 1. *)
Lemma Draw_dispatch_groups L THREADS env st st' calls gx gy gz :
  Draw L THREADS env st = Some (st', calls) ->
  In (DispatchGPUCompute gx gy gz) calls ->
  gx = groupsX THREADS /\ gy = groupsY THREADS /\ gz = 1.
Proof.
  unfold Draw.
  destruct (cmdbuf_acquired env); cbn [negb].
  2:{ intros E. injection E as <- <-. cbn [In]. intros [H|[H|[]]]; discriminate. }
  destruct (swapchain_ok env); cbn [negb].
  2:{ intros E. injection E as <- <-. cbn [In].
      intros [H|[H|[H|[H|[]]]]]; discriminate. }
  destruct (negb (swapchain_texture env) || (swapchain_width env =? 0)
            || (swapchain_height env =? 0)).
  { intros E. injection E as <- <-. cbn [In]. intros [H|[H|[H|[]]]]; discriminate. }
  destruct (compute_pass_begun env); cbn [negb].
  2:{ intros E. injection E as <- <-. cbn [In].
      intros [H|[H|[H|[H|[H|[]]]]]]; discriminate. }
  destruct (letterbox _ _) as [rect|]; cbn [obind]; [|discriminate].
  intros E. injection E as <- <-. cbn [In].
  intros [H|[H|[H|[H|[H|[H|[H|[H|[H|[H|[]]]]]]]]]]]; try discriminate.
  injection H as <- <- <-. auto.
Qed.

(** [Draw] never writes the camera angles or the distance. *)
Lemma Draw_camera_unchanged L THREADS env st st' calls :
  Draw L THREADS env st = Some (st', calls) ->
  pitch st' = pitch st /\ yaw st' = yaw st /\ distance st' = distance st.
Proof.
  unfold Draw.
  destruct (cmdbuf_acquired env); cbn [negb].
  2:{ intros E. injection E as <- <-. auto. }
  destruct (swapchain_ok env); cbn [negb].
  2:{ intros E. injection E as <- <-. auto. }
  destruct (negb (swapchain_texture env) || (swapchain_width env =? 0)
            || (swapchain_height env =? 0)).
  { intros E. injection E as <- <-. auto. }
  destruct (compute_pass_begun env); cbn [negb].
  2:{ intros E. injection E as <- <-. auto. }
  destruct (letterbox _ _) as [rect|]; cbn [obind]; [|discriminate].
  intros E. injection E as <- <-. auto.
Qed.

(** A skipped frame returns the state it was given. *)
Lemma Draw_skipped L THREADS env st :
  skipped env = true ->
  exists calls,
    Draw L THREADS env st = Some (st, calls) /\
    existsb is_dispatch calls = false /\ existsb is_blit calls = false.
Proof.
  intros Hk. unfold skipped in Hk.
  destruct (cmdbuf_acquired env) eqn:Hc.
  2:{ rewrite (Draw_no_cmdbuf L THREADS env st Hc). eexists. repeat split. }
  destruct (swapchain_ok env) eqn:Hs.
  2:{ rewrite (Draw_no_target L THREADS env st).
      - eexists. repeat split.
      - unfold target_failure. now rewrite Hc, Hs. }
  cbn [negb orb] in Hk.
  rewrite (Draw_zero_area L THREADS env st Hc Hs Hk). eexists. repeat split.
Qed.

(** The body of the loop hands [running] on as the pending events left it. *)
Lemma iteration_running L THREADS it st st' calls running :
  iteration L THREADS it st = Some (st', calls, running) ->
  running = negb (has_quit (pending it)).
Proof.
  unfold iteration.
  pose proof (pump_running (pending it) st true) as Hr.
  destruct (pump (pending it) (st, true)) as [st1 r1]. cbn [snd] in Hr.
  destruct (Draw L THREADS (frame it) st1) as [[st2 calls2]|]; cbn [obind]; [|discriminate].
  intros E. injection E as <- <- <-. now rewrite Hr.
Qed.

(** ** Properties of the frame routine *)

(** C5: when the swapchain acquisition succeeds but the target has zero area
    (null texture, zero width or zero height), the frame is not an error: the
    command buffer is submitted, not cancelled, nothing is logged, and the
    calls contain no compute dispatch and no blit.  The state is untouched. *)
Theorem C5_zero_area_frame_is_submitted_empty
    (L : Libm) (THREADS : Z) (env : FrameEnv) (st : AppState) :
  cmdbuf_acquired env = true ->
  swapchain_ok env = true ->
  swapchain_texture env = false \/ swapchain_width env = 0
    \/ swapchain_height env = 0 ->
  exists calls,
    Draw L THREADS env st = Some (st, calls) /\
    existsb is_submit calls = true /\
    existsb is_cancel calls = false /\
    existsb is_log calls = false /\
    existsb is_dispatch calls = false /\
    existsb is_blit calls = false.
Proof.
  intros Hc Hs Hz.
  assert (Hza : zero_area env = true).
  { unfold zero_area. destruct Hz as [H|[H|H]]; rewrite H; cbn;
      rewrite ?orb_true_r; reflexivity. }
  rewrite (Draw_zero_area L THREADS env st Hc Hs Hza).
  eexists. repeat split.
Qed.

Lemma C5_witness :
  exists calls,
    Draw libm_taylor1 8 env_minimised initial_state = Some (initial_state, calls) /\
    existsb is_submit calls = true /\
    existsb is_cancel calls = false /\
    existsb is_log calls = false /\
    existsb is_dispatch calls = false /\
    existsb is_blit calls = false.
Proof.
  apply (C5_zero_area_frame_is_submitted_empty libm_taylor1 8 env_minimised initial_state).
  - reflexivity.
  - reflexivity.
  - left. reflexivity.
Defined.

(** C6, as worded, fails: when the compute pass does not begin, after the
    command buffer and the target were acquired, the command buffer is
    submitted and not cancelled. *)
Lemma C6_counterexample :
  compute_failure (env_no_compute 960 720) = true /\
  exists st' calls,
    Draw libm_taylor1 8 (env_no_compute 960 720) initial_state = Some (st', calls) /\
    existsb is_submit calls = true /\
    existsb is_cancel calls = false.
Proof.
  split; [reflexivity|].
  rewrite (Draw_no_compute libm_taylor1 8 (env_no_compute 960 720) initial_state eq_refl).
  eexists. eexists. repeat split.
Qed.

(** C6, amended: after a command buffer has been acquired, a failure of the
    target acquisition abandons the frame with the command buffer cancelled
    and never submitted; a failure to begin the compute pass abandons the
    frame without dispatch or blit, and the command buffer is submitted, not
    cancelled.  Either way the iteration ends with [running] as the pending
    events left it, so without a quit event the loop goes on to the next
    iteration. *)
Theorem C6_failed_frame_is_abandoned
    (L : Libm) (THREADS : Z) (it : Iteration) (st : AppState) :
  target_failure (frame it) || compute_failure (frame it) = true ->
  (forall st0,
     exists st' calls,
       Draw L THREADS (frame it) st0 = Some (st', calls) /\
       existsb is_dispatch calls = false /\
       existsb is_blit calls = false /\
       existsb is_log calls = true /\
       (target_failure (frame it) = true ->
          st' = st0 /\
          existsb is_cancel calls = true /\ existsb is_submit calls = false) /\
       (compute_failure (frame it) = true ->
          existsb is_cancel calls = false /\ existsb is_submit calls = true)) /\
  exists st' calls,
    iteration L THREADS it st = Some (st', calls, negb (has_quit (pending it))) /\
    (has_quit (pending it) = false ->
     forall rest,
       main_loop L THREADS (it :: rest) st =
         r' <- main_loop L THREADS rest st' ;;
         let '(st'', calls', running') := r' in
         Some (st'', calls ++ calls', running')).
Proof.
  intros Hf.
  assert (HD : forall st0,
     exists st' calls,
       Draw L THREADS (frame it) st0 = Some (st', calls) /\
       existsb is_dispatch calls = false /\
       existsb is_blit calls = false /\
       existsb is_log calls = true /\
       (target_failure (frame it) = true ->
          st' = st0 /\
          existsb is_cancel calls = true /\ existsb is_submit calls = false) /\
       (compute_failure (frame it) = true ->
          existsb is_cancel calls = false /\ existsb is_submit calls = true)).
  { intros st0. destruct (target_failure (frame it)) eqn:Ht.
    - rewrite (Draw_no_target L THREADS (frame it) st0 Ht).
      eexists. eexists. split; [reflexivity|].
      do 3 (split; [reflexivity|]). split.
      + intros _. repeat split.
      + intros Hc. exfalso.
        unfold target_failure in Ht. unfold compute_failure, skipped in Hc.
        apply andb_true_iff in Ht as [_ Ht]. rewrite Ht in Hc.
        rewrite orb_true_r in Hc. discriminate.
    - cbn [orb] in Hf.
      rewrite (Draw_no_compute L THREADS (frame it) st0 Hf).
      eexists. eexists. split; [reflexivity|].
      do 3 (split; [reflexivity|]). split.
      + discriminate.
      + intros _. split; reflexivity. }
  split; [exact HD|].
  unfold iteration.
  pose proof (pump_running (pending it) st true) as Hr.
  destruct (pump (pending it) (st, true)) as [st1 r1] eqn:Hp. cbn [snd] in Hr.
  destruct (HD st1) as (st' & calls & HDraw & _).
  exists st', calls. split.
  - rewrite HDraw. cbn [obind fst snd]. now rewrite Hr.
  - intros Hq rest. cbn [main_loop]. unfold iteration. rewrite Hp, HDraw.
    cbn [obind fst snd]. rewrite Hr, Hq. reflexivity.
Qed.

Lemma C6_witness :
  (forall st0,
     exists st' calls,
       Draw libm_taylor1 8 env_no_target st0 = Some (st', calls) /\
       existsb is_dispatch calls = false /\
       existsb is_blit calls = false /\
       existsb is_log calls = true /\
       (target_failure env_no_target = true ->
          st' = st0 /\
          existsb is_cancel calls = true /\ existsb is_submit calls = false) /\
       (compute_failure env_no_target = true ->
          existsb is_cancel calls = false /\ existsb is_submit calls = true)) /\
  exists st' calls,
    iteration libm_taylor1 8
      {| pending := [MouseWheel F32.one]; frame := env_no_target |} initial_state
      = Some (st', calls, true) /\
    (has_quit [MouseWheel F32.one] = false ->
     forall rest,
       main_loop libm_taylor1 8
         ({| pending := [MouseWheel F32.one]; frame := env_no_target |} :: rest)
         initial_state =
         r' <- main_loop libm_taylor1 8 rest st' ;;
         let '(st'', calls', running') := r' in
         Some (st'', calls ++ calls', running')).
Proof.
  apply (C6_failed_frame_is_abandoned libm_taylor1 8
           {| pending := [MouseWheel F32.one]; frame := env_no_target |}
           initial_state).
  reflexivity.
Defined.

(** C8: in every frame that reaches the compute step, the dispatch is a 2D
    grid whose group counts are the ceilings of [WIDTH / THREADS] and
    [HEIGHT / THREADS] (and 1 in depth): the groups cover the output image
    and none lies wholly outside it.  No other dispatch is ever issued.
    [THREADS] is any positive work-group size for which
    [WIDTH + THREADS - 1] is an [int]. *)
Theorem C8_dispatch_covers_image
    (L : Libm) (THREADS : Z) (env : FrameEnv) (st st' : AppState)
    (calls : list GpuCall) :
  0 < THREADS -> WIDTH + THREADS - 1 <= INT_MAX ->
  Draw L THREADS env st = Some (st', calls) ->
  (skipped env = false -> compute_pass_begun env = true ->
   exists gx gy,
     dispatch_groups calls = Some (gx, gy, 1) /\
     covers_exactly gx THREADS WIDTH /\ covers_exactly gy THREADS HEIGHT) /\
  (forall gx gy gz,
     In (DispatchGPUCompute gx gy gz) calls ->
     covers_exactly gx THREADS WIDTH /\ covers_exactly gy THREADS HEIGHT /\ gz = 1).
Proof.
  intros HT Hint HDraw. split.
  - intros Hk Hp. rewrite (Draw_complete L THREADS env st Hk Hp) in HDraw.
    destruct (letterbox _ _) as [rect|]; cbn [obind] in HDraw; [|discriminate].
    injection HDraw as <- <-.
    exists (groupsX THREADS), (groupsY THREADS). split; [reflexivity|].
    split; apply ceil_quot; unfold WIDTH, HEIGHT; lia.
  - intros gx gy gz Hin.
    destruct (Draw_dispatch_groups L THREADS env st st' calls gx gy gz HDraw Hin)
      as (-> & -> & ->).
    repeat split; try apply ceil_quot; unfold WIDTH, HEIGHT; lia.
Qed.

Lemma C8_witness :
  exists st' calls,
    Draw libm_taylor1 8 (env_ok 960 720) initial_state = Some (st', calls) /\
    (exists gx gy,
       dispatch_groups calls = Some (gx, gy, 1) /\
       covers_exactly gx 8 WIDTH /\ covers_exactly gy 8 HEIGHT) /\
    (forall gx gy gz,
       In (DispatchGPUCompute gx gy gz) calls ->
       covers_exactly gx 8 WIDTH /\ covers_exactly gy 8 HEIGHT /\ gz = 1).
Proof.
  destruct (Draw_blit_exact libm_taylor1 8 (env_ok 960 720) initial_state)
    as (st' & calls & HDraw & _);
    [reflexivity | reflexivity | unfold max_dim; simpl; lia
    | unfold max_dim; simpl; lia |].
  exists st', calls. split; [exact HDraw|].
  destruct (C8_dispatch_covers_image libm_taylor1 8 (env_ok 960 720)
              initial_state st' calls) as [H1 H2].
  - lia.
  - unfold WIDTH, INT_MAX. lia.
  - exact HDraw.
  - split; [apply H1; reflexivity | exact H2].
Defined.

(** C10, as worded, fails in its last clause: when the compute pass does not
    begin, the uniform parameters have been recomputed although the frame
    dispatches nothing. *)
Lemma C10_counterexample :
  exists st' calls,
    Draw libm_taylor1 8 (env_no_compute 960 720) initial_state = Some (st', calls) /\
    uniformBuffer st' <> uniformBuffer initial_state /\
    existsb is_dispatch calls = false.
Proof.
  rewrite (Draw_no_compute libm_taylor1 8 (env_no_compute 960 720) initial_state eq_refl).
  eexists. eexists. split; [reflexivity|]. split; [|reflexivity].
  cbn [uniformBuffer]. intros E.
  apply (f_equal Aspect) in E. vm_compute in E. discriminate.
Qed.

(** C10, amended: when a frame is skipped (no command buffer, no swapchain
    texture, or a target of zero area) [Draw] changes no host-side state:
    yaw, pitch, distance and every field of the uniform parameters are as
    they were, and nothing is dispatched or blitted.  [Draw] never changes
    yaw, pitch or distance, and it recomputes the uniform parameters only in
    frames that pass these three tests. *)
Theorem C10_skipped_frame_keeps_state
    (L : Libm) (THREADS : Z) (env : FrameEnv) (st : AppState) :
  cmdbuf_acquired env = false \/ swapchain_ok env = false \/ zero_area env = true ->
  (exists calls,
     Draw L THREADS env st = Some (st, calls) /\
     existsb is_dispatch calls = false /\ existsb is_blit calls = false) /\
  (forall env0 st' calls,
     Draw L THREADS env0 st = Some (st', calls) ->
     pitch st' = pitch st /\ yaw st' = yaw st /\ distance st' = distance st /\
     (uniformBuffer st' <> uniformBuffer st -> skipped env0 = false)).
Proof.
  intros Hk. split.
  - apply Draw_skipped. unfold skipped.
    destruct Hk as [H|[H|H]]; rewrite H; cbn; rewrite ?orb_true_r; reflexivity.
  - intros env0 st' calls HDraw.
    destruct (Draw_camera_unchanged L THREADS env0 st st' calls HDraw) as (Hp & Hy & Hd).
    repeat split; auto.
    intros Hne. destruct (skipped env0) eqn:Hs; [|reflexivity].
    destruct (Draw_skipped L THREADS env0 st Hs) as (calls0 & HDraw0 & _).
    rewrite HDraw in HDraw0. injection HDraw0 as -> _. now elim Hne.
Qed.

Lemma C10_witness :
  (exists calls,
     Draw libm_taylor1 8 env_no_target initial_state = Some (initial_state, calls) /\
     existsb is_dispatch calls = false /\ existsb is_blit calls = false) /\
  (forall env0 st' calls,
     Draw libm_taylor1 8 env0 initial_state = Some (st', calls) ->
     pitch st' = pitch initial_state /\ yaw st' = yaw initial_state /\
     distance st' = distance initial_state /\
     (uniformBuffer st' <> uniformBuffer initial_state -> skipped env0 = false)).
Proof.
  apply (C10_skipped_frame_keeps_state libm_taylor1 8 env_no_target initial_state).
  right. left. reflexivity.
Defined.

(** The two targets of section 8. *)
Lemma Draw_1920_1080 L THREADS st :
  exists st' calls r,
    Draw L THREADS (env_ok 1920 1080) st = Some (st', calls) /\
    blit_destination calls = Some r /\
    r = {| rect_x := 240; rect_y := 0; rect_w := 1440; rect_h := 1080 |}.
Proof.
  rewrite (Draw_complete L THREADS (env_ok 1920 1080) st eq_refl eq_refl).
  change (letterbox (swapchain_width (env_ok 1920 1080))
                    (swapchain_height (env_ok 1920 1080)))
    with (letterbox 1920 1080).
  replace (letterbox 1920 1080)
    with (Some {| rect_x := 240; rect_y := 0; rect_w := 1440; rect_h := 1080 |})
    by (vm_compute; reflexivity).
  cbn [obind]. eexists. eexists. eexists.
  split; [reflexivity|]. split; reflexivity.
Qed.

Lemma Draw_800_1000 L THREADS st :
  exists st' calls r,
    Draw L THREADS (env_ok 800 1000) st = Some (st', calls) /\
    blit_destination calls = Some r /\
    r = {| rect_x := 0; rect_y := 200; rect_w := 800; rect_h := 600 |}.
Proof.
  rewrite (Draw_complete L THREADS (env_ok 800 1000) st eq_refl eq_refl).
  change (letterbox (swapchain_width (env_ok 800 1000))
                    (swapchain_height (env_ok 800 1000)))
    with (letterbox 800 1000).
  replace (letterbox 800 1000)
    with (Some {| rect_x := 0; rect_y := 200; rect_w := 800; rect_h := 600 |})
    by (vm_compute; reflexivity).
  cbn [obind]. eexists. eexists. eexists.
  split; [reflexivity|]. split; reflexivity.
Qed.

(** C7: with the 960 by 720 image, a target of 1920 by 1080 is blitted to
    the rectangle (240, 0, 1440, 1080), full height and centred with bars on
    the left and right, and a target of 800 by 1000 to (0, 200, 800, 600),
    full width and centred with bars on the top and bottom. *)
Theorem C7_letterbox_examples (L : Libm) (THREADS : Z) (st : AppState) :
  (exists st' calls r,
     Draw L THREADS (env_ok 1920 1080) st = Some (st', calls) /\
     blit_destination calls = Some r /\
     r = {| rect_x := 240; rect_y := 0; rect_w := 1440; rect_h := 1080 |} /\
     bars_left_right r 1920 1080) /\
  (exists st' calls r,
     Draw L THREADS (env_ok 800 1000) st = Some (st', calls) /\
     blit_destination calls = Some r /\
     r = {| rect_x := 0; rect_y := 200; rect_w := 800; rect_h := 600 |} /\
     bars_top_bottom r 800 1000).
Proof.
  split.
  - destruct (Draw_1920_1080 L THREADS st) as (st' & calls & r & HDraw & Hb & ->).
    exists st', calls. eexists. repeat (split; [eassumption || reflexivity|]).
    unfold bars_left_right; cbn [rect_x rect_y rect_w rect_h]. lia.
  - destruct (Draw_800_1000 L THREADS st) as (st' & calls & r & HDraw & Hb & ->).
    exists st', calls. eexists. repeat (split; [eassumption || reflexivity|]).
    unfold bars_top_bottom; cbn [rect_x rect_y rect_w rect_h]. lia.
Qed.

(** ** Properties of the letterbox *)

(** C1, as worded, fails: on a 1920 by 1080 target the target's aspect
    exceeds the image's, yet the blit does not span the target's width; it
    spans its height, with bars on the left and right.  The wording of
    section 4.4 has the two cases exchanged. *)
Lemma C1_counterexample :
  WIDTH * 1080 < HEIGHT * 1920 /\
  exists st' calls r,
    Draw libm_taylor1 8 (env_ok 1920 1080) initial_state = Some (st', calls) /\
    blit_destination calls = Some r /\
    rect_w r <> 1920 /\ rect_x r <> 0 /\
    r <> letterbox_as_worded 1920 1080.
Proof.
  split; [unfold WIDTH, HEIGHT; lia|].
  destruct (Draw_1920_1080 libm_taylor1 8 initial_state)
    as (st' & calls & r & HDraw & Hb & ->).
  exists st', calls. eexists. split; [exact HDraw|]. split; [exact Hb|].
  cbn [rect_w rect_x]. repeat split; try lia.
  vm_compute. discriminate.
Qed.

(** C1, amended: for every acquired target with nonzero width and height
    the blit letterboxes the output image, keeping its aspect ratio.  If the
    image's aspect exceeds the target's ([WIDTH / HEIGHT > width / height]) the
    image spans the target's width and is centred vertically, bars above and
    below; otherwise it spans the target's height and is centred horizontally,
    bars left and right.  The scaled side is the floor of the exact
    proportion and the two bars differ by at most one pixel.  This is shown
    for sides up to [max_dim] = 1491315, the range in which the binary32
    arithmetic of the block yields the exact proportion: one side further
    the scaled side is a pixel short ([letterbox_exact_limit]). *)
Theorem C1_composite_letterboxes
    (L : Libm) (THREADS : Z) (env : FrameEnv) (st : AppState) :
  skipped env = false -> compute_pass_begun env = true ->
  1 <= swapchain_width env <= max_dim ->
  1 <= swapchain_height env <= max_dim ->
  exists st' calls r,
    Draw L THREADS env st = Some (st', calls) /\
    blit_destination calls = Some r /\
    r = letterbox_exact (swapchain_width env) (swapchain_height env) /\
    (HEIGHT * swapchain_width env < WIDTH * swapchain_height env ->
       rect_x r = 0 /\ rect_w r = swapchain_width env /\
       WIDTH * rect_h r <= HEIGHT * rect_w r < WIDTH * (rect_h r + 1) /\
       2 * rect_y r <= swapchain_height env - rect_h r <= 2 * rect_y r + 1) /\
    (WIDTH * swapchain_height env <= HEIGHT * swapchain_width env ->
       rect_y r = 0 /\ rect_h r = swapchain_height env /\
       HEIGHT * rect_w r <= WIDTH * rect_h r < HEIGHT * (rect_w r + 1) /\
       2 * rect_x r <= swapchain_width env - rect_w r <= 2 * rect_x r + 1).
Proof.
  intros Hk Hp Hw Hh.
  destruct (Draw_blit_exact L THREADS env st Hk Hp Hw Hh) as (st' & calls & HDraw & Hb).
  exists st', calls, (letterbox_exact (swapchain_width env) (swapchain_height env)).
  split; [exact HDraw|]. split; [exact Hb|]. split; [reflexivity|].
  set (w := swapchain_width env) in *. set (h := swapchain_height env) in *.
  unfold letterbox_exact, WIDTH, HEIGHT.
  destruct (Z.ltb_spec (720 * w) (960 * h)) as [Hlt|Hge];
    cbn [rect_x rect_y rect_w rect_h]; split; intros Hc; try lia.
  - pose proof (Z.div_mod (720 * w) 960 ltac:(lia)) as H1.
    pose proof (Z.mod_pos_bound (720 * w) 960 ltac:(lia)) as H2.
    pose proof (Z.div_mod (h - 720 * w / 960) 2 ltac:(lia)) as H3.
    pose proof (Z.mod_pos_bound (h - 720 * w / 960) 2 ltac:(lia)) as H4.
    lia.
  - pose proof (Z.div_mod (960 * h) 720 ltac:(lia)) as H1.
    pose proof (Z.mod_pos_bound (960 * h) 720 ltac:(lia)) as H2.
    pose proof (Z.div_mod (w - 960 * h / 720) 2 ltac:(lia)) as H3.
    pose proof (Z.mod_pos_bound (w - 960 * h / 720) 2 ltac:(lia)) as H4.
    lia.
Qed.

Lemma C1_witness :
  exists st' calls r,
    Draw libm_taylor1 8 (env_ok 800 1000) initial_state = Some (st', calls) /\
    blit_destination calls = Some r /\
    r = letterbox_exact 800 1000 /\
    (HEIGHT * 800 < WIDTH * 1000 ->
       rect_x r = 0 /\ rect_w r = 800 /\
       WIDTH * rect_h r <= HEIGHT * rect_w r < WIDTH * (rect_h r + 1) /\
       2 * rect_y r <= 1000 - rect_h r <= 2 * rect_y r + 1) /\
    (WIDTH * 1000 <= HEIGHT * 800 ->
       rect_y r = 0 /\ rect_h r = 1000 /\
       HEIGHT * rect_w r <= WIDTH * rect_h r < HEIGHT * (rect_w r + 1) /\
       2 * rect_x r <= 800 - rect_w r <= 2 * rect_x r + 1).
Proof.
  apply (C1_composite_letterboxes libm_taylor1 8 (env_ok 800 1000) initial_state).
  - reflexivity.
  - reflexivity.
  - unfold max_dim. simpl. lia.
  - unfold max_dim. simpl. lia.
Defined.

(** A complete frame on a target with sides below 2^23: it is defined, and
    its blit goes to a rectangle inside the target. *)
Lemma Draw_blit_inside L THREADS env st :
  skipped env = false -> compute_pass_begun env = true ->
  1 <= swapchain_width env < 2 ^ 23 -> 1 <= swapchain_height env < 2 ^ 23 ->
  exists st' calls r,
    Draw L THREADS env st = Some (st', calls) /\
    blit_destination calls = Some r /\
    inside r (swapchain_width env) (swapchain_height env).
Proof.
  intros Hk Hp Hw Hh. rewrite (Draw_complete L THREADS env st Hk Hp).
  destruct (letterbox_inside _ _ Hw Hh) as (r & -> & Hin). cbn [obind].
  eexists. eexists. exists r. split; [reflexivity|]. split; [reflexivity|].
  exact Hin.
Qed.

(** C9: for every target with nonzero width and height, each below
    2^23 = 8388608, the letterbox rectangle lies within the target: both
    offsets are nonnegative, [x + w <= width] and [y + h <= height].  Below
    2^23 the rounding of the scaled side stays under one pixel, so the
    truncated side never passes the target's. *)
Theorem C9_letterbox_inside_target
    (L : Libm) (THREADS : Z) (env : FrameEnv) (st : AppState) :
  skipped env = false -> compute_pass_begun env = true ->
  1 <= swapchain_width env < 2 ^ 23 ->
  1 <= swapchain_height env < 2 ^ 23 ->
  exists st' calls r,
    Draw L THREADS env st = Some (st', calls) /\
    blit_destination calls = Some r /\
    0 <= rect_x r /\ 0 <= rect_y r /\
    rect_x r + rect_w r <= swapchain_width env /\
    rect_y r + rect_h r <= swapchain_height env.
Proof.
  intros Hk Hp Hw Hh.
  destruct (Draw_blit_inside L THREADS env st Hk Hp Hw Hh)
    as (st' & calls & r & HDraw & Hb & Hin).
  exists st', calls, r. split; [exact HDraw|]. split; [exact Hb|]. exact Hin.
Qed.

Lemma C9_witness :
  exists st' calls r,
    Draw libm_taylor1 8 (env_ok 1920 1080) initial_state = Some (st', calls) /\
    blit_destination calls = Some r /\
    0 <= rect_x r /\ 0 <= rect_y r /\
    rect_x r + rect_w r <= 1920 /\
    rect_y r + rect_h r <= 1080.
Proof.
  apply (C9_letterbox_inside_target libm_taylor1 8 (env_ok 1920 1080) initial_state).
  - reflexivity.
  - reflexivity.
  - simpl. lia.
  - simpl. lia.
Defined.

(** ** Properties of the orbit camera and of the camera basis *)

(** C2, as worded, fails: one drag of 1000 pixels downwards from the initial
    state asks for a pitch of 2.0, and [std::clamp] returns the upper bound
    itself, so the pitch equals the boundary of the band exactly. *)
Lemma C2_counterexample :
  pitch (fst (pump [MouseMotion SDL_BUTTON_LMASK F32.zero (F32.of_int 1000)]
                   (initial_state, true))) = kClamp /\
  strictly_in_band
    (pitch (fst (pump [MouseMotion SDL_BUTTON_LMASK F32.zero (F32.of_int 1000)]
                      (initial_state, true)))) = false.
Proof. vm_compute. split; reflexivity. Qed.

(** C2, amended: for every sequence of events whose drag deltas are numbers
    (not NaN), applied to a camera whose pitch is in the clamp band, the
    resulting pitch stays within the closed band [[-kClamp, kClamp]] (it can
    equal a bound exactly) and therefore strictly between the poles
    [-glm::pi<float>() / 2] and [glm::pi<float>() / 2]. *)
Theorem C2_pitch_stays_in_closed_band
    (evs : list Event) (st : AppState) (running : bool) :
  forallb motion_is_number evs = true ->
  in_band (pitch st) = true ->
  in_band (pitch (fst (pump evs (st, running)))) = true /\
  between_poles (pitch (fst (pump evs (st, running)))) = true.
Proof.
  intros Hn Hp.
  pose proof (pump_in_band evs st running Hn Hp) as Hb.
  split; [exact Hb | now apply in_band_between_poles].
Qed.

Lemma C2_witness :
  in_band (pitch (fst (pump [MouseMotion SDL_BUTTON_LMASK (F32.of_int 100) (F32.of_int 1000);
                             MouseMotion SDL_BUTTON_LMASK F32.zero (F32.of_int (-3))]
                            (initial_state, true)))) = true /\
  between_poles (pitch (fst (pump [MouseMotion SDL_BUTTON_LMASK (F32.of_int 100) (F32.of_int 1000);
                                   MouseMotion SDL_BUTTON_LMASK F32.zero (F32.of_int (-3))]
                                  (initial_state, true)))) = true.
Proof.
  apply (C2_pitch_stays_in_closed_band
           [MouseMotion SDL_BUTTON_LMASK (F32.of_int 100) (F32.of_int 1000);
            MouseMotion SDL_BUTTON_LMASK F32.zero (F32.of_int (-3))]
           initial_state true).
  - reflexivity.
  - vm_compute. reflexivity.
Defined.

(** C4: a wheel event replaces the distance by
    [max(1, distance - scroll_delta * kZoom)].  After any single wheel
    event the distance is at least 1; any sequence of events keeps it at
    least 1; a delta that would take it below 1 leaves exactly 1, whatever
    its size, and so does any further run of such deltas. *)
Theorem C4_wheel_floors_distance :
  (forall st running y,
     let target := F32.sub (distance st) (F32.mul y kZoom) in
     let st' := fst (handle_event (MouseWheel y) (st, running)) in
     distance st' = std_max F32.one target /\
     (F32.ltb F32.one target = true -> distance st' = target) /\
     (F32.ltb target F32.one = true -> distance st' = F32.one) /\
     F32.leb F32.one (distance st') = true) /\
  (forall evs st running,
     F32.leb F32.one (distance st) = true ->
     F32.leb F32.one (distance (fst (pump evs (st, running)))) = true) /\
  (forall evs,
     F32.leb F32.one (distance (fst (pump evs (initial_state, true)))) = true) /\
  (forall y ys st running,
     F32.ltb (F32.sub (distance st) (F32.mul y kZoom)) F32.one = true ->
     Forall (fun y' =>
               F32.ltb (F32.sub F32.one (F32.mul y' kZoom)) F32.one = true) ys ->
     distance (fst (pump (map MouseWheel (y :: ys)) (st, running))) = F32.one).
Proof.
  split; [|split; [|split]].
  - intros st running y target st'. subst st'. cbn [handle_event fst distance].
    fold target. split; [reflexivity|]. split; [|split].
    + unfold std_max. now intros ->.
    + intros Hlt. apply std_max_at_floor, ltb_asym, Hlt.
    + apply std_max_floor.
  - intros evs st running. apply pump_floor.
  - intros evs. apply pump_floor. vm_compute. reflexivity.
  - intros y ys st running Hy Hys.
    unfold pump. cbn [map fold_left handle_event].
    apply pump_wheel_at_floor.
    + cbn [distance]. apply std_max_at_floor, ltb_asym, Hy.
    + eapply Forall_impl; [|exact Hys].
      intros y' Hy'. apply ltb_asym, Hy'.
Qed.

(** C3, as worded, fails: at the first frame (pitch and yaw zero) forward is
    (1, 0, 0), right is (0, 0, 1) and up is (0, 1, 0), so forward x right
    is minus up.  The triple in the order of the claim is left-handed. *)
Lemma C3_counterexample :
  let U := UpdateUniforms (H := Scalar_f32 libm_taylor7)
             (pitch initial_state) (yaw initial_state)
             (distance initial_state) (uniformBuffer initial_state) in
  in_band (pitch initial_state) = true /\
  libm_accurate libm_taylor7 (pitch initial_state) /\
  libm_accurate libm_taylor7 (yaw initial_state) /\
  CameraForward U = mkvec3 F32.one F32.zero F32.zero /\
  CameraRight U = mkvec3 F32.zero F32.zero F32.one /\
  CameraUp U = mkvec3 F32.zero F32.one F32.zero /\
  rtriple (CameraForward U) (CameraRight U) (CameraUp U) = (-1)%R /\
  ~ right_handed_within (8 * basis_tolerance)
      (CameraForward U) (CameraRight U) (CameraUp U).
Proof.
  cbv zeta.
  assert (Hf : CameraForward (UpdateUniforms (H := Scalar_f32 libm_taylor7)
                 (pitch initial_state) (yaw initial_state)
                 (distance initial_state) (uniformBuffer initial_state))
               = mkvec3 F32.one F32.zero F32.zero) by (vm_compute; reflexivity).
  assert (Hr : CameraRight (UpdateUniforms (H := Scalar_f32 libm_taylor7)
                 (pitch initial_state) (yaw initial_state)
                 (distance initial_state) (uniformBuffer initial_state))
               = mkvec3 F32.zero F32.zero F32.one) by (vm_compute; reflexivity).
  assert (Hu : CameraUp (UpdateUniforms (H := Scalar_f32 libm_taylor7)
                 (pitch initial_state) (yaw initial_state)
                 (distance initial_state) (uniformBuffer initial_state))
               = mkvec3 F32.zero F32.one F32.zero) by (vm_compute; reflexivity).
  rewrite Hf, Hr, Hu.
  assert (Ht : rtriple (mkvec3 F32.one F32.zero F32.zero)
                       (mkvec3 F32.zero F32.zero F32.one)
                       (mkvec3 F32.zero F32.one F32.zero) = (-1)%R).
  { unfold rtriple. cbn [vx vy vz].
    change F32.one with (F32.of_int 1). change F32.zero with (F32.of_int 0).
    rewrite to_R_one, to_R_zero_int. ring. }
  split; [reflexivity|].
  split; [exact taylor7_accurate_zero|]. split; [exact taylor7_accurate_zero|].
  split; [reflexivity|]. split; [reflexivity|]. split; [reflexivity|].
  split; [exact Ht|].
  unfold right_handed_within. rewrite Ht, basis_tolerance_val.
  replace (-1 - 1)%R with (-2)%R by ring.
  rewrite Rabs_left by lra. lra.
Qed.

(** C3, amended: for every pitch within the clamp band and every yaw, given a
    libm whose cosine and sine are within 2^-20 of the exact ones at the two
    angles, the uniform block at binary32 produces
    forward = normalize(cos(pitch)cos(yaw), sin(pitch), cos(pitch)sin(yaw)),
    right = normalize(forward x world-up) and up = normalize(right x forward);
    the three are finite, their squared lengths are within 2^-17 of one and
    their pairwise dot products within 2^-17 of zero, and the triple
    (forward, right, up) is left-handed: (forward x right) . up is within
    2^-14 of minus one.  Equivalently (right, forward, up) is right-handed. *)
Theorem C3_camera_basis_is_orthonormal
    (L : Libm) (pitch yaw distance : f32) (ub : UniformBuffer f32) :
  good pitch -> in_band pitch = true ->
  libm_accurate L pitch -> libm_accurate L yaw ->
  let U := UpdateUniforms (H := Scalar_f32 L) pitch yaw distance ub in
  let f := CameraForward U in
  let r := CameraRight U in
  let u := CameraUp U in
  f = normalize (H := Scalar_f32 L) (forward_raw L pitch yaw) /\
  r = normalize (H := Scalar_f32 L) (cross (H := Scalar_f32 L) f world_up) /\
  u = normalize (H := Scalar_f32 L) (cross (H := Scalar_f32 L) r f) /\
  vec_good f /\ vec_good r /\ vec_good u /\
  orthonormal_within basis_tolerance f r u /\
  left_handed_within (8 * basis_tolerance) f r u.
Proof.
  intros Hp Hb HLp HLy U f r u.
  split; [reflexivity|]. split; [reflexivity|]. split; [reflexivity|].
  destruct (camera_basis_err L pitch yaw Hp Hb HLp HLy)
    as (Gf & Gr & Gu & Ho & Hl & _).
  split; [exact Gf|]. split; [exact Gr|]. split; [exact Gu|].
  split; [exact Ho|exact Hl].
Qed.

Lemma C3_witness :
  let U := UpdateUniforms (H := Scalar_f32 libm_taylor7)
             (F32.lit 1 2) (F32.lit 1 4)
             (distance initial_state) (uniformBuffer initial_state) in
  orthonormal_within basis_tolerance
    (CameraForward U) (CameraRight U) (CameraUp U) /\
  left_handed_within (8 * basis_tolerance)
    (CameraForward U) (CameraRight U) (CameraUp U).
Proof.
  pose proof (C3_camera_basis_is_orthonormal libm_taylor7
                (F32.lit 1 2) (F32.lit 1 4)
                (distance initial_state) (uniformBuffer initial_state)
                good_half eq_refl
                taylor7_accurate_half taylor7_accurate_quarter) as H.
  cbv zeta in H. cbv zeta.
  exact (proj2 (proj2 (proj2 (proj2 (proj2 (proj2 H)))))).
Defined.
(** ** Further properties of the frame routine *)

(** The five ways a frame ends. *)
Lemma Draw_outcomes L THREADS env st st' calls :
  Draw L THREADS env st = Some (st', calls) ->
  (cmdbuf_acquired env = false /\ st' = st /\
   calls = [AcquireGPUCommandBuffer;
            LogMessage "Failed to acquire command buffer: %s"]) \/
  (target_failure env = true /\ st' = st /\
   calls = [AcquireGPUCommandBuffer; WaitAndAcquireGPUSwapchainTexture;
            LogMessage "Failed to acquire swapchain texture: %s";
            CancelGPUCommandBuffer]) \/
  (cmdbuf_acquired env = true /\ swapchain_ok env = true /\
   zero_area env = true /\ st' = st /\
   calls = [AcquireGPUCommandBuffer; WaitAndAcquireGPUSwapchainTexture;
            SubmitGPUCommandBuffer]) \/
  (compute_failure env = true /\
   uniformBuffer st' = UpdateUniforms (H := Scalar_f32 L) (pitch st) (yaw st)
                                      (distance st) (uniformBuffer st) /\
   calls = [AcquireGPUCommandBuffer; WaitAndAcquireGPUSwapchainTexture;
            BeginGPUComputePass;
            LogMessage "Failed to begin compute pass: %s";
            SubmitGPUCommandBuffer]) \/
  (skipped env = false /\ compute_pass_begun env = true /\
   uniformBuffer st' = UpdateUniforms (H := Scalar_f32 L) (pitch st) (yaw st)
                                      (distance st) (uniformBuffer st) /\
   exists rect,
     letterbox (swapchain_width env) (swapchain_height env) = Some rect /\
     calls = [AcquireGPUCommandBuffer; WaitAndAcquireGPUSwapchainTexture;
              BeginGPUComputePass;
              BindGPUComputePipeline;
              PushGPUComputeUniformData (uniformBuffer st');
              BindGPUComputeStorageBuffers;
              DispatchGPUCompute (groupsX THREADS) (groupsY THREADS) 1;
              EndGPUComputePass;
              BlitGPUTexture
                {| load_op := LOADOP_CLEAR; clear_color := clearColor;
                   source_w := WIDTH; source_h := HEIGHT;
                   destination := rect; filter := FILTER_NEAREST |};
              SubmitGPUCommandBuffer]).
Proof.
  intros HDraw.
  destruct (cmdbuf_acquired env) eqn:Hc.
  2:{ rewrite (Draw_no_cmdbuf L THREADS env st Hc) in HDraw.
      injection HDraw as <- <-. left. auto. }
  destruct (swapchain_ok env) eqn:Hs.
  2:{ assert (Ht : target_failure env = true)
        by (unfold target_failure; now rewrite Hc, Hs).
      rewrite (Draw_no_target L THREADS env st Ht) in HDraw.
      injection HDraw as <- <-. right. left. auto. }
  destruct (zero_area env) eqn:Hz.
  { rewrite (Draw_zero_area L THREADS env st Hc Hs Hz) in HDraw.
    injection HDraw as <- <-. right. right. left. auto 6. }
  assert (Hk : skipped env = false) by (unfold skipped; now rewrite Hc, Hs, Hz).
  destruct (compute_pass_begun env) eqn:Hp.
  - rewrite (Draw_complete L THREADS env st Hk Hp) in HDraw.
    destruct (letterbox _ _) as [rect|]; cbn [obind] in HDraw; [|discriminate].
    injection HDraw as <- <-. do 4 right.
    split; [exact Hk|]. split; [reflexivity|]. split; [reflexivity|].
    exists rect. split; reflexivity.
  - assert (Hf : compute_failure env = true)
      by (unfold compute_failure; now rewrite Hk, Hp).
    rewrite (Draw_no_compute L THREADS env st Hf) in HDraw.
    injection HDraw as <- <-. do 3 right. left. auto.
Qed.

Lemma target_failure_cmdbuf env :
  target_failure env = true -> cmdbuf_acquired env = true.
Proof. unfold target_failure. intros H. now apply andb_true_iff in H. Qed.

Lemma compute_failure_facts env :
  compute_failure env = true ->
  cmdbuf_acquired env = true /\ target_failure env = false.
Proof.
  unfold compute_failure. intros H. apply andb_true_iff in H as [Hk _].
  apply negb_true_iff in Hk. destruct (skipped_false env Hk) as (Hc & Hs & _).
  unfold target_failure. rewrite Hc, Hs. auto.
Qed.

Lemma not_skipped_facts env :
  skipped env = false ->
  cmdbuf_acquired env = true /\ target_failure env = false.
Proof.
  intros Hk. destruct (skipped_false env Hk) as (Hc & Hs & _).
  unfold target_failure. rewrite Hc, Hs. auto.
Qed.

(** X1: every command buffer [Draw] acquires is finished exactly once, by a
    submit or by a cancel, and that is the frame's last call; when none is
    acquired, none is submitted or cancelled.  The buffer is cancelled
    exactly when the swapchain acquisition fails, so never once a swapchain
    texture has been acquired. *)
Theorem X1_command_buffer_finished_once
    (L : Libm) (THREADS : Z) (env : FrameEnv) (st st' : AppState)
    (calls : list GpuCall) :
  Draw L THREADS env st = Some (st', calls) ->
  (count is_submit calls + count is_cancel calls
     = if cmdbuf_acquired env then 1 else 0)%nat /\
  (cmdbuf_acquired env = true ->
     exists before final,
       calls = before ++ [final] /\ (is_submit final || is_cancel final) = true) /\
  existsb is_cancel calls = target_failure env.
Proof.
  intros HDraw.
  destruct (Draw_outcomes L THREADS env st st' calls HDraw)
    as [(Hc & _ & ->) | [(Ht & _ & ->) | [(Hc & Hs & Hz & _ & ->)
       | [(Hf & _ & ->) | (Hk & Hp & _ & rect & _ & ->)]]]].
  - rewrite Hc. unfold target_failure. rewrite Hc.
    repeat split; try reflexivity. discriminate.
  - rewrite (target_failure_cmdbuf env Ht), Ht. repeat split; try reflexivity.
    intros _. eexists [_; _; _], _. split; reflexivity.
  - unfold target_failure. rewrite Hc, Hs. repeat split; try reflexivity.
    intros _. eexists [_; _], _. split; reflexivity.
  - destruct (compute_failure_facts env Hf) as [Hc ->]. rewrite Hc.
    repeat split; try reflexivity.
    intros _. eexists [_; _; _; _], _. split; reflexivity.
  - destruct (not_skipped_facts env Hk) as [Hc ->]. rewrite Hc.
    repeat split; try reflexivity.
    intros _. eexists [_; _; _; _; _; _; _; _; _], _. split; reflexivity.
Qed.

Lemma X1_witness :
  (count is_submit
     [AcquireGPUCommandBuffer; WaitAndAcquireGPUSwapchainTexture;
      LogMessage "Failed to acquire swapchain texture: %s";
      CancelGPUCommandBuffer]
   + count is_cancel
       [AcquireGPUCommandBuffer; WaitAndAcquireGPUSwapchainTexture;
        LogMessage "Failed to acquire swapchain texture: %s";
        CancelGPUCommandBuffer]
   = if cmdbuf_acquired env_no_target then 1 else 0)%nat /\
  (cmdbuf_acquired env_no_target = true ->
     exists before final,
       [AcquireGPUCommandBuffer; WaitAndAcquireGPUSwapchainTexture;
        LogMessage "Failed to acquire swapchain texture: %s";
        CancelGPUCommandBuffer] = before ++ [final] /\
       (is_submit final || is_cancel final) = true) /\
  existsb is_cancel
    [AcquireGPUCommandBuffer; WaitAndAcquireGPUSwapchainTexture;
     LogMessage "Failed to acquire swapchain texture: %s";
     CancelGPUCommandBuffer] = target_failure env_no_target.
Proof.
  apply (X1_command_buffer_finished_once libm_taylor1 8 env_no_target
           initial_state initial_state).
  reflexivity.
Defined.

(** X2: a frame draws all or nothing.  The calls that record or finish GPU
    work are either none, or a lone cancel or submit, or a compute pass that
    was asked for and a submit, or the whole sequence begin pass, dispatch,
    end pass, blit, submit in this order; so a dispatch is never issued
    without its blit, nor a blit without its dispatch, and the dispatch lies
    inside the compute pass and before the blit. *)
Theorem X2_frame_draws_all_or_nothing
    (L : Libm) (THREADS : Z) (env : FrameEnv) (st st' : AppState)
    (calls : list GpuCall) :
  Draw L THREADS env st = Some (st', calls) ->
  existsb is_dispatch calls = existsb is_blit calls /\
  (existsb is_dispatch calls = true <->
     skipped env = false /\ compute_pass_begun env = true) /\
  (List.filter is_stage calls = []
   \/ List.filter is_stage calls = [CancelGPUCommandBuffer]
   \/ List.filter is_stage calls = [SubmitGPUCommandBuffer]
   \/ List.filter is_stage calls = [BeginGPUComputePass; SubmitGPUCommandBuffer]
   \/ exists info,
        List.filter is_stage calls =
          [BeginGPUComputePass;
           DispatchGPUCompute (groupsX THREADS) (groupsY THREADS) 1;
           EndGPUComputePass; BlitGPUTexture info; SubmitGPUCommandBuffer]).
Proof.
  intros HDraw.
  destruct (Draw_outcomes L THREADS env st st' calls HDraw)
    as [(Hc & _ & ->) | [(Ht & _ & ->) | [(Hc & Hs & Hz & _ & ->)
       | [(Hf & _ & ->) | (Hk & Hp & _ & rect & _ & ->)]]]].
  - split; [reflexivity|]. split; [|left; reflexivity].
    split; [discriminate|]. intros [Hk _].
    destruct (skipped_false env Hk) as (Hc' & _). congruence.
  - split; [reflexivity|]. split; [|right; left; reflexivity].
    split; [discriminate|]. intros [Hk _].
    destruct (not_skipped_facts env Hk) as [_ Ht']. congruence.
  - split; [reflexivity|]. split; [|right; right; left; reflexivity].
    split; [discriminate|]. intros [Hk _].
    unfold skipped in Hk. rewrite Hz, orb_true_r in Hk. discriminate.
  - split; [reflexivity|]. split; [|right; right; right; left; reflexivity].
    split; [discriminate|]. intros [_ Hp].
    unfold compute_failure in Hf. rewrite Hp, andb_false_r in Hf. discriminate.
  - split; [reflexivity|]. split; [split; auto|].
    do 4 right. eexists. reflexivity.
Qed.

Lemma X2_witness :
  exists st' calls,
    Draw libm_taylor1 8 (env_ok 960 720) initial_state = Some (st', calls) /\
    existsb is_dispatch calls = existsb is_blit calls /\
    (existsb is_dispatch calls = true <->
       skipped (env_ok 960 720) = false /\
       compute_pass_begun (env_ok 960 720) = true) /\
    (List.filter is_stage calls = []
     \/ List.filter is_stage calls = [CancelGPUCommandBuffer]
     \/ List.filter is_stage calls = [SubmitGPUCommandBuffer]
     \/ List.filter is_stage calls = [BeginGPUComputePass; SubmitGPUCommandBuffer]
     \/ exists info,
          List.filter is_stage calls =
            [BeginGPUComputePass; DispatchGPUCompute (groupsX 8) (groupsY 8) 1;
             EndGPUComputePass; BlitGPUTexture info; SubmitGPUCommandBuffer]).
Proof.
  destruct (Draw_blit_exact libm_taylor1 8 (env_ok 960 720) initial_state)
    as (st' & calls & HDraw & _);
    [reflexivity | reflexivity | unfold max_dim; simpl; lia
    | unfold max_dim; simpl; lia |].
  exists st', calls. split; [exact HDraw|].
  apply (X2_frame_draws_all_or_nothing libm_taylor1 8 (env_ok 960 720)
           initial_state st' calls HDraw).
Defined.

(** X3: [Draw] logs exactly when an acquisition fails (command buffer,
    swapchain texture or compute pass), and then exactly one message; a
    zero-area frame and a complete frame log nothing. *)
Theorem X3_one_message_per_failed_frame
    (L : Libm) (THREADS : Z) (env : FrameEnv) (st st' : AppState)
    (calls : list GpuCall) :
  Draw L THREADS env st = Some (st', calls) ->
  count is_log calls = (if frame_failed env then 1 else 0)%nat.
Proof.
  intros HDraw. unfold frame_failed.
  destruct (Draw_outcomes L THREADS env st st' calls HDraw)
    as [(Hc & _ & ->) | [(Ht & _ & ->) | [(Hc & Hs & Hz & _ & ->)
       | [(Hf & _ & ->) | (Hk & Hp & _ & rect & _ & ->)]]]].
  - rewrite Hc. reflexivity.
  - rewrite Ht, orb_true_r. reflexivity.
  - unfold target_failure, compute_failure, skipped.
    rewrite Hc, Hs, Hz. reflexivity.
  - rewrite Hf, orb_true_r. reflexivity.
  - destruct (not_skipped_facts env Hk) as [-> ->].
    unfold compute_failure. rewrite Hk, Hp. reflexivity.
Qed.

Lemma X3_witness :
  count is_log
    [AcquireGPUCommandBuffer; WaitAndAcquireGPUSwapchainTexture;
     SubmitGPUCommandBuffer]
  = (if frame_failed env_minimised then 1 else 0)%nat.
Proof.
  apply (X3_one_message_per_failed_frame libm_taylor1 8 env_minimised
           initial_state initial_state).
  reflexivity.
Defined.

Lemma count_app {A : Type} (p : A -> bool) (l1 l2 : list A) :
  count p (l1 ++ l2) = (count p l1 + count p l2)%nat.
Proof. unfold count. now rewrite List.filter_app, List.length_app. Qed.

(** The uniform block reads the camera and nothing of the previous block but
    the three fields it leaves alone. *)
Lemma UpdateUniforms_idempotent L p y d ub :
  UpdateUniforms (H := Scalar_f32 L) p y d
    (UpdateUniforms (H := Scalar_f32 L) p y d ub)
  = UpdateUniforms (H := Scalar_f32 L) p y d ub.
Proof. reflexivity. Qed.

(** X4: the frame parameters are a function of the camera alone.  Drawing
    again from the state a frame leaves, with the device answering as
    before, leaves the same state and makes the same calls; the uniform data
    pushed is the block the frame leaves in [uniformBuffer]; and its aspect
    is that of the 960 by 720 image, whatever the size of the target. *)
Theorem X4_frame_parameters_follow_camera_only
    (L : Libm) (THREADS : Z) (env : FrameEnv) (st st' : AppState)
    (calls : list GpuCall) :
  Draw L THREADS env st = Some (st', calls) ->
  Draw L THREADS env st' = Some (st', calls) /\
  (forall ub, pushed_uniforms calls = Some ub ->
     ub = uniformBuffer st' /\
     Aspect ub = S754_finite false 11184811 (-23)).
Proof.
  intros HDraw.
  destruct (Draw_camera_unchanged L THREADS env st st' calls HDraw) as (Hp & Hy & Hd).
  destruct (Draw_outcomes L THREADS env st st' calls HDraw)
    as [(Hc & -> & ->) | [(Ht & -> & ->) | [(Hc & Hs & Hz & -> & ->)
       | [(Hf & Hub & ->) | (Hk & Hpass & Hub & rect & Hrect & ->)]]]].
  - split; [exact HDraw | discriminate].
  - split; [exact HDraw | discriminate].
  - split; [exact HDraw | discriminate].
  - split; [|discriminate].
    rewrite (Draw_no_compute L THREADS env st' Hf).
    rewrite Hp, Hy, Hd, Hub, UpdateUniforms_idempotent.
    destruct st' as [p' y' d' ub']. cbn in *. now subst.
  - split.
    + rewrite (Draw_complete L THREADS env st' Hk Hpass), Hrect. cbn [obind].
      rewrite Hp, Hy, Hd, Hub, UpdateUniforms_idempotent.
      destruct st' as [p' y' d' ub']. cbn in *. now subst.
    + intros ub Hpush. cbn [pushed_uniforms] in Hpush. injection Hpush as <-.
      split; [reflexivity|]. rewrite Hub. cbn [Aspect UpdateUniforms].
      apply image_aspect_value.
Qed.

Lemma X4_witness :
  exists st' calls,
    Draw libm_taylor1 8 (env_ok 800 1000) initial_state = Some (st', calls) /\
    Draw libm_taylor1 8 (env_ok 800 1000) st' = Some (st', calls) /\
    (forall ub, pushed_uniforms calls = Some ub ->
       ub = uniformBuffer st' /\
       Aspect ub = S754_finite false 11184811 (-23)).
Proof.
  destruct (Draw_blit_exact libm_taylor1 8 (env_ok 800 1000) initial_state)
    as (st' & calls & HDraw & _);
    [reflexivity | reflexivity | unfold max_dim; simpl; lia
    | unfold max_dim; simpl; lia |].
  exists st', calls. split; [exact HDraw|].
  apply (X4_frame_parameters_follow_camera_only libm_taylor1 8 (env_ok 800 1000)
           initial_state st' calls HDraw).
Defined.

(** ** Further properties of the event loop *)

Lemma pump_cons e evs sr : pump (e :: evs) sr = pump evs (handle_event e sr).
Proof. reflexivity. Qed.

Lemma handle_event_uniforms e st running :
  uniformBuffer (fst (handle_event e (st, running))) = uniformBuffer st.
Proof.
  destruct e as [y | state xrel yrel | |]; cbn [handle_event]; try reflexivity.
  destruct (Z.land state SDL_BUTTON_LMASK =? 0); reflexivity.
Qed.

Lemma pump_uniforms evs : forall st running,
  uniformBuffer (fst (pump evs (st, running))) = uniformBuffer st.
Proof.
  induction evs as [|e evs IH]; intros st running; [reflexivity|].
  rewrite pump_cons, handle_event_surj, IH. apply handle_event_uniforms.
Qed.

(** X5: handling events is separated by field.  No event changes the
    uniform parameters; without a wheel event the distance is unchanged;
    without a motion event that has the left button held, pitch and yaw are
    unchanged. *)
Theorem X5_events_change_only_their_fields
    (evs : list Event) (st : AppState) (running : bool) :
  uniformBuffer (fst (pump evs (st, running))) = uniformBuffer st /\
  (existsb is_wheel evs = false ->
     distance (fst (pump evs (st, running))) = distance st) /\
  (existsb is_drag evs = false ->
     pitch (fst (pump evs (st, running))) = pitch st /\
     yaw (fst (pump evs (st, running))) = yaw st).
Proof.
  split; [apply pump_uniforms|]. split.
  - revert st running. induction evs as [|e evs IH]; intros st running Hw;
      [reflexivity|].
    cbn [existsb] in Hw. apply orb_false_iff in Hw as [He Hw].
    rewrite pump_cons, handle_event_surj, (IH _ _ Hw).
    destruct e as [y | state xrel yrel | |]; cbn [handle_event]; try reflexivity.
    + discriminate.
    + destruct (Z.land state SDL_BUTTON_LMASK =? 0); reflexivity.
  - revert st running. induction evs as [|e evs IH]; intros st running Hd;
      [split; reflexivity|].
    cbn [existsb] in Hd. apply orb_false_iff in Hd as [He Hd].
    rewrite pump_cons, handle_event_surj.
    destruct (IH (fst (handle_event e (st, running)))
                 (snd (handle_event e (st, running))) Hd) as [-> ->].
    destruct e as [y | state xrel yrel | |]; cbn [handle_event]; try (split; reflexivity).
    cbn [is_drag] in He. apply negb_false_iff in He. rewrite He. split; reflexivity.
Qed.

Lemma X5_witness :
  uniformBuffer (fst (pump [MouseWheel F32.one; QuitEvent] (initial_state, true)))
    = uniformBuffer initial_state /\
  (existsb is_wheel [MouseWheel F32.one; QuitEvent] = false ->
     distance (fst (pump [MouseWheel F32.one; QuitEvent] (initial_state, true)))
       = distance initial_state) /\
  (existsb is_drag [MouseWheel F32.one; QuitEvent] = false ->
     pitch (fst (pump [MouseWheel F32.one; QuitEvent] (initial_state, true)))
       = pitch initial_state /\
     yaw (fst (pump [MouseWheel F32.one; QuitEvent] (initial_state, true)))
       = yaw initial_state).
Proof.
  apply (X5_events_change_only_their_fields [MouseWheel F32.one; QuitEvent]
           initial_state true).
Defined.

Lemma Draw_keeps_scene_fields L THREADS env st st' calls :
  Draw L THREADS env st = Some (st', calls) ->
  ObjectCount (uniformBuffer st') = ObjectCount (uniformBuffer st) /\
  DiskR1 (uniformBuffer st') = DiskR1 (uniformBuffer st) /\
  DiskR2 (uniformBuffer st') = DiskR2 (uniformBuffer st).
Proof.
  intros HDraw.
  destruct (Draw_outcomes L THREADS env st st' calls HDraw)
    as [(Hc & -> & _) | [(Ht & -> & _) | [(Hc & Hs & Hz & -> & _)
       | [(Hf & -> & _) | (Hk & Hpass & -> & _)]]]]; auto.
Qed.

Lemma Draw_pushes_scene_fields L THREADS env st st' calls ub :
  Draw L THREADS env st = Some (st', calls) ->
  In (PushGPUComputeUniformData ub) calls ->
  ObjectCount ub = ObjectCount (uniformBuffer st) /\
  DiskR1 ub = DiskR1 (uniformBuffer st) /\
  DiskR2 ub = DiskR2 (uniformBuffer st).
Proof.
  intros HDraw Hin.
  destruct (Draw_outcomes L THREADS env st st' calls HDraw)
    as [(Hc & _ & ->) | [(Ht & _ & ->) | [(Hc & Hs & Hz & _ & ->)
       | [(Hf & _ & ->) | (Hk & Hpass & Hub & rect & _ & ->)]]]];
    cbn [In] in Hin;
    repeat match goal with H : _ \/ _ |- _ => destruct H as [H|H] end;
    try discriminate; try contradiction.
  injection Hin as <-. rewrite Hub. auto.
Qed.

(** The loop leaves the object count and the disk radii alone. *)
Lemma main_loop_scene_fields
    (L : Libm) (THREADS : Z) (its : list Iteration) (st st' : AppState)
    (calls : list GpuCall) (running : bool) :
  main_loop L THREADS its st = Some (st', calls, running) ->
  (ObjectCount (uniformBuffer st') = ObjectCount (uniformBuffer st) /\
   DiskR1 (uniformBuffer st') = DiskR1 (uniformBuffer st) /\
   DiskR2 (uniformBuffer st') = DiskR2 (uniformBuffer st)) /\
  (forall ub, In (PushGPUComputeUniformData ub) calls ->
     ObjectCount ub = ObjectCount (uniformBuffer st) /\
     DiskR1 ub = DiskR1 (uniformBuffer st) /\
     DiskR2 ub = DiskR2 (uniformBuffer st)).
Proof.
  revert st st' calls running.
  induction its as [|it rest IH]; intros st st' calls running Hloop.
  - cbn [main_loop] in Hloop. injection Hloop as <- <- <-.
    split; [auto|]. intros ub [].
  - cbn [main_loop] in Hloop. unfold iteration in Hloop.
    pose proof (pump_uniforms (pending it) st true) as Hpu.
    destruct (pump (pending it) (st, true)) as [st1 r1]. cbn [fst] in Hpu.
    destruct (Draw L THREADS (frame it) st1) as [[st2 calls2]|] eqn:HDraw;
      cbn [obind fst snd] in Hloop; [|discriminate].
    destruct (Draw_keeps_scene_fields _ _ _ _ _ _ HDraw) as (H1 & H2 & H3).
    rewrite Hpu in H1, H2, H3.
    assert (Hpush : forall ub, In (PushGPUComputeUniformData ub) calls2 ->
              ObjectCount ub = ObjectCount (uniformBuffer st) /\
              DiskR1 ub = DiskR1 (uniformBuffer st) /\
              DiskR2 ub = DiskR2 (uniformBuffer st)).
    { intros ub Hin. rewrite <- Hpu.
      apply (Draw_pushes_scene_fields _ _ _ _ _ _ _ HDraw Hin). }
    destruct r1.
    + destruct (main_loop L THREADS rest st2) as [[[st3 calls3] r3]|] eqn:Hrest;
        cbn [obind] in Hloop; [|discriminate].
      injection Hloop as <- <- <-.
      destruct (IH _ _ _ _ Hrest) as ((I1 & I2 & I3) & Ipush).
      split; [repeat split; congruence|].
      intros ub Hin. apply in_app_or in Hin as [Hin|Hin]; [now apply Hpush|].
      destruct (Ipush ub Hin) as (J1 & J2 & J3). repeat split; congruence.
    + injection Hloop as <- <- <-. split; [auto|exact Hpush].
Qed.

(** X6: the object count and the two disk radii never change while the loop
    runs: after any number of iterations they are what they were when the
    loop was entered, and every block of uniform data pushed to the kernel
    carries them. *)
Theorem X6_scene_fields_are_constant
    (L : Libm) (THREADS : Z) (its : list Iteration) (st st' : AppState)
    (calls : list GpuCall) (running : bool) :
  main_loop L THREADS its st = Some (st', calls, running) ->
  (ObjectCount (uniformBuffer st') = ObjectCount (uniformBuffer st) /\
   DiskR1 (uniformBuffer st') = DiskR1 (uniformBuffer st) /\
   DiskR2 (uniformBuffer st') = DiskR2 (uniformBuffer st)) /\
  (forall ub, In (PushGPUComputeUniformData ub) calls ->
     ObjectCount ub = ObjectCount (uniformBuffer st) /\
     DiskR1 ub = DiskR1 (uniformBuffer st) /\
     DiskR2 ub = DiskR2 (uniformBuffer st)).
Proof.
  revert st st' calls running.
  induction its as [|it rest IH]; intros st st' calls running Hloop.
  - cbn [main_loop] in Hloop. injection Hloop as <- <- <-.
    split; [auto|]. intros ub [].
  - cbn [main_loop] in Hloop. unfold iteration in Hloop.
    pose proof (pump_uniforms (pending it) st true) as Hpu.
    destruct (pump (pending it) (st, true)) as [st1 r1]. cbn [fst] in Hpu.
    destruct (Draw L THREADS (frame it) st1) as [[st2 calls2]|] eqn:HDraw;
      cbn [obind fst snd] in Hloop; [|discriminate].
    destruct (Draw_keeps_scene_fields _ _ _ _ _ _ HDraw) as (H1 & H2 & H3).
    rewrite Hpu in H1, H2, H3.
    assert (Hpush : forall ub, In (PushGPUComputeUniformData ub) calls2 ->
              ObjectCount ub = ObjectCount (uniformBuffer st) /\
              DiskR1 ub = DiskR1 (uniformBuffer st) /\
              DiskR2 ub = DiskR2 (uniformBuffer st)).
    { intros ub Hin. rewrite <- Hpu.
      apply (Draw_pushes_scene_fields _ _ _ _ _ _ _ HDraw Hin). }
    destruct r1.
    + destruct (main_loop L THREADS rest st2) as [[[st3 calls3] r3]|] eqn:Hrest;
        cbn [obind] in Hloop; [|discriminate].
      injection Hloop as <- <- <-.
      destruct (IH _ _ _ _ Hrest) as ((I1 & I2 & I3) & Ipush).
      split; [repeat split; congruence|].
      intros ub Hin. apply in_app_or in Hin as [Hin|Hin]; [now apply Hpush|].
      destruct (Ipush ub Hin) as (J1 & J2 & J3). repeat split; congruence.
    + injection Hloop as <- <- <-. split; [auto|exact Hpush].
Qed.

Lemma X6_witness :
  exists st' calls running,
    main_loop libm_taylor1 8
      [{| pending := [MouseWheel F32.one]; frame := env_ok 960 720 |};
       {| pending := [QuitEvent]; frame := env_minimised |}] initial_state
      = Some (st', calls, running) /\
    ObjectCount (uniformBuffer st') = 3 /\
    forall ub, In (PushGPUComputeUniformData ub) calls -> ObjectCount ub = 3.
Proof.
  eexists. eexists. eexists. split; [reflexivity|].
  edestruct (X6_scene_fields_are_constant libm_taylor1 8
            [{| pending := [MouseWheel F32.one]; frame := env_ok 960 720 |};
             {| pending := [QuitEvent]; frame := env_minimised |}]
            initial_state) as ((H1 & _ & _) & Hpush).
  - reflexivity.
  - split; [exact H1|]. intros ub Hin. exact (proj1 (Hpush ub Hin)).
Defined.

(** ** Further properties of the orbit camera *)

Lemma std_clamp_nan lo hi : std_clamp S754_nan lo hi = S754_nan.
Proof. destruct lo, hi; reflexivity. Qed.

Lemma add_nan_l x : F32.add S754_nan x = S754_nan.
Proof. reflexivity. Qed.

Lemma add_nan_r x : F32.add x S754_nan = S754_nan.
Proof. destruct x; reflexivity. Qed.

Lemma is_nan_eq x : F32.is_nan x = true -> x = S754_nan.
Proof. destruct x; simpl; intros; try discriminate; reflexivity. Qed.

Lemma handle_event_nan_pitch e st running :
  pitch st = S754_nan -> pitch (fst (handle_event e (st, running))) = S754_nan.
Proof.
  intros Hp. destruct e as [y | state xrel yrel | |]; cbn [handle_event]; auto.
  destruct (Z.land state SDL_BUTTON_LMASK =? 0); cbn [fst pitch]; auto.
  rewrite Hp, add_nan_l. apply std_clamp_nan.
Qed.

Lemma pump_nan_pitch evs : forall st running,
  pitch st = S754_nan -> pitch (fst (pump evs (st, running))) = S754_nan.
Proof.
  induction evs as [|e evs IH]; intros st running Hp; [exact Hp|].
  rewrite pump_cons, handle_event_surj. apply IH, handle_event_nan_pitch, Hp.
Qed.

(** X7: the clamp does not stop a NaN.  A drag whose vertical delta is a NaN
    makes the pitch a NaN whatever it was, and no later event brings it
    back: the pitch is a NaN after every further sequence of events. *)
Theorem X7_nan_pitch_is_permanent
    (state : Z) (xrel yrel : f32) (evs : list Event)
    (st : AppState) (running : bool) :
  Z.land state SDL_BUTTON_LMASK <> 0 ->
  F32.is_nan yrel = true ->
  F32.is_nan (pitch (fst (pump (MouseMotion state xrel yrel :: evs)
                               (st, running)))) = true.
Proof.
  intros Hs Hy. apply is_nan_eq in Hy. subst yrel.
  rewrite pump_cons. cbn [handle_event].
  apply Z.eqb_neq in Hs. rewrite Hs.
  rewrite pump_nan_pitch; [reflexivity|].
  cbn [pitch]. change (F32.mul S754_nan kPan) with S754_nan.
  rewrite add_nan_r. apply std_clamp_nan.
Qed.

Lemma X7_witness :
  F32.is_nan (pitch (fst (pump (MouseMotion 1 F32.zero S754_nan
                                  :: [MouseMotion 1 F32.zero (F32.of_int (-5))])
                               (initial_state, true)))) = true.
Proof.
  apply (X7_nan_pitch_is_permanent 1 F32.zero S754_nan
           [MouseMotion 1 F32.zero (F32.of_int (-5))] initial_state true).
  - discriminate.
  - reflexivity.
Defined.

(** X8: the floor of the distance does stop a NaN.  A wheel event whose
    delta is a NaN, or one that finds the distance a NaN, sets the distance
    to exactly 1. *)
Theorem X8_nan_wheel_resets_distance
    (y : f32) (st : AppState) (running : bool) :
  F32.is_nan y = true \/ F32.is_nan (distance st) = true ->
  distance (fst (handle_event (MouseWheel y) (st, running))) = F32.one.
Proof.
  intros H. cbn [handle_event fst distance].
  assert (Hn : F32.sub (distance st) (F32.mul y kZoom) = S754_nan).
  { destruct H as [Hy|Hd].
    - apply is_nan_eq in Hy. subst y. change (F32.mul S754_nan kZoom) with S754_nan.
      destruct (distance st); reflexivity.
    - apply is_nan_eq in Hd. rewrite Hd. reflexivity. }
  rewrite Hn. reflexivity.
Qed.

Lemma X8_witness :
  distance (fst (handle_event (MouseWheel S754_nan) (initial_state, true)))
  = F32.one.
Proof.
  apply (X8_nan_wheel_resets_distance S754_nan initial_state true).
  left. reflexivity.
Defined.

Lemma SFcompare_opp a b : SFcompare (SFopp a) (SFopp b) = SFcompare b a.
Proof.
  destruct a as [sa|sa| |sa ma ea], b as [sb|sb| |sb mb eb];
    try destruct sa; try destruct sb; cbn [SFopp negb SFcompare]; try reflexivity.
  all: f_equal; rewrite (Z.compare_antisym ea eb);
    destruct (Z.compare ea eb); cbn [CompOpp]; try reflexivity.
  all: change (Pos.compare_cont Eq ?x ?y) with (Pos.compare x y).
  all: rewrite (Pos.compare_antisym ma mb); destruct (Pos.compare ma mb);
    reflexivity.
Qed.

Lemma SFopp_involutive a : SFopp (SFopp a) = a.
Proof. destruct a as [[]|[]| |[] m e]; reflexivity. Qed.

(** X9: the clamp band is symmetric about the horizon: a pitch is in the
    band exactly when its negation is. *)
Theorem X9_clamp_band_is_symmetric (p : f32) :
  in_band (F32.neg p) = in_band p.
Proof.
  unfold in_band, F32.leb, F32.neg, SFleb.
  rewrite SFcompare_opp.
  rewrite <- (SFopp_involutive kClamp) at 2. rewrite SFcompare_opp.
  apply andb_comm.
Qed.

(** X10: only bit 0 of the button state matters.  A motion event whose
    state has bit 0 clear changes nothing, whichever other buttons are held;
    one whose state has bit 0 set adds [xrel * kPan] to the yaw, whichever
    other buttons are held. *)
Theorem X10_only_the_left_button_drags
    (state : Z) (xrel yrel : f32) (st : AppState) (running : bool) :
  (Z.testbit state 0 = false ->
     handle_event (MouseMotion state xrel yrel) (st, running) = (st, running)) /\
  (Z.testbit state 0 = true ->
     yaw (fst (handle_event (MouseMotion state xrel yrel) (st, running)))
       = F32.add (yaw st) (F32.mul xrel kPan) /\
     pitch (fst (handle_event (MouseMotion state xrel yrel) (st, running)))
       = std_clamp (F32.add (pitch st) (F32.mul yrel kPan))
                   (F32.neg kClamp) kClamp).
Proof.
  assert (Hland : Z.land state SDL_BUTTON_LMASK = Z.b2z (Z.testbit state 0)).
  { change SDL_BUTTON_LMASK with (Z.ones 1).
    rewrite Z.land_ones by lia. rewrite Z.bit0_mod. reflexivity. }
  cbn [handle_event]. rewrite Hland. split; intros ->.
  - reflexivity.
  - change (Z.b2z true =? 0) with false. cbv iota. cbn [fst yaw pitch].
    split; reflexivity.
Qed.

(** ** Further properties of the loop *)

Lemma Draw_acquires_once L THREADS env st st' calls :
  Draw L THREADS env st = Some (st', calls) -> count is_acquire calls = 1%nat.
Proof.
  intros HDraw.
  destruct (Draw_outcomes L THREADS env st st' calls HDraw)
    as [(_ & _ & ->) | [(_ & _ & ->) | [(_ & _ & _ & _ & ->)
       | [(_ & _ & ->) | (_ & _ & _ & rect & _ & ->)]]]]; reflexivity.
Qed.

(** X11: a quit event ends the loop after the current iteration, not within
    it.  The events pending behind the quit are still handled, the frame of
    that iteration is still drawn, and the iterations after it never run. *)
Theorem X11_quit_takes_effect_after_the_frame
    (L : Libm) (THREADS : Z) (it : Iteration) (rest : list Iteration)
    (st : AppState) :
  has_quit (pending it) = true ->
  main_loop L THREADS (it :: rest) st =
    match Draw L THREADS (frame it) (fst (pump (pending it) (st, true))) with
    | Some (st', calls) => Some (st', calls, false)
    | None => None
    end.
Proof.
  intros Hq. cbn [main_loop]. unfold iteration.
  pose proof (pump_running (pending it) st true) as Hr. rewrite Hq in Hr.
  destruct (pump (pending it) (st, true)) as [st1 r1]. cbn [fst snd] in *.
  subst r1.
  destruct (Draw L THREADS (frame it) st1) as [[st2 calls2]|]; reflexivity.
Qed.

Lemma X11_witness :
  main_loop libm_taylor1 8
    ({| pending := [QuitEvent; MouseWheel F32.one]; frame := env_minimised |}
     :: [{| pending := []; frame := env_ok 960 720 |}]) initial_state =
    match Draw libm_taylor1 8 env_minimised
            (fst (pump [QuitEvent; MouseWheel F32.one] (initial_state, true))) with
    | Some (st', calls) => Some (st', calls, false)
    | None => None
    end.
Proof.
  apply (X11_quit_takes_effect_after_the_frame libm_taylor1 8
           {| pending := [QuitEvent; MouseWheel F32.one]; frame := env_minimised |}
           [{| pending := []; frame := env_ok 960 720 |}] initial_state).
  reflexivity.
Defined.

(** X12: the loop draws exactly one frame per iteration it executes: the
    number of command-buffer acquisitions in a run equals the number of
    iterations up to and including the first with a quit event pending, and
    the run ends with [running] false exactly when there is such an
    iteration. *)
Theorem X12_one_frame_per_iteration
    (L : Libm) (THREADS : Z) (its : list Iteration) (st st' : AppState)
    (calls : list GpuCall) (running : bool) :
  main_loop L THREADS its st = Some (st', calls, running) ->
  count is_acquire calls = List.length (executed its) /\
  running = negb (existsb (fun it => has_quit (pending it)) its).
Proof.
  revert st st' calls running.
  induction its as [|it rest IH]; intros st st' calls running Hloop.
  - cbn [main_loop] in Hloop. injection Hloop as <- <- <-. split; reflexivity.
  - cbn [main_loop] in Hloop.
    destruct (iteration L THREADS it st) as [[[st1 calls1] r1]|] eqn:Hit;
      cbn [obind] in Hloop; [|discriminate].
    pose proof (iteration_running L THREADS it st st1 calls1 r1 Hit) as Hr.
    assert (Hone : count is_acquire calls1 = 1%nat).
    { unfold iteration in Hit.
      destruct (pump (pending it) (st, true)) as [st0 r0].
      destruct (Draw L THREADS (frame it) st0) as [[st2 calls2]|] eqn:HDraw;
        cbn [obind fst snd] in Hit; [|discriminate].
      injection Hit as <- <- <-.
      apply (Draw_acquires_once _ _ _ _ _ _ HDraw). }
    cbn [executed existsb].
    destruct (has_quit (pending it)); cbn [negb] in Hr; subst r1.
    + injection Hloop as <- <- <-. split; [exact Hone | reflexivity].
    + destruct (main_loop L THREADS rest st1) as [[[st3 calls3] r3]|] eqn:Hrest;
        cbn [obind] in Hloop; [|discriminate].
      injection Hloop as <- <- <-.
      destruct (IH _ _ _ _ Hrest) as [Hc Hrun].
      rewrite count_app, Hone, Hc. split; [reflexivity | exact Hrun].
Qed.

Lemma X12_witness :
  exists st' calls running,
    main_loop libm_taylor1 8
      [{| pending := [MouseWheel F32.one]; frame := env_no_target |};
       {| pending := [QuitEvent]; frame := env_minimised |};
       {| pending := []; frame := env_minimised |}] initial_state
      = Some (st', calls, running) /\
    count is_acquire calls = 2%nat /\ running = false.
Proof.
  eexists. eexists. eexists. split; [reflexivity|].
  eapply (X12_one_frame_per_iteration libm_taylor1 8
            [{| pending := [MouseWheel F32.one]; frame := env_no_target |};
             {| pending := [QuitEvent]; frame := env_minimised |};
             {| pending := []; frame := env_minimised |}] initial_state).
  reflexivity.
Defined.

(** ** Further properties of the letterbox *)

(** X13: a target with exactly the image's aspect ratio (of at most
    [max_dim] = 1491315 a side) is covered whole: the blit goes to the
    rectangle (0, 0, width, height) and there are no bars. *)
Theorem X13_equal_aspect_fills_target
    (L : Libm) (THREADS : Z) (env : FrameEnv) (st : AppState) :
  skipped env = false -> compute_pass_begun env = true ->
  1 <= swapchain_width env <= max_dim ->
  1 <= swapchain_height env <= max_dim ->
  HEIGHT * swapchain_width env = WIDTH * swapchain_height env ->
  exists st' calls,
    Draw L THREADS env st = Some (st', calls) /\
    blit_destination calls =
      Some {| rect_x := 0; rect_y := 0;
              rect_w := swapchain_width env; rect_h := swapchain_height env |}.
Proof.
  intros Hk Hp Hw Hh Heq.
  destruct (Draw_blit_exact L THREADS env st Hk Hp Hw Hh) as (st' & calls & HDraw & Hb).
  exists st', calls. split; [exact HDraw|]. rewrite Hb. f_equal.
  unfold letterbox_exact. rewrite Heq, Z.ltb_irrefl.
  assert (Hq : WIDTH * swapchain_height env / HEIGHT = swapchain_width env).
  { rewrite <- Heq. unfold HEIGHT. rewrite Z.mul_comm. apply Z.div_mul. lia. }
  rewrite Hq, Z.sub_diag. reflexivity.
Qed.

Lemma X13_witness :
  exists st' calls,
    Draw libm_taylor1 8 (env_ok 1280 960) initial_state = Some (st', calls) /\
    blit_destination calls =
      Some {| rect_x := 0; rect_y := 0; rect_w := 1280; rect_h := 960 |}.
Proof.
  apply (X13_equal_aspect_fills_target libm_taylor1 8 (env_ok 1280 960)
           initial_state).
  - reflexivity.
  - reflexivity.
  - unfold max_dim. simpl. lia.
  - unfold max_dim. simpl. lia.
  - reflexivity.
Defined.

(** X14: on a target at least two pixels wide (and at most [max_dim] =
    1491315 a side) the blit rectangle is never empty; on a target one pixel
    wide it always is:
    the image spans the width and its height, three quarters of a pixel, is
    truncated to zero. *)
Theorem X14_blit_is_empty_only_on_one_pixel_width
    (L : Libm) (THREADS : Z) (env : FrameEnv) (st : AppState) :
  skipped env = false -> compute_pass_begun env = true ->
  1 <= swapchain_width env <= max_dim ->
  1 <= swapchain_height env <= max_dim ->
  exists st' calls r,
    Draw L THREADS env st = Some (st', calls) /\
    blit_destination calls = Some r /\
    (2 <= swapchain_width env -> 1 <= rect_w r /\ 1 <= rect_h r) /\
    (swapchain_width env = 1 -> rect_w r = 1 /\ rect_h r = 0).
Proof.
  intros Hk Hp Hw Hh.
  destruct (Draw_blit_exact L THREADS env st Hk Hp Hw Hh) as (st' & calls & HDraw & Hb).
  exists st', calls, (letterbox_exact (swapchain_width env) (swapchain_height env)).
  split; [exact HDraw|]. split; [exact Hb|].
  set (w := swapchain_width env) in *. set (h := swapchain_height env) in *.
  unfold letterbox_exact, WIDTH, HEIGHT.
  destruct (Z.ltb_spec (720 * w) (960 * h)) as [Hlt|Hge];
    cbn [rect_w rect_h]; split; intros Hc.
  - split; [lia|]. apply Z.div_le_lower_bound; lia.
  - subst w. rewrite Hc. split; reflexivity.
  - split; [|lia]. apply Z.div_le_lower_bound; lia.
  - lia.
Qed.

Lemma X14_witness :
  exists st' calls r,
    Draw libm_taylor1 8 (env_ok 1 300) initial_state = Some (st', calls) /\
    blit_destination calls = Some r /\
    (2 <= 1 -> 1 <= rect_w r /\ 1 <= rect_h r) /\
    (1 = 1 -> rect_w r = 1 /\ rect_h r = 0).
Proof.
  apply (X14_blit_is_empty_only_on_one_pixel_width libm_taylor1 8 (env_ok 1 300)
           initial_state).
  - reflexivity.
  - reflexivity.
  - unfold max_dim. simpl. lia.
  - unfold max_dim. simpl. lia.
Defined.

(** ** Properties of startup and shutdown *)

Ltac init_failure H :=
  let Hok := fresh "Hok" in
  let Hst := fresh "Hst" in
  let Hcalls := fresh "Hcalls" in
  pose proof (f_equal (fun r => fst (fst r)) H) as Hok;
  pose proof (f_equal (fun r => snd (fst r)) H) as Hst;
  pose proof (f_equal snd H) as Hcalls;
  cbv beta in Hok, Hst, Hcalls;
  cbn [fst snd] in Hok, Hst, Hcalls;
  clear H; subst.

Ltac init_step H b :=
  destruct b eqn:?;
  [change (negb true) with false in H | change (negb false) with true in H];
  cbv iota in H.

(** The twelve ways [Init] ends: success, or a failure at one of the eleven
    fallible calls. *)
Ltac init_walk H env :=
  init_step H (Sdl.init_video env);
  [init_step H (Sdl.create_window env);
   [init_step H (Sdl.create_device env);
    [init_step H (Sdl.claim_window env);
     [init_step H (Sdl.load_pipeline env);
      [init_step H (Sdl.create_texture env);
       [init_step H (Sdl.acquire_cmdbuf env);
        [init_step H (Sdl.begin_copy_pass env);
         [init_step H (Sdl.create_transfer env);
          [init_step H (Sdl.map_transfer env);
           [init_step H (Sdl.create_buffer env)|]|]|]|]|]|]|]|]|]|].

(** X15: [Init] returns [true] exactly when each of its eleven fallible
    calls succeeds.  Then [ObjectCount] is 3, nothing is logged, and the
    last call submits the command buffer that carries the upload.  Whether
    it succeeds or not, [Init] leaves pitch, yaw and distance as they were. *)
Theorem X15_init_succeeds_iff_every_call_does
    (sizeof_Object : Z) (env : Sdl.env) (st st' : AppState)
    (ok : bool) (calls : list Sdl.call) :
  Init sizeof_Object env st = (ok, st', calls) ->
  ok = all_ok env /\
  (pitch st' = pitch st /\ yaw st' = yaw st /\ distance st' = distance st) /\
  (ok = true ->
     st' = set_ObjectCount 3 st /\
     count is_sdl_log calls = 0%nat /\
     exists before, calls = before ++ [Sdl.SubmitGPUCommandBuffer]).
Proof.
  intros H. unfold Init in H. cbv zeta in H. unfold all_ok.
  init_walk H env; init_failure H; cbn [andb].
  all: split; [reflexivity|]; split; [repeat split|]; try discriminate.
  intros _. split; [reflexivity|]. split; [reflexivity|].
  match goal with
  | |- exists before, ?l ++ [?a; ?b; ?c; ?d] = _ =>
      exists (l ++ [a; b; c]); rewrite <- app_assoc; reflexivity
  end.
Qed.

Lemma X15_witness :
  true = all_ok env_all_ok /\
  (pitch (set_ObjectCount 3 static_state) = pitch static_state /\
   yaw (set_ObjectCount 3 static_state) = yaw static_state /\
   distance (set_ObjectCount 3 static_state) = distance static_state) /\
  (true = true ->
     set_ObjectCount 3 static_state = set_ObjectCount 3 static_state /\
     count is_sdl_log (snd (Init 32 env_all_ok static_state)) = 0%nat /\
     exists before,
       snd (Init 32 env_all_ok static_state)
       = before ++ [Sdl.SubmitGPUCommandBuffer]).
Proof.
  apply (X15_init_succeeds_iff_every_call_does 32 env_all_ok static_state).
  reflexivity.
Defined.

(** A successful [Init] makes the calls of [init_script]. *)
Lemma Init_success sizeof_Object env st st' ok calls :
  Init sizeof_Object env st = (ok, st', calls) ->
  ok = all_ok env /\
  (ok = true -> st' = set_ObjectCount 3 st /\ calls = init_script sizeof_Object st).
Proof.
  intros H. unfold Init in H. cbv zeta in H. unfold all_ok.
  init_walk H env; init_failure H; cbn [andb].
  all: split; [reflexivity|]; try discriminate.
  intros _. split; reflexivity.
Qed.

(** X16: a failing [Init] cleans nothing up.  It logs exactly one message,
    as its last call, and returns without submitting or releasing anything:
    whatever it had created by then (window, device, pipeline, texture,
    transfer buffer) stays unreleased, and a command buffer it had acquired
    is left unsubmitted. *)
Theorem X16_failed_init_releases_nothing
    (sizeof_Object : Z) (env : Sdl.env) (st st' : AppState)
    (calls : list Sdl.call) :
  Init sizeof_Object env st = (false, st', calls) ->
  count is_sdl_log calls = 1%nat /\
  (exists before fmt, calls = before ++ [Sdl.Log fmt]) /\
  count is_sdl_submit calls = 0%nat /\
  count is_release calls = 0%nat.
Proof.
  intros H. unfold Init in H. cbv zeta in H.
  init_walk H env.
  1: { pose proof (f_equal (fun r => fst (fst r)) H) as Hok.
       cbn [fst] in Hok. discriminate. }
  all: init_failure H.
  all: split; [reflexivity|]; split; [eexists _, _; reflexivity|];
    split; reflexivity.
Qed.

Lemma X16_witness :
  count is_sdl_log (snd (Init 32 env_no_map static_state)) = 1%nat /\
  (exists before fmt,
     snd (Init 32 env_no_map static_state) = before ++ [Sdl.Log fmt]) /\
  count is_sdl_submit (snd (Init 32 env_no_map static_state)) = 0%nat /\
  count is_release (snd (Init 32 env_no_map static_state)) = 0%nat.
Proof.
  apply (X16_failed_init_releases_nothing 32 env_no_map static_state
           (snd (fst (Init 32 env_no_map static_state)))).
  reflexivity.
Defined.

(** The call list of a successful [Init], written out. *)
Lemma init_script_eq sizeof_Object st :
  init_script sizeof_Object st =
  [Sdl.SetAppMetadata; Sdl.SetLogPriorities; Sdl.InitVideo;
   Sdl.CreateWindow 960 720; Sdl.CreateGPUDevice;
   Sdl.ClaimWindowForGPUDevice; Sdl.LoadComputePipeline "geodesic.comp";
   Sdl.CreateGPUTexture WIDTH HEIGHT; Sdl.AcquireGPUCommandBuffer;
   Sdl.BeginGPUCopyPass;
   Sdl.CreateGPUTransferBuffer ((3 * sizeof_Object) mod 2 ^ 32);
   Sdl.MapGPUTransferBuffer]
  ++ store_objects 0 scene
  ++ [Sdl.UnmapGPUTransferBuffer;
      Sdl.CreateGPUBuffer ((3 * sizeof_Object) mod 2 ^ 32);
      Sdl.UploadToGPUBuffer ((3 * sizeof_Object) mod 2 ^ 32);
      Sdl.ReleaseGPUTransferBuffer; Sdl.EndGPUCopyPass;
      Sdl.SubmitGPUCommandBuffer].
Proof. reflexivity. Qed.

(** What a failing [Init] has called is the beginning of what a successful
    one calls, followed by the message. *)
Lemma Init_failure_prefix sizeof_Object env st st' calls :
  Init sizeof_Object env st = (false, st', calls) ->
  exists before rest fmt,
    calls = before ++ [Sdl.Log fmt] /\
    init_script sizeof_Object st = before ++ rest.
Proof.
  intros H. unfold Init in H. cbv zeta in H.
  init_walk H env.
  1: { pose proof (f_equal (fun r => fst (fst r)) H) as Hok.
       cbn [fst] in Hok. discriminate. }
  all: init_failure H.
  all: eexists _, _, _; split; [reflexivity|].
  all: rewrite init_script_eq; cbn [app store_objects scene]; reflexivity.
Qed.

(** Whatever [Init] calls, apart from the message of a failure, is a call of
    the successful run. *)
Lemma Init_calls_in_script sizeof_Object env st ok st' calls c :
  Init sizeof_Object env st = (ok, st', calls) ->
  In c calls -> is_sdl_log c = false ->
  In c (init_script sizeof_Object st).
Proof.
  intros H Hin Hlog. destruct ok.
  - apply Init_success in H. destruct H as [_ H].
    destruct (H eq_refl) as [_ ->]. exact Hin.
  - apply Init_failure_prefix in H.
    destruct H as (before & rest & fmt & -> & ->).
    apply in_app_or in Hin. destruct Hin as [Hin|[<-|[]]].
    + apply in_or_app. left. exact Hin.
    + discriminate.
Qed.

Ltac script_cases H :=
  rewrite init_script_eq in H;
  cbn [app store_objects scene In] in H;
  repeat match goal with
         | H' : _ \/ _ |- _ => destruct H' as [H'|H']
         end; try discriminate; try contradiction.

Lemma script_stores sizeof_Object st i o :
  In (Sdl.StoreObject i o) (init_script sizeof_Object st) -> 0 <= i <= 2.
Proof.
  intros Hin. script_cases Hin.
  all: apply (f_equal (fun c => match c with
                                | Sdl.StoreObject k _ => k
                                | _ => 0
                                end)) in Hin; cbv beta iota in Hin; lia.
Qed.

Lemma script_sizes sizeof_Object st n :
  In (Sdl.CreateGPUTransferBuffer n) (init_script sizeof_Object st) \/
  In (Sdl.CreateGPUBuffer n) (init_script sizeof_Object st) \/
  In (Sdl.UploadToGPUBuffer n) (init_script sizeof_Object st) ->
  n = (3 * sizeof_Object) mod 2 ^ 32.
Proof.
  intros [Hin|[Hin|Hin]]; script_cases Hin.
  all: apply (f_equal (fun c => match c with
                                | Sdl.CreateGPUTransferBuffer k
                                | Sdl.CreateGPUBuffer k
                                | Sdl.UploadToGPUBuffer k => k
                                | _ => 0
                                end)) in Hin; cbv beta iota in Hin;
    symmetry; exact Hin.
Qed.

(** X17: the three bodies fit the buffers.  When three objects take less
    than 2^32 bytes, the transfer buffer, the object buffer and the uploaded
    region all have exactly that size, every store [objects[i] = ...] made
    by [Init] lies within the mapped transfer buffer, and a successful
    [Init] makes exactly three stores, with [ObjectCount] left at 3. *)
Theorem X17_objects_fit_the_buffers
    (sizeof_Object : Z) (env : Sdl.env) (st st' : AppState) (ok : bool)
    (calls : list Sdl.call) :
  0 < sizeof_Object -> 3 * sizeof_Object < 2 ^ 32 ->
  Init sizeof_Object env st = (ok, st', calls) ->
  (forall n,
     In (Sdl.CreateGPUTransferBuffer n) calls \/
     In (Sdl.CreateGPUBuffer n) calls \/
     In (Sdl.UploadToGPUBuffer n) calls -> n = 3 * sizeof_Object) /\
  stores_within sizeof_Object (3 * sizeof_Object) calls /\
  (ok = true ->
   count is_store calls = 3%nat /\ ObjectCount (uniformBuffer st') = 3).
Proof.
  intros Hpos Hfit H.
  assert (Hmod : (3 * sizeof_Object) mod 2 ^ 32 = 3 * sizeof_Object)
    by (apply Z.mod_small; lia).
  split; [|split].
  - intros n Hn. rewrite <- Hmod. apply (script_sizes sizeof_Object st).
    destruct Hn as [Hn|[Hn|Hn]]; [left|right; left|right; right];
      apply (Init_calls_in_script _ _ _ _ _ _ _ H Hn); reflexivity.
  - intros i o Hin.
    assert (Hi : 0 <= i <= 2).
    { apply (script_stores sizeof_Object st i o).
      apply (Init_calls_in_script _ _ _ _ _ _ _ H Hin). reflexivity. }
    split.
    + apply Z.mul_nonneg_nonneg; lia.
    + replace (3 * sizeof_Object) with ((2 + 1) * sizeof_Object) by lia.
      apply Z.mul_le_mono_nonneg_r; lia.
  - intros ->. apply Init_success in H. destruct H as [_ H].
    destruct (H eq_refl) as [-> ->]. split; reflexivity.
Qed.

Lemma X17_witness :
  stores_within 32 (3 * 32) (snd (Init 32 env_all_ok static_state)).
Proof.
  apply (X17_objects_fit_the_buffers 32 env_all_ok static_state
           (snd (fst (Init 32 env_all_ok static_state))) true
           (snd (Init 32 env_all_ok static_state))).
  - lia.
  - lia.
  - reflexivity.
Defined.

Lemma sdl_calls_app a b : sdl_calls (a ++ b) = sdl_calls a ++ sdl_calls b.
Proof.
  induction a as [|[c|c] a IH]; cbn [app sdl_calls]; [reflexivity| |exact IH].
  rewrite IH. reflexivity.
Qed.

Lemma sdl_calls_inl l : sdl_calls (map inl l) = l.
Proof.
  induction l as [|c l IH]; cbn [map sdl_calls]; [reflexivity|].
  rewrite IH. reflexivity.
Qed.

Lemma sdl_calls_inr l : sdl_calls (map inr l) = [].
Proof. induction l as [|c l IH]; cbn [map sdl_calls]; [reflexivity|exact IH]. Qed.

Lemma frame_calls_inl l : frame_calls (map inl l) = [].
Proof. induction l as [|c l IH]; cbn [map frame_calls]; [reflexivity|exact IH]. Qed.

Lemma Init_failure_no_release sizeof_Object env st st' calls :
  Init sizeof_Object env st = (false, st', calls) ->
  count is_release calls = 0%nat.
Proof.
  intros H. unfold Init in H. cbv zeta in H.
  init_walk H env.
  1: { pose proof (f_equal (fun r => fst (fst r)) H) as Hok.
       cbn [fst] in Hok. discriminate. }
  all: init_failure H; reflexivity.
Qed.

(** X18: how [main] ends.  It returns 1 exactly when some call of [Init]
    fails, and then no frame is drawn and nothing is released.  When it
    returns 0, every call of [Init] succeeded, and its calls outside the
    frames respect the lifetimes: each of the eight resources is created
    once, while what it needs is alive, and released once, before what it
    needs, with nothing left alive at the end. *)
Theorem X18_main_exit_code_and_cleanup
    (sizeof_Object : Z) (L : Libm) (THREADS : Z) (env : Sdl.env)
    (its : list Iteration) (outcome : Outcome)
    (trace : list (Sdl.call + GpuCall)) :
  main sizeof_Object L THREADS env its = (outcome, trace) ->
  (outcome = Exited 1 <-> all_ok env = false) /\
  (outcome = Exited 1 ->
   frame_calls trace = [] /\ count is_release (sdl_calls trace) = 0%nat) /\
  (outcome = Exited 0 ->
   all_ok env = true /\ lifetimes_ok (sdl_calls trace) [] = true).
Proof.
  unfold main.
  destruct (Init sizeof_Object env static_state) as [[ok st] calls] eqn:HI.
  destruct ok; cbn [negb].
  - destruct (Init_success _ _ _ _ _ _ HI) as [Hok Hs].
    destruct (Hs eq_refl) as [-> ->]. clear Hs HI.
    destruct (main_loop L THREADS its (set_ObjectCount 3 static_state))
      as [[[st' frames] running]|]; [destruct running|];
      intros H;
      pose proof (f_equal fst H) as Ho; pose proof (f_equal snd H) as Ht;
      cbn [fst snd] in Ho, Ht; clear H; subst outcome trace.
    + split; [split; [discriminate|congruence]|]. split; discriminate.
    + split; [split; [discriminate|congruence]|].
      split; [discriminate|]. intros _. split; [symmetry; exact Hok|].
      rewrite !sdl_calls_app, !sdl_calls_inl, sdl_calls_inr.
      reflexivity.
    + split; [split; [discriminate|congruence]|]. split; discriminate.
  - intros H.
    pose proof (f_equal fst H) as Ho; pose proof (f_equal snd H) as Ht;
      cbn [fst snd] in Ho, Ht; clear H; subst outcome trace.
    destruct (Init_success _ _ _ _ _ _ HI) as [Hok _].
    split; [split; [intros _; symmetry; exact Hok|reflexivity]|].
    split; [|discriminate]. intros _.
    split; [apply frame_calls_inl|]. rewrite sdl_calls_inl.
    exact (Init_failure_no_release _ _ _ _ _ HI).
Qed.

Lemma X18_witness :
  lifetimes_ok
    (sdl_calls
       (snd (main 32 libm_taylor1 16 env_all_ok
               [{| pending := [QuitEvent]; frame := env_ok 960 720 |}])))
    [] = true.
Proof.
  apply (X18_main_exit_code_and_cleanup 32 libm_taylor1 16 env_all_ok
           [{| pending := [QuitEvent]; frame := env_ok 960 720 |}]
           (Exited 0)).
  - reflexivity.
  - reflexivity.
Defined.

(** ** Properties of the uniform block at binary32 *)

(** The distance the program starts with, [1.0e11f], as a real. *)
Lemma initial_distance_real :
  good (distance initial_state) /\
  (1 <= F32.to_R (distance initial_state) <= bpow 100)%R.
Proof.
  replace (distance initial_state) with (S754_finite false 12207031 13)
    by (vm_compute; reflexivity).
  split; [split; reflexivity|].
  rewrite to_R_finite. unfold sgn. rewrite Rmult_1_l.
  rewrite (bpow_IZR 13), <- mult_IZR by lia.
  pose proof (bpow_le 40 100 ltac:(lia)) as H. rewrite (bpow_IZR 40) in H by lia.
  change (12207031 * 2 ^ 13) with 99999997952.
  change (2 ^ 40) with 1099511627776 in H. lra.
Qed.

(** X19: the camera orbits the origin.  For a pitch in the clamp band, a
    libm accurate at the two angles and a finite distance between 1 and
    2^100, the position written to the uniform block is [-forward * distance]
    up to rounding: each component is within 2^-23 of it relative to the
    distance, its squared length is within 2^-17 of the squared distance,
    relative to it, and its dot product with forward is within 2^-17 of
    minus the distance, relative to it.  The camera is on the sphere of
    radius [distance] about the origin and looks at the origin. *)
Theorem X19_camera_orbits_the_origin
    (L : Libm) (pitch yaw distance : f32) (ub : UniformBuffer f32) :
  good pitch -> in_band pitch = true ->
  libm_accurate L pitch -> libm_accurate L yaw ->
  good distance -> (1 <= F32.to_R distance <= bpow 100)%R ->
  let U := UpdateUniforms (H := Scalar_f32 L) pitch yaw distance ub in
  let p := CameraPosition U in
  let f := CameraForward U in
  let d := F32.to_R distance in
  p = vscale (H := Scalar_f32 L) (vneg (H := Scalar_f32 L) f) distance /\
  vec_good p /\
  (Rabs (F32.to_R (vx p) + F32.to_R (vx f) * d) <= 2 * eps32 * d /\
   Rabs (F32.to_R (vy p) + F32.to_R (vy f) * d) <= 2 * eps32 * d /\
   Rabs (F32.to_R (vz p) + F32.to_R (vz f) * d) <= 2 * eps32 * d)%R /\
  (Rabs (rdot p p - d * d) <= basis_tolerance * (d * d))%R /\
  (Rabs (rdot p f + d) <= basis_tolerance * d)%R.
Proof.
  intros Hp Hb HLp HLy Gd Hd U p f d.
  split; [reflexivity|].
  destruct (camera_basis_err L pitch yaw Hp Hb HLp HLy)
    as (Gf & _ & _ & _ & _ & (B1 & B2 & B3) & Nf & _).
  exact (position_err L _ distance Gf Gd B1 B2 B3 Nf Hd).
Qed.

Lemma X19_witness :
  let U := UpdateUniforms (H := Scalar_f32 libm_taylor7)
             (F32.lit 1 2) (F32.lit 1 4)
             (distance initial_state) (uniformBuffer initial_state) in
  let d := F32.to_R (distance initial_state) in
  (Rabs (rdot (CameraPosition U) (CameraPosition U) - d * d)
   <= basis_tolerance * (d * d))%R /\
  (Rabs (rdot (CameraPosition U) (CameraForward U) + d)
   <= basis_tolerance * d)%R.
Proof.
  pose proof (X19_camera_orbits_the_origin libm_taylor7
                (F32.lit 1 2) (F32.lit 1 4)
                (distance initial_state) (uniformBuffer initial_state)
                good_half eq_refl
                taylor7_accurate_half taylor7_accurate_quarter
                (proj1 initial_distance_real) (proj2 initial_distance_real)) as H.
  cbv zeta in H. cbv zeta.
  exact (proj2 (proj2 (proj2 H))).
Defined.

(** X21: the horizon stays level.  For a pitch in the clamp band and a libm
    accurate at the two angles, the right vector of the uniform block has a
    vertical component that is exactly zero, and the up vector has a
    positive one: the picture is never rolled and never upside down. *)
Theorem X21_horizon_stays_level
    (L : Libm) (pitch yaw distance : f32) (ub : UniformBuffer f32) :
  good pitch -> in_band pitch = true ->
  libm_accurate L pitch -> libm_accurate L yaw ->
  let U := UpdateUniforms (H := Scalar_f32 L) pitch yaw distance ub in
  (exists s, vy (CameraRight U) = S754_zero s) /\
  F32.to_R (vy (CameraRight U)) = 0%R /\
  (0 < F32.to_R (vy (CameraUp U)))%R.
Proof.
  intros Hp Hb HLp HLy U.
  destruct (camera_basis_err L pitch yaw Hp Hb HLp HLy)
    as (Gf & Gr & _ & _ & _ & (B1 & B2 & B3) & _ & Xf & Vu).
  destruct (right_is_horizontal L _ Gf B1 B2 B3 Xf Gr) as [s Hs].
  assert (HU : CameraRight U
               = normalize (H := Scalar_f32 L)
                   (cross (H := Scalar_f32 L)
                      (normalize (H := Scalar_f32 L) (forward_raw L pitch yaw))
                      world_up)) by reflexivity.
  split; [exists s; rewrite HU; exact Hs|].
  split; [rewrite HU, Hs; reflexivity|].
  eapply Rlt_le_trans; [|exact Vu]. lra.
Qed.

Lemma X21_witness :
  let U := UpdateUniforms (H := Scalar_f32 libm_taylor7)
             (F32.lit 1 2) (F32.lit 1 4)
             (distance initial_state) (uniformBuffer initial_state) in
  (exists s, vy (CameraRight U) = S754_zero s) /\
  F32.to_R (vy (CameraRight U)) = 0%R /\
  (0 < F32.to_R (vy (CameraUp U)))%R.
Proof.
  exact (X21_horizon_stays_level libm_taylor7 (F32.lit 1 2) (F32.lit 1 4)
           (distance initial_state) (uniformBuffer initial_state)
           good_half eq_refl taylor7_accurate_half taylor7_accurate_quarter).
Defined.
(** ** The camera invariants across the loop *)

Lemma Draw_pushes_update L THREADS env st st' calls ub :
  Draw L THREADS env st = Some (st', calls) ->
  In (PushGPUComputeUniformData ub) calls ->
  ub = UpdateUniforms (H := Scalar_f32 L) (pitch st) (yaw st) (distance st)
                      (uniformBuffer st).
Proof.
  intros HDraw Hin.
  destruct (Draw_outcomes L THREADS env st st' calls HDraw)
    as [(Hc & _ & ->) | [(Ht & _ & ->) | [(Hc & Hs & Hz & _ & ->)
       | [(Hf & _ & ->) | (Hk & Hpass & Hub & rect & _ & ->)]]]];
    cbn [In] in Hin;
    repeat match goal with H : _ \/ _ |- _ => destruct H as [H|H] end;
    try discriminate; try contradiction.
  injection Hin as <-. exact Hub.
Qed.

(** One iteration keeps the camera invariants, and what it pushes was
    computed from a camera that satisfies them. *)
Lemma iteration_camera L THREADS it st st1 calls1 r1 :
  forallb motion_is_number (pending it) = true ->
  in_band (pitch st) = true ->
  F32.leb F32.one (distance st) = true ->
  iteration L THREADS it st = Some (st1, calls1, r1) ->
  in_band (pitch st1) = true /\
  F32.leb F32.one (distance st1) = true /\
  forall ub, In (PushGPUComputeUniformData ub) calls1 ->
    exists p y d ub0,
      in_band p = true /\ F32.leb F32.one d = true /\
      ub = UpdateUniforms (H := Scalar_f32 L) p y d ub0.
Proof.
  intros Hit Hp Hd. revert Hit Hp Hd. unfold iteration.
  destruct (pump (pending it) (st, true)) as [st0 r0] eqn:Hpump.
  destruct (Draw L THREADS (frame it) st0) as [[st2 calls2]|] eqn:HDraw;
    cbn [obind fst snd]; [|discriminate].
  intros Hit Hp Hd Hiter. injection Hiter as <- <- <-.
  pose proof (pump_in_band (pending it) st true Hit Hp) as Hp0.
  pose proof (pump_floor (pending it) st true Hd) as Hd0.
  rewrite Hpump in Hp0, Hd0. cbn [fst] in Hp0, Hd0. clear Hpump.
  destruct (Draw_camera_unchanged _ _ _ _ _ _ HDraw) as (Ep & _ & Ed).
  split; [rewrite Ep; exact Hp0|]. split; [rewrite Ed; exact Hd0|].
  intros ub Hin.
  exists (pitch st0), (yaw st0), (distance st0), (uniformBuffer st0).
  split; [exact Hp0|]. split; [exact Hd0|].
  exact (Draw_pushes_update _ _ _ _ _ _ _ HDraw Hin).
Qed.

(** X22: the kernel only ever sees a clamped camera.  Start the loop with
    the pitch in the clamp band and the distance at least 1, and let no drag
    carry a NaN.  Then after any number of iterations the pitch is still in
    the band and the distance still at least 1, and every block of uniform
    data pushed to the kernel was computed by the uniform block of [Draw]
    from a pitch in the band and a distance of at least 1: drawing never
    feeds back into the camera. *)
Theorem X22_kernel_sees_clamped_camera
    (L : Libm) (THREADS : Z) (its : list Iteration) (st st' : AppState)
    (calls : list GpuCall) (running : bool) :
  Forall (fun it => forallb motion_is_number (pending it) = true) its ->
  in_band (pitch st) = true ->
  F32.leb F32.one (distance st) = true ->
  main_loop L THREADS its st = Some (st', calls, running) ->
  in_band (pitch st') = true /\
  F32.leb F32.one (distance st') = true /\
  forall ub, In (PushGPUComputeUniformData ub) calls ->
    exists p y d ub0,
      in_band p = true /\ F32.leb F32.one d = true /\
      ub = UpdateUniforms (H := Scalar_f32 L) p y d ub0.
Proof.
  intros Hnum. revert st st' calls running.
  induction Hnum as [|it rest Hit Hrest IH]; intros st st' calls running.
  - cbn [main_loop]. intros Hp Hd Hloop. injection Hloop as <- <- <-.
    split; [exact Hp|]. split; [exact Hd|]. intros ub [].
  - cbn [main_loop].
    destruct (iteration L THREADS it st) as [[[st1 calls1] r1]|] eqn:Hiter;
      cbn [obind]; [|discriminate].
    destruct r1.
    + destruct (main_loop L THREADS rest st1) as [[[st3 calls3] r3]|] eqn:Hl;
        cbn [obind]; [|discriminate].
      intros Hp Hd Hloop. injection Hloop as <- <- <-.
      destruct (iteration_camera _ _ _ _ _ _ _ Hit Hp Hd Hiter)
        as (Hp1 & Hd1 & Hpush1).
      destruct (IH _ _ _ _ Hp1 Hd1 Hl) as (Hp3 & Hd3 & Hpush3).
      split; [exact Hp3|]. split; [exact Hd3|].
      intros ub Hin. apply in_app_or in Hin. destruct Hin as [Hin|Hin].
      * exact (Hpush1 ub Hin).
      * exact (Hpush3 ub Hin).
    + intros Hp Hd Hloop. injection Hloop as <- <- <-.
      exact (iteration_camera _ _ _ _ _ _ _ Hit Hp Hd Hiter).
Qed.

Lemma X22_witness :
  exists st' calls running,
    main_loop libm_taylor1 8
      [{| pending := [MouseMotion SDL_BUTTON_LMASK (F32.of_int 100)
                        (F32.of_int 1000);
                      MouseWheel (F32.of_int 10)];
          frame := env_ok 960 720 |};
       {| pending := [QuitEvent]; frame := env_ok 960 720 |}] initial_state
      = Some (st', calls, running) /\
    in_band (pitch st') = true /\
    F32.leb F32.one (distance st') = true.
Proof.
  eexists. eexists. eexists. split; [reflexivity|].
  pose proof (X22_kernel_sees_clamped_camera libm_taylor1 8
            [{| pending := [MouseMotion SDL_BUTTON_LMASK (F32.of_int 100)
                              (F32.of_int 1000);
                            MouseWheel (F32.of_int 10)];
                frame := env_ok 960 720 |};
             {| pending := [QuitEvent]; frame := env_ok 960 720 |}]
            initial_state) as H.
  edestruct H as (Hp & Hd & _).
  - repeat constructor.
  - vm_compute. reflexivity.
  - vm_compute. reflexivity.
  - reflexivity.
  - split; [exact Hp | exact Hd].
Defined.

Lemma frame_calls_app a b :
  frame_calls (a ++ b) = frame_calls a ++ frame_calls b.
Proof.
  induction a as [|[c|c] a IH]; cbn [app frame_calls]; [reflexivity|exact IH|].
  rewrite IH. reflexivity.
Qed.

Lemma frame_calls_inr l : frame_calls (map inr l) = l.
Proof.
  induction l as [|c l IH]; cbn [map frame_calls]; [reflexivity|].
  rewrite IH. reflexivity.
Qed.

(** X23: the kernel is told of exactly the bodies that were uploaded.  In
    every run of [main], each block of uniform data pushed to the kernel
    carries an [ObjectCount] of 3, which is the number of objects [Init]
    stored in the transfer buffer, and the disk radii the program started
    with: neither the events nor the frames touch them. *)
Theorem X23_kernel_is_told_of_the_uploaded_bodies
    (sizeof_Object : Z) (L : Libm) (THREADS : Z) (env : Sdl.env)
    (its : list Iteration) (outcome : Outcome)
    (trace : list (Sdl.call + GpuCall)) (ub : UniformBuffer f32) :
  main sizeof_Object L THREADS env its = (outcome, trace) ->
  In (PushGPUComputeUniformData ub) (frame_calls trace) ->
  ObjectCount ub = 3 /\
  count is_store (sdl_calls trace) = 3%nat /\
  DiskR1 ub = DiskR1 (uniformBuffer static_state) /\
  DiskR2 ub = DiskR2 (uniformBuffer static_state).
Proof.
  unfold main.
  destruct (Init sizeof_Object env static_state) as [[ok st] calls] eqn:HI.
  destruct ok; cbn [negb].
  2:{ intros H Hin. apply (f_equal snd) in H. cbn [snd] in H. subst trace.
      rewrite frame_calls_inl in Hin. destruct Hin. }
  destruct (Init_success _ _ _ _ _ _ HI) as [_ Hs].
  destruct (Hs eq_refl) as [-> ->]. clear Hs HI.
  destruct (main_loop L THREADS its (set_ObjectCount 3 static_state))
    as [[[st' frames] running]|] eqn:Hloop.
  2:{ intros H Hin. apply (f_equal snd) in H. cbn [snd] in H. subst trace.
      rewrite frame_calls_inl in Hin. destruct Hin. }
  destruct (main_loop_scene_fields _ _ _ _ _ _ _ Hloop) as [_ Hpush].
  destruct running; intros H Hin; apply (f_equal snd) in H; cbn [snd] in H;
    subst trace;
    rewrite ?frame_calls_app, ?frame_calls_inl, ?frame_calls_inr,
      ?app_nil_l, ?app_nil_r in Hin;
    destruct (Hpush ub Hin) as (H1 & H2 & H3);
    rewrite ?sdl_calls_app, ?sdl_calls_inl, ?sdl_calls_inr, ?app_nil_r;
    (split; [exact H1|]); (split; [reflexivity|]); split; assumption.
Qed.

Lemma X23_witness :
  exists ub,
    pushed_uniforms
      (frame_calls
         (snd (main 32 libm_taylor1 16 env_all_ok
                 [{| pending := [QuitEvent]; frame := env_ok 960 720 |}])))
      = Some ub /\
    ObjectCount ub = 3.
Proof.
  eexists. split; [vm_compute; reflexivity|].
  eapply (X23_kernel_is_told_of_the_uploaded_bodies 32 libm_taylor1 16
            env_all_ok
            [{| pending := [QuitEvent]; frame := env_ok 960 720 |}]).
  - reflexivity.
  - vm_compute. do 4 right. left. reflexivity.
Defined.

